(* ===== verification/_CoqProject ===== *)
-Q . S2P
Prelude.v
Decimal.v
Amount.v
Quantity.v
Ledger.v
Pricing.v
Bytes.v
Record.v
LogSpec.v
FileSys.v
Index.v
Segment.v
Recovery.v
GroupCommit.v
BrokerLog.v
Frame.v
LogRecovery.v
PowerLoss.v
Unicode.v
Json.v
GoTime.v
TimeText.v
Sha256.v
Event.v
EventJson.v
Validate.v
Instances.v
Handler.v
DB.v
Consumer.v
Store.v
Invoicing.v
System.v
Process.v
Chaos.v
Books.v
Runs.v
Usage.v
Revenue.v
CloseLive.v
Beside.v
ChaosProof.v
ChaosChecks.v
TestDB.v
