(* ===== verification/Prelude.v ===== *)
(** * LedgerLine: usage-based billing on a broker log

    A verification development of LedgerLine, the Go program under [src/]: usage
    events arrive over HTTP, are appended to a segmented log on disk, are drained
    from it into PostgreSQL, and are priced, invoiced and posted to a double-entry
    ledger when a billing period is closed.

    ** The program and the files that model it

    The code's packages form a chain, and so do the files. A definition has the
    name of the function it translates; the method [M] of a type [T] is [T_M]
    where [M] alone would be ambiguous; a piece of a longer function has a name of
    its own and says in its comment which piece it is.

    - Foundations. [Prelude.v]: results, methods that mutate their receiver,
      machine integers, instants, sums, tactics. [Decimal.v]: what the code uses of
      [strings], [fmt] and [strconv], and the digit loop two packages share.
      [Bytes.v]: big-endian encoding and CRC-32C. [Unicode.v]: UTF-8, UTF-16
      surrogates and base64. [Json.v]: what the code uses of [encoding/json], to
      the byte: the scanner, the decoder into a struct and the encoder. [GoTime.v]:
      the calendar and RFC 3339. [TimeText.v]: instants as JSON text. [Sha256.v]:
      SHA-256.
    - [broker/log], the log. [Record.v] ([record.go]): framing. [FileSys.v]: files
      and directories, what of them has been flushed to the medium, and a schedule of
      I/O faults. [Index.v] ([index.go]): the
      sparse index. [Segment.v] ([segment.go]): creation, append, read, recovery.
      [Recovery.v]: what opening a segment finds after a crash or a power loss.
      [GroupCommit.v] ([sync.go] and the part of [log.go] that uses it): the
      coordinator of [SyncGroup] under every interleaving of goroutines.
      [BrokerLog.v] ([log.go]): the log over its segments. [Frame.v]: what every
      system call respects, every operation of the log respects. [LogRecovery.v]:
      opening a whole directory again. [PowerLoss.v]: what of the log is on the
      medium, and what is found of it after a power loss. [LogSpec.v]: the class [LogStore], what a log
      promises to its clients; [BrokerLog.v] has its instance.
    - [billing/ledger]. [Amount.v] ([amount.go]), [Ledger.v] ([ledger.go]) and
      [Store.v] ([store.go]).
    - [billing/pricing]. [Quantity.v] ([quantity.go]) and [Pricing.v]
      ([pricing.go]).
    - [billing/event], [billing/ingest]. [Event.v] and [EventJson.v] ([event.go]:
      the event and its fingerprint; [Encode] and [Decode]), [Validate.v]
      ([validate.go]) and [Handler.v] ([handler.go]).
    - The database. [DB.v]: the tables of [migrations/], transactions at READ
      COMMITTED, and a schedule that says, statement by statement, what the other
      sessions commit first and whether the server runs the statement, fails it, or
      runs it and loses the answer. The SQL of a package is translated in the file
      of the package that sends it.
    - [billing/consumer]: [Consumer.v]. [billing/invoicing]: [Invoicing.v].
    - [cmd/ingest]: [System.v], the configuration, the consumer loop, and the
      endpoint and the loop as one state machine over any log; [Process.v], the same
      process over the log on disk, with crashes, power losses, shutdowns and
      restarts.
    - The service with its billing: [Books.v], what the operations on the tables
      keep together, and [Runs.v], all of them as one state machine, with billing
      runs that overlap; [Usage.v], that usage is conserved from the log to the
      invoices; [Revenue.v], that the ledger has every invoice; [CloseLive.v], when
      [Close] goes through; [Beside.v], that a run and what the consumer stores while
      it runs come one after the other.
    - [chaos/]: [Chaos.v] ([harness.go], [invariants.go]), the harness and its
      checks; [ChaosProof.v], the invariant of its runs; [ChaosChecks.v], what the
      checks find.
    - [internal/testdb]: [TestDB.v].
    - [Instances.v]: a list as a log, on which theorems proved against the
      interface are run.

    ** How Go is represented

    A Go string is a [string] of bytes and a [[]byte] a [list byte]; an [int64] or
    [uint64] is a [Z] with its wrap-around written where it can happen ([wrap64],
    [uint64], [uint32]); an instant is a number of nanoseconds since year 1. A
    function that can fail returns [res E A], with [E] the errors of its package; a
    method that mutates a receiver of type [S] is an [ST S E A], and what it mutated
    before an error stays mutated. Failures of the outside are data: files and the
    server follow a schedule the theorems quantify over.

    ** What the theorems show

    - The log. [Append] and [Read] refine appending to and reading from a list of
      records under any faults ([Append_correct], [Read_correct]), and so do the
      operations of a segment. A crash at any point of an append, followed by
      [Open], gives the old records or those and the new one
      ([Append_crash_recovers]); when power is lost, with whatever was not flushed
      partly or wholly gone, it opens with a prefix of the records that has every
      acknowledged one ([Append_survives_power_loss]); a directory that is closed and
      opened again reads back every record ([log_roundtrip]). A record is accepted only as it was encoded, and one
      corrupted byte is detected.
    - Group commit. With any number of goroutines, any schedule, rolls and failed
      flushes, an append that returned without error is on disk, and every append
      returns.
    - Money. Amounts and quantities are parsed exactly or refused; rating is
      independent of order and charges each meter's exact total once, each tier its
      own units; every transaction that is built balances.
    - Ingest. Validation accepts exactly the documented requests; a 202 is sent
      only when the event is in the log at the offset named, and a body that spells
      out a valid request is always taken; [Decode] inverts [Encode]; a fingerprint
      is taken over exactly the billable content.
    - The database side. [Drain] is exactly-once whatever the server does and
      catches up when it works; nothing consumed is lost or stored twice; [Post] is
      all or nothing and posts once per key; [Close] bills a period once, as a
      whole, with exact sums. Over all operations in any order, the books always
      reconcile ([books_reconcile]), history is not rewritten ([history_is_kept]) and
      a period has one invoice however many runs bill it, one after the other
      ([one_invoice_per_period]) or at once ([waiting_run_comes_last]). What the
      consumed part of the log holds of a meter's usage is what the invoices have and
      what is still due ([usage_is_conserved]). Unless keys collide, the ledger has an
      entry for each invoice, to the line ([invoices_are_in_the_ledger]). [Close]
      issues an invoice exactly when the period can be billed ([Close_issues]), and
      with events of other tenants or later times stored meanwhile it is as if they
      had been stored before ([Close_beside_ingest]).
    - The service. In every reachable state each acknowledged event is in the log,
      and once the consumer has passed it, in the events table exactly once or in
      the dead-letter table ([acknowledged_is_never_lost]); and over the log on disk
      this survives the process and the machine: whenever it is killed or power is
      lost and it is started again, it finds every acknowledged event and its first
      undisturbed drain settles them ([acknowledged_survives_restarts]).
    - The chaos suite. In every run of the harness the four invariants of
      [CheckAll] hold together ([CheckAll_passes]), issued invoices never change,
      draining outlasts its faults, and the invoice comes to the figure the suite
      computes on its own.
    - The test database. The name put into SQL is an identifier, migrations run in
      the order of their numbers, a rebuild restores the schema from any version,
      and with [LEDGERLINE_REQUIRE_DB] no test is skipped.
    - Where the code does not do what it says, a theorem or an example shows it:
      a segment header torn by a crash, the bytes of a failed append that come back,
      the sticky flush error, events that are accepted and cannot be stored or
      priced, a time that is decoded and cannot be encoded, an event marked as billed
      without being charged, usage charged by two billing runs at once, two billing
      runs that share a ledger key, a consumer that reads what the log can still lose
      and then skips an acknowledged event ([consumer_overtakes_flush]), a lost answer
      that the chaos suite takes for double billing, and a rebuild of the test schema
      that is not retried.

    ** Bounds and fuel

    Loops that are not structural take fuel and are shown to need no more than what
    their callers give: the scan of a segment, the walk to a record and the binary
    search take the length of their input; [Drain] takes one turn per record and one
    more, which [Drain_exactly_once] shows to be enough; the JSON scanner takes the
    length of the text, of which each value consumes at least a byte; printing takes
    twenty digits, enough for any [uint64]. The sixty attempts of the harness are the
    code's own bound. [GroupCommit] has no fuel: its step relation decreases a
    measure. Offsets stay below [2^63], the range of the column that stores them, and
    a record at most [MaxRecordSize].

    ** What is assumed, and what is not modelled

    The server is the class [Postgres]: it keeps plain decimals exactly and prints
    them back, holds printable ASCII and no zero byte in a text and does not reorder
    instants; [DB.v] has a small one on which the theorems are run.
    The consumer sees its codec through the class [EventCodec], which [EventJson.v]
    implements. The wording of library errors is a parameter. The theorems about
    [Post] and [Close] let other sessions draw identities but not change rows while
    the operation runs, once it has its row lock; [Close_beside_ingest] lets the
    consumer store what the run does not look at, and [event_marked_but_not_charged]
    and [concurrent_runs_charge_twice] show what happens with what it does. The endpoint is
    served one request at a time against the log, whose own concurrency is the
    subject of [GroupCommit.v]. A crash keeps what was
    written. A power loss ([power_lost] in [PowerLoss.v]) keeps of each file at least
    what was flushed and at most what was written, a prefix of it; the entry of a file
    is kept with its contents, a segment before its index, and the header of a segment
    whole, since [torn_header_is_permanent] shows what happens otherwise; the process
    steps of [Process.v] leave out a power loss that the consumer has overtaken. A
    process that starts meets a disk that works. Signals, timeouts, routing, logging, the HTTP
    transport and the lock of the harness are not modelled; the SQL of [migrations/]
    is seen in [DB.v] as its tables and constraints and in [TestDB.v] as the objects
    it creates and drops. *)

From stdpp Require Export base list list_numbers strings gmap sets relations.
From Stdlib Require Export Ascii ZArith Lia.

#[global] Open Scope Z_scope.

(** ** Results

    Go functions return a value and an error; every model returns [res E A],
    where [E] enumerates the sentinel errors of the package. *)
Inductive res (E A : Type) : Type :=
| Ok (a : A)
| Err (e : E).
Arguments Ok {E A} a.
Arguments Err {E A} e.

#[global] Instance res_ret {E} : MRet (res E) := fun A => Ok.

#[global] Instance res_bind {E} : MBind (res E) := fun A B f m =>
  match m with
  | Ok a => f a
  | Err e => Err e
  end.

#[global] Instance res_eq_dec {E A} `{EqDecision E, EqDecision A} : EqDecision (res E A).
Proof. solve_decision. Defined.

#[global] Instance Ok_inj {E A} : Inj (=) (=) (@Ok E A).
Proof. by intros a b [= ->]. Qed.

Definition is_ok {E A} (r : res E A) : bool :=
  match r with Ok _ => true | Err _ => false end.

(** The result, or [d] where there is none. *)
Definition from_ok {E A} (d : A) (r : res E A) : A := match r with Ok a => a | Err _ => d end.

Lemma is_ok_Ok {E A} (r : res E A) (d : A) : is_ok r = true -> r = Ok (from_ok d r).
Proof. by destruct r. Qed.

Lemma res_bind_ok {E A B} (m : res E A) (f : A -> res E B) b :
  m ≫= f = Ok b -> exists a, m = Ok a /\ f a = Ok b.
Proof. destruct m; simpl; [eauto | discriminate]. Qed.

(** ** Methods that mutate their receiver

    [ST S E A] is a computation on a state [S] that ends with a value or an
    error. As in Go, what was mutated before an error stays mutated. *)
Definition ST (S E A : Type) : Type := S -> res E A * S.

#[global] Instance ST_ret {S E} : MRet (ST S E) := fun A a s => (Ok a, s).

#[global] Instance ST_bind {S E} : MBind (ST S E) := fun A B f m s =>
  match m s with
  | (Ok a, s') => f a s'
  | (Err e, s') => (Err e, s')
  end.

Definition st_get {S E} : ST S E S := fun s => (Ok s, s).

Definition st_put {S E} (s' : S) : ST S E unit := fun _ => (Ok tt, s').

Definition st_fail {S E A} (e : E) : ST S E A := fun s => (Err e, s).

Definition st_lift {S E A} (r : res E A) : ST S E A := fun s => (r, s).

Lemma st_bind_ok {S E A B} (m : ST S E A) (f : A -> ST S E B) s b s' :
  (m ≫= f) s = (Ok b, s') -> exists a s1, m s = (Ok a, s1) /\ f a s1 = (Ok b, s').
Proof. unfold mbind, ST_bind. destruct (m s) as [[a|e] s1]; [eauto|discriminate]. Qed.

Lemma st_lift_ok {S E A} (r : res E A) (s : S) a s' : st_lift r s = (Ok a, s') -> r = Ok a /\ s' = s.
Proof. unfold st_lift. by intros [= -> ->]. Qed.

(** ** Machine integers

    A Go [int64] is a [Z] in [[-2^63, 2^63)]; arithmetic that may leave the
    range is followed by the wrap-around the language specifies. *)
Definition min_int64 : Z := -9223372036854775808.

Definition max_int64 : Z := 9223372036854775807.

Definition in_int64 (z : Z) : Prop := min_int64 <= z <= max_int64.

#[global] Instance in_int64_dec z : Decision (in_int64 z).
Proof. unfold in_int64. apply _. Defined.

Definition in_int64b (z : Z) : bool := (min_int64 <=? z) && (z <=? max_int64).

Definition wrap64 (z : Z) : Z :=
  (z + 9223372036854775808) mod 18446744073709551616 - 9223372036854775808.

Definition uint32 (z : Z) : Z := z mod 4294967296.

Definition uint64 (z : Z) : Z := z mod 18446744073709551616.

(** ** Time

    A [time.Time] is used only as an instant: nanoseconds since the zero value,
    January 1 of year 1 UTC. *)
Abbreviation Time := Z (only parsing).

Definition IsZero (t : Time) : bool := t =? 0.

Definition Before (t u : Time) : bool := t <? u.

Definition After (t u : Time) : bool := u <? t.

(** Division facts are made available to [lia] throughout. *)
Ltac Zify.zify_post_hook ::= Z.to_euclidean_division_equations.

(** [int_lia] opens the width definitions and calls [lia]. *)
Ltac int_unfold :=
  unfold in_int64, in_int64b, wrap64, uint32, uint64, min_int64, max_int64 in *.

Ltac int_lia := int_unfold; lia.

Lemma in_int64b_spec z : in_int64b z = true <-> in_int64 z.
Proof. int_lia. Qed.

Lemma wrap64_id z : in_int64 z -> wrap64 z = z.
Proof. int_lia. Qed.

Lemma wrap64_range z : in_int64 (wrap64 z).
Proof. int_lia. Qed.

Lemma uint32_id z : 0 <= z < 4294967296 -> uint32 z = z.
Proof. int_lia. Qed.

Lemma uint64_id z : 0 <= z < 18446744073709551616 -> uint64 z = z.
Proof. int_lia. Qed.

(** A mixed-radix number is below [b] units when its unit digit is. *)
Lemma radix_lt a b f u : 0 <= f < u -> a * u + f < b * u <-> a < b.
Proof. nia. Qed.

(** [len_simpl] rewrites lengths of the encoders' outputs. *)
Create Rewrite HintDb lens.

Ltac len_simpl := autorewrite with lens in *.

(** ** Sums *)

Definition sumZ (l : list Z) : Z := foldr Z.add 0 l.

Lemma sumZ_cons x l : sumZ (x :: l) = x + sumZ l.
Proof. done. Qed.

Lemma sumZ_app l k : sumZ (l ++ k) = sumZ l + sumZ k.
Proof. unfold sumZ. induction l as [|x l IH]; simpl; lia. Qed.

#[global] Instance sumZ_perm : Proper ((≡ₚ) ==> (=)) sumZ.
Proof. intros l k H. unfold sumZ. induction H; simpl; lia. Qed.

Lemma sumZ_nonneg l : Forall (fun x => 0 <= x) l -> 0 <= sumZ l.
Proof. unfold sumZ. induction 1; simpl; lia. Qed.

(** Of rows with distinct keys, the key tells which. *)
Lemma NoDup_map_inj {A B} (f : A -> B) (l : list A) : NoDup (map f l) -> forall x y, x ∈ l -> y ∈ l -> f x = f y -> x = y.
Proof.
  induction l as [|a l IH]; intros Nd x y Hx Hy Hf; [by apply elem_of_nil in Hx|]. cbn [map] in Nd. apply NoDup_cons in Nd as [Hn Nd].
  apply elem_of_cons in Hx as [->|Hx], Hy as [->|Hy]; [done| | |by apply IH].
  - destruct Hn. rewrite Hf. by apply list_elem_of_fmap_2.
  - destruct Hn. rewrite <- Hf. by apply list_elem_of_fmap_2.
Qed.

(** ** Tactics *)

(** [cases_if] splits on every boolean test in the goal or a hypothesis and
    turns the outcome into an arithmetic fact. *)
Ltac cases_if :=
  repeat match goal with
  | |- context [if ?b then _ else _] => let E := fresh "E" in destruct b eqn:E
  | H : context [if ?b then _ else _] |- _ => let E := fresh "E" in destruct b eqn:E
  end.

(** [monad_inv H] breaks a successful monadic computation into its steps. *)
Ltac monad_inv H :=
  repeat match type of H with
  | mbind _ _ = Ok _ =>
      let a := fresh "v" in let H1 := fresh "Hv" in
      apply res_bind_ok in H; destruct H as (a & H1 & H)
  end.

(** [st_inv H] does the same for a method. *)
Ltac st_inv H :=
  match type of H with
  | mbind _ _ _ = (Ok _, _) =>
      let a := fresh "v" in let s := fresh "tx" in let H1 := fresh "Hv" in
      apply st_bind_ok in H; destruct H as (a & s & H1 & H)
  end.

(** [decide_now] evaluates a closed decidable proposition. *)
Ltac decide_now := apply (bool_decide_unpack _); vm_compute; exact I.
