(* ===== verification/Decimal.v ===== *)
(** * Decimal text

    The parts of Go's [strings], [fmt] and [strconv] that the decimal readers
    and printers of [billing/ledger/amount.go], [billing/pricing/quantity.go],
    [billing/event/event.go] and [billing/ingest/validate.go] use, and the
    unchecked accumulation loop both [parseDigits] and [parseQuantityDigits]
    run. A Go string is a byte sequence, which is what [string] is; a non-ASCII
    byte is part of a rune above ['9'], so the loops that range over runes
    reject it exactly where a loop over bytes does. *)

From S2P Require Import Prelude.

(** ** strings and fmt *)

Definition zero_char : ascii := "0"%char.

Definition digit_val (c : ascii) : Z := Z.of_nat (nat_of_ascii c) - 48.

Definition is_digit (c : ascii) : bool := (0 <=? digit_val c) && (digit_val c <=? 9).

Definition digit_char (d : Z) : ascii := ascii_of_nat (Z.to_nat (d + 48)).

(** [strings.Cut s sep] for a one-byte separator. *)
Fixpoint Cut (sep : ascii) (s : string) : string * string * bool :=
  match s with
  | EmptyString => (""%string, ""%string, false)
  | String c r =>
      if decide (c = sep) then (""%string, r, true)
      else let '(a, b, found) := Cut sep r in (String c a, b, found)
  end.

(** [strings.HasPrefix] for a one-byte prefix. *)
Definition has_prefix_char (c : ascii) (s : string) : bool :=
  match s with
  | String d _ => bool_decide (d = c)
  | EmptyString => false
  end.

(** [strings.ContainsAny s chars]. *)
Fixpoint ContainsAny (s : string) (chars : list ascii) : bool :=
  match s with
  | EmptyString => false
  | String c r => bool_decide (c ∈ chars) || ContainsAny r chars
  end.

(** [strings.Repeat "0" n]. *)
Fixpoint zeros (n : nat) : string :=
  match n with
  | O => ""%string
  | S m => String zero_char (zeros m)
  end.

(** [strings.TrimLeft s "0"]. *)
Fixpoint trim_left0 (s : string) : string :=
  match s with
  | String c r => if decide (c = zero_char) then trim_left0 r else s
  | EmptyString => ""%string
  end.

(** [strings.TrimRight s "0"]: the suffix is dropped when only zeros remain. *)
Fixpoint trim_right0 (s : string) : string :=
  match s with
  | String c r =>
      match trim_right0 r with
      | EmptyString => if decide (c = zero_char) then ""%string else String c ""%string
      | t => String c t
      end
  | EmptyString => ""%string
  end.

Fixpoint str_all (p : ascii -> bool) (s : string) : bool :=
  match s with
  | EmptyString => true
  | String c r => p c && str_all p r
  end.

(** The number a run of digits denotes, with no bound. *)
Fixpoint dec_acc (acc : Z) (s : string) : Z :=
  match s with
  | EmptyString => acc
  | String c r => dec_acc (acc * 10 + digit_val c) r
  end.

Definition dec_value (s : string) : Z := dec_acc 0 s.

(** [%d] of a non-negative integer; [fuel] bounds the number of digits. *)
Fixpoint fmt_digits (fuel : nat) (n : Z) (acc : string) : string :=
  match fuel with
  | O => acc
  | S f =>
      let acc' := String (digit_char (n mod 10)) acc in
      if n <? 10 then acc' else fmt_digits f (n / 10) acc'
  end.

(** Twenty digits print any [uint64]. *)
Definition fmt_d (n : Z) : string := fmt_digits 20 n "".

(** [%0*d] of a non-negative integer. *)
Definition fmt_pad (width : nat) (n : Z) : string :=
  zeros (width - String.length (fmt_d n)) +:+ fmt_d n.

(** [%d] and [%0*d] of any [int64]: the sign comes first and counts towards the
    width. *)
Definition fmt_int (z : Z) : string :=
  if z <? 0 then String "-" (fmt_d (- z)) else fmt_d z.

Definition fmt_int_pad (width : nat) (z : Z) : string :=
  if z <? 0 then String "-" (fmt_pad (width - 1) (- z)) else fmt_pad width z.

(** ** The accumulation loop

    [for _, r := range s]: reject a non-digit, compute [n*10 + d] in [int64],
    and stop if the result went down. [malformed] and [overflow] are the
    sentinels of the calling package. *)
Fixpoint digit_loop {E} (malformed overflow : E) (n : Z) (s : string) : res E Z :=
  match s with
  | EmptyString => Ok n
  | String c r =>
      if is_digit c then
        let next := wrap64 (wrap64 (n * 10) + digit_val c) in
        if next <? n then Err overflow else digit_loop malformed overflow next r
      else Err malformed
  end.

Definition parse_run {E} (malformed overflow : E) (s : string) : res E Z :=
  match s with
  | EmptyString => Err malformed
  | _ => digit_loop malformed overflow 0 s
  end.

(** The part [ParseAmount] and [ParseQuantity] share, from the cut at the
    decimal point to the overflow checks: [scale] places, [factor = 10^scale],
    both parts read by the loop above, the fraction padded to [scale] digits. *)
Definition parse_fixed {E} (malformed overflow : E) (scale : nat) (factor : Z) (body : string) : res E Z :=
  let '(integer, fraction, hasPoint) := Cut "." body in
  if decide (integer = ""%string) then Err malformed
  else if hasPoint && bool_decide (fraction = ""%string) then Err malformed
  else if decide (scale < String.length fraction)%nat then Err malformed
  else
    whole ← parse_run malformed overflow integer;
    part ← parse_run malformed overflow (fraction +:+ zeros (scale - String.length fraction));
    let scaled := wrap64 (whole * factor) in
    if negb (whole =? 0) && negb (Z.quot scaled factor =? whole) then Err overflow
    else
      let total := wrap64 (scaled + part) in
      if total <? scaled then Err overflow else Ok total.

(** What such a text denotes, with no bound on the value: [None] when it is not
    a plain decimal with at most [scale] places. *)
Definition decimal_spec (scale : nat) (body : string) : option Z :=
  let '(integer, fraction, hasPoint) := Cut "." body in
  if bool_decide (integer <> ""%string) && str_all is_digit integer && str_all is_digit fraction
     && (negb hasPoint || bool_decide (fraction <> ""%string))
     && (String.length fraction <=? scale)%nat
  then Some (dec_value integer * 10 ^ Z.of_nat scale
             + dec_value fraction * 10 ^ Z.of_nat (scale - String.length fraction))
  else None.

(** ** Lemmas on digits and digit strings *)

Lemma is_digit_range c : is_digit c = true -> 0 <= digit_val c <= 9.
Proof. unfold is_digit. lia. Qed.

Lemma digit_char_val d : 0 <= d <= 9 -> digit_val (digit_char d) = d.
Proof.
  intros H. unfold digit_val, digit_char.
  rewrite nat_ascii_embedding by lia. lia.
Qed.

Lemma digit_char_is_digit d : 0 <= d <= 9 -> is_digit (digit_char d) = true.
Proof. intros H. unfold is_digit. rewrite digit_char_val by done. lia. Qed.

Lemma str_all_app p a b : str_all p (a +:+ b) = str_all p a && str_all p b.
Proof.
  induction a as [|c a IH]; [done|].
  change (String c a +:+ b) with (String c (a +:+ b)). simpl. rewrite IH. by destruct (p c).
Qed.

Lemma str_all_impl (p q : ascii -> bool) s : (forall c, p c = true -> q c = true) -> str_all p s = true -> str_all q s = true.
Proof. intros H. induction s as [|c s IH]; [done|]. cbn. intros [Hc Hs]%andb_true_iff. by rewrite (H c Hc), (IH Hs). Qed.

Lemma str_length_app a b : String.length (a +:+ b) = (String.length a + String.length b)%nat.
Proof. induction a as [|c a IH]; [done|]. change (String c a +:+ b) with (String c (a +:+ b)). simpl. lia. Qed.

Lemma str_app_nil_r a : a +:+ "" = a.
Proof. induction a as [|c a IH]; [done|]. change (String c a +:+ "") with (String c (a +:+ "")). by rewrite IH. Qed.

Lemma str_app_inj_r a b s : a +:+ s = b +:+ s -> a = b.
Proof.
  revert b. induction a as [|c a IH]; intros [|d b] H; try done.
  - apply (f_equal String.length) in H. change ("" +:+ s) with s in H. rewrite str_length_app in H. simpl in H. lia.
  - apply (f_equal String.length) in H. change ("" +:+ s) with s in H. rewrite str_length_app in H. simpl in H. lia.
  - change (String c (a +:+ s) = String d (b +:+ s)) in H. injection H as -> H. f_equal. by apply IH.
Qed.

Lemma str_app_assoc (a b c : string) : a +:+ (b +:+ c) = (a +:+ b) +:+ c.
Proof. induction a as [|x a IH]; [done|]. change (String x (a +:+ (b +:+ c)) = String x ((a +:+ b) +:+ c)). by rewrite IH. Qed.

Lemma str_app_inj_len (a b x y : string) :
  String.length a = String.length b -> a +:+ x = b +:+ y -> a = b /\ x = y.
Proof.
  revert b. induction a as [|c a IH]; intros [|d b] Hl H; try done.
  change (String c (a +:+ x) = String d (b +:+ y)) in H. injection H as -> H. simpl in Hl.
  destruct (IH b ltac:(lia) H) as [-> ->]. done.
Qed.

Lemma dec_acc_app acc a b : dec_acc acc (a +:+ b) = dec_acc (dec_acc acc a) b.
Proof. revert acc. induction a as [|c a IH]; [done|]. intros acc. apply IH. Qed.

Lemma dec_acc_shift acc s : dec_acc acc s = acc * 10 ^ Z.of_nat (String.length s) + dec_value s.
Proof.
  unfold dec_value. revert acc. induction s as [|c s IH]; intros acc; cbn [dec_acc String.length]; [simpl; lia|].
  rewrite IH, (IH (0 * 10 + digit_val c)).
  replace (Z.of_nat (S (String.length s))) with (Z.succ (Z.of_nat (String.length s))) by lia.
  rewrite Z.pow_succ_r by lia. ring.
Qed.

Lemma zeros_length n : String.length (zeros n) = n.
Proof. induction n; simpl; congruence. Qed.

Lemma zeros_digits n : str_all is_digit (zeros n) = true.
Proof. by induction n. Qed.

Lemma dec_acc_zeros n acc : dec_acc acc (zeros n) = acc * 10 ^ Z.of_nat n.
Proof.
  revert acc. induction n as [|n IH]; intros acc; simpl zeros; cbn [dec_acc]; [simpl; lia|].
  rewrite IH. change (digit_val zero_char) with 0.
  replace (Z.of_nat (S n)) with (Z.succ (Z.of_nat n)) by lia. rewrite Z.pow_succ_r by lia. ring.
Qed.

Lemma dec_acc_nonneg acc s : str_all is_digit s = true -> 0 <= acc -> acc <= dec_acc acc s.
Proof.
  revert acc. induction s as [|c s IH]; intros acc Hs Ha; simpl in *; [lia|].
  apply andb_true_iff in Hs as [Hc Hs]. apply is_digit_range in Hc.
  specialize (IH (acc * 10 + digit_val c) Hs). lia.
Qed.

Lemma dec_value_bound s :
  str_all is_digit s = true -> 0 <= dec_value s < 10 ^ Z.of_nat (String.length s).
Proof.
  induction s as [|c s IH]; intros Hs; [done|].
  simpl in Hs. apply andb_true_iff in Hs as [Hc Hs]. specialize (IH Hs). apply is_digit_range in Hc.
  unfold dec_value. cbn [dec_acc]. rewrite dec_acc_shift. cbn [String.length].
  replace (Z.of_nat (S (String.length s))) with (Z.succ (Z.of_nat (String.length s))) by lia.
  rewrite Z.pow_succ_r by lia. nia.
Qed.

Lemma fmt_digits_spec fuel n acc :
  0 <= n < 10 ^ Z.of_nat fuel -> (0 < fuel)%nat ->
  exists d, fmt_digits fuel n acc = d +:+ acc /\ str_all is_digit d = true /\ dec_value d = n /\
    (1 <= String.length d <= fuel)%nat /\
    (forall k, (0 < k)%nat -> n < 10 ^ Z.of_nat k -> (String.length d <= k)%nat).
Proof.
  revert n acc. induction fuel as [|fuel IH]; intros n acc Hn Hf; [lia|].
  cbn [fmt_digits]. assert (Hd : 0 <= n mod 10 <= 9) by lia.
  destruct (n <? 10) eqn:E.
  - exists (String (digit_char (n mod 10)) ""). split_and!; try done; try (simpl; lia).
    + simpl. by rewrite digit_char_is_digit.
    + unfold dec_value; cbn [dec_acc]. rewrite digit_char_val by done. lia.
  - destruct fuel as [|fuel]; [simpl in Hn; lia|].
    replace (Z.of_nat (S (S fuel))) with (Z.succ (Z.of_nat (S fuel))) in Hn by lia.
    rewrite Z.pow_succ_r in Hn by lia.
    destruct (IH (n / 10) (String (digit_char (n mod 10)) acc)) as (d & -> & Hdig & Hv & Hl & Hk); [lia..|].
    exists (d +:+ String (digit_char (n mod 10)) ""). split_and!.
    + clear. induction d as [|c d IHd]; [done|].
      change (String c (d +:+ String (digit_char (n mod 10)) acc)
        = String c ((d +:+ String (digit_char (n mod 10)) "") +:+ acc)). by rewrite IHd.
    + rewrite str_all_app, Hdig. simpl. by rewrite digit_char_is_digit.
    + unfold dec_value. rewrite dec_acc_app. fold (dec_value d). rewrite Hv. cbn [dec_acc].
      rewrite digit_char_val by done. lia.
    + rewrite str_length_app. simpl. lia.
    + rewrite str_length_app. simpl. lia.
    + intros k Hk0 Hnk. rewrite str_length_app. simpl.
      destruct k as [|[|k]]; [lia|simpl in Hnk; lia|].
      replace (Z.of_nat (S (S k))) with (Z.succ (Z.of_nat (S k))) in Hnk by lia.
      rewrite Z.pow_succ_r in Hnk by lia. specialize (Hk (S k)). lia.
Qed.

Lemma fmt_d_spec n :
  0 <= n < 100000000000000000000 ->
  str_all is_digit (fmt_d n) = true /\ dec_value (fmt_d n) = n /\
  (1 <= String.length (fmt_d n) <= 20)%nat /\
  (forall k, (0 < k)%nat -> n < 10 ^ Z.of_nat k -> (String.length (fmt_d n) <= k)%nat).
Proof.
  intros H. destruct (fmt_digits_spec 20 n "") as (d & Hd & ? & ? & ? & ?); [done|lia|].
  unfold fmt_d. rewrite Hd, str_app_nil_r. done.
Qed.

Lemma fmt_pad_spec w n :
  0 <= n < 100000000000000000000 -> (0 < w)%nat -> n < 10 ^ Z.of_nat w ->
  str_all is_digit (fmt_pad w n) = true /\ dec_value (fmt_pad w n) = n /\
  String.length (fmt_pad w n) = w.
Proof.
  intros Hn Hw Hk. destruct (fmt_d_spec n Hn) as (Hd & Hv & Hl & Hlk). specialize (Hlk w Hw Hk).
  unfold fmt_pad. split_and!.
  - by rewrite str_all_app, zeros_digits, Hd.
  - unfold dec_value. rewrite dec_acc_app, dec_acc_zeros, Z.mul_0_l. done.
  - rewrite str_length_app, zeros_length. lia.
Qed.

Lemma fmt_pad_inj w a b :
  (0 < w <= 18)%nat -> 0 <= a < 10 ^ Z.of_nat w -> 0 <= b < 10 ^ Z.of_nat w -> fmt_pad w a = fmt_pad w b -> a = b.
Proof.
  intros Hw Ha Hb H. assert (10 ^ Z.of_nat w <= 10 ^ 18) by (apply Z.pow_le_mono_r; lia).
  destruct (fmt_pad_spec w a) as (_ & Va & _); [lia..|]. destruct (fmt_pad_spec w b) as (_ & Vb & _); [lia..|]. congruence.
Qed.

Lemma fmt_pad_length w a : (0 < w <= 18)%nat -> 0 <= a < 10 ^ Z.of_nat w -> String.length (fmt_pad w a) = w.
Proof.
  intros Hw Ha. assert (10 ^ Z.of_nat w <= 10 ^ 18) by (apply Z.pow_le_mono_r; lia). by apply fmt_pad_spec; lia.
Qed.

(** ** Lemmas on the accumulation loop *)

(** On a digit the loop is exact while the value fits, and any value it
    produces after an unnoticed wrap is at least [(2^64-9)/9]. *)
Definition wrapped_floor : Z := 2049638230412172401.

Lemma digit_step n d :
  0 <= n <= max_int64 -> 0 <= d <= 9 ->
  let next := wrap64 (wrap64 (n * 10) + d) in
  (n * 10 + d <= max_int64 /\ next = n * 10 + d /\ n <= next) \/
  (max_int64 < n * 10 + d /\ (next < n \/ wrapped_floor <= next <= max_int64)).
Proof. unfold wrapped_floor. int_unfold. cbv zeta. lia. Qed.

Lemma digit_loop_exact {E} (m o : E) n s :
  0 <= n -> str_all is_digit s = true -> dec_acc n s <= max_int64 ->
  digit_loop m o n s = Ok (dec_acc n s).
Proof.
  revert n. induction s as [|c s IH]; intros n Hn Hs Hv; [done|].
  simpl in Hs. apply andb_true_iff in Hs as [Hc Hs]. cbn [digit_loop dec_acc] in *. rewrite Hc.
  apply is_digit_range in Hc.
  assert (n * 10 + digit_val c <= dec_acc (n * 10 + digit_val c) s) by (apply dec_acc_nonneg; [done|lia]).
  destruct (digit_step n (digit_val c)) as [(? & -> & ?)|[? _]]; [int_lia|lia| |lia].
  destruct (_ <? n) eqn:E1; [lia|]. apply IH; [lia|done|lia].
Qed.

Lemma digit_loop_ok {E} (m o : E) n s r :
  0 <= n <= max_int64 -> digit_loop m o n s = Ok r ->
  str_all is_digit s = true /\
  ((r = dec_acc n s /\ r <= max_int64) \/ (wrapped_floor <= r /\ max_int64 < dec_acc n s)).
Proof.
  enough (Hgen : forall k, 0 <= n <= max_int64 -> 
    (n = k \/ (wrapped_floor <= n /\ max_int64 < k)) ->
    digit_loop m o n s = Ok r -> str_all is_digit s = true /\
  ((r = dec_acc k s /\ r <= max_int64) \/ (wrapped_floor <= r /\ max_int64 < dec_acc k s))).
  { intros Hn H. apply Hgen; auto. }
  revert n. induction s as [|c s IH]; intros n k Hn Hk H; cbn [digit_loop dec_acc str_all] in *.
  - injection H as <-. split; [done|]. destruct Hk; [left|right]; lia.
  - destruct (is_digit c) eqn:Hc; [|done]. pose proof (is_digit_range c Hc) as Hr.
    destruct (_ <? n) eqn:E1; [done|]. simpl.
    destruct (digit_step n (digit_val c) Hn Hr) as [(H1 & H2 & H3)|(H1 & H2)].
    + eapply IH; [|..|exact H]; [lia|]. rewrite H2. destruct Hk as [->|[Hk1 Hk2]]; [by left|right; lia].
    + eapply IH; [|..|exact H]; [unfold wrapped_floor in *; lia|]. right. split; [lia|].
      destruct Hk as [->|[? ?]]; lia.
Qed.

Lemma parse_run_exact {E} (m o : E) s :
  s <> ""%string -> str_all is_digit s = true -> dec_value s <= max_int64 ->
  parse_run m o s = Ok (dec_value s).
Proof. intros Hs. destruct s; [done|]. intros. by apply digit_loop_exact. Qed.

Lemma parse_run_ok {E} (m o : E) s r :
  parse_run m o s = Ok r ->
  s <> ""%string /\ str_all is_digit s = true /\
  ((r = dec_value s /\ r <= max_int64) \/ (wrapped_floor <= r /\ max_int64 < dec_value s)).
Proof.
  destruct s as [|c s]; [done|]. intros H. split; [done|]. eapply digit_loop_ok; [|exact H].
  int_lia.
Qed.

Lemma digit_loop_range {E} (m o : E) n s r :
  0 <= n <= max_int64 -> digit_loop m o n s = Ok r -> 0 <= r <= max_int64.
Proof.
  revert n. induction s as [|c s IH]; intros n Hn H; cbn [digit_loop] in H; [by simplify_eq|].
  destruct (is_digit c) eqn:Hc; [|done]. destruct (_ <? n) eqn:E1; [done|].
  eapply IH; [|exact H]. pose proof (wrap64_range (wrap64 (n * 10) + digit_val c)). int_unfold. lia.
Qed.

Lemma parse_run_range {E} (m o : E) s r : parse_run m o s = Ok r -> 0 <= r <= max_int64.
Proof. destruct s as [|c s]; [done|]. intros H. eapply digit_loop_range; [|exact H]. int_lia. Qed.

(** ** The scaled readers are exact *)

Lemma scale_check factor whole :
  0 < factor -> 0 <= whole <= max_int64 ->
  let scaled := wrap64 (whole * factor) in
  (whole <> 0 -> Z.quot scaled factor = whole) ->
  scaled = whole * factor /\ 0 <= scaled <= max_int64.
Proof.
  cbv zeta. intros Hf Hw Hq. pose proof (wrap64_range (whole * factor)) as Hr. unfold in_int64 in Hr.
  destruct (Z.eq_dec whole 0) as [->|Hnz]; [by int_lia|]. specialize (Hq Hnz).
  set (sc := wrap64 (whole * factor)) in *.
  assert (0 <= sc).
  { destruct (Z.lt_ge_cases sc 0); [|done].
    pose proof (Z.quot_opp_l sc factor ltac:(lia)).
    pose proof (Z.quot_pos (- sc) factor ltac:(lia) Hf). lia. }
  rewrite Z.quot_div_nonneg in Hq by lia.
  assert (whole * factor <= sc) by (rewrite <- Hq; pose proof (Z.mul_div_le sc factor Hf); lia).
  assert (0 <= whole * factor) by (apply Z.mul_nonneg_nonneg; lia). clear Hq.
  assert (sc = whole * factor); [|lia]. unfold sc. apply wrap64_id. unfold in_int64, min_int64. lia.
Qed.

Lemma padded_value scale fraction :
  (String.length fraction <= scale)%nat ->
  dec_value (fraction +:+ zeros (scale - String.length fraction))
  = dec_value fraction * 10 ^ Z.of_nat (scale - String.length fraction).
Proof. intros H. unfold dec_value at 1. by rewrite dec_acc_app, dec_acc_zeros. Qed.

Lemma padded_props scale fraction :
  (String.length fraction <= scale)%nat -> (0 < scale <= 18)%nat -> str_all is_digit fraction = true ->
  let padded := fraction +:+ zeros (scale - String.length fraction) in
  padded <> ""%string /\ str_all is_digit padded = true /\ 0 <= dec_value padded < 10 ^ Z.of_nat scale
  /\ 10 ^ Z.of_nat scale <= 10 ^ 18.
Proof.
  intros Hl Hs Hd padded.
  assert (Hlen : String.length padded = scale).
  { unfold padded. rewrite str_length_app, zeros_length. lia. }
  assert (Hdig : str_all is_digit padded = true).
  { unfold padded. by rewrite str_all_app, Hd, zeros_digits. }
  split_and!; [|done|by apply dec_value_bound|..].
  - intros E. rewrite E in Hlen. simpl in Hlen. lia.
  - rewrite <- Hlen at 1. by apply dec_value_bound.
  - apply Z.pow_le_mono_r; lia.
Qed.

(** [parse_fixed] accepts exactly the decimals whose value fits, and returns
    that value: the loop's unnoticed wraps are all caught by the scale check. *)
Lemma parse_fixed_iff {E} (m o : E) scale body v :
  (0 < scale <= 18)%nat ->
  parse_fixed m o scale (10 ^ Z.of_nat scale) body = Ok v <->
  decimal_spec scale body = Some v /\ v <= max_int64.
Proof.
  intros Hs. unfold parse_fixed, decimal_spec.
  destruct (Cut "." body) as [[integer fraction] hasPoint].
  assert (Hpos : 0 < 10 ^ Z.of_nat scale) by (apply Z.pow_pos_nonneg; lia).
  destruct (decide (integer = "")) as [->|Hi]; [simpl; split; [done|by intros []]|].
  assert (bool_decide (integer <> ""%string) = true) as -> by (by apply bool_decide_eq_true). simpl "&&".
  destruct (hasPoint && bool_decide (fraction = "")) eqn:Hp.
  { apply andb_true_iff in Hp as [-> Hp]. apply bool_decide_eq_true in Hp as ->. simpl.
    rewrite andb_false_r. simpl. split; [done|by intros []]. }
  assert (negb hasPoint || bool_decide (fraction <> ""%string) = true) as ->.
  { destruct hasPoint; [|done]. simpl in *. case_bool_decide; [done|]. by apply bool_decide_eq_true. }
  rewrite andb_true_r.
  destruct (decide (scale < String.length fraction)%nat) as [Hl|Hl].
  { rewrite (proj2 (Nat.leb_gt _ _)) by done. rewrite andb_false_r. split; [done|by intros []]. }
  rewrite (proj2 (Nat.leb_le _ _)), andb_true_r by lia.
  split.
  - intros H. monad_inv H. pose proof (parse_run_range _ _ _ _ Hv) as Hv0r.
    apply parse_run_ok in Hv as (_ & Hdi & Hwhole), Hv0 as (_ & Hdp & Hpart).
    rewrite str_all_app in Hdp. apply andb_true_iff in Hdp as [Hdf _].
    destruct (padded_props scale fraction ltac:(lia) Hs Hdf) as (_ & _ & Hpb & Hp18).
    assert (v1 = dec_value (fraction +:+ zeros (scale - String.length fraction))) as Hv1 by int_lia.
    rewrite Hdi, Hdf. simpl.
    destruct (negb (v0 =? 0) && _) eqn:Hc; [done|].
    destruct (scale_check (10 ^ Z.of_nat scale) v0 Hpos Hv0r) as [Hsc Hscr]; [lia|].
    destruct (_ <? _) eqn:Ht in H; [done|]. injection H as <-. rewrite Hsc in *.
    assert (10 <= 10 ^ Z.of_nat scale) as H10 by (apply (Z.pow_le_mono_r 10 1); lia).
    assert (wrapped_floor <= v0 -> False) by (unfold wrapped_floor, max_int64 in *; clear -Hscr H10; nia).
    rewrite <- padded_value by lia. split; [f_equal; int_lia|int_lia].
  - intros [H Hv]. destruct (str_all is_digit integer) eqn:Hdi; [|done].
    destruct (str_all is_digit fraction) eqn:Hdf; [|done]. simpl in H. injection H as <-.
    destruct (padded_props scale fraction ltac:(lia) Hs Hdf) as (Hne & Hdp & Hpb & Hp18).
    rewrite <- padded_value in * by lia.
    pose proof (dec_value_bound integer Hdi).
    rewrite parse_run_exact by (done || nia). simpl. rewrite parse_run_exact by (done || nia). simpl.
    rewrite (wrap64_id (_ * _)) by (unfold in_int64, min_int64; nia).
    rewrite Z.quot_mul, Z.eqb_refl, andb_false_r by lia.
    rewrite wrap64_id by (unfold in_int64, min_int64; nia).
    destruct (_ <? _) eqn:Ht; [lia|done].
Qed.

(** ** Cutting at the point *)

Lemma digit_not_point c : is_digit c = true -> c <> "."%char.
Proof. intros H ->. discriminate. Qed.

Lemma Cut_point a b :
  str_all is_digit a = true -> Cut "." (a +:+ String "." b) = (a, b, true).
Proof.
  induction a as [|c a IH]; intros H; [done|].
  simpl in H. apply andb_true_iff in H as [Hc Ha].
  change (String c a +:+ String "." b) with (String c (a +:+ String "." b)). cbn [Cut].
  rewrite decide_False by (by apply digit_not_point). by rewrite IH.
Qed.

Lemma Cut_no_point a : str_all is_digit a = true -> Cut "." a = (a, ""%string, false).
Proof.
  induction a as [|c a IH]; intros H; [done|].
  simpl in H. apply andb_true_iff in H as [Hc Ha]. cbn [Cut].
  rewrite decide_False by (by apply digit_not_point). by rewrite IH.
Qed.

(** A rendering with exactly [scale] places denotes its number. *)
Lemma decimal_spec_digits scale i fraction :
  (0 < scale <= 18)%nat -> str_all is_digit i = true -> i <> ""%string -> 0 <= fraction < 10 ^ Z.of_nat scale ->
  decimal_spec scale (i +:+ String "." (fmt_pad scale fraction)) = Some (dec_value i * 10 ^ Z.of_nat scale + fraction).
Proof.
  intros Hs Hd Hi Hf.
  assert (10 ^ Z.of_nat scale <= 10 ^ 18) by (apply Z.pow_le_mono_r; lia).
  destruct (fmt_pad_spec scale fraction) as (Hpd & Hpv & Hpl); [lia..|].
  unfold decimal_spec. rewrite Cut_point by done.
  rewrite Hd, Hpd, Hpv, Hpl, Nat.sub_diag, Nat.leb_refl.
  rewrite !bool_decide_eq_true_2; [|intros E; rewrite E in Hpl; simpl in Hpl; lia|done].
  simpl. f_equal. lia.
Qed.

Lemma decimal_spec_fmt scale whole fraction :
  (0 < scale <= 18)%nat -> 0 <= whole < 10 ^ 20 -> 0 <= fraction < 10 ^ Z.of_nat scale ->
  decimal_spec scale (fmt_d whole +:+ String "." (fmt_pad scale fraction))
  = Some (whole * 10 ^ Z.of_nat scale + fraction).
Proof.
  intros Hs Hw Hf. destruct (fmt_d_spec whole Hw) as (Hd & Hv & Hl & _).
  rewrite decimal_spec_digits, Hv; try done. intros E. rewrite E in Hl. simpl in Hl. lia.
Qed.

(** ** Trimming zeros *)

Lemma trim_left0_value s : dec_value (trim_left0 s) = dec_value s.
Proof.
  induction s as [|c s IH]; [done|]. cbn [trim_left0]. destruct (decide (c = zero_char)) as [->|]; [|done].
  rewrite IH. done.
Qed.

Lemma trim_left0_digits s : str_all is_digit s = true -> str_all is_digit (trim_left0 s) = true.
Proof.
  induction s as [|c s IH]; [done|]. intros H. cbn [trim_left0]. destruct (decide (c = zero_char)); [|done].
  simpl in H. apply andb_true_iff in H as [_ H]. by apply IH.
Qed.

(** Equally long digit strings of equal value are equal. *)
Lemma digits_inj a b :
  str_all is_digit a = true -> str_all is_digit b = true -> String.length a = String.length b ->
  dec_value a = dec_value b -> a = b.
Proof.
  revert b. induction a as [|c a IH]; intros [|d b] Ha Hb Hl Hv; try done.
  simpl in Ha, Hb, Hl. apply andb_true_iff in Ha as [Hc Ha], Hb as [Hd Hb]. injection Hl as Hl.
  unfold dec_value in Hv. cbn [dec_acc] in Hv. rewrite !(dec_acc_shift (0 * 10 + _)), Hl in Hv.
  pose proof (dec_value_bound a Ha). pose proof (dec_value_bound b Hb). rewrite Hl in *.
  assert (E : digit_val c = digit_val d) by nia.
  assert (c = d) as ->.
  { unfold digit_val in E. rewrite <- (ascii_nat_embedding c), <- (ascii_nat_embedding d). f_equal. lia. }
  f_equal. apply IH; [done|done|done|lia].
Qed.

(** Without leading zeros, the number of digits bounds the value both ways. *)
Lemma significant_digits s n : str_all is_digit s = true ->
  (String.length (trim_left0 s) <= n)%nat <-> dec_value s < 10 ^ Z.of_nat n.
Proof.
  intros Hs. pose proof (trim_left0_digits s Hs) as Hd. rewrite <- (trim_left0_value s).
  assert (Hh : forall c r, trim_left0 s = String c r -> c <> zero_char).
  { clear. induction s as [|x s IH]; [done|]. cbn [trim_left0]. destruct (decide (x = zero_char)); [done|]. by intros c r [= <- _]. }
  destruct (trim_left0 s) as [|c r]; [cbn; split; intros _; [lia|lia]|]. specialize (Hh c r eq_refl).
  split; intros H.
  - pose proof (dec_value_bound _ Hd). assert (10 ^ Z.of_nat (String.length (String c r)) <= 10 ^ Z.of_nat n); [|lia].
    apply Z.pow_le_mono_r; lia.
  - cbn [str_all] in Hd. apply andb_true_iff in Hd as [Hc Hr]. apply is_digit_range in Hc.
    assert (digit_val c <> 0).
    { intros E. apply Hh. unfold digit_val in E. rewrite <- (ascii_nat_embedding c). replace (nat_of_ascii c) with 48%nat by lia. done. }
    unfold dec_value in H. cbn [dec_acc String.length] in *. rewrite dec_acc_shift in H. pose proof (dec_value_bound r Hr).
    assert (String.length r < n)%nat; [|lia]. apply Nat2Z.inj_lt, (Z.pow_lt_mono_r_iff 10); nia.
Qed.

(** Digit strings without leading zeros are equal when their values are. *)
Lemma trim_left0_inj a b :
  str_all is_digit a = true -> str_all is_digit b = true ->
  trim_left0 a = trim_left0 b <-> dec_value a = dec_value b.
Proof.
  intros Ha Hb. split; [intros H; by rewrite <- (trim_left0_value a), H, trim_left0_value|]. intros Hv.
  apply digits_inj; [by apply trim_left0_digits|by apply trim_left0_digits| |by rewrite !trim_left0_value].
  apply Nat.le_antisymm; apply significant_digits; [done| |done|].
  - rewrite Hv. by apply significant_digits.
  - rewrite <- Hv. by apply significant_digits.
Qed.

(** A string is its trimmed form followed by zeros. *)
Lemma trim_right0_zeros s :
  s = trim_right0 s +:+ zeros (String.length s - String.length (trim_right0 s)) /\
  (String.length (trim_right0 s) <= String.length s)%nat.
Proof.
  induction s as [|c s [IH Hl]]; [done|]. cbn [trim_right0]. destruct (trim_right0 s) as [|d t] eqn:E.
  - destruct (decide (c = zero_char)) as [->|].
    + cbn [String.length]. rewrite Nat.sub_0_r. cbn [zeros]. cbn [String.length] in IH. rewrite Nat.sub_0_r in IH. change (s = zeros (String.length s)) in IH. split; [|lia].
      change (String zero_char s = String zero_char (zeros (String.length s))). by rewrite <- IH.
    + cbn [String.length]. replace (S (String.length s) - 1)%nat with (String.length s) by lia. cbn [String.length] in IH. rewrite Nat.sub_0_r in IH.
      change (s = zeros (String.length s)) in IH. split; [|lia]. change (String c s = String c (zeros (String.length s))). by rewrite <- IH.
  - cbn [String.length] in *. split; [|lia]. replace (S (String.length s) - S (S (String.length t)))%nat with (String.length s - S (String.length t))%nat by lia.
    change (String c s = String c (String d t +:+ zeros (String.length s - S (String.length t)))). by rewrite <- IH.
Qed.

Lemma trim_right0_inj a b : String.length a = String.length b -> trim_right0 a = trim_right0 b -> a = b.
Proof.
  intros Hl H. destruct (trim_right0_zeros a) as [Ea _], (trim_right0_zeros b) as [Eb _]. rewrite Ea, Eb, H, Hl. done.
Qed.

Lemma trim_right0_app s n : trim_right0 (s +:+ zeros n) = trim_right0 s.
Proof.
  induction s as [|c s IH].
  - change ("" +:+ zeros n) with (zeros n). induction n as [|n IH]; [done|]. cbn [zeros trim_right0]. by rewrite IH.
  - change (String c s +:+ zeros n) with (String c (s +:+ zeros n)). cbn [trim_right0]. by rewrite IH.
Qed.

Lemma trim_right0_digits s : str_all is_digit s = true -> str_all is_digit (trim_right0 s) = true.
Proof.
  intros H. destruct (trim_right0_zeros s) as [E _]. rewrite E, str_all_app in H. by apply andb_true_iff in H as [H _].
Qed.

(** Two fractions trim to the same text exactly when they denote the same part. *)
Lemma trim_right0_value scale a b :
  str_all is_digit a = true -> str_all is_digit b = true ->
  (String.length a <= scale)%nat -> (String.length b <= scale)%nat ->
  trim_right0 a = trim_right0 b <->
  dec_value a * 10 ^ Z.of_nat (scale - String.length a) = dec_value b * 10 ^ Z.of_nat (scale - String.length b).
Proof.
  intros Ha Hb Hla Hlb. rewrite <- !padded_value by done.
  rewrite <- (trim_right0_app a (scale - String.length a)), <- (trim_right0_app b (scale - String.length b)).
  split; intros H.
  - f_equal. apply trim_right0_inj; [rewrite !str_length_app, !zeros_length; lia|done].
  - f_equal. apply digits_inj; [by rewrite str_all_app, Ha, zeros_digits|by rewrite str_all_app, Hb, zeros_digits| |done].
    rewrite !str_length_app, !zeros_length. lia.
Qed.

(** Without a separator nothing is left after the cut. *)
Lemma Cut_tail c s : let '(_, f, found) := Cut c s in found = false -> f = ""%string.
Proof.
  induction s as [|x s IH]; [done|]. cbn [Cut]. destruct (decide (x = c)); [done|].
  destruct (Cut c s) as [[a b] g]. exact IH.
Qed.

(** A fraction of at most [scale] digits is worth less than one. *)
Lemma fraction_bound scale f : str_all is_digit f = true -> (String.length f <= scale)%nat ->
  0 <= dec_value f * 10 ^ Z.of_nat (scale - String.length f) < 10 ^ Z.of_nat scale.
Proof.
  intros Hf Hl. pose proof (dec_value_bound f Hf) as B.
  replace (Z.of_nat scale) with (Z.of_nat (String.length f) + Z.of_nat (scale - String.length f)) by lia.
  rewrite Z.pow_add_r by lia. assert (0 < 10 ^ Z.of_nat (scale - String.length f)) by (apply Z.pow_pos_nonneg; lia). nia.
Qed.

Lemma ContainsAny_mono s cs ds :
  (forall c, c ∈ cs -> c ∈ ds) -> ContainsAny s ds = false -> ContainsAny s cs = false.
Proof.
  intros Hsub. induction s as [|c s IH]; [done|]. cbn [ContainsAny]. intros [H1 H2]%orb_false_iff.
  rewrite (IH H2), orb_false_r. apply bool_decide_eq_false. apply bool_decide_eq_false in H1. auto.
Qed.
