(* ===== verification/Amount.v ===== *)
(** * Money: [billing/ledger/amount.go]

    [Amount] is an [int64] count of micro-units. A method [M] of a Go type [T]
    is the definition [T_M] here and in the other files. *)

From S2P Require Import Prelude Decimal.

(** ** Data *)

Abbreviation Amount := Z (only parsing).

Definition Scale : nat := 6.

Definition scaleFactor : Z := 1000000.

Inductive amount_err : Type :=
| ErrOverflow
| ErrMalformedAmount.

#[global] Instance amount_err_eq_dec : EqDecision amount_err.
Proof. solve_decision. Defined.

(** ** Operations *)

Definition Amount_Add (a b : Amount) : res amount_err Amount :=
  let sum := wrap64 (a + b) in
  if ((0 <? b) && (sum <? a)) || ((b <? 0) && (a <? sum)) then Err ErrOverflow
  else Ok sum.

Definition Amount_Neg (a : Amount) : res amount_err Amount :=
  if a =? min_int64 then Err ErrOverflow else Ok (wrap64 (- a)).

Definition Amount_String (a : Amount) : string :=
  let negative := a <? 0 in
  if negative && (a =? min_int64) then "-9223372036854.775808"%string
  else
    let units := if negative then wrap64 (- a) else a in
    let whole := Z.quot units scaleFactor in
    let fraction := Z.rem units scaleFactor in
    let sign := if negative then "-"%string else ""%string in
    sign +:+ fmt_d whole +:+ String "." (fmt_pad Scale fraction).

Definition parseDigits (s : string) : res amount_err Z :=
  parse_run ErrMalformedAmount ErrOverflow s.

(** [strings.CutPrefix(body, "-")] *)
Definition cut_minus (s : string) : bool * string :=
  match s with
  | String c r => if decide (c = "-"%char) then (true, r) else (false, s)
  | EmptyString => (false, s)
  end.

Definition ParseAmount (s : string) : res amount_err Amount :=
  if decide (s = ""%string) then Err ErrMalformedAmount
  else
    let '(negative, body) := cut_minus s in
    if decide (body = ""%string) then Err ErrMalformedAmount
    else
      total ← parse_fixed ErrMalformedAmount ErrOverflow Scale scaleFactor body;
      if (negative : bool) then Ok (wrap64 (- total)) else Ok total.

(** ** Specification

    The number of micro-units the text denotes, with no bound. *)
Definition amount_spec (s : string) : option Z :=
  let '(negative, body) := cut_minus s in
  match decimal_spec Scale body with
  | Some v => Some (if (negative : bool) then - v else v)
  | None => None
  end.

(** ** Lemmas *)

Lemma decimal_spec_nonneg scale body v : decimal_spec scale body = Some v -> 0 <= v.
Proof.
  unfold decimal_spec. destruct (Cut "." body) as [[i f] h]. intros H.
  destruct (_ && _) eqn:E; [|done]. injection H as <-. rewrite !andb_true_iff in E.
  destruct E as [[[[_ Hi] Hf] _] _]. pose proof (dec_value_bound i Hi). pose proof (dec_value_bound f Hf).
  pose proof (Z.pow_nonneg 10 (Z.of_nat scale)).
  pose proof (Z.pow_nonneg 10 (Z.of_nat (scale - String.length f))). nia.
Qed.

Lemma decimal_spec_empty scale : decimal_spec scale "" = None.
Proof. done. Qed.

Lemma Amount_String_body a :
  in_int64 a -> a <> min_int64 ->
  Amount_String a = (if a <? 0 then "-"%string else ""%string) +:+
    fmt_d (Z.abs a / scaleFactor) +:+ String "." (fmt_pad Scale (Z.abs a mod scaleFactor)).
Proof.
  intros Hr Hm. unfold Amount_String. rewrite (proj2 (Z.eqb_neq a _)), andb_false_r by done.
  assert ((if a <? 0 then wrap64 (- a) else a) = Z.abs a) as ->.
  { destruct (a <? 0) eqn:E; [rewrite wrap64_id by int_lia|]; lia. }
  rewrite Z.quot_div_nonneg, Z.rem_mod_nonneg by (unfold scaleFactor; lia). done.
Qed.

(** A printed number starts with a digit, so the sign test looks past it. *)
Lemma cut_minus_digits a b :
  str_all is_digit a = true -> a <> ""%string -> cut_minus (a +:+ b) = (false, a +:+ b).
Proof.
  destruct a as [|c a]; [done|]. intros H _. simpl in H. apply andb_true_iff in H as [Hc _].
  change (String c a +:+ b) with (String c (a +:+ b)). unfold cut_minus.
  rewrite decide_False; [done|]. intros ->. discriminate.
Qed.

Lemma amount_spec_String a :
  in_int64 a -> a <> min_int64 -> amount_spec (Amount_String a) = Some a.
Proof.
  intros Hr Hm. rewrite Amount_String_body by done.
  assert (Hw : 0 <= Z.abs a / scaleFactor < 10 ^ 20) by (unfold scaleFactor; int_lia).
  assert (Hf : 0 <= Z.abs a mod scaleFactor < 10 ^ Z.of_nat Scale) by (change (10 ^ Z.of_nat Scale) with 1000000; unfold scaleFactor; lia).
  destruct (fmt_d_spec _ Hw) as (Hd & _ & Hl & _).
  unfold amount_spec. destruct (a <? 0) eqn:E.
  - change ("-" +:+ ?x) with (String "-" x). cbn [cut_minus]. rewrite decide_True by done.
    rewrite decimal_spec_fmt by (done || (unfold Scale; lia)). f_equal.
    change (10 ^ Z.of_nat Scale) with 1000000. unfold scaleFactor. lia.
  - change ("" +:+ ?x) with x. rewrite cut_minus_digits; [|done|intros H; rewrite H in Hl; simpl in Hl; lia].
    rewrite decimal_spec_fmt by (done || (unfold Scale; lia)). f_equal.
    change (10 ^ Z.of_nat Scale) with 1000000. unfold scaleFactor. lia.
Qed.

Lemma parse_fixed_amount body v :
  parse_fixed ErrMalformedAmount ErrOverflow Scale scaleFactor body = Ok v <->
  decimal_spec Scale body = Some v /\ v <= max_int64.
Proof. apply (parse_fixed_iff _ _ Scale). unfold Scale. lia. Qed.

Lemma ParseAmount_iff s a :
  ParseAmount s = Ok a <-> amount_spec s = Some a /\ Z.abs a <= max_int64.
Proof.
  unfold ParseAmount, amount_spec. destruct (decide (s = "")) as [->|Hs].
  { simpl. split; [done|by intros []]. }
  destruct (cut_minus s) as [negative body].
  destruct (decide (body = "")) as [->|Hb]; [rewrite decimal_spec_empty; split; [done|by intros []]|].
  split.
  - intros H. apply res_bind_ok in H as (v & Hv & H). apply parse_fixed_amount in Hv as [Hsp Hmax].
    pose proof (decimal_spec_nonneg _ _ _ Hsp). rewrite Hsp.
    destruct negative; injection H as <-; [rewrite wrap64_id by int_lia|]; split; (done || lia).
  - intros [H Hmax]. destruct (decimal_spec Scale body) as [v|] eqn:Hsp; [|done].
    pose proof (decimal_spec_nonneg _ _ _ Hsp).
    assert (parse_fixed ErrMalformedAmount ErrOverflow Scale scaleFactor body = Ok v) as ->.
    { apply parse_fixed_amount. split; [done|]. destruct negative; injection H as <-; lia. }
    simpl. destruct negative; injection H as <-; [|done]. by rewrite wrap64_id by int_lia.
Qed.

(** ** Properties *)

(** [Add] returns the exact sum whenever it is an [int64] and [ErrOverflow]
    otherwise; the direction test catches every wrap-around and nothing else. *)
Theorem Amount_Add_exact (a b : Amount) :
  in_int64 a -> in_int64 b ->
  Amount_Add a b = if in_int64b (a + b) then Ok (a + b) else Err ErrOverflow.
Proof.
  intros Ha Hb. unfold Amount_Add.
  destruct (in_int64b (a + b)) eqn:E.
  - apply in_int64b_spec in E. rewrite wrap64_id by done. cases_if; [lia|done].
  - cases_if; [done|]. int_lia.
Qed.

Lemma Amount_Add_exact_witness :
  in_int64 max_int64 /\ Amount_Add max_int64 1 = Err ErrOverflow /\ Amount_Add 5 (-7) = Ok (-2).
Proof.
  split; [int_lia|]. split.
  - rewrite (Amount_Add_exact max_int64 1) by int_lia. reflexivity.
  - rewrite (Amount_Add_exact 5 (-7)) by int_lia. reflexivity.
Defined.

(** C32: [ParseAmount] succeeds exactly on the decimals with at most six places
    whose magnitude fits an [int64], and returns exactly the micro-units the
    text denotes: nothing is rounded, truncated or wrapped. *)
Theorem ParseAmount_exact (s : string) (a : Amount) :
  ParseAmount s = Ok a <-> amount_spec s = Some a /\ Z.abs a <= max_int64.
Proof. apply ParseAmount_iff. Qed.

(** Printing then parsing is the identity for every [int64] amount except
    the most negative one, whose printed form [ParseAmount] refuses. *)
Theorem ParseAmount_String (a : Amount) :
  in_int64 a ->
  ParseAmount (Amount_String a) = if a =? min_int64 then Err ErrOverflow else Ok a.
Proof.
  intros Hr. destruct (a =? min_int64) eqn:E.
  - apply Z.eqb_eq in E as ->. by vm_compute.
  - apply Z.eqb_neq in E. apply ParseAmount_iff. split; [by apply amount_spec_String|].
    int_lia.
Qed.

Lemma ParseAmount_String_witness :
  in_int64 (-12340000) /\ ParseAmount (Amount_String (-12340000)) = Ok (-12340000).
Proof. split; [int_lia|]. apply (ParseAmount_String (-12340000)). int_lia. Defined.

(** The overflow test of [parseDigits], which only asks whether the running
    value went down, misses a wrap that lands above the previous value: a
    twenty-digit number is accepted as another number. [ParseAmount] is not
    affected (its exactness theorem): its scale check rejects every such value. *)
Theorem parseDigits_misses_wrap :
  parseDigits "25000000000000000000" = Ok 6553255926290448384 /\
  dec_value "25000000000000000000" = 25000000000000000000 /\
  forall s r, parseDigits s = Ok r -> r <> dec_value s ->
    max_int64 < dec_value s /\ wrapped_floor <= r.
Proof.
  split_and!; [by vm_compute..|]. intros s r H Hne.
  apply parse_run_ok in H as (_ & _ & [[? ?]|[? ?]]); [done|]. done.
Qed.
