(* ===== verification/Quantity.v ===== *)
(** * Usage quantities: [billing/pricing/quantity.go]

    [Quantity] is an [int64] count of nano-units. *)

From S2P Require Import Prelude Decimal Amount.

(** ** Data *)

Abbreviation Quantity := Z (only parsing).

Definition QuantityScale : nat := 9.

Definition quantityFactor : Z := 1000000000.

Inductive quantity_err : Type :=
| ErrMalformedQuantity
| ErrQuantityOverflow.

#[global] Instance quantity_err_eq_dec : EqDecision quantity_err.
Proof. solve_decision. Defined.

(** ** Operations *)

Definition parseQuantityDigits (s : string) : res quantity_err Z :=
  parse_run ErrMalformedQuantity ErrQuantityOverflow s.

(** The set of [strings.ContainsAny(s, "eE+_ ")]. *)
Definition not_plain : list ascii := ["e"; "E"; "+"; "_"; " "]%char.

Definition ParseQuantity (s : string) : res quantity_err Quantity :=
  if decide (s = ""%string) then Err ErrMalformedQuantity
  else if has_prefix_char "-" s then Err ErrMalformedQuantity
  else if ContainsAny s not_plain then Err ErrMalformedQuantity
  else parse_fixed ErrMalformedQuantity ErrQuantityOverflow QuantityScale quantityFactor s.

Definition Quantity_String (q : Quantity) : string :=
  fmt_int (Z.quot q quantityFactor) +:+ String "." (fmt_int_pad QuantityScale (Z.rem q quantityFactor)).

Definition Quantity_Add (q other : Quantity) : res quantity_err Quantity :=
  let sum := wrap64 (q + other) in
  if ((0 <? other) && (sum <? q)) || ((other <? 0) && (q <? sum)) then Err ErrQuantityOverflow
  else Ok sum.

(** ** Lemmas *)

Lemma digits_plain s : str_all is_digit s = true -> ContainsAny s not_plain = false.
Proof.
  induction s as [|c s IH]; [done|]. simpl. intros [Hc Hs]%andb_true_iff. rewrite (IH Hs), orb_false_r.
  apply bool_decide_eq_false. intros Hin. unfold not_plain in Hin.
  repeat (apply elem_of_cons in Hin as [->|Hin]; [discriminate Hc|]). by apply elem_of_nil in Hin.
Qed.

(** The text before and after the point is the whole text. *)
Lemma Cut_plain s cs :
  ContainsAny s cs = true ->
  bool_decide ("."%char ∈ cs) = false ->
  let '(i, f, _) := Cut "." s in ContainsAny i cs || ContainsAny f cs = true.
Proof.
  induction s as [|c s IH]; [done|]. intros H Hp. cbn [Cut ContainsAny] in *.
  destruct (decide (c = "."%char)) as [->|Hc].
  - rewrite Hp in H. done.
  - destruct (Cut "." s) as [[i f] h]. cbn [ContainsAny].
    destruct (bool_decide (c ∈ cs)); [done|]. simpl in *. by apply IH.
Qed.

(** A decimal accepted by the specification has none of the refused characters
    and no sign, so the guards of [ParseQuantity] only refuse what the digit
    check refuses too. *)
Lemma decimal_spec_guards scale s v :
  decimal_spec scale s = Some v ->
  s <> ""%string /\ has_prefix_char "-" s = false /\ ContainsAny s not_plain = false.
Proof.
  intros H. split_and!.
  - by intros ->.
  - destruct s as [|c s]; [done|]. simpl. apply bool_decide_eq_false. intros ->.
    unfold decimal_spec in H. cbn [Cut] in H. rewrite decide_False in H by done.
    destruct (Cut "." s) as [[i f] h]. cbn [str_all] in H.
    change (is_digit "-") with false in H. rewrite andb_false_r in H. done.
  - destruct (ContainsAny s not_plain) eqn:E; [|done].
    pose proof (Cut_plain s not_plain E eq_refl) as Hc.
    unfold decimal_spec in H. destruct (Cut "." s) as [[i f] h].
    destruct (str_all is_digit i) eqn:Hi; [|rewrite andb_false_r in H; done].
    destruct (str_all is_digit f) eqn:Hf; [|rewrite andb_false_r in H; done].
    by rewrite (digits_plain i Hi), (digits_plain f Hf) in Hc.
Qed.

Lemma ParseQuantity_iff s q :
  ParseQuantity s = Ok q <-> decimal_spec QuantityScale s = Some q /\ q <= max_int64.
Proof.
  unfold ParseQuantity.
  assert (Hpf : parse_fixed ErrMalformedQuantity ErrQuantityOverflow QuantityScale quantityFactor s = Ok q
    <-> decimal_spec QuantityScale s = Some q /\ q <= max_int64).
  { apply (parse_fixed_iff _ _ QuantityScale). unfold QuantityScale. lia. }
  split.
  - intros H. apply Hpf. by cases_if.
  - intros Hsp. destruct (decimal_spec_guards _ _ _ (proj1 Hsp)) as (Hne & -> & ->).
    rewrite decide_False by done. by apply Hpf.
Qed.

Lemma Quantity_String_spec q :
  0 <= q <= max_int64 -> decimal_spec QuantityScale (Quantity_String q) = Some q.
Proof.
  intros Hq. unfold Quantity_String.
  rewrite Z.quot_div_nonneg, Z.rem_mod_nonneg by (unfold quantityFactor; lia).
  unfold fmt_int, fmt_int_pad. rewrite !(proj2 (Z.ltb_ge _ 0)) by (unfold quantityFactor; lia).
  rewrite decimal_spec_fmt.
  - f_equal. change (10 ^ Z.of_nat QuantityScale) with 1000000000. unfold quantityFactor. lia.
  - unfold QuantityScale. lia.
  - unfold quantityFactor. int_lia.
  - change (10 ^ Z.of_nat QuantityScale) with 1000000000. unfold quantityFactor. lia.
Qed.

Lemma Quantity_Add_spec q r :
  in_int64 q -> in_int64 r ->
  Quantity_Add q r = if in_int64b (q + r) then Ok (q + r) else Err ErrQuantityOverflow.
Proof.
  intros Ha Hb. unfold Quantity_Add.
  destruct (in_int64b (q + r)) eqn:E.
  - apply in_int64b_spec in E. rewrite wrap64_id by done. cases_if; [lia|done].
  - cases_if; [done|]. int_lia.
Qed.

(** ** Properties *)

(** [ParseQuantity] succeeds exactly on the unsigned plain decimals with at
    most nine places whose nano-unit count fits an [int64], and returns exactly
    that count; every other text is an error. *)
Theorem ParseQuantity_exact (s : string) (q : Quantity) :
  ParseQuantity s = Ok q <-> decimal_spec QuantityScale s = Some q /\ q <= max_int64.
Proof. apply ParseQuantity_iff. Qed.

(** Every quantity a price can be applied to prints to text that parses back
    to it, the round trip an invoice line makes through the database. *)
Theorem ParseQuantity_String (q : Quantity) :
  0 <= q <= max_int64 -> ParseQuantity (Quantity_String q) = Ok q.
Proof. intros H. apply ParseQuantity_iff. split; [by apply Quantity_String_spec|lia]. Qed.

Lemma ParseQuantity_String_witness :
  0 <= 1500000001 <= max_int64 /\ ParseQuantity (Quantity_String 1500000001) = Ok 1500000001.
Proof. split; [int_lia|]. apply (ParseQuantity_String 1500000001). int_lia. Defined.
