(* ===== verification/Ledger.v ===== *)
(** * Double-entry transactions: [billing/ledger/ledger.go] *)

From S2P Require Import Prelude Decimal Amount.

(** ** Data *)

Abbreviation AccountID := Z (only parsing).

Abbreviation AccountKind := string (only parsing).

Definition Asset : AccountKind := "asset".

Definition Liability : AccountKind := "liability".

Definition Revenue : AccountKind := "revenue".

Definition Expense : AccountKind := "expense".

Definition Equity : AccountKind := "equity".

Definition AccountKind_IsDebitNormal (k : AccountKind) : bool :=
  bool_decide (k = Asset) || bool_decide (k = Expense).

Definition AccountKind_Valid (k : AccountKind) : bool :=
  bool_decide (k ∈ [Asset; Liability; Revenue; Expense; Equity]).

Record Account : Type := mkAccount {
  acc_ID : AccountID;
  acc_Name : string;
  acc_Kind : AccountKind
}.

Record Transfer : Type := mkTransfer {
  tr_Debit : AccountID;
  tr_Credit : AccountID;
  tr_Amount : Amount
}.

Record Posting : Type := mkPosting {
  po_Account : AccountID;
  po_Amount : Amount
}.

#[global] Instance Posting_eq_dec : EqDecision Posting.
Proof. solve_decision. Defined.

Record Transaction : Type := mkTransaction {
  tx_IdempotencyKey : string;
  tx_OccurredAt : Time;
  tx_Description : string;
  tx_postings : list Posting
}.

Inductive ledger_err : Type :=
| EAmount (e : amount_err)
| ErrUnbalanced
| ErrInvalidTransfer
| ErrNoTransfers.

(** ** Operations *)

(** An amount error passed up through [fmt.Errorf("...: %w", err)]. *)
Definition lift_amount {A} (r : res amount_err A) : res ledger_err A :=
  match r with Ok a => Ok a | Err e => Err (EAmount e) end.

(** [total.Add(p.Amount)] over the postings, from [total]. *)
Fixpoint sum_postings (total : Amount) (ps : list Posting) : res ledger_err Amount :=
  match ps with
  | [] => Ok total
  | p :: rest =>
      next ← lift_amount (Amount_Add total (po_Amount p));
      sum_postings next rest
  end.

Definition Transaction_Balance (t : Transaction) : res ledger_err Amount :=
  sum_postings 0 (tx_postings t).

Definition Transaction_Postings (t : Transaction) : list Posting := tx_postings t.

(** The loop of [NewTransaction]: the guards in order, then a debit and a credit. *)
Fixpoint build_postings (postings : list Posting) (transfers : list Transfer)
    : res ledger_err (list Posting) :=
  match transfers with
  | [] => Ok postings
  | t :: rest =>
      if tr_Amount t <=? 0 then Err ErrInvalidTransfer
      else if tr_Debit t =? tr_Credit t then Err ErrInvalidTransfer
      else if (tr_Debit t =? 0) || (tr_Credit t =? 0) then Err ErrInvalidTransfer
      else
        credit ← lift_amount (Amount_Neg (tr_Amount t));
        build_postings (postings ++ [mkPosting (tr_Debit t) (tr_Amount t);
                                     mkPosting (tr_Credit t) credit]) rest
  end.

Definition NewTransaction (idempotencyKey : string) (occurredAt : Time) (description : string)
    (transfers : list Transfer) : res ledger_err Transaction :=
  if decide (idempotencyKey = ""%string) then Err ErrInvalidTransfer
  else if decide (length transfers = 0)%nat then Err ErrNoTransfers
  else if IsZero occurredAt then Err ErrInvalidTransfer
  else
    postings ← build_postings [] transfers;
    let tx := mkTransaction idempotencyKey occurredAt description postings in
    total ← Transaction_Balance tx;
    if total =? 0 then Ok tx else Err ErrUnbalanced.

(** ** Specification *)

(** A transfer the package accepts. *)
Definition transfer_ok (t : Transfer) : Prop :=
  0 < tr_Amount t <= max_int64 /\ tr_Debit t <> tr_Credit t /\ tr_Debit t <> 0 /\ tr_Credit t <> 0.

#[global] Instance transfer_ok_dec t : Decision (transfer_ok t).
Proof. unfold transfer_ok. apply _. Defined.

Definition transfer_postings (t : Transfer) : list Posting :=
  [mkPosting (tr_Debit t) (tr_Amount t); mkPosting (tr_Credit t) (- tr_Amount t)].

(** Unbounded sums, the quantities the ledger's invariants speak about. *)
Definition posting_total (ps : list Posting) : Z := sumZ (po_Amount <$> ps).

Definition account_total (acct : AccountID) (ps : list Posting) : Z :=
  sumZ (po_Amount <$> filter (fun p => po_Account p = acct) ps).

(** ** Lemmas *)

Lemma posting_total_app ps qs : posting_total (ps ++ qs) = posting_total ps + posting_total qs.
Proof. unfold posting_total. by rewrite fmap_app, sumZ_app. Qed.

Lemma account_total_app a ps qs : account_total a (ps ++ qs) = account_total a ps + account_total a qs.
Proof. unfold account_total. by rewrite filter_app, fmap_app, sumZ_app. Qed.

Lemma Amount_Neg_spec a :
  in_int64 a -> Amount_Neg a = if a =? min_int64 then Err ErrOverflow else Ok (- a).
Proof. intros H. unfold Amount_Neg. cases_if; [done|]. rewrite wrap64_id; [done|]. int_lia. Qed.

Lemma Amount_Add_in_range a b :
  in_int64 a -> in_int64 b -> in_int64 (a + b) -> Amount_Add a b = Ok (a + b).
Proof. intros Ha Hb H. unfold Amount_Add. rewrite wrap64_id by done. cases_if; [lia|done]. Qed.

Lemma Amount_Add_ok a b c : in_int64 a -> in_int64 b -> Amount_Add a b = Ok c -> c = a + b /\ in_int64 c.
Proof.
  unfold Amount_Add. intros Ha Hb H. cases_if; [done|]. injection H as <-.
  split; [|apply wrap64_range]. apply wrap64_id. int_lia.
Qed.

(** The loop accepts exactly the transfers that satisfy [transfer_ok] and
    appends a debit and a credit for each. *)
Lemma build_postings_spec acc ts :
  Forall (fun t => in_int64 (tr_Amount t)) ts ->
  build_postings acc ts =
    if decide (Forall transfer_ok ts) then Ok (acc ++ mbind transfer_postings ts) else Err ErrInvalidTransfer.
Proof.
  revert acc. induction ts as [|t ts IH]; intros acc Hr; cbn [build_postings].
  { rewrite decide_True by done. simpl. by rewrite app_nil_r. }
  apply Forall_cons_1 in Hr as [Ht Hr].
  destruct (decide (transfer_ok t)) as [Hok|Hok].
  - destruct Hok as (Ha & Hne & Hd & Hc).
    rewrite (proj2 (Z.leb_gt _ _)), !(proj2 (Z.eqb_neq _ _)) by lia. simpl.
    rewrite Amount_Neg_spec, (proj2 (Z.eqb_neq _ _)) by int_lia. simpl. rewrite IH by done.
    destruct (decide (Forall transfer_ok ts)) as [Hts|Hts].
    + rewrite decide_True by (constructor; [unfold transfer_ok; done|done]). by rewrite <- app_assoc.
    + rewrite decide_False; [done|]. by intros [_ ?]%Forall_cons_1.
  - rewrite decide_False by (by intros [? _]%Forall_cons_1). unfold transfer_ok in Hok.
    cases_if; try done; exfalso; apply Hok; int_lia.
Qed.

(** Postings alternate [+a, -a], so the running total never leaves the range of
    one transfer and the checked sum cannot fail. *)
Lemma sum_postings_transfers ts :
  Forall transfer_ok ts -> sum_postings 0 (mbind transfer_postings ts) = Ok 0.
Proof.
  induction 1 as [|t ts (Ha & _) _ IH]; [done|]. cbn [mbind list_bind transfer_postings app sum_postings po_Amount].
  rewrite Amount_Add_in_range by int_lia. simpl.
  rewrite Amount_Add_in_range by int_lia. simpl. rewrite Z.add_opp_diag_r. exact IH.
Qed.

Lemma posting_total_transfers ts : posting_total (mbind transfer_postings ts) = 0.
Proof.
  induction ts as [|t ts IH]; [done|].
  change (mbind transfer_postings (t :: ts)) with (transfer_postings t ++ mbind transfer_postings ts).
  rewrite posting_total_app, IH. unfold posting_total, sumZ. simpl. lia.
Qed.

Lemma sum_postings_ok total ps r :
  in_int64 total -> Forall (fun p => in_int64 (po_Amount p)) ps ->
  sum_postings total ps = Ok r -> r = total + posting_total ps.
Proof.
  revert total. induction ps as [|p ps IH]; intros total Ht Hp H; cbn [sum_postings] in H.
  - injection H as <-. unfold posting_total, sumZ. simpl. lia.
  - apply Forall_cons_1 in Hp as [Hp Hps]. apply res_bind_ok in H as (n & Hn & H).
    destruct (Amount_Add total (po_Amount p)) as [n'|] eqn:Hadd; [|done]. injection Hn as <-.
    apply Amount_Add_ok in Hadd as [-> Hr]; [|done..].
    rewrite (IH _ Hr Hps H). unfold posting_total. rewrite fmap_cons, sumZ_cons. lia.
Qed.

Lemma NewTransaction_spec k t d ts :
  Forall (fun t => in_int64 (tr_Amount t)) ts ->
  NewTransaction k t d ts =
    if decide (k = ""%string) then Err ErrInvalidTransfer
    else if decide (ts = []) then Err ErrNoTransfers
    else if decide (t = 0) then Err ErrInvalidTransfer
    else if decide (Forall transfer_ok ts) then Ok (mkTransaction k t d (mbind transfer_postings ts))
    else Err ErrInvalidTransfer.
Proof.
  intros Hr. unfold NewTransaction, IsZero. destruct (decide (k = "")); [done|].
  destruct ts as [|t1 ts]; [done|]. rewrite (decide_False (P := length _ = _)) by done.
  rewrite (decide_False (P := _ :: _ = _)) by done.
  destruct (t =? 0) eqn:Ht.
  { apply Z.eqb_eq in Ht as ->. by rewrite decide_True. }
  apply Z.eqb_neq in Ht. rewrite decide_False by done.
  rewrite build_postings_spec by done. destruct (decide (Forall transfer_ok _)) as [Hok|]; [|done].
  unfold mbind at 1, res_bind at 1, Transaction_Balance. cbn [tx_postings app].
  rewrite (sum_postings_transfers _ Hok). done.
Qed.

(** What a transaction that was built holds. *)
Lemma NewTransaction_ok (k : string) (t : Time) (d : string) (ts : list Transfer) (tx : Transaction) :
  Forall (fun tr => in_int64 (tr_Amount tr)) ts ->
  NewTransaction k t d ts = Ok tx ->
  posting_total (tx_postings tx) = 0 /\ Transaction_Balance tx = Ok 0 /\
  Forall (fun p => in_int64 (po_Amount p) /\ po_Amount p <> 0) (tx_postings tx).
Proof.
  intros Hr H. rewrite NewTransaction_spec in H by done. repeat case_decide; try done. injection H as <-.
  split_and!; [apply posting_total_transfers|by apply sum_postings_transfers|]. cbn [tx_postings].
  match goal with Hok : Forall transfer_ok ts |- _ => revert Hok end. clear.
  induction 1 as [|t ts (Ha & _) _ IH]; [constructor|]. cbn [mbind list_bind transfer_postings app].
  repeat constructor; simpl; try int_lia. exact IH.
Qed.

(** ** Properties *)

(** [NewTransaction] accepts exactly a non-empty key, a non-zero time and a
    non-empty list of transfers that are each positive and between two distinct
    set accounts, and returns a debit and a credit per transfer; otherwise it
    returns [ErrInvalidTransfer] or [ErrNoTransfers]. In particular the final
    balance check can neither overflow nor find an imbalance. *)
Theorem NewTransaction_total (k : string) (t : Time) (d : string) (ts : list Transfer) :
  Forall (fun tr => in_int64 (tr_Amount tr)) ts ->
  NewTransaction k t d ts =
    if decide (k = ""%string) then Err ErrInvalidTransfer
    else if decide (ts = []) then Err ErrNoTransfers
    else if decide (t = 0) then Err ErrInvalidTransfer
    else if decide (Forall transfer_ok ts) then Ok (mkTransaction k t d (mbind transfer_postings ts))
    else Err ErrInvalidTransfer.
Proof. apply NewTransaction_spec. Qed.

Definition sample_transfers : list Transfer := [mkTransfer 1 2 500; mkTransfer 1 3 max_int64].

Lemma NewTransaction_total_witness :
  NewTransaction "k" 7 "d" sample_transfers
  = Ok (mkTransaction "k" 7 "d" [mkPosting 1 500; mkPosting 2 (-500);
                                 mkPosting 1 max_int64; mkPosting 3 (- max_int64)]).
Proof.
  rewrite (NewTransaction_total "k" 7 "d" sample_transfers) by decide_now.
  vm_compute. reflexivity.
Defined.


