(* ===== verification/Pricing.v ===== *)
(** * Pricing: [billing/pricing/pricing.go]

    Rating is a pure function from usage, a plan and a meter registry to line
    items. [big.Int] values are [Z]; a Go map used as an accumulator is a
    [gmap], whose iteration order [map_to_list] fixes arbitrarily and the sort
    makes irrelevant. *)

From stdpp Require Import sorting.
From S2P Require Import Prelude Decimal Amount Quantity Ledger.

(** ** Data *)

Abbreviation Model := string (only parsing).

Definition Flat : Model := "flat".

Definition Graduated : Model := "graduated".

Definition Volume : Model := "volume".

Record Tier : Type := mkTier {
  ti_UpTo : option Quantity;
  ti_UnitPrice : Amount;
  ti_FlatFee : Amount
}.

Record Price : Type := mkPrice {
  pr_Meter : string;
  pr_Model : Model;
  pr_UnitPrice : Amount;
  pr_Tiers : list Tier
}.

Record Plan : Type := mkPlan {
  pl_Name : string;
  pl_Prices : list Price
}.

Record Meter : Type := mkMeter {
  me_Name : string;
  me_Unit : string
}.

Record Registry : Type := mkRegistry {
  re_meters : gmap string Meter
}.

Record Usage : Type := mkUsage {
  us_Meter : string;
  us_Quantity : Quantity
}.

Record LineItem : Type := mkLineItem {
  li_Meter : string;
  li_Quantity : Quantity;
  li_Amount : Amount
}.

Inductive pricing_err : Type :=
| ErrUnknownMeter
| ErrNoPrice
| ErrInvalidPrice
| ErrNegativeUsage
| ErrMeterName
| ErrMeterTwice
| EPrAmount (e : amount_err)
| EPrQuantity (e : quantity_err).

(** Errors of the two number types, wrapped on their way up. *)
Definition amount_res {A} (r : res amount_err A) : res pricing_err A :=
  match r with Ok a => Ok a | Err e => Err (EPrAmount e) end.

Definition quantity_res {A} (r : res quantity_err A) : res pricing_err A :=
  match r with Ok a => Ok a | Err e => Err (EPrQuantity e) end.

(** ** Registry *)

Fixpoint register_all (ms : gmap string Meter) (meters : list Meter) : res pricing_err (gmap string Meter) :=
  match meters with
  | [] => Ok ms
  | m :: rest =>
      if decide (me_Name m = ""%string) then Err ErrMeterName
      else match ms !! me_Name m with
           | Some _ => Err ErrMeterTwice
           | None => register_all (<[me_Name m := m]> ms) rest
           end
  end.

Definition NewRegistry (meters : list Meter) : res pricing_err Registry :=
  ms ← register_all ∅ meters; Ok (mkRegistry ms).

Definition Registry_Known (r : Registry) (name : string) : bool :=
  bool_decide (is_Some (re_meters r !! name)).

(** ** Prices *)

Definition multiply (quantity : Quantity) (unitPrice : Amount) : res pricing_err Amount :=
  if (quantity =? 0) || (unitPrice =? 0) then Ok 0
  else
    let product := quantity * unitPrice in
    let quotient := Z.quot product quantityFactor in
    let remainder := Z.rem product quantityFactor in
    let doubled := Z.shiftl (Z.abs remainder) 1 in
    let quotient :=
      if quantityFactor <=? doubled then
        if product <? 0 then quotient - 1 else quotient + 1
      else quotient in
    if in_int64b quotient then Ok quotient else Err (EPrAmount ErrOverflow).

(** The loop of [validateTiers]; [last] is [i == len(tiers)-1]. *)
Fixpoint validate_tiers_from (previous : Quantity) (tiers : list Tier) : res pricing_err unit :=
  match tiers with
  | [] => Ok tt
  | tier :: rest =>
      let last := bool_decide (rest = []) in
      match ti_UpTo tier with
      | None => if last then validate_tiers_from previous rest else Err ErrInvalidPrice
      | Some upTo =>
          if last then Err ErrInvalidPrice
          else if upTo <=? previous then Err ErrInvalidPrice
          else validate_tiers_from upTo rest
      end
  end.

#[global] Instance Tier_eq_dec : EqDecision Tier.
Proof. solve_decision. Defined.

Definition validateTiers (tiers : list Tier) : res pricing_err unit :=
  if decide (length tiers = 0)%nat then Err ErrInvalidPrice
  else validate_tiers_from 0 tiers.

(** The loop of [applyGraduated]: [break] when everything is consumed,
    [continue] when nothing of the quantity falls in the tier. *)
Fixpoint graduated_loop (quantity : Quantity) (total : Amount) (consumed : Quantity)
    (tiers : list Tier) : res pricing_err Amount :=
  match tiers with
  | [] => Ok total
  | tier :: rest =>
      if quantity <=? consumed then Ok total
      else
        let portion :=
          match ti_UpTo tier with
          | None => wrap64 (quantity - consumed)
          | Some upTo =>
              let upper := if quantity <? upTo then quantity else upTo in
              wrap64 (upper - consumed)
          end in
        if portion <=? 0 then graduated_loop quantity total consumed rest
        else
          amount ← multiply portion (ti_UnitPrice tier);
          next ← amount_res (Amount_Add total amount);
          next ← amount_res (Amount_Add next (ti_FlatFee tier));
          graduated_loop quantity next (wrap64 (consumed + portion)) rest
  end.

Definition applyGraduated (tiers : list Tier) (quantity : Quantity) : res pricing_err Amount :=
  _ ← validateTiers tiers;
  graduated_loop quantity 0 0 tiers.

Fixpoint volume_loop (quantity : Quantity) (tiers : list Tier) : res pricing_err Amount :=
  match tiers with
  | [] => Err ErrInvalidPrice
  | tier :: rest =>
      if match ti_UpTo tier with None => true | Some upTo => quantity <=? upTo end then
        amount ← multiply quantity (ti_UnitPrice tier);
        amount_res (Amount_Add amount (ti_FlatFee tier))
      else volume_loop quantity rest
  end.

Definition applyVolume (tiers : list Tier) (quantity : Quantity) : res pricing_err Amount :=
  _ ← validateTiers tiers;
  if quantity =? 0 then Ok 0 else volume_loop quantity tiers.

Definition applyPrice (price : Price) (quantity : Quantity) : res pricing_err Amount :=
  if decide (pr_Model price = Flat) then multiply quantity (pr_UnitPrice price)
  else if decide (pr_Model price = Graduated) then applyGraduated (pr_Tiers price) quantity
  else if decide (pr_Model price = Volume) then applyVolume (pr_Tiers price) quantity
  else Err ErrInvalidPrice.

Fixpoint price_for (prices : list Price) (meter : string) : option Price :=
  match prices with
  | [] => None
  | p :: rest => if decide (pr_Meter p = meter) then Some p else price_for rest meter
  end.

Definition priceFor (plan : Plan) (meter : string) : option Price :=
  price_for (pl_Prices plan) meter.

(** ** Rating *)

(** The first loop of [Rate]: check each usage and add it to its meter's total. *)
Fixpoint accumulate (registry : Registry) (totals : gmap string Quantity) (usages : list Usage)
    : res pricing_err (gmap string Quantity) :=
  match usages with
  | [] => Ok totals
  | u :: rest =>
      if negb (Registry_Known registry (us_Meter u)) then Err ErrUnknownMeter
      else if us_Quantity u <? 0 then Err ErrNegativeUsage
      else
        sum ← quantity_res (Quantity_Add (default 0 (totals !! us_Meter u)) (us_Quantity u));
        accumulate registry (<[us_Meter u := sum]> totals) rest
  end.

(** [sort.Strings]: byte-wise lexicographic order. *)
Definition sort_strings (l : list string) : list string := merge_sort String.le l.

(** The second loop: price each meter in order. *)
Fixpoint rate_meters (plan : Plan) (totals : gmap string Quantity) (meters : list string)
    : res pricing_err (list LineItem) :=
  match meters with
  | [] => Ok []
  | meter :: rest =>
      match priceFor plan meter with
      | None => Err ErrNoPrice
      | Some price =>
          let quantity := default 0 (totals !! meter) in
          amount ← applyPrice price quantity;
          items ← rate_meters plan totals rest;
          Ok (mkLineItem meter quantity amount :: items)
      end
  end.

Definition Rate (usages : list Usage) (plan : Plan) (registry : Registry) : res pricing_err (list LineItem) :=
  totals ← accumulate registry ∅ usages;
  let meters := (map_to_list totals).*1 in
  rate_meters plan totals (sort_strings meters).

(** ** Specification *)

(** Half-up rounding of [n/d] on the absolute value. *)
Definition round_half_up (n d : Z) : Z :=
  if n <? 0 then - ((2 * (- n) + d) / (2 * d)) else (2 * n + d) / (2 * d).

(** How much of [q] falls in each tier, the first tier starting at [prev]. *)
Fixpoint tier_portions (q prev : Z) (tiers : list Tier) : list Z :=
  match tiers with
  | [] => []
  | t :: rest =>
      match ti_UpTo t with
      | None => Z.max 0 (q - prev) :: tier_portions q q rest
      | Some u => Z.max 0 (Z.min u q - prev) :: tier_portions q u rest
      end
  end.

(** What a tier costs for the portion it holds: nothing when it is not reached. *)
Definition tier_charge (t : Tier) (portion : Z) : Z :=
  if 0 <? portion then round_half_up (portion * ti_UnitPrice t) quantityFactor + ti_FlatFee t else 0.

Definition graduated_spec_from (q prev : Z) (tiers : list Tier) : Z :=
  sumZ (zip_with tier_charge tiers (tier_portions q prev tiers)).

(** The tier a total lands in: the first whose bound is not exceeded. *)
Definition volume_tier (q : Z) (tiers : list Tier) : option Tier :=
  List.find (fun t => match ti_UpTo t with None => true | Some u => q <=? u end) tiers.

(** Prices and fees that are non-negative [int64]s. *)
Definition tier_nonneg (t : Tier) : Prop :=
  0 <= ti_UnitPrice t <= max_int64 /\ 0 <= ti_FlatFee t <= max_int64.

#[global] Instance tier_nonneg_dec t : Decision (tier_nonneg t).
Proof. unfold tier_nonneg. apply _. Defined.

(** A checked result: the exact value if it is an [int64], overflow otherwise. *)
Definition checked (v : Z) : res pricing_err Amount :=
  if in_int64b v then Ok v else Err (EPrAmount ErrOverflow).

(** The usage of one meter. *)
Definition usage_total (meter : string) (us : list Usage) : Z :=
  sumZ (us_Quantity <$> filter (fun u => us_Meter u = meter) us).

(** ** Lemmas on single prices *)

Lemma quantityFactor_pos : 0 < quantityFactor.
Proof. unfold quantityFactor. lia. Qed.

Lemma multiply_checked q p : multiply q p = checked (round_half_up (q * p) quantityFactor).
Proof.
  unfold multiply, checked.
  destruct ((q =? 0) || (p =? 0)) eqn:E.
  { assert (q * p = 0) as -> by lia. done. }
  set (n := q * p). rewrite Z.shiftl_mul_pow2 by lia. change (2 ^ 1) with 2.
  assert ((if quantityFactor <=? Z.abs (Z.rem n quantityFactor) * 2
           then if n <? 0 then Z.quot n quantityFactor - 1 else Z.quot n quantityFactor + 1
           else Z.quot n quantityFactor) = round_half_up n quantityFactor) as ->; [|done].
  unfold round_half_up, quantityFactor. clearbody n. clear.
  destruct (n <? 0) eqn:En; cases_if; lia.
Qed.

Lemma round_half_up_error n d :
  0 < d -> 2 * Z.abs (round_half_up n d * d - n) <= d.
Proof. intros Hd. unfold round_half_up. cases_if; nia. Qed.

Lemma round_half_up_nonneg n d : 0 <= n -> 0 < d -> 0 <= round_half_up n d.
Proof.
  intros Hn Hd. unfold round_half_up. rewrite (proj2 (Z.ltb_ge _ _)) by done. apply Z.div_pos; lia.
Qed.

Lemma checked_add v w : 0 <= v <= max_int64 -> 0 <= w <= max_int64 ->
  amount_res (Amount_Add v w) = checked (v + w).
Proof.
  intros Hv Hw. unfold checked. destruct (in_int64b (v + w)) eqn:E.
  - rewrite Amount_Add_in_range; [done|int_lia..].
  - unfold Amount_Add. cases_if; [done|]. int_lia.
Qed.

Lemma in_int64b_nonneg v : 0 <= v -> in_int64b v = (v <=? max_int64).
Proof. int_lia. Qed.

Lemma tier_charge_nonneg t p : tier_nonneg t -> 0 <= tier_charge t p.
Proof.
  intros [Hp Hf]. unfold tier_charge. cases_if; [|lia].
  assert (0 <= round_half_up (p * ti_UnitPrice t) quantityFactor); [|lia].
  apply round_half_up_nonneg; [nia|apply quantityFactor_pos].
Qed.

(** One tier's step of the loop adds exactly its charge. *)
Lemma tier_step t portion total :
  tier_nonneg t -> 0 < portion -> 0 <= total <= max_int64 ->
  (amount ← multiply portion (ti_UnitPrice t);
   next ← amount_res (Amount_Add total amount);
   amount_res (Amount_Add next (ti_FlatFee t))) = checked (total + tier_charge t portion).
Proof.
  intros [Hp Hf] Hpos Ht. rewrite multiply_checked. unfold tier_charge. rewrite (proj2 (Z.ltb_lt _ _)) by done.
  assert (Hr : 0 <= round_half_up (portion * ti_UnitPrice t) quantityFactor)
    by (apply round_half_up_nonneg; [nia|apply quantityFactor_pos]).
  set (r := round_half_up _ _) in *. clearbody r.
  unfold checked at 1. rewrite in_int64b_nonneg by done. destruct (r <=? max_int64) eqn:E1; simpl.
  - rewrite checked_add by lia. unfold checked at 1. rewrite in_int64b_nonneg by lia.
    destruct (total + r <=? max_int64) eqn:E2; simpl.
    + rewrite checked_add by lia. by rewrite Z.add_assoc.
    + unfold checked. rewrite in_int64b_nonneg by lia. rewrite (proj2 (Z.leb_gt _ _)) by lia. done.
  - unfold checked. rewrite in_int64b_nonneg by lia. rewrite (proj2 (Z.leb_gt _ _)) by lia. done.
Qed.

Lemma graduated_spec_from_nonneg q prev tiers :
  Forall tier_nonneg tiers -> 0 <= graduated_spec_from q prev tiers.
Proof.
  intros H. apply sumZ_nonneg. revert prev. induction H as [|t ts Ht _ IH]; intros prev; [constructor|].
  cbn [tier_portions]. destruct (ti_UpTo t); simpl; constructor; auto using tier_charge_nonneg.
Qed.

Lemma tier_portions_zero q prev tiers :
  q <= prev -> validate_tiers_from prev tiers = Ok tt ->
  Forall (fun p => p = 0) (tier_portions q prev tiers).
Proof.
  revert prev. induction tiers as [|t ts IH]; intros prev Hq Hv; [constructor|].
  cbn [validate_tiers_from tier_portions] in *. destruct (ti_UpTo t) as [u|].
  - case_bool_decide; [done|]. destruct (u <=? prev) eqn:E; [done|]. constructor; [lia|]. apply IH; [lia|done].
  - case_bool_decide; [|done]. subst. repeat constructor. lia.
Qed.

Lemma charges_zero ts ps :
  Forall (fun p => p = 0) ps -> sumZ (zip_with tier_charge ts ps) = 0.
Proof.
  intros H. revert ts. induction H as [|p ps -> _ IH]; intros [|t ts]; try done.
  simpl. change (sumZ (?a :: ?b)) with (a + sumZ b). rewrite IH. unfold tier_charge. simpl. lia.
Qed.

Lemma graduated_spec_cons q prev t ts :
  graduated_spec_from q prev (t :: ts) =
    match ti_UpTo t with
    | None => tier_charge t (Z.max 0 (q - prev)) + graduated_spec_from q q ts
    | Some u => tier_charge t (Z.max 0 (Z.min u q - prev)) + graduated_spec_from q u ts
    end.
Proof. unfold graduated_spec_from. cbn [tier_portions]. by destruct (ti_UpTo t). Qed.

Lemma checked_bind v (f : Amount -> res pricing_err Amount) w :
  0 <= w -> 0 <= v ->
  (v <= max_int64 -> f v = checked (v + w)) -> (checked v ≫= f) = checked (v + w).
Proof.
  intros Hw Hv Hf. unfold checked at 1. rewrite in_int64b_nonneg by done.
  destruct (v <=? max_int64) eqn:E; simpl; [apply Hf; lia|].
  unfold checked. rewrite in_int64b_nonneg, (proj2 (Z.leb_gt _ _)) by lia. done.
Qed.

Lemma graduated_loop_spec q total prev tiers :
  validate_tiers_from prev tiers = Ok tt -> Forall tier_nonneg tiers ->
  0 <= q <= max_int64 -> 0 <= prev -> 0 <= total <= max_int64 ->
  graduated_loop q total (Z.min q prev) tiers = checked (total + graduated_spec_from q prev tiers).
Proof.
  revert total prev. induction tiers as [|t ts IH]; intros total prev Hv Hn Hq Hp Ht.
  { unfold checked, graduated_spec_from. simpl. rewrite Z.add_0_r, in_int64b_nonneg by lia.
    by rewrite (proj2 (Z.leb_le _ _)) by lia. }
  pose proof (tier_portions_zero q prev (t :: ts)) as Hzero.
  apply Forall_cons_1 in Hn as [Hn Hns].
  cbn [graduated_loop]. destruct (q <=? Z.min q prev) eqn:Eq.
  { unfold graduated_spec_from. rewrite charges_zero by (apply Hzero; [lia|done]).
    unfold checked. rewrite Z.add_0_r, in_int64b_nonneg, (proj2 (Z.leb_le _ _)) by lia. done. }
  rewrite graduated_spec_cons. cbn [validate_tiers_from] in Hv.
  assert (Z.min q prev = prev) as -> by lia.
  destruct (ti_UpTo t) as [u|] eqn:Hu.
  - case_bool_decide; [done|]. destruct (u <=? prev) eqn:Eu; [done|].
    cbv zeta. match goal with |- context [wrap64 (?e - prev)] =>
      replace e with (Z.min u q) by (destruct (q <? u) eqn:?; lia) end.
    rewrite !wrap64_id by int_lia. rewrite (proj2 (Z.leb_gt _ 0)) by lia.
    rewrite (Z.max_r 0) by lia.
    pose proof (tier_charge_nonneg t (Z.min u q - prev) Hn).
    pose proof (graduated_spec_from_nonneg q u ts Hns).
    transitivity (checked (total + tier_charge t (Z.min u q - prev)) ≫= fun n => graduated_loop q n (Z.min q u) ts).
    + rewrite <- tier_step by (done || lia). destruct (multiply _ _); [simpl|done].
      destruct (amount_res (Amount_Add total a)); [simpl|done].
      by replace (prev + (Z.min u q - prev)) with (Z.min q u) by lia.
    + rewrite Z.add_assoc. apply checked_bind; [done|lia|]. intros Hm. apply IH; (done || lia).
  - case_bool_decide; [|done]. subst ts. cbv zeta.
    rewrite !wrap64_id by int_lia. rewrite (proj2 (Z.leb_gt _ 0)) by lia. rewrite (Z.max_r 0) by lia.
    change (graduated_spec_from q q []) with 0. rewrite Z.add_0_r, <- (tier_step t (q - prev) total) by (done || lia).
    destruct (multiply _ _); [simpl|done]. destruct (amount_res (Amount_Add total a)); [simpl|done].
    by destruct (amount_res _).
Qed.

(** Every unit lands in exactly one tier. *)
Lemma tier_portions_sum q prev tiers :
  validate_tiers_from prev tiers = Ok tt -> tiers <> [] ->
  sumZ (tier_portions q prev tiers) = Z.max 0 (q - prev).
Proof.
  revert prev. induction tiers as [|t ts IH]; intros prev Hv Hne; [done|].
  cbn [validate_tiers_from tier_portions] in *. destruct (ti_UpTo t) as [u|].
  - case_bool_decide; [done|]. destruct (u <=? prev) eqn:Eu; [done|].
    rewrite sumZ_cons, IH by done. lia.
  - case_bool_decide; [|done]. subst. cbn [tier_portions]. unfold sumZ. simpl. lia.
Qed.

Lemma volume_loop_spec q tiers prev :
  validate_tiers_from prev tiers = Ok tt -> tiers <> [] ->
  exists t, volume_tier q tiers = Some t /\ t ∈ tiers /\
    volume_loop q tiers = (amount ← multiply q (ti_UnitPrice t); amount_res (Amount_Add amount (ti_FlatFee t))).
Proof.
  revert prev. induction tiers as [|t ts IH]; intros prev Hv Hne; [done|].
  unfold volume_tier in *. cbn [validate_tiers_from volume_loop List.find] in *.
  destruct (ti_UpTo t) as [u|].
  - destruct (q <=? u); [exists t; split_and!; [done|left|done]|].
    case_bool_decide; [done|]. destruct (u <=? prev); [done|].
    destruct (IH u Hv) as (t' & Hf & Hin & Hl); [done|]. exists t'. split_and!; [done|by right|done].
  - exists t. split_and!; [done|left|done].
Qed.

(** ** Lemmas on rating *)

Lemma usage_total_cons m u us :
  usage_total m (u :: us) = (if decide (us_Meter u = m) then us_Quantity u else 0) + usage_total m us.
Proof. unfold usage_total. rewrite filter_cons. by case_decide. Qed.

Lemma usage_total_nonneg m us : Forall (fun u => 0 <= us_Quantity u) us -> 0 <= usage_total m us.
Proof.
  induction 1 as [|u us Hu _ IH]; [done|]. rewrite usage_total_cons. case_decide; lia.
Qed.

Lemma usage_total_notin m us : m ∉ us_Meter <$> us -> usage_total m us = 0.
Proof.
  induction us as [|u us IH]; [done|]. intros [Hne Hnin]%not_elem_of_cons.
  rewrite usage_total_cons, decide_False, IH; [done..|congruence].
Qed.

#[global] Instance usage_total_perm m : Proper ((≡ₚ) ==> (=)) (usage_total m).
Proof. intros us us' H. unfold usage_total. by rewrite H. Qed.

(** The conditions under which the first loop succeeds. *)
Definition usages_ok (registry : Registry) (us : list Usage) : Prop :=
  Forall (fun u => Registry_Known registry (us_Meter u) = true) us /\
  Forall (fun u => 0 <= us_Quantity u) us /\
  forall m, usage_total m us <= max_int64.

Lemma accumulate_ok registry t0 us :
  Forall (fun u => in_int64 (us_Quantity u)) us ->
  (forall m, 0 <= default 0 (t0 !! m) <= max_int64) ->
  Forall (fun u => Registry_Known registry (us_Meter u) = true) us ->
  Forall (fun u => 0 <= us_Quantity u) us ->
  (forall m, default 0 (t0 !! m) + usage_total m us <= max_int64) ->
  exists t, accumulate registry t0 us = Ok t /\
    forall m, t !! m = if decide (m ∈ us_Meter <$> us)
                       then Some (default 0 (t0 !! m) + usage_total m us) else t0 !! m.
Proof.
  revert t0. induction us as [|u us IH]; intros t0 Hr Ht0 Hk Hn Hmax.
  { exists t0. split; [done|]. intros m. rewrite decide_False; [done|]. apply not_elem_of_nil. }
  apply Forall_cons_1 in Hr as [Hr Hrs], Hk as [Hk Hks], Hn as [Hn Hns].
  cbn [accumulate]. rewrite Hk. simpl negb. cbv iota. rewrite (proj2 (Z.ltb_ge _ _)) by done.
  pose proof (Hmax (us_Meter u)) as Hu. rewrite usage_total_cons, decide_True in Hu by done.
  pose proof (usage_total_nonneg (us_Meter u) us Hns) as Hp. pose proof (Ht0 (us_Meter u)) as Ht.
  rewrite Quantity_Add_spec, in_int64b_nonneg, (proj2 (Z.leb_le _ _)) by int_lia. simpl.
  set (q := default 0 (t0 !! us_Meter u) + us_Quantity u).
  assert (Hq : forall m, default 0 (<[us_Meter u := q]> t0 !! m)
    = default 0 (t0 !! m) + if decide (us_Meter u = m) then us_Quantity u else 0).
  { intros m. rewrite lookup_insert. case_decide; [by subst|lia]. }
  destruct (IH (<[us_Meter u := q]> t0)) as (t & -> & Hspec); [done| | |done| |].
  { intros m. rewrite Hq. specialize (Ht0 m). case_decide; [subst m; lia|lia]. }
  { done. }
  { intros m. rewrite Hq. specialize (Hmax m). rewrite usage_total_cons in Hmax. lia. }
  exists t. split; [done|]. intros m. rewrite Hspec, Hq, usage_total_cons, lookup_insert.
  change (us_Meter <$> u :: us) with (us_Meter u :: (us_Meter <$> us)).
  destruct (decide (us_Meter u = m)) as [<-|Hne].
  - rewrite (decide_True (P := us_Meter u ∈ _ :: _)) by left. unfold q.
    destruct (decide (us_Meter u ∈ us_Meter <$> us)) as [|Hnin]; [f_equal; lia|].
    assert (usage_total (us_Meter u) us = 0) as ->; [|f_equal; lia].
    by apply usage_total_notin.
  - destruct (decide (m ∈ us_Meter <$> us)) as [Hin|Hnin].
    + rewrite decide_True by (by right). f_equal. lia.
    + rewrite decide_False; [done|]. by intros [->|?]%elem_of_cons.
Qed.

Lemma accumulate_inv registry t0 us t :
  Forall (fun u => in_int64 (us_Quantity u)) us ->
  (forall m, 0 <= default 0 (t0 !! m) <= max_int64) ->
  accumulate registry t0 us = Ok t ->
  Forall (fun u => Registry_Known registry (us_Meter u) = true) us /\
  Forall (fun u => 0 <= us_Quantity u) us /\
  forall m, default 0 (t0 !! m) + usage_total m us <= max_int64.
Proof.
  revert t0. induction us as [|u us IH]; intros t0 Hr Ht0 H.
  { split_and!; [constructor..|]. intros m. specialize (Ht0 m). unfold usage_total, sumZ. simpl. lia. }
  apply Forall_cons_1 in Hr as [Hr Hrs]. cbn [accumulate] in H.
  destruct (Registry_Known registry (us_Meter u)) eqn:Hk; [|done]. simpl negb in H. cbv iota in H.
  destruct (us_Quantity u <? 0) eqn:Hn; [done|].
  apply res_bind_ok in H as (q & Hq & H). pose proof (Ht0 (us_Meter u)) as Ht.
  rewrite Quantity_Add_spec, in_int64b_nonneg in Hq by int_lia.
  destruct (_ <=? max_int64) eqn:Hle in Hq; [|done]. injection Hq as <-.
  apply IH in H as (Hks & Hns & Hmax); [|done|].
  - split_and!; [by constructor|constructor; [lia|done]|]. intros m. specialize (Hmax m).
    rewrite usage_total_cons. rewrite lookup_insert in Hmax. case_decide; [subst; simpl in Hmax; lia|lia].
  - intros m. rewrite lookup_insert. case_decide; [simpl; lia|done].
Qed.

Lemma accumulate_empty registry us t :
  Forall (fun u => in_int64 (us_Quantity u)) us ->
  accumulate registry ∅ us = Ok t <->
  usages_ok registry us /\
  forall m, t !! m = if decide (m ∈ us_Meter <$> us) then Some (usage_total m us) else None.
Proof.
  intros Hr. split.
  - intros H. assert (H0 : forall m, 0 <= default 0 ((∅ : gmap string Quantity) !! m) <= max_int64).
    { intros m. rewrite lookup_empty. simpl. int_lia. }
    destruct (accumulate_inv registry ∅ us t Hr H0 H) as (Hk & Hn & Hm).
    split; [split_and!; [done..|intros m; specialize (Hm m); rewrite lookup_empty in Hm; simpl in Hm; lia]|].
    destruct (accumulate_ok registry ∅ us Hr H0 Hk Hn Hm) as (t' & Ht' & Hspec).
    rewrite H in Ht'. injection Ht' as <-. intros m. rewrite Hspec, lookup_empty. by case_decide.
  - intros ((Hk & Hn & Hm) & Hspec).
    destruct (accumulate_ok registry ∅ us Hr) as (t' & Ht' & Hspec'); [| done | done | |].
    { intros m. rewrite lookup_empty. simpl. int_lia. }
    { intros m. rewrite lookup_empty. simpl. specialize (Hm m). lia. }
    rewrite Ht'. f_equal. apply map_eq. intros m. rewrite Hspec, Hspec', lookup_empty. by case_decide.
Qed.

Lemma usages_ok_perm registry us us' : us ≡ₚ us' -> usages_ok registry us -> usages_ok registry us'.
Proof.
  intros Hp (Hk & Hn & Hm). unfold usages_ok. rewrite <- Hp. split_and!; [done..|].
  intros m. by rewrite <- Hp.
Qed.

(** The sort forgets the order the map was walked in. *)
Lemma sort_strings_perm l k : l ≡ₚ k -> sort_strings l = sort_strings k.
Proof.
  intros H. apply (StronglySorted_unique String.le).
  - apply StronglySorted_merge_sort; apply _.
  - apply StronglySorted_merge_sort; apply _.
  - unfold sort_strings. by rewrite !merge_sort_Permutation.
Qed.

Lemma accumulate_perm registry us us' t :
  Forall (fun u => in_int64 (us_Quantity u)) us -> us ≡ₚ us' ->
  accumulate registry ∅ us = Ok t -> accumulate registry ∅ us' = Ok t.
Proof.
  intros Hr Hp [Hok Hspec]%accumulate_empty; [|done].
  apply accumulate_empty; [by rewrite <- Hp|]. split; [by eapply usages_ok_perm|].
  intros m. rewrite Hspec, (usage_total_perm m us us' Hp). apply decide_ext. by rewrite Hp.
Qed.

Lemma rate_meters_ok plan totals meters items :
  rate_meters plan totals meters = Ok items ->
  li_Meter <$> items = meters /\
  Forall (fun i => li_Quantity i = default 0 (totals !! li_Meter i) /\
    exists price, priceFor plan (li_Meter i) = Some price /\ applyPrice price (li_Quantity i) = Ok (li_Amount i)) items.
Proof.
  revert items. induction meters as [|m ms IH]; intros items H; cbn [rate_meters] in H.
  { by injection H as <-. }
  destruct (priceFor plan m) as [price|] eqn:Hp; [|done].
  apply res_bind_ok in H as (a & Ha & H). apply res_bind_ok in H as (its & Hits & H). injection H as <-.
  destruct (IH its Hits) as [<- Hf]. split; [done|]. constructor; [|done]. simpl. eauto.
Qed.

(** What a successful rating returns. *)
Lemma Rate_spec (us : list Usage) (plan : Plan) (registry : Registry) (items : list LineItem) :
  Forall (fun u => in_int64 (us_Quantity u)) us ->
  Rate us plan registry = Ok items ->
  Sorted String.le (li_Meter <$> items) /\ NoDup (li_Meter <$> items) /\
  (forall m, m ∈ li_Meter <$> items <-> m ∈ us_Meter <$> us) /\
  Forall (fun i => li_Quantity i = usage_total (li_Meter i) us /\
    exists price, priceFor plan (li_Meter i) = Some price /\ applyPrice price (li_Quantity i) = Ok (li_Amount i)) items.
Proof.
  intros Hr H. unfold Rate in H. apply res_bind_ok in H as (t & Ht & H).
  apply accumulate_empty in Ht as [_ Hspec]; [|done].
  apply rate_meters_ok in H as [Hm Hf].
  assert (Hperm : li_Meter <$> items ≡ₚ (map_to_list t).*1).
  { rewrite Hm. apply merge_sort_Permutation. }
  assert (Hdom : forall m, m ∈ li_Meter <$> items <-> m ∈ us_Meter <$> us).
  { intros m. rewrite Hperm, list_elem_of_fmap. split.
    - intros ([m' q] & -> & Hin). apply elem_of_map_to_list in Hin. rewrite Hspec in Hin.
      by case_decide.
    - intros Hin. exists (m, usage_total m us). split; [done|]. apply elem_of_map_to_list.
      by rewrite Hspec, decide_True. }
  split_and!.
  - rewrite Hm. apply Sorted_merge_sort, _.
  - rewrite Hperm. apply NoDup_fst_map_to_list.
  - exact Hdom.
  - rewrite Forall_forall in *. intros i Hi. destruct (Hf i Hi) as [Hq Hp]. split; [|done].
    rewrite Hq, Hspec, decide_True; [done|]. apply Hdom. by apply list_elem_of_fmap_2.
Qed.

(** An amount that was computed is an [int64]. *)
Lemma multiply_range q p a : multiply q p = Ok a -> in_int64 a.
Proof.
  unfold multiply. intros H. destruct ((q =? 0) || (p =? 0)); [injection H as <-; int_lia|]. cbv zeta in H.
  destruct (in_int64b _) eqn:E; [|done]. injection H as <-. by apply in_int64b_spec.
Qed.

Lemma Amount_Add_range a b c : Amount_Add a b = Ok c -> in_int64 c.
Proof. unfold Amount_Add. intros H. cases_if; [done|]. injection H as <-. apply wrap64_range. Qed.

Lemma graduated_loop_range q total cns tiers a : in_int64 total -> graduated_loop q total cns tiers = Ok a -> in_int64 a.
Proof.
  revert total cns. induction tiers as [|t ts IH]; intros total cns Ht H; cbn [graduated_loop] in H; [by injection H as <-|].
  destruct (q <=? cns); [by injection H as <-|]. destruct (_ <=? 0); [by eapply IH|].
  apply res_bind_ok in H as (x & _ & H). apply res_bind_ok in H as (y & _ & H). apply res_bind_ok in H as (z & Hz & H).
  eapply IH; [|exact H]. destruct (Amount_Add y _) as [w|] eqn:E; [|done]. injection Hz as <-. by eapply Amount_Add_range.
Qed.

Lemma volume_loop_range q tiers a : volume_loop q tiers = Ok a -> in_int64 a.
Proof.
  induction tiers as [|t ts IH]; cbn [volume_loop]; [done|]. destruct (match ti_UpTo t with None => _ | Some _ => _ end); [|done].
  intros H. apply res_bind_ok in H as (x & _ & H). destruct (Amount_Add x _) as [w|] eqn:E; [|done]. injection H as <-. by eapply Amount_Add_range.
Qed.

Lemma applyPrice_range price q a : applyPrice price q = Ok a -> in_int64 a.
Proof.
  unfold applyPrice. intros H. case_decide; [by eapply multiply_range|]. case_decide; [|case_decide; [|done]].
  - unfold applyGraduated in H. apply res_bind_ok in H as (? & _ & H). eapply graduated_loop_range; [|exact H]. int_lia.
  - unfold applyVolume in H. apply res_bind_ok in H as (? & _ & H). destruct (q =? 0); [injection H as <-; int_lia|]. by eapply volume_loop_range.
Qed.

(** The lines of a rating are in range. *)
Lemma Rate_range us plan registry items :
  Forall (fun u => in_int64 (us_Quantity u)) us -> Rate us plan registry = Ok items ->
  Forall (fun i => in_int64 (li_Amount i) /\ 0 <= li_Quantity i <= max_int64) items.
Proof.
  intros Hr H. pose proof (Rate_spec us plan registry items Hr H) as (_ & _ & _ & F).
  unfold Rate in H. apply res_bind_ok in H as (t & Ht & _). apply accumulate_empty in Ht as [(_ & Hn & Hm) _]; [|done].
  eapply Forall_impl; [exact F|]. cbn. intros i [-> (price & _ & Ha)]. split; [by eapply applyPrice_range|].
  split; [by apply usage_total_nonneg|apply Hm].
Qed.

(** A list with one usage per meter. *)
Lemma usage_total_map (f : string -> Z) ms m : NoDup ms -> m ∈ ms -> usage_total m (map (fun m => mkUsage m (f m)) ms) = f m.
Proof.
  induction ms as [|m' ms IH]; intros Nd Hm; [by apply elem_of_nil in Hm|]. apply NoDup_cons in Nd as [Hn Nd].
  cbn [map]. rewrite usage_total_cons. cbn [us_Meter us_Quantity]. case_decide as E.
  - subst. rewrite usage_total_notin; [lia|]. rewrite list_elem_of_fmap. intros (u & -> & Hu).
    apply list_elem_of_fmap in Hu as (m2 & -> & Hu). done.
  - apply elem_of_cons in Hm as [->|Hm]; [done|]. rewrite IH by done. lia.
Qed.

(** ** Properties *)

(** [multiply] is the exact product rounded once, half-up on the absolute
    value, to the ledger's scale: the result is within half a micro-unit of the
    true price, and it is refused exactly when it is not an [int64]. *)
Theorem multiply_rounds (q : Quantity) (p : Amount) :
  let r := round_half_up (q * p) quantityFactor in
  multiply q p = (if in_int64b r then Ok r else Err (EPrAmount ErrOverflow)) /\
  2 * Z.abs (r * quantityFactor - q * p) <= quantityFactor.
Proof.
  cbv zeta. split; [apply multiply_checked|]. apply round_half_up_error, quantityFactor_pos.
Qed.


Definition sample_tiers : list Tier :=
  [mkTier (Some 1000000000000) 10000 0; mkTier (Some 2000000000000) 5000 1000000; mkTier None 1000 0].


(** Volume pricing on valid tiers always finds a tier (the final error of
    [applyVolume] is unreachable), and charges every unit at the rate of the
    first tier whose bound the total does not exceed, plus that tier's fee. *)
Theorem applyVolume_total (tiers : list Tier) (q : Quantity) :
  validateTiers tiers = Ok tt -> Forall tier_nonneg tiers -> 0 < q <= max_int64 ->
  exists t, volume_tier q tiers = Some t /\ t ∈ tiers /\
    applyVolume tiers q =
      let total := round_half_up (q * ti_UnitPrice t) quantityFactor + ti_FlatFee t in
      if in_int64b total then Ok total else Err (EPrAmount ErrOverflow).
Proof.
  intros Hv Hn Hq. unfold applyVolume. rewrite Hv. unfold validateTiers in Hv. case_decide; [done|].
  destruct (volume_loop_spec q tiers 0 Hv) as (t & Hf & Hin & Hl); [by intros ->|].
  exists t. split_and!; [done..|]. simpl. rewrite (proj2 (Z.eqb_neq _ _)), Hl by lia.
  rewrite Forall_forall in Hn. specialize (Hn t Hin).
  pose proof (tier_step t q 0 Hn ltac:(lia) ltac:(int_lia)) as Hs.
  unfold tier_charge in Hs. rewrite (proj2 (Z.ltb_lt 0 q)), Z.add_0_l in Hs by lia.
  rewrite multiply_checked in *. unfold checked at 1 in Hs. unfold checked at 1.
  destruct (in_int64b (round_half_up _ _)) eqn:Hr; simpl in *; [|exact Hs].
  rewrite Amount_Add_in_range, Z.add_0_l in Hs; [exact Hs|int_lia|by apply in_int64b_spec|].
  rewrite Z.add_0_l. by apply in_int64b_spec.
Qed.

Lemma applyVolume_total_witness :
  exists t, volume_tier 1500000000000 sample_tiers = Some t /\ t ∈ sample_tiers /\
    applyVolume sample_tiers 1500000000000 = Ok 8500000.
Proof.
  destruct (applyVolume_total sample_tiers 1500000000000) as (t & H1 & H2 & H3);
    [reflexivity|decide_now|int_lia|].
  exists t. split; [exact H1|]. split; [exact H2|]. vm_compute in H1. injection H1 as <-. rewrite H3. reflexivity.
Defined.

(** Rating does not depend on the order of its input: two lists with the
    same usages in any order rate to the same line items, byte for byte. *)
Theorem Rate_order_independent (us us' : list Usage) (plan : Plan) (registry : Registry) (items : list LineItem) :
  Forall (fun u => in_int64 (us_Quantity u)) us -> us ≡ₚ us' ->
  Rate us plan registry = Ok items -> Rate us' plan registry = Ok items.
Proof.
  intros Hr Hp H. unfold Rate in *. apply res_bind_ok in H as (t & Ht & H).
  by rewrite (accumulate_perm registry us us' t Hr Hp Ht).
Qed.

Definition sample_registry : Registry := mkRegistry {["api" := mkMeter "api" "call"; "gb" := mkMeter "gb" "GB"]}.

Definition sample_plan : Plan :=
  mkPlan "p" [mkPrice "api" Flat 10000 []; mkPrice "gb" Graduated 0 sample_tiers].

Definition sample_usage : list Usage :=
  [mkUsage "gb" 1000000000; mkUsage "api" 3000000000; mkUsage "gb" 500000000].

Lemma Rate_order_independent_witness :
  Rate (reverse sample_usage) sample_plan sample_registry
  = Ok [mkLineItem "api" 3000000000 30000; mkLineItem "gb" 1500000000 15000].
Proof.
  apply (Rate_order_independent sample_usage (reverse sample_usage));
    [decide_now|symmetry; apply reverse_Permutation|vm_compute; reflexivity].
Defined.

(** C19: a successful rating has one line per meter that has usage, in strictly
    increasing byte order; each line carries the meter's exact total and the
    amount its price gives for that total, so rounding happens once per meter. *)
Theorem Rate_lines (us : list Usage) (plan : Plan) (registry : Registry) (items : list LineItem) :
  Forall (fun u => in_int64 (us_Quantity u)) us ->
  Rate us plan registry = Ok items ->
  Sorted String.le (li_Meter <$> items) /\ NoDup (li_Meter <$> items) /\
  (forall m, m ∈ li_Meter <$> items <-> m ∈ us_Meter <$> us) /\
  Forall (fun i => li_Quantity i = usage_total (li_Meter i) us /\
    exists price, priceFor plan (li_Meter i) = Some price /\ applyPrice price (li_Quantity i) = Ok (li_Amount i)) items.
Proof. apply Rate_spec. Qed.

Lemma Rate_lines_witness :
  Forall (fun i => li_Quantity i = usage_total (li_Meter i) sample_usage)
    [mkLineItem "api" 3000000000 30000; mkLineItem "gb" 1500000000 15000].
Proof.
  destruct (Rate_lines sample_usage sample_plan sample_registry
    [mkLineItem "api" 3000000000 30000; mkLineItem "gb" 1500000000 15000]) as (_ & _ & _ & H);
    [decide_now|vm_compute; reflexivity|].
  eapply Forall_impl; [exact H|]. intros i [Hi _]. exact Hi.
Defined.
