(* ===== verification/Bytes.v ===== *)
(** * Bytes, big-endian integers and CRC-32C

    What [broker/log] and [billing/event] use of [encoding/binary] and
    [hash/crc32]. A [byte] is the standard library's; [Z] values stand for the
    unsigned integers, with shifts and masks as the Go code writes them. *)

From Stdlib Require Export Strings.Byte.
From S2P Require Import Prelude.

(** ** Bytes *)

Definition byte_val (b : byte) : Z := Z.of_N (Byte.to_N b).

(** The conversion [byte(v)]. *)
Definition byte_of (v : Z) : byte := default x00 (Byte.of_N (Z.to_N (v mod 256))).

#[global] Instance byte_eq_dec : EqDecision byte := Byte.byte_eq_dec.

Lemma byte_val_range b : 0 <= byte_val b < 256.
Proof. unfold byte_val. pose proof (Byte.to_N_bounded b). lia. Qed.

Lemma byte_val_of v : byte_val (byte_of v) = v mod 256.
Proof.
  unfold byte_val, byte_of. destruct (Byte.of_N (Z.to_N (v mod 256))) as [b|] eqn:E.
  - apply Byte.to_of_N in E. simpl. rewrite E. lia.
  - apply Byte.of_N_None_iff in E. lia.
Qed.

Lemma byte_of_val b : byte_of (byte_val b) = b.
Proof.
  unfold byte_of. rewrite Z.mod_small by apply byte_val_range. unfold byte_val. rewrite N2Z.id.
  by rewrite Byte.of_to_N.
Qed.

#[global] Instance byte_val_inj : Inj (=) (=) byte_val.
Proof. intros a b H. by rewrite <- (byte_of_val a), H, byte_of_val. Qed.

Lemma byte_of_ext a b : a mod 256 = b mod 256 -> byte_of a = byte_of b.
Proof. intros H. apply (inj byte_val). by rewrite !byte_val_of. Qed.

(** Equality of explicit byte lists, byte by byte. *)
Ltac bytes_eq := repeat (apply f_equal2; [first [apply byte_of_ext; lia | apply (inj byte_val); rewrite byte_val_of; lia]|]); try done.

(** ** encoding/binary, big-endian *)

Definition PutUint32 (v : Z) : list byte :=
  [byte_of (Z.shiftr v 24); byte_of (Z.shiftr v 16); byte_of (Z.shiftr v 8); byte_of v].

Definition Uint32 (b : list byte) : Z :=
  match b with
  | b0 :: b1 :: b2 :: b3 :: _ =>
      Z.lor (byte_val b3) (Z.lor (Z.shiftl (byte_val b2) 8)
        (Z.lor (Z.shiftl (byte_val b1) 16) (Z.shiftl (byte_val b0) 24)))
  | _ => 0
  end.

Definition PutUint64 (v : Z) : list byte := PutUint32 (Z.shiftr v 32) ++ PutUint32 v.

Definition Uint64 (b : list byte) : Z :=
  Z.lor (Uint32 (drop 4 b)) (Z.shiftl (Uint32 b) 32).

Lemma lor_shiftl a b n : 0 <= n -> 0 <= a < 2 ^ n -> Z.lor a (Z.shiftl b n) = a + b * 2 ^ n.
Proof.
  intros Hn Ha. rewrite <- Z.shiftl_mul_pow2 by done. symmetry.
  assert (Hz : Z.land a (Z.shiftl b n) = 0).
  { apply Z.bits_inj'. intros i Hi. rewrite Z.land_spec, Z.bits_0.
    destruct (Z.lt_ge_cases i n).
    - rewrite (Z.shiftl_spec_low b n i) by lia. apply andb_false_r.
    - destruct (Z.eq_dec a 0) as [->|]; [by rewrite Z.bits_0|].
      rewrite (Z.bits_above_log2 a i); [done|lia|]. assert (Z.log2 a < n); [|lia].
      apply Z.log2_lt_pow2; lia. }
  rewrite Z.add_nocarry_lxor by done. by apply Z.lxor_lor.
Qed.

Lemma Uint32_alt b0 b1 b2 b3 t :
  Uint32 (b0 :: b1 :: b2 :: b3 :: t)
  = byte_val b3 + byte_val b2 * 2 ^ 8 + byte_val b1 * 2 ^ 16 + byte_val b0 * 2 ^ 24.
Proof.
  pose proof (byte_val_range b0). pose proof (byte_val_range b1).
  pose proof (byte_val_range b2). pose proof (byte_val_range b3).
  unfold Uint32.
  assert (Z.shiftl (byte_val b0) 24 = Z.shiftl (Z.shiftl (byte_val b0) 8) 16) as -> by (by rewrite Z.shiftl_shiftl).
  rewrite <- Z.shiftl_lor.
  assert (Z.shiftl (Z.lor (byte_val b1) (Z.shiftl (byte_val b0) 8)) 16
    = Z.shiftl (Z.shiftl (Z.lor (byte_val b1) (Z.shiftl (byte_val b0) 8)) 8) 8) as -> by (by rewrite Z.shiftl_shiftl).
  rewrite <- Z.shiftl_lor. rewrite !lor_shiftl by (rewrite ?lor_shiftl; lia). lia.
Qed.

Lemma PutUint32_length v : length (PutUint32 v) = 4%nat.
Proof. done. Qed.

Lemma Uint32_Put v t : 0 <= v < 4294967296 -> Uint32 (PutUint32 v ++ t) = v.
Proof.
  intros Hv. unfold PutUint32. simpl app. rewrite Uint32_alt, !byte_val_of.
  rewrite !Z.shiftr_div_pow2 by lia. lia.
Qed.

Lemma Uint32_Put_id v : 0 <= v < 4294967296 -> Uint32 (PutUint32 v) = v.
Proof. intros Hv. rewrite <- (app_nil_r (PutUint32 v)). by apply Uint32_Put. Qed.

Lemma Put_Uint32 b : length b = 4%nat -> PutUint32 (Uint32 b) = b.
Proof.
  intros H. destruct b as [|b0 [|b1 [|b2 [|b3 [|]]]]]; try done. rewrite Uint32_alt.
  pose proof (byte_val_range b0). pose proof (byte_val_range b1).
  pose proof (byte_val_range b2). pose proof (byte_val_range b3).
  unfold PutUint32. rewrite !Z.shiftr_div_pow2 by lia.
  bytes_eq.
Qed.

Lemma Uint32_range b : 0 <= Uint32 b < 4294967296.
Proof.
  destruct b as [|b0 [|b1 [|b2 [|b3 t]]]]; try (simpl; lia). rewrite Uint32_alt.
  pose proof (byte_val_range b0). pose proof (byte_val_range b1).
  pose proof (byte_val_range b2). pose proof (byte_val_range b3). lia.
Qed.

Lemma PutUint32_mod v : PutUint32 v = PutUint32 (v mod 4294967296).
Proof.
  unfold PutUint32. rewrite !Z.shiftr_div_pow2 by lia.
  bytes_eq.
Qed.

Lemma Uint64_Put v t : 0 <= v < 18446744073709551616 -> Uint64 (PutUint64 v ++ t) = v.
Proof.
  intros Hv. unfold Uint64, PutUint64. rewrite <- app_assoc.
  rewrite (drop_app_length' _ _ 4) by done.
  rewrite (PutUint32_mod v), !Uint32_Put by (rewrite ?Z.shiftr_div_pow2; lia).
  rewrite lor_shiftl by lia. rewrite Z.shiftr_div_pow2 by lia. lia.
Qed.

Lemma PutUint64_length v : length (PutUint64 v) = 8%nat.
Proof. done. Qed.

#[export] Hint Rewrite PutUint32_length PutUint64_length : lens.

(** ** hash/crc32, Castagnoli polynomial *)

Definition Castagnoli : Z := 2197175160. (* 0x82f63b78 *)

Definition crc_mask : Z := 4294967295. (* 0xffffffff *)

(** One bit of [simpleMakeTable]'s inner loop. *)
Definition crc_step (c : Z) : Z :=
  if Z.odd c then Z.lxor (Z.shiftr c 1) Castagnoli else Z.shiftr c 1.

Fixpoint crc_steps (n : nat) (c : Z) : Z :=
  match n with
  | O => c
  | S m => crc_steps m (crc_step c)
  end.

(** [crcTable[i]] of [crc32.MakeTable(crc32.Castagnoli)]. *)
Definition crc_table (i : Z) : Z := crc_steps 8 i.

(** [crc = tab[byte(crc)^v] ^ (crc >> 8)] *)
Definition crc_byte (c : Z) (v : byte) : Z :=
  Z.lxor (crc_table (Z.lxor (Z.land c 255) (byte_val v))) (Z.shiftr c 8).

(** [crc32.Update]: the register is complemented on the way in and out, so
    writing two chunks in turn is writing their concatenation. *)
Definition crc_Write (crc : Z) (p : list byte) : Z :=
  Z.lxor (foldl crc_byte (Z.lxor crc crc_mask) p) crc_mask.

Definition crc32c (p : list byte) : Z := crc_Write 0 p.

Example crc32c_check : crc32c (String.list_byte_of_string "123456789") = 3808858755. (* 0xe3069283 *)
Proof. vm_compute. reflexivity. Qed.

Lemma crc_Write_app crc p q : crc_Write (crc_Write crc p) q = crc_Write crc (p ++ q).
Proof.
  unfold crc_Write. by rewrite foldl_app, Z.lxor_assoc, Z.lxor_nilpotent, Z.lxor_0_r.
Qed.

(** *** Range *)

Definition u32_bits (c : Z) : Prop := forall i, 32 <= i -> Z.testbit c i = false.

Lemma u32_bits_range c : 0 <= c < 4294967296 -> u32_bits c.
Proof.
  intros Hc i Hi. destruct (Z.eq_dec c 0) as [->|]; [by rewrite Z.bits_0|].
  apply Z.bits_above_log2; [lia|]. assert (Z.log2 c < 32); [|lia]. apply Z.log2_lt_pow2; lia.
Qed.

Lemma range_u32_bits c : u32_bits c -> 0 <= c < 4294967296.
Proof.
  intros H. assert (c = c mod 2 ^ 32) as ->; [|lia].
  apply Z.bits_inj'. intros i Hi. rewrite Z.testbit_mod_pow2 by lia.
  destruct (Z.ltb_spec i 32); [done|]. by rewrite H.
Qed.

Lemma crc_step_u32 c : u32_bits c -> u32_bits (crc_step c).
Proof.
  intros H i Hi. unfold crc_step.
  destruct (Z.odd c); rewrite ?Z.lxor_spec, Z.shiftr_spec, H by lia; [|done].
  by rewrite (u32_bits_range Castagnoli) by (unfold Castagnoli; lia).
Qed.

Lemma crc_steps_u32 n c : u32_bits c -> u32_bits (crc_steps n c).
Proof. revert c. induction n; intros c H; simpl; [done|]. by apply IHn, crc_step_u32. Qed.

(** *** The register is a linear map: eight bit-steps of the xor *)

Lemma crc_step_xor a b : crc_step (Z.lxor a b) = Z.lxor (crc_step a) (crc_step b).
Proof.
  unfold crc_step. rewrite <- !Z.bit0_odd, Z.lxor_spec, Z.shiftr_lxor.
  destruct (Z.testbit a 0), (Z.testbit b 0); simpl;
    apply Z.bits_inj'; intros i Hi; rewrite !Z.lxor_spec;
    by destruct (Z.testbit (Z.shiftr a 1) i), (Z.testbit (Z.shiftr b 1) i), (Z.testbit Castagnoli i).
Qed.

Lemma crc_steps_xor n a b : crc_steps n (Z.lxor a b) = Z.lxor (crc_steps n a) (crc_steps n b).
Proof. revert a b. induction n; intros a b; simpl; [done|]. by rewrite crc_step_xor. Qed.

Lemma crc_steps_shiftl n h : 0 <= h -> crc_steps n (Z.shiftl h (Z.of_nat n)) = h.
Proof.
  revert h. induction n as [|n IH]; intros h Hh; cbn [crc_steps]; [apply Z.shiftl_0_r|].
  assert (crc_step (Z.shiftl h (Z.of_nat (S n))) = Z.shiftl h (Z.of_nat n)) as ->; [|by apply IH].
  unfold crc_step. rewrite <- Z.bit0_odd, Z.shiftl_spec_low by lia.
  rewrite Z.shiftr_shiftl_l by lia. f_equal. lia.
Qed.

Lemma crc_byte_steps c v : 0 <= c -> crc_byte c v = crc_steps 8 (Z.lxor c (byte_val v)).
Proof.
  intros Hc. unfold crc_byte, crc_table.
  rewrite <- (crc_steps_shiftl 8 (Z.shiftr c 8)) at 1 by (apply Z.shiftr_nonneg; lia).
  rewrite <- crc_steps_xor. f_equal. apply Z.bits_inj'. intros i Hi.
  rewrite !Z.lxor_spec, Z.land_spec. change 255 with (Z.ones 8). change (Z.of_nat 8) with 8.
  destruct (Z.lt_ge_cases i 8).
  - rewrite Z.ones_spec_low, Z.shiftl_spec_low, andb_true_r, xorb_false_r by lia. done.
  - rewrite Z.ones_spec_high, Z.shiftl_spec, Z.shiftr_spec, andb_false_r by lia.
    replace (i - 8 + 8) with i by lia. by destruct (Z.testbit c i), (Z.testbit (byte_val v) i).
Qed.

(** *** The step is injective, so a difference in the register never vanishes *)

Lemma crc_step_inj a b : u32_bits a -> u32_bits b -> crc_step a = crc_step b -> a = b.
Proof.
  intros Ha Hb H.
  assert (Htop : forall c, u32_bits c -> Z.testbit (crc_step c) 31 = Z.testbit c 0).
  { intros c Hc. unfold crc_step. rewrite <- Z.bit0_odd.
    destruct (Z.testbit c 0); rewrite ?Z.lxor_spec, Z.shiftr_spec, Hc by lia; done. }
  assert (H0 : Z.testbit a 0 = Z.testbit b 0) by (by rewrite <- !Htop, H).
  assert (Hs : Z.shiftr a 1 = Z.shiftr b 1).
  { unfold crc_step in H. rewrite <- !Z.bit0_odd, H0 in H. destruct (Z.testbit b 0); [|done].
    apply (f_equal (fun x => Z.lxor x Castagnoli)) in H.
    by rewrite !Z.lxor_assoc, Z.lxor_nilpotent, !Z.lxor_0_r in H. }
  apply Z.bits_inj'. intros i Hi. destruct (Z.eq_dec i 0) as [->|]; [done|].
  replace i with (i - 1 + 1) by lia. rewrite <- !Z.shiftr_spec by lia. by rewrite Hs.
Qed.

Lemma crc_steps_inj n a b : u32_bits a -> u32_bits b -> crc_steps n a = crc_steps n b -> a = b.
Proof.
  revert a b. induction n as [|n IH]; intros a b Ha Hb H; simpl in H; [done|].
  apply crc_step_inj; [done..|]. by apply IH; [apply crc_step_u32..|].
Qed.

Lemma u32_lxor a b : u32_bits a -> u32_bits b -> u32_bits (Z.lxor a b).
Proof. intros Ha Hb i Hi. by rewrite Z.lxor_spec, Ha, Hb. Qed.

Lemma byte_u32 b : u32_bits (byte_val b).
Proof. apply u32_bits_range. pose proof (byte_val_range b). lia. Qed.

Lemma crc_byte_u32 c v : u32_bits c -> u32_bits (crc_byte c v).
Proof.
  intros H. rewrite crc_byte_steps by (apply range_u32_bits in H; lia).
  apply crc_steps_u32, u32_lxor; [done|apply byte_u32].
Qed.

Lemma crc_mask_u32 : u32_bits crc_mask.
Proof. apply u32_bits_range. unfold crc_mask. lia. Qed.

Lemma crc_byte_inj a b v w :
  u32_bits a -> u32_bits b -> crc_byte a v = crc_byte b w ->
  Z.lxor a (byte_val v) = Z.lxor b (byte_val w).
Proof.
  intros Ha Hb H. rewrite !crc_byte_steps in H by (apply range_u32_bits in Ha, Hb; lia).
  eapply crc_steps_inj; [..|exact H]; apply u32_lxor; auto using byte_u32.
Qed.

Lemma lxor_cancel_l a b c : Z.lxor a b = Z.lxor a c -> b = c.
Proof.
  intros H. apply (f_equal (Z.lxor a)) in H.
  by rewrite <- !Z.lxor_assoc, Z.lxor_nilpotent, !Z.lxor_0_l in H.
Qed.

Lemma lxor_cancel_r a b c : Z.lxor b a = Z.lxor c a -> b = c.
Proof. rewrite !(Z.lxor_comm _ a). apply lxor_cancel_l. Qed.

Lemma crc_fold_u32 c p : u32_bits c -> u32_bits (foldl crc_byte c p).
Proof. revert c. induction p as [|v p IH]; intros c H; simpl; [done|]. by apply IH, crc_byte_u32. Qed.

(** Different registers stay different whatever equal bytes follow. *)
Lemma crc_fold_inj a b p : u32_bits a -> u32_bits b -> foldl crc_byte a p = foldl crc_byte b p -> a = b.
Proof.
  revert a b. induction p as [|v p IH]; intros a b Ha Hb H; simpl in H; [done|].
  apply IH in H; [|by apply crc_byte_u32..]. apply crc_byte_inj in H; [|done..]. by eapply lxor_cancel_r.
Qed.

Lemma crc32c_range p : 0 <= crc32c p < 4294967296.
Proof.
  apply range_u32_bits. unfold crc32c, crc_Write. rewrite Z.lxor_0_l.
  apply u32_lxor; [apply crc_fold_u32|]; apply crc_mask_u32.
Qed.

(** A message in which one byte changed has another checksum. *)
Lemma crc32c_one_byte p q v w : v <> w -> crc32c (p ++ v :: q) <> crc32c (p ++ w :: q).
Proof.
  intros Hne H. unfold crc32c, crc_Write in H. apply lxor_cancel_r in H. rewrite !foldl_app in H. simpl in H.
  assert (Hu : u32_bits (foldl crc_byte (Z.lxor 0 crc_mask) p)).
  { rewrite Z.lxor_0_l. apply crc_fold_u32, crc_mask_u32. }
  apply crc_fold_inj in H; [|by apply crc_byte_u32..].
  apply crc_byte_inj in H; [|done..]. apply lxor_cancel_l in H. by apply (inj byte_val) in H.
Qed.
