(* ===== verification/Record.v ===== *)
(** * Record framing: [broker/log/record.go] (and [skipRecord] of [segment.go]) *)

From S2P Require Import Prelude Bytes.

#[local] Arguments PutUint32 : simpl never.

(** ** Data *)

Definition lengthSize : Z := 4.

Definition crcSize : Z := 4.

Definition recordHeaderSize : Z := lengthSize + crcSize.

Definition MaxRecordSize : Z := Z.shiftl 8 20.

(** The package's sentinel errors, [io.EOF] and [io.ErrUnexpectedEOF], and any
    other error the operating system reports. [ErrPanic] stands for an index out
    of range and [ErrStuck] for a call that never returns. *)
Inductive log_err : Type :=
| ErrTornRecord
| ErrCorruptRecord
| ErrRecordTooLarge
| ErrBadMagic
| ErrBadVersion
| ErrOffsetOutOfRange
| ErrEOF
| ErrUnexpectedEOF
| ErrIO
| ErrExist
| ErrPosition
| ErrBadName
| ErrNotDurable
| ErrPanic
| ErrStuck.

#[global] Instance log_err_eq_dec : EqDecision log_err.
Proof. solve_decision. Defined.

(** An [io.Reader]: the bytes it will deliver, and whether it then reports the
    end of the file or another error. *)
Record reader : Type := mkReader {
  rd_bytes : list byte;
  rd_fails : bool
}.

Definition blen (b : list byte) : Z := Z.of_nat (length b).

(** [io.ReadFull r buf] for a buffer of [n] bytes. *)
Definition ReadFull (r : reader) (n : Z) : res log_err (list byte * reader) :=
  if n <=? blen (rd_bytes r) then
    Ok (take (Z.to_nat n) (rd_bytes r), mkReader (drop (Z.to_nat n) (rd_bytes r)) (rd_fails r))
  else if rd_fails r then Err ErrIO
  else if blen (rd_bytes r) =? 0 then Err ErrEOF
  else Err ErrUnexpectedEOF.

(** ** Operations *)

Definition record_crc (lengthField payload : list byte) : Z :=
  crc_Write (crc_Write 0 lengthField) payload.

Definition encodeRecord (payload : list byte) : res log_err (list byte) :=
  if MaxRecordSize <? blen payload then Err ErrRecordTooLarge
  else
    let lengthField := PutUint32 (uint32 (blen payload)) in
    Ok (lengthField ++ PutUint32 (record_crc lengthField payload) ++ payload).

(** Returns the payload, the bytes consumed, and the reader past the record. *)
Definition readRecord (r : reader) : res log_err (list byte * Z * reader) :=
  match ReadFull r recordHeaderSize with
  | Err ErrUnexpectedEOF => Err ErrTornRecord
  | Err e => Err e
  | Ok (header, r) =>
      let length := Uint32 (take (Z.to_nat lengthSize) header) in
      if MaxRecordSize <? length then Err ErrCorruptRecord
      else
        match ReadFull r length with
        | Err ErrEOF => Err ErrTornRecord
        | Err ErrUnexpectedEOF => Err ErrTornRecord
        | Err e => Err e
        | Ok (payload, r) =>
            let want := Uint32 (drop (Z.to_nat lengthSize) header) in
            let got := record_crc (take (Z.to_nat lengthSize) header) payload in
            if got =? want then Ok (payload, recordHeaderSize + length, r)
            else Err ErrCorruptRecord
        end
  end.

(** [skipRecord]: the header is parsed, the payload discarded unread. A
    [Discard] that falls short reports [io.EOF]. *)
Definition skipRecord (r : reader) : res log_err (Z * reader) :=
  match ReadFull r recordHeaderSize with
  | Err e => Err e
  | Ok (header, r) =>
      let length := Uint32 (take (Z.to_nat lengthSize) header) in
      if MaxRecordSize <? length then Err ErrCorruptRecord
      else if length <=? blen (rd_bytes r) then
        Ok (recordHeaderSize + length, mkReader (drop (Z.to_nat length) (rd_bytes r)) (rd_fails r))
      else if rd_fails r then Err ErrIO
      else Err ErrEOF
  end.

(** ** Lemmas *)

(** The frame of a payload, without the size guard. *)
Definition frame (payload : list byte) : list byte :=
  PutUint32 (blen payload) ++ PutUint32 (crc32c (PutUint32 (blen payload) ++ payload)) ++ payload.

Arguments frame : simpl never.

Definition payload_ok (payload : list byte) : Prop := blen payload <= MaxRecordSize.

#[global] Instance payload_ok_dec p : Decision (payload_ok p).
Proof. unfold payload_ok. apply _. Defined.

Lemma MaxRecordSize_val : MaxRecordSize = 8388608.
Proof. reflexivity. Qed.

Lemma blen_app a b : blen (a ++ b) = blen a + blen b.
Proof. unfold blen. rewrite length_app. lia. Qed.

Lemma blen_nonneg a : 0 <= blen a.
Proof. unfold blen. lia. Qed.

Lemma blen_take n b : blen (take n b) = Z.min (Z.of_nat n) (blen b).
Proof. unfold blen. rewrite length_take. lia. Qed.

Lemma blen_drop n b : blen (drop n b) = Z.max 0 (blen b - Z.of_nat n).
Proof. unfold blen. rewrite length_drop. lia. Qed.

#[export] Hint Rewrite blen_app blen_take blen_drop @length_app @length_take @length_drop : lens.

Lemma frame_blen p : blen (frame p) = 8 + blen p.
Proof. unfold frame, blen. rewrite !length_app, !PutUint32_length. lia. Qed.

#[export] Hint Rewrite frame_blen : lens.

Lemma encodeRecord_frame p :
  encodeRecord p = if decide (payload_ok p) then Ok (frame p) else Err ErrRecordTooLarge.
Proof.
  unfold encodeRecord. pose proof (blen_nonneg p). pose proof MaxRecordSize_val.
  destruct (decide (payload_ok p)) as [H1|H1]; unfold payload_ok in H1.
  - rewrite (proj2 (Z.ltb_ge _ _)) by lia. rewrite uint32_id by lia. unfold record_crc, frame, crc32c.
    by rewrite crc_Write_app.
  - by rewrite (proj2 (Z.ltb_lt _ _)) by lia.
Qed.

Lemma frame_split p t :
  take 8 (frame p ++ t) = PutUint32 (blen p) ++ PutUint32 (crc32c (PutUint32 (blen p) ++ p)) /\
  drop 8 (frame p ++ t) = p ++ t.
Proof. done. Qed.

Lemma ReadFull_frame p t f :
  ReadFull (mkReader (frame p ++ t) f) recordHeaderSize
  = Ok (PutUint32 (blen p) ++ PutUint32 (crc32c (PutUint32 (blen p) ++ p)), mkReader (p ++ t) f).
Proof.
  unfold ReadFull. cbn [rd_bytes rd_fails]. pose proof (blen_nonneg p). pose proof (blen_nonneg t).
  rewrite (proj2 (Z.leb_le _ _)); [done|]. rewrite blen_app, frame_blen.
  change recordHeaderSize with 8. lia.
Qed.

Lemma header_length p t : payload_ok p ->
  Uint32 (take (Z.to_nat lengthSize) (PutUint32 (blen p) ++ t)) = blen p.
Proof.
  intros H. pose proof (blen_nonneg p). unfold payload_ok in H. pose proof MaxRecordSize_val.
  rewrite (take_app_length' _ _ (Z.to_nat lengthSize)) by done.
  apply Uint32_Put_id. lia.
Qed.

Lemma ReadFull_app a t f : ReadFull (mkReader (a ++ t) f) (blen a) = Ok (a, mkReader t f).
Proof.
  unfold ReadFull. cbn [rd_bytes rd_fails]. rewrite blen_app, (proj2 (Z.leb_le _ _)) by (pose proof (blen_nonneg t); lia).
  unfold blen. rewrite Nat2Z.id, take_app_length, drop_app_length. done.
Qed.

Lemma readRecord_frame p t f : payload_ok p ->
  readRecord (mkReader (frame p ++ t) f) = Ok (p, blen (frame p), mkReader t f).
Proof.
  intros H. unfold readRecord. rewrite ReadFull_frame.
  rewrite header_length by done.
  unfold payload_ok in H. rewrite (proj2 (Z.ltb_ge _ _)) by lia. rewrite ReadFull_app.
  rewrite (take_app_length' _ _ (Z.to_nat lengthSize)) by done.
  rewrite (drop_app_length' _ _ (Z.to_nat lengthSize)) by done.
  unfold record_crc. rewrite crc_Write_app. fold (crc32c (PutUint32 (blen p) ++ p)).
  rewrite Uint32_Put_id by apply crc32c_range.
  rewrite Z.eqb_refl. by rewrite frame_blen.
Qed.

Lemma skipRecord_frame p t f : payload_ok p ->
  skipRecord (mkReader (frame p ++ t) f) = Ok (blen (frame p), mkReader t f).
Proof.
  intros H. unfold skipRecord. rewrite ReadFull_frame.
  rewrite header_length by done.
  unfold payload_ok in H. rewrite (proj2 (Z.ltb_ge _ _)) by lia. cbn [rd_bytes rd_fails].
  rewrite blen_app, (proj2 (Z.leb_le _ _)) by (pose proof (blen_nonneg t); lia).
  unfold blen at 2. rewrite Nat2Z.id, drop_app_length. by rewrite frame_blen.
Qed.

Lemma ReadFull_ok bs f n a r :
  0 <= n -> ReadFull (mkReader bs f) n = Ok (a, r) ->
  bs = a ++ rd_bytes r /\ blen a = n /\ rd_fails r = f.
Proof.
  intros Hn H. unfold ReadFull in H. cbn [rd_bytes rd_fails] in H.
  destruct (n <=? blen bs) eqn:E; [|by cases_if]. injection H as <- <-. simpl.
  rewrite take_drop, blen_take. split_and!; [done|lia|done].
Qed.

(** Only exact frames are ever accepted. *)
Lemma readRecord_ok bs f p n r :
  readRecord (mkReader bs f) = Ok (p, n, r) ->
  payload_ok p /\ bs = frame p ++ rd_bytes r /\ n = blen (frame p) /\ rd_fails r = f.
Proof.
  unfold readRecord. intros H.
  destruct (ReadFull _ _) as [[h r1]|[]] eqn:Hh; try done.
  apply ReadFull_ok in Hh as (-> & Hh & Hf); [|by vm_compute].
  destruct (MaxRecordSize <? _) eqn:Hmax; [done|]. destruct r1 as [bs1 f1]. cbn [rd_bytes rd_fails] in *. subst f1.
  destruct (ReadFull (mkReader bs1 f) _) as [[q r2]|[]] eqn:Hp; try done.
  apply ReadFull_ok in Hp as (-> & Hp & <-); [|apply Uint32_range].
  destruct (_ =? _) eqn:Hc in H; [|done]. injection H as <- <- <-.
  assert (Hlen : length h = 8%nat) by (unfold blen in Hh; change recordHeaderSize with 8 in Hh; lia).
  assert (Hok : payload_ok q) by (unfold payload_ok; lia).
  assert (Hh1 : PutUint32 (blen q) = take 4 h).
  { rewrite Hp. apply Put_Uint32. rewrite length_take. change (Z.to_nat lengthSize) with 4%nat. lia. }
  split_and!; [done| |by rewrite frame_blen, Hp|done].
  unfold frame. rewrite Hh1. rewrite <- !app_assoc.
  rewrite <- (take_drop 4 h) at 1. rewrite <- app_assoc. f_equal. f_equal.
  apply Z.eqb_eq in Hc. unfold record_crc in Hc. rewrite crc_Write_app in Hc.
  change (Z.to_nat lengthSize) with 4%nat in Hc. unfold crc32c. rewrite Hc. symmetry. apply Put_Uint32.
  rewrite length_drop. lia.
Qed.

(** A cut frame reads as a clean end or a torn record, never as data. *)
Lemma readRecord_cut p k :
  payload_ok p -> (k < length (frame p))%nat ->
  readRecord (mkReader (take k (frame p)) false) = Err (if decide (k = 0)%nat then ErrEOF else ErrTornRecord).
Proof.
  intros Hok Hk. pose proof (frame_blen p) as Hl. unfold blen in Hl.
  destruct (decide (k < 8)%nat) as [H8|H8].
  - unfold readRecord, ReadFull. cbn [rd_bytes rd_fails]. change recordHeaderSize with 8.
    rewrite blen_take. unfold blen. rewrite (proj2 (Z.leb_gt _ _)) by lia.
    destruct (decide (k = 0)%nat) as [->|]; [done|]. by rewrite (proj2 (Z.eqb_neq _ _)) by lia.
  - destruct (frame_split p []) as [Ht Hd]. rewrite !app_nil_r in *.
    assert (Hkf : take k (frame p) = take 8 (frame p) ++ take (k - 8) p).
    { rewrite <- (take_drop 8 (frame p)) at 1. rewrite take_app, Hd, length_take.
      replace (8 `min` length (frame p))%nat with 8%nat by lia.
      by rewrite (take_ge (take 8 _)) by (rewrite length_take; lia). }
    unfold readRecord. rewrite Hkf, Ht.
    change recordHeaderSize with (blen (PutUint32 (blen p) ++ PutUint32 (crc32c (PutUint32 (blen p) ++ p)))).
    rewrite ReadFull_app, header_length by done. unfold payload_ok in Hok.
    rewrite (proj2 (Z.ltb_ge _ _)) by lia. unfold ReadFull. cbn [rd_bytes rd_fails].
    rewrite blen_take. unfold blen in *. rewrite (proj2 (Z.leb_gt _ _)) by lia.
    rewrite decide_False by lia. by cases_if.
Qed.

(** ** Properties *)

(** C31: encoding then reading a record returns the payload, reports exactly the
    bytes it occupies and leaves the rest of the stream in place; and the reader
    accepts nothing else: whatever [readRecord] returns without error is the
    exact encoding of the payload it returns. *)
Theorem readRecord_inverts_encode (bs : list byte) (fails : bool) (p : list byte) (n : Z) (r : reader) :
  readRecord (mkReader bs fails) = Ok (p, n, r) <->
  exists enc, encodeRecord p = Ok enc /\ bs = enc ++ rd_bytes r /\ n = blen enc /\ rd_fails r = fails.
Proof.
  split.
  - intros H. apply readRecord_ok in H as (Hok & -> & -> & <-). exists (frame p).
    rewrite encodeRecord_frame, decide_True by done. done.
  - intros (enc & He & -> & -> & <-). rewrite encodeRecord_frame in He. case_decide; [|done].
    injection He as <-. destruct r. by apply readRecord_frame.
Qed.

(** A record cut short anywhere is recognised: cut before its first byte it
    is the end of the file, cut anywhere else it is [ErrTornRecord]; a partial
    record is never handed to a reader. *)
Theorem readRecord_torn (p enc : list byte) (k : nat) :
  encodeRecord p = Ok enc -> (k < length enc)%nat ->
  readRecord (mkReader (take k enc) false) = Err (if decide (k = 0)%nat then ErrEOF else ErrTornRecord).
Proof.
  rewrite encodeRecord_frame. intros He Hk. case_decide; [|done]. injection He as <-. by apply readRecord_cut.
Qed.

Lemma readRecord_torn_witness :
  exists enc, encodeRecord [x41; x42] = Ok enc /\ (9 < length enc)%nat /\
    readRecord (mkReader (take 9 enc) false) = Err ErrTornRecord.
Proof.
  eexists. split; [vm_compute; reflexivity|]. split; [vm_compute; lia|].
  apply (readRecord_torn [x41; x42] _ 9); [vm_compute; reflexivity|vm_compute; lia].
Defined.

(** changing any one byte of a stored record's checksum or payload makes it
    read as [ErrCorruptRecord]: CRC-32C detects every such change. *)
Theorem readRecord_detects_corruption (p enc rest : list byte) (i : nat) (old new : byte) (fails : bool) :
  encodeRecord p = Ok enc -> (4 <= i)%nat -> enc !! i = Some old -> old <> new ->
  readRecord (mkReader (<[i := new]> enc ++ rest) fails) = Err ErrCorruptRecord.
Proof.
  rewrite encodeRecord_frame. intros He Hi Hold Hne. case_decide as Hok; [|done]. injection He as <-.
  set (crc := crc32c (PutUint32 (blen p) ++ p)).
  assert (exists crcf q, <[i := new]> (frame p) = PutUint32 (blen p) ++ crcf ++ q /\
    length crcf = 4%nat /\ blen q = blen p /\ crc32c (PutUint32 (blen p) ++ q) <> Uint32 crcf)
    as (crcf & q & -> & Hcl & Hql & Hbad).
  { unfold frame. fold crc. rewrite insert_app_r_alt by done. rewrite PutUint32_length.
    destruct (decide (i < 8)%nat) as [H8|H8].
    - rewrite insert_app_l by (rewrite PutUint32_length; lia).
      exists (<[(i - 4)%nat := new]> (PutUint32 crc)), p.
      split_and!; [done|by rewrite length_insert|done|]. fold crc. intros Heq.
      apply (f_equal PutUint32) in Heq. rewrite Put_Uint32 in Heq by (by rewrite length_insert).
      assert (Hl : frame p !! i = PutUint32 crc !! (i - 4)%nat).
      { unfold frame. fold crc. rewrite lookup_app_r by done. rewrite PutUint32_length.
        apply lookup_app_l. rewrite PutUint32_length. lia. }
      rewrite Heq, list_lookup_insert_eq in Hl by (rewrite PutUint32_length; lia). congruence.
    - rewrite insert_app_r_alt by (rewrite PutUint32_length; lia). rewrite PutUint32_length.
      exists (PutUint32 crc), (<[(i - 4 - 4)%nat := new]> p).
      split_and!; [done|done|unfold blen; by rewrite length_insert|].
      rewrite Uint32_Put_id by apply crc32c_range.
      assert (Hl : p !! (i - 4 - 4)%nat = Some old).
      { rewrite <- Hold. unfold frame. fold crc. rewrite !lookup_app_r by (rewrite ?PutUint32_length; lia).
        by rewrite !PutUint32_length. }
      unfold crc. apply list_elem_of_split_length in Hl as (l1 & l2 & -> & Hlen).
      rewrite insert_app_r_alt, Hlen, Nat.sub_diag by lia.
      change (<[0%nat := new]> (old :: l2)) with (new :: l2). rewrite !app_assoc.
      apply crc32c_one_byte. congruence. }
  unfold readRecord. rewrite <- !app_assoc, app_assoc.
  assert (blen (PutUint32 (blen p) ++ crcf) = recordHeaderSize) as <-.
  { unfold blen. rewrite length_app, Hcl. done. }
  rewrite ReadFull_app, header_length by done. unfold payload_ok in Hok.
  rewrite (proj2 (Z.ltb_ge _ _)) by lia. rewrite <- Hql, ReadFull_app.
  rewrite (take_app_length' _ _ (Z.to_nat lengthSize)) by done.
  rewrite (drop_app_length' _ _ (Z.to_nat lengthSize)) by done.
  unfold record_crc. rewrite crc_Write_app. fold (crc32c (PutUint32 (blen q) ++ q)).
  rewrite Hql. by rewrite (proj2 (Z.eqb_neq _ _)) by done.
Qed.

Lemma readRecord_detects_corruption_witness :
  exists enc, encodeRecord [x41; x42] = Ok enc /\ enc !! 9%nat = Some x42 /\
    readRecord (mkReader (<[9%nat := x43]> enc ++ []) false) = Err ErrCorruptRecord.
Proof.
  eexists. split; [vm_compute; reflexivity|]. split; [vm_compute; reflexivity|].
  eapply (readRecord_detects_corruption [x41; x42] _ [] 9 x42 x43);
    [vm_compute; reflexivity|lia|vm_compute; reflexivity|discriminate].
Defined.
