(* ===== verification/LogSpec.v ===== *)
(** * What a log promises

    The contract [broker/log] offers the packages that append to it
    ([billing/ingest]) and read from it ([billing/consumer]): an append-only
    list of records addressed by position. [BrokerLog.v] shows that the
    segmented log on disk keeps it. *)

From S2P Require Import Prelude Bytes Record.

Class LogStore (S : Type) : Type := {
  ls_Append : list byte -> ST S log_err Z;
  ls_Read : Z -> ST S log_err (list byte);
  ls_NextOffset : S -> res log_err Z;

  (** The records the log holds. *)
  ls_holds : S -> list (list byte) -> Prop;

  (** An append takes the next offset or fails; what failed may still be there. *)
  ls_Append_law s rs p r s' :
    ls_holds s rs -> Z.of_nat (length rs) + 1 < 18446744073709551616 -> ls_Append p s = (r, s') ->
    match r with
    | Ok off => off = Z.of_nat (length rs) /\ ls_holds s' (rs ++ [p])
    | Err _ => ls_holds s' rs \/ ls_holds s' (rs ++ [p])
    end;

  (** A read changes nothing and returns the record at the offset or an error. *)
  ls_Read_law s rs off r s' :
    ls_holds s rs -> ls_Read off s = (r, s') ->
    ls_holds s' rs /\
    (off < 0 \/ Z.of_nat (length rs) <= off -> r = Err ErrOffsetOutOfRange) /\
    (forall p, 0 <= off -> r = Ok p -> rs !! Z.to_nat off = Some p);

  ls_NextOffset_law s rs : ls_holds s rs -> ls_NextOffset s = Ok (Z.of_nat (length rs))
}.
