(* ===== verification/FileSys.v ===== *)
(** * The log's directory

    What [broker/log] uses of [os.File]. The state is the content of the files
    in the log's directory, by name, what of it has been flushed to the medium, and
    a schedule of faults: each system call takes the next entry, and a call past the
    end of the schedule succeeds. [Fault k] makes the call report an error; a write has then stored
    at most the first [k] bytes of its buffer, never all of it ([WriteAt] reports
    an error only when bytes are missing), and a read delivers [k] bytes first. *)

From S2P Require Import Prelude Bytes Record.

Inductive fault : Type :=
| NoFault
| Fault (k : nat).

Record World : Type := mkDisk {
  fs : gmap string (list byte);
  faults : list fault;
  durable : gmap string (list byte)
}.

(** Files that have been there for long. *)
Definition mkWorld (files : gmap string (list byte)) (faults : list fault) : World := mkDisk files faults files.

Definition with_faults (w : World) (faults : list fault) : World := mkDisk (fs w) faults (durable w).

Definition next_fault (w : World) : fault * World :=
  match faults w with
  | [] => (NoFault, w)
  | f :: rest => (f, with_faults w rest)
  end.

Definition content (w : World) (name : string) : list byte := default [] (fs w !! name).

Definition set_content (w : World) (name : string) (c : list byte) : World :=
  mkDisk (<[name := c]> (fs w)) (faults w) (durable w).

(** [c] with [buf] written at [off]; a gap past the end reads as zeros. *)
Definition splice (c : list byte) (off : Z) (buf : list byte) : list byte :=
  if decide (buf = []) then c
  else
    let o := Z.to_nat off in
    take o (c ++ replicate (o - length c) x00) ++ buf ++ drop (o + length buf) c.

(** [c] cut or zero-extended to [n] bytes. *)
Definition resize (c : list byte) (n : Z) : list byte :=
  take (Z.to_nat n) (c ++ replicate (Z.to_nat n - length c) x00).

(** ** System calls *)

Definition file_WriteAt (name : string) (buf : list byte) (off : Z) : ST World log_err unit := fun w =>
  match next_fault w with
  | (NoFault, w) => (Ok tt, set_content w name (splice (content w name) off buf))
  | (Fault k, w) => (Err ErrIO, set_content w name (splice (content w name) off (take (k `min` pred (length buf)) buf)))
  end.

Definition file_Truncate (name : string) (n : Z) : ST World log_err unit := fun w =>
  match next_fault w with
  | (NoFault, w) => (Ok tt, set_content w name (resize (content w name) n))
  | (Fault _, w) => (Err ErrIO, w)
  end.

(** [Stat().Size()] *)
Definition file_Size (name : string) : ST World log_err Z := fun w =>
  match next_fault w with
  | (NoFault, w) => (Ok (blen (content w name)), w)
  | (Fault _, w) => (Err ErrIO, w)
  end.

(** [Sync]: the file and its entry in the directory are on the medium. *)
Definition flush (w : World) (name : string) : World :=
  match fs w !! name with
  | Some c => mkDisk (fs w) (faults w) (<[name := c]> (durable w))
  | None => w
  end.

Definition file_Sync (name : string) : ST World log_err unit := fun w =>
  match next_fault w with
  | (NoFault, w) => (Ok tt, flush w name)
  | (Fault _, w) => (Err ErrIO, w)
  end.

(** [Close], and [os.MkdirAll] on the directory itself. *)
Definition file_Close (name : string) : ST World log_err unit := fun w =>
  match next_fault w with
  | (NoFault, w) => (Ok tt, w)
  | (Fault _, w) => (Err ErrIO, w)
  end.

Definition MkdirAll : ST World log_err unit := fun w =>
  match next_fault w with
  | (NoFault, w) => (Ok tt, w)
  | (Fault _, w) => (Err ErrIO, w)
  end.

(** [os.ReadDir]: the names in the directory. *)
Definition ReadDir : ST World log_err (list string) := fun w =>
  match next_fault w with
  | (NoFault, w) => (Ok ((map_to_list (fs w)).*1), w)
  | (Fault _, w) => (Err ErrIO, w)
  end.

(** [os.OpenFile] with [O_CREATE], with [O_CREATE|O_EXCL], and with neither. *)
Definition file_OpenCreate (name : string) : ST World log_err unit := fun w =>
  match next_fault w with
  | (NoFault, w) => (Ok tt, match fs w !! name with Some _ => w | None => set_content w name [] end)
  | (Fault _, w) => (Err ErrIO, w)
  end.

Definition file_OpenExcl (name : string) : ST World log_err unit := fun w =>
  match next_fault w with
  | (NoFault, w) =>
      match fs w !! name with
      | Some _ => (Err ErrExist, w)
      | None => (Ok tt, set_content w name [])
      end
  | (Fault _, w) => (Err ErrIO, w)
  end.

Definition file_Open (name : string) : ST World log_err unit := fun w =>
  match next_fault w with
  | (NoFault, w) => match fs w !! name with Some _ => (Ok tt, w) | None => (Err ErrIO, w) end
  | (Fault _, w) => (Err ErrIO, w)
  end.

(** A reader over [n] bytes of the file from [pos]: a [SectionReader], or a
    buffered reader after a [Seek] with [n] large enough. *)
Definition file_Reader (name : string) (pos n : Z) : ST World log_err reader := fun w =>
  match next_fault w with
  | (NoFault, w) => (Ok (mkReader (take (Z.to_nat n) (drop (Z.to_nat pos) (content w name))) false), w)
  | (Fault k, w) => (Ok (mkReader (take k (take (Z.to_nat n) (drop (Z.to_nat pos) (content w name)))) true), w)
  end.

(** ** Lemmas *)

Lemma splice_end c junk buf :
  splice (c ++ junk) (blen c) buf = c ++ buf ++ drop (length buf) junk.
Proof.
  unfold splice. case_decide as Hb; [by subst|]. unfold blen. rewrite Nat2Z.id.
  rewrite <- app_assoc, take_app_length, drop_app_ge by lia.
  do 3 f_equal. lia.
Qed.

Lemma resize_prefix c junk : resize (c ++ junk) (blen c) = c.
Proof. unfold resize, blen. rewrite Nat2Z.id, <- app_assoc. apply take_app_length. Qed.

Lemma next_fault_durable w : durable (next_fault w).2 = durable w.
Proof. unfold next_fault. by destruct (faults w). Qed.

Lemma flush_fs w name : fs (flush w name) = fs w.
Proof. unfold flush. by destruct (fs w !! name). Qed.

Lemma flush_faults w name : faults (flush w name) = faults w.
Proof. unfold flush. by destruct (fs w !! name). Qed.

Lemma next_fault_eq w f w' : next_fault w = (f, w') -> fs w' = fs w /\ (faults w = [] -> f = NoFault /\ faults w' = []).
Proof. unfold next_fault. destruct (faults w) eqn:E; intros H; injection H as <- <-; simpl; [by split|]. by split. Qed.

Lemma content_eq w w' name : fs w' = fs w -> content w' name = content w name.
Proof. intros H. unfold content. by rewrite H. Qed.

Lemma content_eq_at w w' name : fs w' !! name = fs w !! name -> content w' name = content w name.
Proof. intros H. unfold content. by rewrite H. Qed.

(** The files a step may touch. *)
Definition fs_same_except (names : list string) (w w' : World) : Prop :=
  forall n, n ∉ names -> fs w' !! n = fs w !! n.

#[global] Instance fs_same_refl names : Reflexive (fs_same_except names).
Proof. by intros w n _. Qed.

#[global] Instance fs_same_trans names : Transitive (fs_same_except names).
Proof. intros w1 w2 w3 H1 H2 n Hn. rewrite H2, H1; done. Qed.

Lemma fs_same_eq names w w' : fs w' = fs w -> fs_same_except names w w'.
Proof. intros H n _. by rewrite H. Qed.

Lemma fs_same_set names w name c : name ∈ names -> fs_same_except names w (set_content w name c).
Proof. intros Hin n Hn. simpl. rewrite lookup_insert_ne; [done|]. by intros ->. Qed.
