(* ===== verification/Index.v ===== *)
(** * The sparse index: [broker/log/index.go]

    Methods run on the directory and the index they belong to. *)

From S2P Require Import Prelude Decimal Bytes Record FileSys.

#[local] Arguments PutUint32 : simpl never.

(** ** Data *)

Definition indexEntrySize : Z := 8.

Definition indexIntervalBytes : Z := Z.shiftl 4 10.

Definition indexFileSuffix : string := ".index".

Definition maxIndexableSegment : Z := Z.shiftl 1 32.

Record indexEntry : Type := mkEntry {
  ie_relOffset : Z;
  ie_position : Z
}.

#[global] Instance indexEntry_eq_dec : EqDecision indexEntry.
Proof. solve_decision. Defined.

Record index : Type := mkIndex {
  ix_file : string;
  ix_entries : list indexEntry
}.

(** ** sort.Search *)

Fixpoint search_loop (fuel : nat) (f : nat -> bool) (i j : nat) : nat :=
  match fuel with
  | O => i
  | S fuel =>
      if (i <? j)%nat then
        let h := ((i + j) / 2)%nat in
        if f h then search_loop fuel f i h else search_loop fuel f (h + 1) j
      else i
  end.

(** Each round shrinks [j - i], so [n] rounds are enough. *)
Definition sort_Search (n : nat) (f : nat -> bool) : nat := search_loop n f 0 n.

(** ** Operations *)

Definition indexName (baseOffset : Z) : string := fmt_pad 20 baseOffset +:+ indexFileSuffix.

Definition encode_entry (relOffset position : Z) : list byte :=
  PutUint32 relOffset ++ PutUint32 (uint32 position).

(** The loop of [openIndex] over [count] raw entries. *)
Fixpoint parse_entries (count : nat) (raw : list byte) : list indexEntry :=
  match count with
  | O => []
  | S c =>
      mkEntry (Uint32 (take 4 raw)) (Uint32 (take 4 (drop 4 raw)))
        :: parse_entries c (drop (Z.to_nat indexEntrySize) raw)
  end.

Definition openIndex (name : string) : ST World log_err index :=
  file_OpenCreate name ≫= fun _ =>
  size ← file_Size name;
  let count := size / indexEntrySize in
  if count =? 0 then mret (mkIndex name [])
  else
    r ← file_Reader name 0 (count * indexEntrySize);
    match ReadFull r (count * indexEntrySize) with
    | Err _ => mret (mkIndex name [])
    | Ok (raw, _) => mret (mkIndex name (parse_entries (Z.to_nat count) raw))
    end.

Definition index_append (relOffset position : Z) : ST (World * index) log_err unit := fun '(w, ix) =>
  if maxIndexableSegment <=? position then (Err ErrPosition, (w, ix))
  else
    match file_WriteAt (ix_file ix) (encode_entry relOffset position)
            (Z.of_nat (length (ix_entries ix)) * indexEntrySize) w with
    | (Err e, w) => (Err e, (w, ix))
    | (Ok _, w) =>
        (Ok tt, (w, mkIndex (ix_file ix) (ix_entries ix ++ [mkEntry relOffset (uint32 position)])))
    end.

Definition index_lookup (ix : index) (relOffset : Z) : option indexEntry :=
  let i := sort_Search (length (ix_entries ix)) (fun i =>
    match ix_entries ix !! i with Some e => relOffset <? ie_relOffset e | None => false end) in
  if (i =? 0)%nat then None else ix_entries ix !! (i - 1)%nat.

Definition index_last (ix : index) : option indexEntry :=
  if (length (ix_entries ix) =? 0)%nat then None
  else ix_entries ix !! (length (ix_entries ix) - 1)%nat.

(** The counting loop of [truncateFrom], with its [break]. *)
Fixpoint count_before (position : Z) (es : list indexEntry) : nat :=
  match es with
  | [] => 0%nat
  | e :: rest => if position <=? ie_position e then 0%nat else S (count_before position rest)
  end.

Definition index_truncateFrom (position : Z) : ST (World * index) log_err unit := fun '(w, ix) =>
  let kept := count_before position (ix_entries ix) in
  let ix := mkIndex (ix_file ix) (take kept (ix_entries ix)) in
  match file_Truncate (ix_file ix) (Z.of_nat kept * indexEntrySize) w with
  | (Err e, w) => (Err e, (w, ix))
  | (Ok _, w) => (Ok tt, (w, ix))
  end.

Definition index_reset : ST (World * index) log_err unit := fun '(w, ix) =>
  let ix := mkIndex (ix_file ix) [] in
  match file_Truncate (ix_file ix) 0 w with
  | (Err e, w) => (Err e, (w, ix))
  | (Ok _, w) => (Ok tt, (w, ix))
  end.

Definition index_sync (ix : index) : ST World log_err unit := file_Sync (ix_file ix).

Definition index_close (ix : index) : ST World log_err unit := file_Close (ix_file ix).

(** ** Lemmas on the search *)

Section search.
Context (f : nat -> bool) (n : nat).
Context (Hmono : forall a b, (a <= b < n)%nat -> f a = true -> f b = true).

Lemma search_loop_spec fuel i j :
  (j - i <= fuel)%nat -> (i <= j <= n)%nat ->
  (forall k, (k < i)%nat -> f k = false) -> (forall k, (j <= k < n)%nat -> f k = true) ->
  let r := search_loop fuel f i j in
  (r <= n)%nat /\ (forall k, (k < r)%nat -> f k = false) /\ (forall k, (r <= k < n)%nat -> f k = true).
Proof.
  revert i j. induction fuel as [|fuel IH]; intros i j Hf Hij Hlo Hhi; cbn [search_loop].
  { assert (i = j) as -> by lia. split_and!; [lia|done..]. }
  destruct (Nat.ltb_spec i j) as [Hlt|Hge]; [|assert (i = j) as -> by lia; split_and!; [lia|done..]].
  assert (Hh : (i <= (i + j) / 2 < j)%nat).
  { split; [apply Nat.div_le_lower_bound; lia|apply Nat.Div0.div_lt_upper_bound; lia]. }
  destruct (f ((i + j) / 2)%nat) eqn:E.
  - apply IH; [lia|lia|done|]. intros k Hk. destruct (decide (j <= k)%nat); [apply Hhi; lia|].
    eapply Hmono; [|exact E]. lia.
  - apply IH; [lia|lia| |done]. intros k Hk. destruct (decide (k < i)%nat); [by apply Hlo|].
    destruct (f k) eqn:Ek; [|done]. rewrite (Hmono k ((i + j) / 2)) in E; [done|lia|done].
Qed.

Lemma sort_Search_spec :
  let r := sort_Search n f in
  (r <= n)%nat /\ (forall k, (k < r)%nat -> f k = false) /\ (forall k, (r <= k < n)%nat -> f k = true).
Proof. apply search_loop_spec; [lia|lia|lia|lia]. Qed.

End search.

(** ** Lemmas on entries *)

Lemma encode_entry_length r p : length (encode_entry r p) = 8%nat.
Proof. done. Qed.

#[export] Hint Rewrite encode_entry_length : lens.

Definition entry_bytes (e : indexEntry) : list byte := encode_entry (ie_relOffset e) (ie_position e).

Definition entries_bytes (es : list indexEntry) : list byte := concat (entry_bytes <$> es).

Definition entry_wf (e : indexEntry) : Prop :=
  0 <= ie_relOffset e < 4294967296 /\ 0 <= ie_position e < 4294967296.

Lemma entries_bytes_length es : length (entries_bytes es) = (8 * length es)%nat.
Proof.
  induction es as [|e es IH]; [done|]. unfold entries_bytes in *. rewrite fmap_cons. cbn [concat length].
  rewrite length_app, IH. change (length (entry_bytes e)) with 8%nat. lia.
Qed.

Lemma parse_entries_encoded es t :
  Forall entry_wf es -> parse_entries (length es) (entries_bytes es ++ t) = es.
Proof.
  induction 1 as [|e es (Hr & Hp) _ IH]; [done|].
  unfold entries_bytes. rewrite fmap_cons. cbn [concat length parse_entries].
  unfold entry_bytes at 1 2 3, encode_entry. rewrite <- !app_assoc.
  rewrite (take_app_length' _ _ 4), (drop_app_length' _ _ 4), (take_app_length' _ _ 4) by done.
  f_equal.
  - rewrite (uint32_id (ie_position e)), !Uint32_Put_id by done. by destruct e.
  - rewrite (drop_app_length' _ _ (Z.to_nat indexEntrySize)) by done. exact IH.
Qed.

(** Entries in strictly increasing offset order. *)
Definition entries_sorted (es : list indexEntry) : Prop :=
  forall i j a b, (i < j)%nat -> es !! i = Some a -> es !! j = Some b -> ie_relOffset a < ie_relOffset b.

(** A lookup returns the closest entry at or before the target. *)
Lemma index_lookup_spec ix target :
  entries_sorted (ix_entries ix) ->
  match index_lookup ix target with
  | Some e => e ∈ ix_entries ix /\ ie_relOffset e <= target /\
      forall e', e' ∈ ix_entries ix -> ie_relOffset e' <= target -> ie_relOffset e' <= ie_relOffset e
  | None => forall e, e ∈ ix_entries ix -> target < ie_relOffset e
  end.
Proof.
  intros Hs. unfold index_lookup. set (es := ix_entries ix) in *. cbv zeta.
  set (f := fun i => match es !! i with Some e => target <? ie_relOffset e | None => false end).
  assert (Hmono : forall a b, (a <= b < length es)%nat -> f a = true -> f b = true).
  { intros a b Hab Ha. unfold f in *. destruct (es !! a) as [ea|] eqn:Ea; [|done].
    destruct (lookup_lt_is_Some_2 es b) as [eb Eb]; [lia|]. rewrite Eb.
    destruct (decide (a = b)) as [->|]; [congruence|].
    assert (ie_relOffset ea < ie_relOffset eb) by (eapply (Hs a b); [lia|done..]). lia. }
  destruct (sort_Search_spec f (length es) Hmono) as (Hr & Hlo & Hhi).
  set (r := sort_Search (length es) f) in *.
  destruct (r =? 0)%nat eqn:E0.
  - apply Nat.eqb_eq in E0. intros e [i Hi]%list_elem_of_lookup.
    specialize (Hhi i ltac:(apply lookup_lt_Some in Hi; lia)). unfold f in Hhi. rewrite Hi in Hhi. lia.
  - apply Nat.eqb_neq in E0. destruct (lookup_lt_is_Some_2 es (r - 1)) as [e He]; [lia|]. rewrite He.
    split_and!.
    + apply list_elem_of_lookup. eauto.
    + specialize (Hlo (r - 1)%nat ltac:(lia)). unfold f in Hlo. rewrite He in Hlo. lia.
    + intros e' [i Hi]%list_elem_of_lookup Hle.
      destruct (decide (r <= i)%nat) as [Hri|Hri].
      * specialize (Hhi i ltac:(apply lookup_lt_Some in Hi; lia)). unfold f in Hhi. rewrite Hi in Hhi. lia.
      * destruct (decide (i = r - 1)%nat) as [->|]; [rewrite He in Hi; injection Hi as ->; lia|].
        assert (ie_relOffset e' < ie_relOffset e) by (eapply (Hs i (r - 1)%nat); [lia|done..]). lia.
Qed.

Lemma index_last_spec ix :
  match index_last ix with
  | Some e => exists es, ix_entries ix = es ++ [e]
  | None => ix_entries ix = []
  end.
Proof.
  unfold index_last. destruct (ix_entries ix) as [|e es _] using rev_ind; [done|].
  rewrite length_app. cbn [length]. rewrite (proj2 (Nat.eqb_neq _ _)) by lia.
  rewrite Nat.add_sub, lookup_app_r, Nat.sub_diag by lia. simpl. eauto.
Qed.

Lemma count_before_le position es : (count_before position es <= length es)%nat.
Proof. induction es as [|e es IH]; simpl; [lia|]. destruct (_ <=? _); simpl; lia. Qed.
