(* ===== verification/Segment.v ===== *)
(** * Segments: [broker/log/segment.go]

    A segment's methods run on the directory and the segment. Files are named
    by their entry in the log's directory; [segmentName] and [indexName] say
    which two files a segment owns. *)

From S2P Require Import Prelude Decimal Bytes Record FileSys Index.

#[local] Arguments PutUint32 : simpl never.
#[local] Arguments PutUint64 : simpl never.

(** ** Data *)

Definition segmentMagic : Z := 1279741006. (* 0x4C474C4E *)

Definition segmentVersion : Z := 1.

Definition segmentHeaderSize : Z := 4 + 4 + 8.

Record segment : Type := mkSegment {
  sg_file : string;
  sg_index : index;
  sg_baseOffset : Z;
  sg_nextOffset : Z;
  sg_size : Z;
  sg_lastIndexed : Z
}.

Definition segmentName (baseOffset : Z) : string := fmt_pad 20 baseOffset +:+ ".log".

(** [strings.TrimSuffix] *)
Fixpoint TrimSuffix (s suffix : string) : string :=
  if decide (s = suffix) then ""%string
  else match s with
       | EmptyString => ""%string
       | String c r => String c (TrimSuffix r suffix)
       end.

(** ** Operations *)

Definition segment_header (baseOffset : Z) : list byte :=
  PutUint32 segmentMagic ++ PutUint32 segmentVersion ++ PutUint64 baseOffset.

Definition createSegment (baseOffset : Z) : ST World log_err segment :=
  let path := segmentName baseOffset in
  file_OpenExcl path ≫= fun _ =>
  file_WriteAt path (segment_header baseOffset) 0 ≫= fun _ =>
  ix ← openIndex (indexName baseOffset);
  mret (mkSegment path ix baseOffset baseOffset segmentHeaderSize segmentHeaderSize).

Definition maybeIndex (rel position : Z) : ST (World * segment) log_err unit := fun '(w, s) =>
  if negb (length (ix_entries (sg_index s)) =? 0)%nat
     && (position - sg_lastIndexed s <? indexIntervalBytes)
  then (Ok tt, (w, s))
  else
    match index_append rel position (w, sg_index s) with
    | (Err e, (w, ix)) =>
        (Err e, (w, mkSegment (sg_file s) ix (sg_baseOffset s) (sg_nextOffset s) (sg_size s) (sg_lastIndexed s)))
    | (Ok _, (w, ix)) =>
        (Ok tt, (w, mkSegment (sg_file s) ix (sg_baseOffset s) (sg_nextOffset s) (sg_size s) position))
    end.

(** Replace the segment's index after a method of the index ran. *)
Definition with_index (s : segment) (ix : index) : segment :=
  mkSegment (sg_file s) ix (sg_baseOffset s) (sg_nextOffset s) (sg_size s) (sg_lastIndexed s).

(** The scan of [recover]; every record takes at least the header's eight bytes,
    so one round per byte is enough. Returns the final position and offset. *)
Fixpoint recover_loop (fuel : nat) (r : reader) (position rel : Z)
    : ST (World * segment) log_err (Z * Z) := fun '(w, s) =>
  match fuel with
  | O => (Err ErrIO, (w, s))
  | S fuel =>
      match readRecord r with
      | Err ErrEOF => (Ok (position, rel), (w, s))
      | Err ErrTornRecord | Err ErrCorruptRecord =>
          match file_Truncate (sg_file s) position w with
          | (Err e, w) => (Err e, (w, s))
          | (Ok _, w) =>
              match index_truncateFrom position (w, sg_index s) with
              | (Err e, (w, ix)) => (Err e, (w, with_index s ix))
              | (Ok _, (w, ix)) => (Ok (position, rel), (w, with_index s ix))
              end
          end
      | Err e => (Err e, (w, s))
      | Ok (_, n, r) =>
          match maybeIndex rel position (w, s) with
          | (Err e, ws) => (Err e, ws)
          | (Ok _, ws) => recover_loop fuel r (position + n) (uint32 (rel + 1)) ws
          end
      end
  end.

(** Where the scan starts: the last index entry if it points inside the file,
    the header otherwise (and then the index is reset). *)
Definition recover_start (fileSize : Z) : ST (World * segment) log_err (Z * Z) := fun '(w, s) =>
  match index_last (sg_index s) with
  | None => (Ok (segmentHeaderSize, 0), (w, s))
  | Some e =>
      if (segmentHeaderSize <=? ie_position e) && (ie_position e <? fileSize) then
        (Ok (ie_position e, ie_relOffset e), (w, s))
      else
        match index_reset (w, sg_index s) with
        | (Err e, (w, ix)) => (Err e, (w, with_index s ix))
        | (Ok _, (w, ix)) => (Ok (segmentHeaderSize, 0), (w, with_index s ix))
        end
  end.

Definition recover : ST (World * segment) log_err unit := fun '(w, s) =>
  match file_Size (sg_file s) w with
  | (Err e, w) => (Err e, (w, s))
  | (Ok fileSize, w) =>
      match recover_start fileSize (w, s) with
      | (Err e, ws) => (Err e, ws)
      | (Ok (position, rel), (w, s)) =>
          let s := mkSegment (sg_file s) (sg_index s) (sg_baseOffset s) (sg_nextOffset s) (sg_size s) position in
          match file_Reader (sg_file s) position fileSize w with
          | (Err e, w) => (Err e, (w, s))
          | (Ok r, w) =>
              match recover_loop (S (length (rd_bytes r))) r position rel (w, s) with
              | (Err e, ws) => (Err e, ws)
              | (Ok (position, rel), (w, s)) =>
                  (Ok tt, (w, mkSegment (sg_file s) (sg_index s) (sg_baseOffset s)
                                (uint64 (sg_baseOffset s + rel)) position (sg_lastIndexed s)))
              end
          end
      end
  end.

Definition openSegment (path : string) : ST World log_err segment := fun w =>
  match (file_Open path ≫= fun _ => file_Reader path 0 segmentHeaderSize) w with
  | (Err e, w) => (Err e, w)
  | (Ok r, w) =>
      match ReadFull r segmentHeaderSize with
      | Err e => (Err e, w)
      | Ok (header, _) =>
          if negb (Uint32 (take 4 header) =? segmentMagic) then (Err ErrBadMagic, w)
          else if negb (Uint32 (take 4 (drop 4 header)) =? segmentVersion) then (Err ErrBadVersion, w)
          else
            let baseOffset := Uint64 (drop 8 header) in
            match openIndex (TrimSuffix path ".log" +:+ indexFileSuffix) w with
            | (Err e, w) => (Err e, w)
            | (Ok ix, w) =>
                let s := mkSegment path ix baseOffset baseOffset segmentHeaderSize segmentHeaderSize in
                match recover (w, s) with
                | (Err e, (w, _)) => (Err e, w)
                | (Ok _, (w, s)) => (Ok s, w)
                end
            end
      end
  end.

Definition segment_append (payload : list byte) : ST (World * segment) log_err Z := fun '(w, s) =>
  match encodeRecord payload with
  | Err e => (Err e, (w, s))
  | Ok encoded =>
      match file_WriteAt (sg_file s) encoded (sg_size s) w with
      | (Err e, w) => (Err e, (w, s))
      | (Ok _, w) =>
          let rel := uint32 (uint64 (sg_nextOffset s - sg_baseOffset s)) in
          match maybeIndex rel (sg_size s) (w, s) with
          | (Err e, ws) => (Err e, ws)
          | (Ok _, (w, s)) =>
              let offset := sg_nextOffset s in
              (Ok offset, (w, mkSegment (sg_file s) (sg_index s) (sg_baseOffset s)
                                (uint64 (sg_nextOffset s + 1)) (sg_size s + blen encoded) (sg_lastIndexed s)))
          end
      end
  end.

(** The forward walk of [read], [target - rel] records. *)
Fixpoint skip_records (n : nat) (r : reader) (position : Z) : res log_err Z :=
  match n with
  | O => Ok position
  | S n =>
      match skipRecord r with
      | Err e => Err e
      | Ok (size, r) => skip_records n r (position + size)
      end
  end.

Definition segment_read (s : segment) (offset : Z) : ST World log_err (list byte) :=
  if (offset <? sg_baseOffset s) || (sg_nextOffset s <=? offset) then st_fail ErrOffsetOutOfRange
  else
    let target := uint32 (uint64 (offset - sg_baseOffset s)) in
    let '(position, rel) :=
      match index_lookup (sg_index s) target with
      | Some e => (ie_position e, ie_relOffset e)
      | None => (segmentHeaderSize, 0)
      end in
    position ← (if rel <? target then
                  scanner ← file_Reader (sg_file s) position (sg_size s - position);
                  st_lift (skip_records (Z.to_nat (target - rel)) scanner position)
                else mret position);
    section ← file_Reader (sg_file s) position (sg_size s - position);
    match readRecord section with
    | Err e => st_fail e
    | Ok (payload, _, _) => mret payload
    end.

(** [sync] flushes the segment before its index. *)
Definition segment_sync (s : segment) : ST World log_err unit :=
  file_Sync (sg_file s) ≫= fun _ => index_sync (sg_index s).

(** [close] closes both files and reports the first error. *)
Definition segment_close (s : segment) : ST World log_err unit := fun w =>
  let '(err, w) := file_Close (sg_file s) w in
  let '(indexErr, w) := index_close (sg_index s) w in
  (match err with Ok _ => indexErr | Err e => Err e end, w).

(** ** Specification: what a segment holds *)

Definition frames (rs : list (list byte)) : list byte := concat (frame <$> rs).

(** The position of record [i]. *)
Definition pos_of (rs : list (list byte)) (i : nat) : Z := segmentHeaderSize + blen (frames (take i rs)).

(** An entry that describes record [ie_relOffset] of [rs]; [<=] instead of [<]
    allows one that points just past the last record. *)
Definition entry_at (rs : list (list byte)) (e : indexEntry) : Prop :=
  0 <= ie_relOffset e <= Z.of_nat (length rs) /\ ie_position e = pos_of rs (Z.to_nat (ie_relOffset e)) /\
  ie_position e < 4294967296.

Definition entry_ok (rs : list (list byte)) (e : indexEntry) : Prop :=
  entry_at rs e /\ ie_relOffset e < Z.of_nat (length rs).

Record idx_inv (w : World) (ix : index) (P : indexEntry -> Prop) : Prop := {
  ii_entries : Forall P (ix_entries ix);
  ii_sorted : entries_sorted (ix_entries ix);
  ii_content : exists junk, (length junk < 8)%nat /\
    fs w !! ix_file ix = Some (entries_bytes (ix_entries ix) ++ junk)
}.

(** At most this many bytes lie between the last indexed record and the end. *)
Definition index_gap : Z := indexIntervalBytes + recordHeaderSize + MaxRecordSize.

(** The segment [s] holds the records [rs]: the file starts with the header and
    their frames (what follows was never acknowledged), the offsets and the size
    agree, and the index describes some of them in order. *)
Record seg_inv (w : World) (s : segment) (rs : list (list byte)) : Prop := {
  si_file : sg_file s = segmentName (sg_baseOffset s);
  si_ixfile : ix_file (sg_index s) = indexName (sg_baseOffset s);
  si_base : 0 <= sg_baseOffset s;
  si_next : sg_nextOffset s = sg_baseOffset s + Z.of_nat (length rs);
  si_next64 : sg_nextOffset s < 18446744073709551616;
  si_payloads : Forall payload_ok rs;
  si_content : exists junk,
    fs w !! sg_file s = Some (segment_header (sg_baseOffset s) ++ frames rs ++ junk);
  si_size : sg_size s = pos_of rs (length rs);
  si_last : segmentHeaderSize <= sg_lastIndexed s <= sg_size s /\ sg_lastIndexed s < 4294967296;
  si_gap : sg_size s - sg_lastIndexed s <= index_gap;
  si_index : idx_inv w (sg_index s) (entry_ok rs)
}.

(** The two files of a segment. *)
Definition seg_files (s : segment) : list string := [sg_file s; ix_file (sg_index s)].

(** ** Lemmas on positions *)

Lemma frames_app rs qs : frames (rs ++ qs) = frames rs ++ frames qs.
Proof. unfold frames. by rewrite fmap_app, concat_app. Qed.

Lemma frames_single p : frames [p] = frame p.
Proof. unfold frames. simpl. by rewrite app_nil_r. Qed.

Lemma frames_cons p rs : frames (p :: rs) = frame p ++ frames rs.
Proof. done. Qed.

Lemma pos_of_app rs qs i : (i <= length rs)%nat -> pos_of (rs ++ qs) i = pos_of rs i.
Proof. intros H. unfold pos_of. by rewrite take_app_le. Qed.

Lemma pos_of_take rs n i : (i <= n)%nat -> pos_of (take n rs) i = pos_of rs i.
Proof. intros H. unfold pos_of. by rewrite take_take, Nat.min_l by lia. Qed.

Lemma pos_of_all rs : pos_of rs (length rs) = segmentHeaderSize + blen (frames rs).
Proof. unfold pos_of. by rewrite take_ge. Qed.

Lemma pos_of_lt rs i j : (i < j <= length rs)%nat -> pos_of rs i + 8 <= pos_of rs j.
Proof.
  intros H. unfold pos_of. replace j with (i + S (j - i - 1))%nat by lia. rewrite <- take_take_drop, frames_app, blen_app.
  destruct (drop i rs) as [|p l] eqn:E.
  { apply (f_equal length) in E. rewrite length_drop in E. simpl in E. lia. }
  cbn [take]. rewrite frames_cons, blen_app, frame_blen. pose proof (blen_nonneg p). pose proof (blen_nonneg (frames (take (j - i - 1) l))). lia.
Qed.

Lemma pos_of_mono rs i j : (i <= j <= length rs)%nat -> pos_of rs i <= pos_of rs j.
Proof. intros H. destruct (decide (i = j)) as [->|]; [lia|]. pose proof (pos_of_lt rs i j). lia. Qed.

Lemma pos_of_ge rs i : (i <= length rs)%nat -> segmentHeaderSize + 8 * Z.of_nat i <= pos_of rs i.
Proof.
  induction i as [|i IH]; intros H.
  - unfold pos_of. pose proof (blen_nonneg (frames (take 0 rs))). lia.
  - pose proof (pos_of_lt rs i (S i)). specialize (IH ltac:(lia)). lia.
Qed.

Lemma segment_header_blen b : blen (segment_header b) = segmentHeaderSize.
Proof. done. Qed.

Lemma segment_header_fields b : 0 <= b < 18446744073709551616 ->
  Uint32 (take 4 (segment_header b)) = segmentMagic /\
  Uint32 (take 4 (drop 4 (segment_header b))) = segmentVersion /\ Uint64 (drop 8 (segment_header b)) = b.
Proof.
  intros Hb. unfold segment_header. rewrite take_app_length', drop_app_length', take_app_length' by done.
  rewrite app_assoc, drop_app_length' by done.
  split_and!; [by apply Uint32_Put_id|by apply Uint32_Put_id|].
  rewrite <- (app_nil_r (PutUint64 b)). by apply Uint64_Put.
Qed.

#[local] Opaque segment_header frame PutUint32 PutUint64.

Lemma entry_at_app rs qs e : entry_at rs e -> entry_at (rs ++ qs) e.
Proof.
  intros ((H0 & H1) & H2 & H3). unfold entry_at. rewrite length_app, pos_of_app by lia. split_and!; [lia|lia|done|done].
Qed.

Lemma entry_ok_app rs qs e : entry_ok rs e -> entry_ok (rs ++ qs) e.
Proof. intros [H1 H2]. split; [by apply entry_at_app|]. rewrite length_app. lia. Qed.

Lemma entry_at_wf rs e : entry_at rs e -> entry_wf e.
Proof.
  intros ((H0 & H1) & H2 & H3). pose proof (pos_of_ge rs (Z.to_nat (ie_relOffset e)) ltac:(lia)) as Hp.
  unfold entry_wf. change segmentHeaderSize with 16 in Hp. lia.
Qed.

(** A new entry for the next record keeps the index in order. *)
Lemma entries_sorted_snoc es e :
  entries_sorted es -> Forall (fun e' => ie_relOffset e' < ie_relOffset e) es -> entries_sorted (es ++ [e]).
Proof.
  intros Hs Hf i j a b Hij Ha Hb. rewrite Forall_forall in Hf.
  assert (Hj : (j < length (es ++ [e]))%nat) by (by eapply lookup_lt_Some). rewrite length_app in Hj. simpl in Hj.
  rewrite lookup_app_l in Ha by lia.
  destruct (decide (j < length es)%nat).
  - rewrite lookup_app_l in Hb by lia. eapply (Hs i j); done.
  - rewrite lookup_app_r in Hb by lia. replace (j - length es)%nat with 0%nat in Hb by lia.
    injection Hb as <-. apply Hf. apply list_elem_of_lookup. eauto.
Qed.

Lemma entries_bytes_snoc es e : entries_bytes (es ++ [e]) = entries_bytes es ++ entry_bytes e.
Proof. unfold entries_bytes. by rewrite fmap_app, concat_app, fmap_cons, concat_cons, app_nil_r. Qed.

Lemma entries_bytes_blen es : blen (entries_bytes es) = Z.of_nat (length es) * indexEntrySize.
Proof. unfold blen. rewrite entries_bytes_length. change indexEntrySize with 8. lia. Qed.

(** ** Lemmas on indexing *)

Lemma idx_inv_weaken w ix (P Q : indexEntry -> Prop) :
  (forall e, P e -> Q e) -> idx_inv w ix P -> idx_inv w ix Q.
Proof. intros HPQ [H1 H2 H3]. split; [by eapply Forall_impl|done|done]. Qed.

Lemma idx_inv_fs w w' ix P : fs w' !! ix_file ix = fs w !! ix_file ix -> idx_inv w ix P -> idx_inv w' ix P.
Proof. intros H [H1 H2 H3]. split; [done|done|]. by rewrite H. Qed.

Lemma index_append_inv w ix P rel position r w' ix' :
  idx_inv w ix P -> 0 <= position ->
  Forall (fun e => ie_relOffset e < rel) (ix_entries ix) ->
  index_append rel position (w, ix) = (r, (w', ix')) ->
  ix_file ix' = ix_file ix /\ fs_same_except [ix_file ix] w w' /\
  (faults w = [] -> faults w' = [] /\ (position < 4294967296 -> r = Ok tt)) /\
  match r with
  | Ok _ => position < 4294967296 /\ ix_entries ix' = ix_entries ix ++ [mkEntry rel position] /\
      (P (mkEntry rel position) -> idx_inv w' ix' P)
  | Err _ => idx_inv w' ix P /\ ix' = ix
  end.
Proof.
  intros [He Hs (junk & Hj & Hc)] Hpos Hlt H. unfold index_append in H.
  change maxIndexableSegment with 4294967296 in H.
  destruct (4294967296 <=? position) eqn:Hmax.
  { injection H as <- <- <-. split_and!; [done|reflexivity| |by split; eauto|done]. intros Hf. split; [done|]. lia. }
  assert (Hcont : content w (ix_file ix) = entries_bytes (ix_entries ix) ++ junk) by (unfold content; by rewrite Hc).
  unfold file_WriteAt in H. destruct (next_fault w) as [f w1] eqn:Hnf.
  apply next_fault_eq in Hnf as [Hfs Hnof]. rewrite (content_eq w w1 _ Hfs), Hcont, encode_entry_length in H.
  rewrite <- entries_bytes_blen in H.
  destruct f as [|k]; rewrite splice_end in H; injection H as <- <- <-; cbn [ix_file ix_entries].
  - split_and!; [done| | |lia|by rewrite uint32_id by lia|].
    + transitivity w1; [by apply fs_same_eq|]. apply fs_same_set. by left.
    + intros Hf. split; [by apply Hnof|done].
    + rewrite uint32_id by lia. intros HP. split; cbn [ix_file ix_entries].
      * apply Forall_app. split; [done|by constructor].
      * by apply entries_sorted_snoc.
      * cbn [fs set_content]. rewrite lookup_insert_eq, entries_bytes_snoc. exists (drop 8 junk).
        rewrite length_drop, <- app_assoc. split; [lia|]. unfold entry_bytes, encode_entry. cbn [ie_relOffset ie_position]. rewrite uint32_id by lia.
        reflexivity.
  - split_and!; [done| | | |done].
    + transitivity w1; [by apply fs_same_eq|]. apply fs_same_set. by left.
    + intros Hf. by apply Hnof in Hf as [? _].
    + split; [done|done|]. cbn [fs set_content]. rewrite lookup_insert_eq. eexists. split; [|done].
      rewrite length_app, length_drop, length_take, encode_entry_length. lia.
Qed.

(** [maybeIndex] either leaves the segment alone, or fails leaving it alone, or
    indexes the record. *)
Lemma maybeIndex_inv w s P rel position r w' s' :
  idx_inv w (sg_index s) P -> 0 <= position ->
  (Forall (fun e => ie_relOffset e < rel) (ix_entries (sg_index s)) \/ sg_lastIndexed s = position) ->
  maybeIndex rel position (w, s) = (r, (w', s')) ->
  fs_same_except [ix_file (sg_index s)] w w' /\
  (faults w = [] -> faults w' = [] /\ (position < 4294967296 -> r = Ok tt)) /\
  match r with
  | Err _ => s' = s /\ idx_inv w' (sg_index s) P
  | Ok _ =>
      (s' = s /\ w' = w /\ position - sg_lastIndexed s < indexIntervalBytes) \/
      (position < 4294967296 /\
       s' = mkSegment (sg_file s) (mkIndex (ix_file (sg_index s)) (ix_entries (sg_index s) ++ [mkEntry rel position]))
              (sg_baseOffset s) (sg_nextOffset s) (sg_size s) position /\
       (P (mkEntry rel position) -> idx_inv w' (sg_index s') P))
  end.
Proof.
  intros Hix Hpos Hor H. unfold maybeIndex in H.
  destruct (_ && _) eqn:Hskip.
  { injection H as <- <- <-. split_and!; [reflexivity|done|]. left. split_and!; [done|done|lia]. }
  assert (Hlt : Forall (fun e => ie_relOffset e < rel) (ix_entries (sg_index s))).
  { destruct Hor as [?|Heq]; [done|]. rewrite Heq, Z.sub_diag in Hskip.
    change indexIntervalBytes with 4096 in Hskip. destruct (ix_entries (sg_index s)); [constructor|done]. }
  destruct (index_append rel position (w, sg_index s)) as [r1 [w1 ix1]] eqn:Ha.
  destruct (index_append_inv _ _ _ _ _ _ _ _ Hix Hpos Hlt Ha) as (Hfile & Hsame & Hnof & Hres).
  destruct r1 as [[]|e]; injection H as <- <- <-.
  - destruct Hres as (Hp & Hent & Hinv). split_and!; [done|done|]. right.
    assert (ix1 = mkIndex (ix_file (sg_index s)) (ix_entries (sg_index s) ++ [mkEntry rel position])) as ->
      by (destruct ix1; simpl in *; congruence).
    split_and!; done.
  - destruct Hres as (Hinv & ->). split_and!; [done| |by destruct s|done]. intros Hf.
    destruct (Hnof Hf) as [? Hno]. split; [done|]. intros Hlt'. by specialize (Hno Hlt').
Qed.

Lemma names_differ b : segmentName b <> indexName b.
Proof.
  unfold segmentName, indexName. intros H.
  assert (Hinj : forall a x y, a +:+ x = a +:+ y -> x = y).
  { induction a as [|c a IH]; [done|]. intros x y Hxy. apply IH. by injection Hxy. }
  apply Hinj in H. discriminate.
Qed.

(** A segment's records are fewer than [2^32]: relative offsets do not wrap. *)
Lemma seg_count w s rs : seg_inv w s rs -> Z.of_nat (length rs) < 4294967296.
Proof.
  intros [_ _ _ _ _ _ _ Hsz Hlast Hgap _]. pose proof (pos_of_ge rs (length rs) ltac:(lia)) as Hg.
  rewrite <- Hsz in Hg. unfold index_gap in Hgap. change indexIntervalBytes with 4096 in Hgap.
  change recordHeaderSize with 8 in Hgap. change segmentHeaderSize with 16 in Hg. pose proof MaxRecordSize_val. lia.
Qed.

(** ** Creation *)

(** An index that is not there is created empty. *)
Lemma openIndex_new name w r w' : fs w !! name = None -> openIndex name w = (r, w') ->
  fs_same_except [name] w w' /\ (faults w = [] -> faults w' = [] /\ is_ok r = true) /\
  match r with Ok ix => ix = mkIndex name [] /\ fs w' !! name = Some [] | Err _ => True end.
Proof.
  intros Hx Hi. unfold openIndex, mbind, ST_bind, file_OpenCreate, file_Size in Hi.
  destruct (next_fault w) as [f3 w4] eqn:N3. apply next_fault_eq in N3 as [E3 F3].
  destruct f3 as [|k3].
  2:{ injection Hi as <- <-. split_and!; [by apply fs_same_eq| |done]. by intros [? _]%F3. }
  rewrite E3, Hx in Hi. set (w4' := set_content w4 _ _) in *.
  destruct (next_fault w4') as [f4 w5] eqn:N4. apply next_fault_eq in N4 as [E4 F4].
  assert (S4 : fs_same_except [name] w w5).
  { transitivity w4; [by apply fs_same_eq|]. transitivity w4'; [apply fs_same_set; by left|]. by apply fs_same_eq. }
  assert (Hc5 : fs w5 !! name = Some []) by (rewrite E4; cbn; by rewrite lookup_insert_eq).
  unfold content in Hi. rewrite Hc5 in Hi. cbn [default from_option id] in Hi. change (blen [] / indexEntrySize =? 0) with true in Hi.
  destruct f4; injection Hi as <- <-; split_and!; try done; by intros [_ [? ?]%F4]%F3.
Qed.

Lemma createSegment_spec w b r w' :
  0 <= b < 18446744073709551616 -> (fs w !! segmentName b = None -> fs w !! indexName b = None) ->
  createSegment b w = (r, w') ->
  fs_same_except [segmentName b; indexName b] w w' /\
  (fs w' !! segmentName b = None -> fs w' = fs w) /\
  (faults w = [] -> faults w' = [] /\ (fs w !! segmentName b = None -> is_ok r = true)) /\
  match r with
  | Ok s => fs w !! segmentName b = None /\ sg_baseOffset s = b /\ seg_inv w' s [] /\
      fs w' !! segmentName b = Some (segment_header b)
  | Err _ => True
  end.
Proof.
  intros Hb Hx H. unfold createSegment, mbind, ST_bind in H.
  unfold file_OpenExcl in H. destruct (next_fault w) as [f1 w1] eqn:N1. apply next_fault_eq in N1 as [E1 F1].
  destruct f1 as [|k1].
  2:{ injection H as <- <-. split_and!; [by apply fs_same_eq|done| |done]. by intros [? _]%F1. }
  rewrite E1 in H. destruct (fs w !! segmentName b) as [c|] eqn:Hex.
  { injection H as <- <-. split_and!; [by apply fs_same_eq|done| |done]. by intros [_ ?]%F1. }
  specialize (Hx eq_refl).
  assert (S1 : fs_same_except [segmentName b; indexName b] w (set_content w1 (segmentName b) [])).
  { transitivity w1; [by apply fs_same_eq|]. apply fs_same_set. by left. }
  set (w1' := set_content w1 _ _) in *.
  unfold file_WriteAt in H. destruct (next_fault w1') as [f2 w2] eqn:N2. apply next_fault_eq in N2 as [E2 F2].
  assert (Hcont : content w2 (segmentName b) = [] ++ []).
  { unfold content. rewrite E2. cbn. by rewrite lookup_insert_eq. }
  change 0 with (blen []) in H at 1 2. rewrite Hcont in H.
  assert (S2 : forall c, fs_same_except [segmentName b; indexName b] w (set_content w2 (segmentName b) c)).
  { intros c. transitivity w1'; [done|]. transitivity w2; [by apply fs_same_eq|]. apply fs_same_set. by left. }
  destruct f2 as [|k2].
  2:{ injection H as <- <-. split_and!; [done| | |done]; [|by intros [_ [? _]%F2]%F1]. cbn. by rewrite lookup_insert_eq. }
  rewrite splice_end in H. cbn [app] in H. rewrite drop_nil, app_nil_r in H.
  set (w2' := set_content w2 _ _) in *.
  assert (Hne : indexName b <> segmentName b) by apply not_eq_sym, names_differ.
  assert (Hx2 : fs w2' !! indexName b = None).
  { cbn. rewrite lookup_insert_ne, E2 by done. cbn. by rewrite lookup_insert_ne, E1 by done. }
  assert (Hd2 : fs w2' !! segmentName b = Some (segment_header b)) by (cbn; by rewrite lookup_insert_eq).
  destruct (openIndex (indexName b) w2') as [r3 w3] eqn:Hi. destruct (openIndex_new _ _ _ _ Hx2 Hi) as (S3 & F3 & Hr3).
  assert (S3' : fs_same_except [segmentName b; indexName b] w w3).
  { transitivity w2'; [apply S2|]. intros n Hn. apply S3. intros ->%list_elem_of_singleton. apply Hn. right. by left. }
  assert (Hd3 : fs w3 !! segmentName b = Some (segment_header b)).
  { rewrite S3; [done|]. by intros ?%list_elem_of_singleton. }
  destruct r3 as [ix|e]; injection H as <- <-; (split; [done|split; [congruence|split]]).
  - by intros [_ [_ [? _]%F3]%F2]%F1.
  - destruct Hr3 as [-> Hc3].
    split_and!; [done|done| |done]. split; cbn; try done; try lia.
    + exists []. cbn. rewrite Hd3. by rewrite app_nil_r.
    + split; cbn; [constructor|by intros ? ? ? ? ?|]. exists []. split; [simpl; lia|done].
  - by intros [_ [_ [_ ?]%F3]%F2]%F1.
  - done.
Qed.

(** ** Append *)

(** Indexing the next record: the index covers it or the last entry is near. *)
Lemma maybeIndex_append w s rs p r w' s' :
  idx_inv w (sg_index s) (entry_ok rs) -> sg_size s = pos_of rs (length rs) ->
  segmentHeaderSize <= sg_lastIndexed s <= sg_size s -> sg_lastIndexed s < 4294967296 ->
  maybeIndex (Z.of_nat (length rs)) (sg_size s) (w, s) = (r, (w', s')) ->
  fs_same_except [ix_file (sg_index s)] w w' /\
  (faults w = [] -> faults w' = [] /\ (sg_size s < 4294967296 -> r = Ok tt)) /\
  match r with
  | Err _ => s' = s /\ idx_inv w' (sg_index s) (entry_ok rs)
  | Ok _ => idx_inv w' (sg_index s') (entry_ok (rs ++ [p])) /\
      (sg_file s' = sg_file s /\ ix_file (sg_index s') = ix_file (sg_index s) /\ sg_baseOffset s' = sg_baseOffset s /\
       sg_nextOffset s' = sg_nextOffset s /\ sg_size s' = sg_size s) /\
      segmentHeaderSize <= sg_lastIndexed s' <= sg_size s /\ sg_lastIndexed s' < 4294967296 /\
      sg_size s - sg_lastIndexed s' < indexIntervalBytes
  end.
Proof.
  intros Hix Hsz Hlast Hlast' Hm. apply (maybeIndex_inv w s (entry_at (rs ++ [p]))) in Hm as (Hsame & Hnof & Hres).
  2:{ eapply idx_inv_weaken; [|exact Hix]. intros e [He _]. by apply entry_at_app. }
  2:{ unfold segmentHeaderSize in Hlast. lia. }
  2:{ left. eapply Forall_impl; [apply Hix|]. by intros e [_ He]. }
  split; [done|]. split; [done|]. destruct r as [[]|e].
  2:{ destruct Hres as [-> [_ Hi2 Hi3]]. split; [done|]. split; [apply Hix|done|done]. }
  assert (Hold : Forall (entry_ok (rs ++ [p])) (ix_entries (sg_index s))).
  { eapply Forall_impl; [apply Hix|]. intros e He. by apply entry_ok_app. }
  destruct Hres as [(-> & -> & Hg)|(Hlt & -> & Hinv)].
  - split; [destruct Hix; by split|]. split_and!; (done || lia).
  - assert (Hnew : entry_at (rs ++ [p]) (mkEntry (Z.of_nat (length rs)) (sg_size s))).
    { unfold entry_at. cbn [ie_relOffset ie_position]. rewrite length_app, Nat2Z.id, pos_of_app by lia. simpl. split_and!; (lia || done). }
    split; [|cbn; split_and!; (done || lia || (rewrite Z.sub_diag; done))]. destruct (Hinv Hnew) as [_ Hi2 Hi3]. split; [|done|done].
    cbn [sg_index ix_entries] in *. apply Forall_app. split; [done|]. apply Forall_singleton. split; [done|]. rewrite length_app. simpl. lia.
Qed.

(** The segment after a record was written and indexed. *)
Lemma seg_inv_append w w' s s' rs p junk :
  seg_inv w s rs -> payload_ok p -> sg_nextOffset s + 1 < 18446744073709551616 ->
  fs w' !! sg_file s = Some ((segment_header (sg_baseOffset s) ++ frames rs) ++ frame p ++ junk) ->
  idx_inv w' (sg_index s') (entry_ok (rs ++ [p])) ->
  sg_file s' = sg_file s /\ ix_file (sg_index s') = ix_file (sg_index s) /\ sg_baseOffset s' = sg_baseOffset s /\
    sg_nextOffset s' = sg_nextOffset s /\ sg_size s' = sg_size s ->
  segmentHeaderSize <= sg_lastIndexed s' <= sg_size s -> sg_lastIndexed s' < 4294967296 ->
  sg_size s - sg_lastIndexed s' < indexIntervalBytes ->
  seg_inv w' (mkSegment (sg_file s') (sg_index s') (sg_baseOffset s') (sg_nextOffset s + 1) (sg_size s + blen (frame p)) (sg_lastIndexed s'))
    (rs ++ [p]).
Proof.
  intros [Hf Hxf Hb Hn Hn64 Hpl _ Hsz _ _ _] Hp Hroom Hc Hix (E1 & E2 & E3 & _) Hl Hl' Hg.
  pose proof (frame_blen p) as Hfb. pose proof (blen_nonneg p). unfold payload_ok in Hp.
  split; cbn [sg_file sg_index sg_baseOffset sg_nextOffset sg_size sg_lastIndexed]; rewrite ?E1, ?E2, ?E3; try done.
  - rewrite Hn, length_app. simpl. lia.
  - apply Forall_app. split; [done|by constructor].
  - rewrite Hc, frames_app, frames_single. eexists. by rewrite <- !app_assoc.
  - rewrite Hsz, !pos_of_all, frames_app, frames_single, blen_app. lia.
  - lia.
  - unfold index_gap. change recordHeaderSize with 8. lia.
Qed.

Lemma segment_append_spec w s rs p r w' s' :
  seg_inv w s rs -> sg_nextOffset s + 1 < 18446744073709551616 ->
  segment_append p (w, s) = (r, (w', s')) ->
  fs_same_except (seg_files s) w w' /\ seg_files s' = seg_files s /\ sg_baseOffset s' = sg_baseOffset s /\
  (faults w = [] -> faults w' = [] /\ (payload_ok p -> sg_size s < 4294967296 -> is_ok r = true)) /\
  match r with
  | Ok off => payload_ok p /\ off = sg_nextOffset s /\ seg_inv w' s' (rs ++ [p])
  | Err _ => seg_inv w' s' rs
  end.
Proof.
  intros Hinv Hroom H. pose proof (seg_count _ _ _ Hinv) as Hlen.
  pose proof Hinv as [Hf Hxf Hb Hn Hn64 Hpl (junk & Hc) Hsz [Hlast Hlast'] Hgap Hix]. unfold segment_append in H.
  assert (Hne : ix_file (sg_index s) <> sg_file s) by (rewrite Hf, Hxf; apply not_eq_sym, names_differ).
  rewrite encodeRecord_frame in H. destruct (decide (payload_ok p)) as [Hp|Hp].
  2:{ injection H as <- <- <-. by split_and!; [reflexivity|..]. }
  assert (Hcont : content w (sg_file s) = (segment_header (sg_baseOffset s) ++ frames rs) ++ junk).
  { unfold content. rewrite Hc. cbn [default from_option id]. by rewrite <- app_assoc. }
  assert (Hszb : sg_size s = blen (segment_header (sg_baseOffset s) ++ frames rs)).
  { rewrite Hsz, pos_of_all, blen_app. by rewrite segment_header_blen. }
  unfold file_WriteAt in H. destruct (next_fault w) as [f w1] eqn:Hnf.
  apply next_fault_eq in Hnf as [Hfs Hnof]. rewrite (content_eq w w1 _ Hfs), Hcont, Hszb in H.
  assert (Hsame1 : forall c, fs_same_except (seg_files s) w (set_content w1 (sg_file s) c)).
  { intros c. transitivity w1; [by apply fs_same_eq|]. apply fs_same_set. by left. }
  assert (Hix1 : forall c, idx_inv (set_content w1 (sg_file s) c) (sg_index s) (entry_ok rs)).
  { intros c. eapply idx_inv_fs; [|exact Hix]. simpl. by rewrite lookup_insert_ne, Hfs by done. }
  destruct f as [|k]; rewrite splice_end in H.
  2:{ injection H as <- <- <-. split_and!; [done|done|done|intros Hf0; by apply Hnof in Hf0 as [? _]|].
      split; try done. cbn [fs set_content]. rewrite lookup_insert_eq, <- app_assoc. eauto. }
  rewrite <- Hszb in H.
  assert (Hrel : uint32 (uint64 (sg_nextOffset s - sg_baseOffset s)) = Z.of_nat (length rs)).
  { rewrite Hn. replace (_ + _ - _) with (Z.of_nat (length rs)) by lia. by rewrite uint64_id, uint32_id by lia. }
  rewrite Hrel in H. set (w2 := set_content w1 (sg_file s) _) in *.
  destruct (maybeIndex (Z.of_nat (length rs)) (sg_size s) (w2, s)) as [r1 [w3 s3]] eqn:Hm.
  apply (maybeIndex_append w2 s rs p) in Hm as (Hsame2 & Hnof2 & Hres); [|apply Hix1|done|done|done].
  assert (Hw3 : fs w3 !! sg_file s = fs w2 !! sg_file s) by (apply Hsame2; by intros Hin%list_elem_of_singleton).
  cbn [fs set_content w2] in Hw3. rewrite lookup_insert_eq in Hw3.
  assert (Hfsall : fs_same_except (seg_files s) w w3).
  { transitivity w2; [apply Hsame1|]. intros n Hnin. apply Hsame2. intros ->%list_elem_of_singleton. apply Hnin. right. by left. }
  destruct r1 as [[]|e]; injection H as <- <- <-.
  - destruct Hres as (Hi3 & Heq & Hl1 & Hl2 & Hg). pose proof Heq as (E1 & E2 & E3 & E4 & E5). rewrite E4, (uint64_id (_ + 1)), E5 by lia.
    split_and!; [done|unfold seg_files; cbn; by rewrite E1, E2|cbn; done| |done|done|by eapply seg_inv_append].
    intros Hf0. apply Hnof in Hf0 as [_ Hf1]. by apply Hnof2 in Hf1 as [? _].
  - destruct Hres as [-> Hi3]. split_and!; [done|done|done| |].
    + intros Hf0. apply Hnof in Hf0 as [_ Hf1]. apply Hnof2 in Hf1 as [? Hok]. split; [done|]. intros _ Hlt. by specialize (Hok Hlt).
    + split; try done. rewrite Hw3, <- app_assoc. eauto.
Qed.

(** ** Read *)

(** What a reader delivered before it failed would also have been delivered by
    one that does not fail. *)
Lemma ReadFull_ext bs f n a r t f' :
  0 <= n -> ReadFull (mkReader bs f) n = Ok (a, r) ->
  ReadFull (mkReader (bs ++ t) f') n = Ok (a, mkReader (rd_bytes r ++ t) f').
Proof. intros Hn H. apply ReadFull_ok in H as (-> & <- & _); [|done]. rewrite <- app_assoc. apply ReadFull_app. Qed.

Lemma skipRecord_ext bs f n r t f' :
  skipRecord (mkReader bs f) = Ok (n, r) ->
  skipRecord (mkReader (bs ++ t) f') = Ok (n, mkReader (rd_bytes r ++ t) f').
Proof.
  unfold skipRecord. intros H. destruct (ReadFull (mkReader bs f) _) as [[h r1]|e] eqn:Hh; [|done].
  rewrite (ReadFull_ext _ _ recordHeaderSize _ _ t f' ltac:(done) Hh). destruct (MaxRecordSize <? _); [done|].
  cbn [rd_bytes rd_fails]. set (n0 := Uint32 _) in *. pose proof (blen_nonneg t).
  assert (0 <= n0) by apply Uint32_range.
  destruct (n0 <=? blen (rd_bytes r1)) eqn:Hl; [|by destruct (rd_fails r1)]. injection H as <- <-.
  rewrite blen_app, (proj2 (Z.leb_le _ _)) by lia. cbn [rd_bytes].
  rewrite drop_app_le; [done|]. unfold blen in Hl. lia.
Qed.

Lemma skip_records_ext n bs f t f' pos x :
  skip_records n (mkReader bs f) pos = Ok x -> skip_records n (mkReader (bs ++ t) f') pos = Ok x.
Proof.
  revert bs f pos. induction n as [|n IH]; intros bs f pos; cbn [skip_records]; [done|].
  destruct (skipRecord _) as [[k [bs1 f1]]|] eqn:E; [|done]. rewrite (skipRecord_ext _ _ _ _ t f' E). apply IH.
Qed.

Lemma skip_records_frames n rs t f pos :
  Forall payload_ok rs -> (n <= length rs)%nat ->
  skip_records n (mkReader (frames rs ++ t) f) pos = Ok (pos + blen (frames (take n rs))).
Proof.
  revert rs pos. induction n as [|n IH]; intros rs pos Hok Hn; cbn [skip_records].
  { f_equal. unfold frames, blen. simpl. lia. }
  destruct rs as [|p rs]; [simpl in Hn; lia|]. apply Forall_cons in Hok as [Hp Hok].
  rewrite frames_cons, <- app_assoc, skipRecord_frame, IH by (simpl in *; (done || lia)).
  cbn [take]. rewrite frames_cons, blen_app. f_equal. lia.
Qed.

(** The bytes of a segment from record [i] to its size. *)
Lemma seg_section w s rs i :
  seg_inv w s rs -> (i <= length rs)%nat ->
  take (Z.to_nat (sg_size s - pos_of rs i)) (drop (Z.to_nat (pos_of rs i)) (content w (sg_file s)))
  = frames (drop i rs).
Proof.
  intros [_ _ _ _ _ _ (junk & Hc) Hsz _ _ _] Hi. unfold content. rewrite Hc. cbn [default from_option id].
  assert (E : frames rs = frames (take i rs) ++ frames (drop i rs)) by (by rewrite <- frames_app, take_drop).
  rewrite Hsz, pos_of_all, E, blen_app. unfold pos_of.
  rewrite <- (app_assoc (frames _)), (app_assoc (segment_header _)), drop_app_length', take_app_length'; [done| |].
  - unfold blen. lia.
  - rewrite length_app. pose proof (segment_header_blen (sg_baseOffset s)). unfold blen in *. lia.
Qed.

(** Reading a section gives a reader over it, or over a prefix of it that then fails. *)
Lemma file_Reader_spec name pos n w r w' :
  file_Reader name pos n w = (r, w') ->
  fs w' = fs w /\
  let bs := take (Z.to_nat n) (drop (Z.to_nat pos) (content w name)) in
  (faults w = [] -> faults w' = [] /\ r = Ok (mkReader bs false)) /\
  exists bs1 t f, bs = bs1 ++ t /\ r = Ok (mkReader bs1 f).
Proof.
  unfold file_Reader. destruct (next_fault w) as [f w1] eqn:Hn. apply next_fault_eq in Hn as [Hfs Hno].
  rewrite (content_eq _ _ _ Hfs). cbv zeta. set (bs := take _ (drop _ _)).
  destruct f as [|k]; intros H; injection H as <- <-.
  - split_and!; [done|by intros [_ ?]%Hno|]. exists bs, [], false. by rewrite app_nil_r.
  - split_and!; [done|by intros [? _]%Hno|]. exists (take k bs), (drop k bs), true. by rewrite take_drop.
Qed.

Lemma seg_lookup_spec w s rs target :
  seg_inv w s rs -> 0 <= target ->
  exists rel : nat, Z.of_nat rel <= target /\ (rel <= length rs)%nat /\
    match index_lookup (sg_index s) target with
    | Some e => (ie_position e, ie_relOffset e)
    | None => (segmentHeaderSize, 0)
    end = (pos_of rs rel, Z.of_nat rel).
Proof.
  intros Hinv Ht. destruct (si_index _ _ _ Hinv) as [He Hs _].
  pose proof (index_lookup_spec (sg_index s) target Hs) as Hl.
  destruct (index_lookup (sg_index s) target) as [e|].
  - destruct Hl as (Hin & Hle & _). rewrite Forall_forall in He. destruct (He e Hin) as [((H0 & H1) & H2 & _) _].
    exists (Z.to_nat (ie_relOffset e)). split_and!; [lia|lia|]. rewrite H2. f_equal. lia.
  - exists 0%nat. split_and!; [lia|lia|]. done.
Qed.

(** The walk from an indexed record to the one wanted. *)
Lemma segment_walk_spec w s rs rel target r w' :
  seg_inv w s rs -> Z.of_nat rel <= target -> target < Z.of_nat (length rs) ->
  (if Z.of_nat rel <? target then
     scanner ← file_Reader (sg_file s) (pos_of rs rel) (sg_size s - pos_of rs rel);
     st_lift (skip_records (Z.to_nat (target - Z.of_nat rel)) scanner (pos_of rs rel))
   else mret (pos_of rs rel)) w = (r, w') ->
  fs w' = fs w /\ (faults w = [] -> faults w' = [] /\ r = Ok (pos_of rs (Z.to_nat target))) /\
  (forall x, r = Ok x -> x = pos_of rs (Z.to_nat target)).
Proof.
  intros Hinv Hrel Hin.
  assert (Hpos : pos_of rs (Z.to_nat target)
                 = pos_of rs rel + blen (frames (take (Z.to_nat (target - Z.of_nat rel)) (drop rel rs)))).
  { unfold pos_of. rewrite <- Z.add_assoc. f_equal. rewrite <- blen_app, <- frames_app, take_take_drop. do 3 f_equal. lia. }
  assert (Hskip : skip_records (Z.to_nat (target - Z.of_nat rel)) (mkReader (frames (drop rel rs)) false) (pos_of rs rel)
                  = Ok (pos_of rs (Z.to_nat target))).
  { rewrite Hpos. rewrite <- (app_nil_r (frames (drop rel rs))). apply skip_records_frames; [apply Forall_drop, Hinv|].
    rewrite length_drop. lia. }
  destruct (Z.of_nat rel <? target) eqn:Hlt.
  - unfold mbind, ST_bind at 1. destruct (file_Reader _ _ _ w) as [r1 w1] eqn:Hr.
    apply file_Reader_spec in Hr as (Hfs & Hno & bs1 & t & f & Hbs & ->).
    rewrite (seg_section w s rs rel) in Hno, Hbs by (done || lia). unfold st_lift. intros [= <- <-]. split_and!; [done| |].
    + intros H0. destruct (Hno H0) as [? Hrd]. injection Hrd as -> ->. by rewrite Hskip.
    + intros x Hx. apply (skip_records_ext _ _ _ t false) in Hx. rewrite <- Hbs, Hskip in Hx. by injection Hx.
  - intros [= <- <-]. assert (Z.to_nat target = rel) as -> by lia. split_and!; [done|done|]. by intros x [= <-].
Qed.

(** A read in range returns the record, unless the file system reports an error;
    any other read is refused. *)
Lemma segment_read_spec w s rs off r w' :
  seg_inv w s rs -> segment_read s off w = (r, w') ->
  fs w' = fs w /\
  (off < sg_baseOffset s \/ sg_nextOffset s <= off -> r = Err ErrOffsetOutOfRange /\ w' = w) /\
  (forall i p, off = sg_baseOffset s + Z.of_nat i -> rs !! i = Some p ->
     (faults w = [] -> r = Ok p /\ faults w' = []) /\ (forall q, r = Ok q -> q = p)).
Proof.
  intros Hinv H. pose proof Hinv as [_ _ Hb Hn Hn64 Hpl _ Hsz Hlast Hgap _]. unfold segment_read in H.
  destruct ((off <? _) || _) eqn:Hrange.
  { injection H as <- <-. split_and!; [done|done|]. intros i p -> Hi%lookup_lt_Some. lia. }
  assert (Hin : 0 <= off - sg_baseOffset s < Z.of_nat (length rs)) by lia.
  pose proof (seg_count _ _ _ Hinv) as Hlen.
  rewrite uint64_id, uint32_id in H by lia. set (target := off - sg_baseOffset s) in *.
  destruct (seg_lookup_spec w s rs target Hinv ltac:(lia)) as (rel & Hrel & Hrell & Heq). rewrite Heq in H. clear Heq.
  destruct (lookup_lt_is_Some_2 rs (Z.to_nat target)) as [p Hp]; [lia|].
  assert (Hread : readRecord (mkReader (frames (drop (Z.to_nat target) rs)) false)
                  = Ok (p, blen (frame p), mkReader (frames (drop (S (Z.to_nat target)) rs)) false)).
  { rewrite (drop_S _ p) by done. rewrite frames_cons. apply readRecord_frame. eapply Forall_lookup_1; done. }
  set (walk := if Z.of_nat rel <? target then _ else _) in H. destruct (walk w) as [rw w1] eqn:Hw1.
  destruct (segment_walk_spec w s rs rel target rw w1 Hinv ltac:(lia) ltac:(lia) Hw1) as (Hfs1 & Hno1 & Hok1).
  unfold mbind, ST_bind in H. rewrite Hw1 in H. destruct rw as [x|e].
  2:{ injection H as <- <-. split_and!; [done|lia|]. intros i q -> Hi. split; [|done]. by intros [_ ?]%Hno1. }
  rewrite (Hok1 x eq_refl) in *. clear x Hok1.
  destruct (file_Reader _ _ _ w1) as [r2 w2] eqn:Hr.
  apply file_Reader_spec in Hr as (Hfs2 & Hno2 & bs1 & t & f & Hbs & ->).
  rewrite (content_eq _ _ _ Hfs1), (seg_section w s rs (Z.to_nat target)) in Hno2, Hbs by (done || lia).
  assert (Hgoal : fs w' = fs w /\ (faults w = [] -> r = Ok p /\ faults w' = []) /\ (forall q, r = Ok q -> q = p)).
  { destruct (readRecord (mkReader bs1 f)) as [[[q n] r3]|e] eqn:Hq; injection H as <- <-.
    - apply readRecord_ok in Hq as (Hqok & -> & _ & _). rewrite Hbs, <- app_assoc, readRecord_frame in Hread by done.
      injection Hread as <- _ _. split_and!; [congruence| |by intros ? [= <-]].
      intros [H0 _]%Hno1. by destruct (Hno2 H0) as [? _].
    - split_and!; [congruence| |done]. intros [H0 _]%Hno1. destruct (Hno2 H0) as [_ Hrd]. injection Hrd as -> ->.
      congruence. }
  destruct Hgoal as (G1 & G2 & G3). split_and!; [done|lia|]. intros i q -> Hi.
  assert (Z.to_nat target = i) as Hti by (unfold target; lia). rewrite Hti in Hp. simplify_eq. done.
Qed.

(** ** Theorems *)

(** A created segment is empty and usable. *)
Lemma created b : 0 <= b < 18446744073709551616 ->
  exists w s, createSegment b (mkWorld ∅ []) = (Ok s, w) /\ sg_baseOffset s = b /\ seg_inv w s [] /\ faults w = [] /\
    fs w !! sg_file s = Some (segment_header b ++ frames []).
Proof.
  intros Hb. destruct (createSegment b (mkWorld ∅ [])) as [r w] eqn:H.
  eapply createSegment_spec in H as (_ & _ & Hno & Hr); [|done|done]. destruct (Hno eq_refl) as [Hf Hok].
  specialize (Hok eq_refl). destruct r as [s|]; [|done]. destruct Hr as (_ & <- & Hi & Hd). exists w, s.
  split_and!; [done|done|done|done|]. rewrite (si_file _ _ _ Hi), Hd. change (frames []) with (@nil byte). by rewrite app_nil_r.
Qed.

(** [segment.append] on a segment holding [rs], whatever the file system does:
    only the segment's two files change; a success returns the next offset and
    leaves a segment holding [rs ++ [p]]; a failure leaves one holding [rs]
    (nothing of a failed record is ever readable); and without faults a payload
    within the size limit is accepted. *)
Theorem segment_append_correct w s rs p r w' s' :
  seg_inv w s rs -> sg_nextOffset s + 1 < 18446744073709551616 ->
  segment_append p (w, s) = (r, (w', s')) ->
  fs_same_except (seg_files s) w w' /\ seg_files s' = seg_files s /\ sg_baseOffset s' = sg_baseOffset s /\
  (faults w = [] -> faults w' = [] /\ (payload_ok p -> sg_size s < 4294967296 -> is_ok r = true)) /\
  match r with
  | Ok off => payload_ok p /\ off = sg_nextOffset s /\ seg_inv w' s' (rs ++ [p])
  | Err _ => seg_inv w' s' rs
  end.
Proof. apply segment_append_spec. Qed.

Lemma segment_append_correct_witness : exists w s w' s',
  seg_inv w s [] /\ segment_append [x41] (w, s) = (Ok 7, (w', s')) /\ seg_inv w' s' [[x41]].
Proof.
  destruct (created 7 ltac:(lia)) as (w & s & _ & Hb & Hi & Hf & _).
  destruct (segment_append [x41] (w, s)) as [r [w' s']] eqn:H. exists w, s, w', s'.
  pose proof (si_next _ _ _ Hi) as Hn. rewrite Hb in Hn. simpl in Hn.
  destruct (segment_append_correct w s [] [x41] r w' s' Hi ltac:(lia) H) as (_ & _ & _ & Hok & Hr).
  destruct (Hok Hf) as [_ Hok1].
  assert (is_ok r = true) as Hr1 by (apply Hok1; [by vm_compute|rewrite (si_size _ _ _ Hi); by vm_compute]).
  destruct r as [off|]; [|done]. destruct Hr as (_ & Hoff & Hi2). rewrite Hn in Hoff. subst off. done.
Defined.

(** [segment.read] on a segment holding [rs]: an offset outside the segment is
    refused; the offset of record [i] yields exactly that record, found through
    the sparse index and a bounded walk, and an I/O error can only turn the
    answer into an error, never into other bytes. *)
Theorem segment_read_correct w s rs off r w' :
  seg_inv w s rs -> segment_read s off w = (r, w') ->
  fs w' = fs w /\
  (off < sg_baseOffset s \/ sg_nextOffset s <= off -> r = Err ErrOffsetOutOfRange /\ w' = w) /\
  (forall i p, off = sg_baseOffset s + Z.of_nat i -> rs !! i = Some p ->
     (faults w = [] -> r = Ok p /\ faults w' = []) /\ (forall q, r = Ok q -> q = p)).
Proof. apply segment_read_spec. Qed.

Lemma segment_read_correct_witness : exists w s, seg_inv w s [[x41]] /\ (segment_read s 7 w).1 = Ok [x41].
Proof.
  destruct (created 7 ltac:(lia)) as (w0 & s0 & _ & Hb & Hi & Hf & _).
  destruct (segment_append [x41] (w0, s0)) as [r [w s]] eqn:H.
  pose proof (si_next _ _ _ Hi) as Hn. rewrite Hb in Hn. simpl in Hn.
  destruct (segment_append_spec w0 s0 [] [x41] r w s Hi ltac:(lia) H) as (_ & _ & Hb' & Hok & Hr).
  destruct (Hok Hf) as [Hf' Hok1].
  assert (is_ok r = true) as Hr1 by (apply Hok1; [by vm_compute|rewrite (si_size _ _ _ Hi); by vm_compute]).
  destruct r as [off|]; [|done]. destruct Hr as (_ & _ & Hi'). exists w, s. split; [done|].
  destruct (segment_read s 7 w) as [r1 w1] eqn:Hread.
  destruct (segment_read_correct w s [[x41]] 7 r1 w1 Hi' Hread) as (_ & _ & Hin).
  destruct (Hin 0%nat [x41]) as [Hno _]; [simpl; lia|done|]. by destruct (Hno Hf') as [-> _].
Defined.
