(* ===== verification/Recovery.v ===== *)
(** * Recovery of a segment: [openSegment] and [recover] of [broker/log/segment.go]

    What is left of a segment's files after a crash, and what opening it again
    makes of them. *)

From S2P Require Import Prelude Decimal Bytes Record FileSys Index Segment.

#[local] Opaque segment_header frame PutUint32 PutUint64.

(** ** The scan *)

Lemma readRecord_err bs e :
  readRecord (mkReader bs false) = Err e -> e = ErrEOF /\ bs = [] \/ e = ErrTornRecord \/ e = ErrCorruptRecord.
Proof.
  unfold readRecord, ReadFull. cbn [rd_bytes rd_fails]. intros H.
  repeat (case_match; simplify_eq; try tauto; cases_if; simplify_eq; try tauto).
  left. split; [done|]. destruct bs; [done|]. unfold blen in *. simpl in *. lia.
Qed.

(** The scan's invariant before record [i]; [tail] is what follows the records. *)
Record rec_inv (hd tail : list byte) (rs : list (list byte)) (i : nat) (w : World) (s : segment) : Prop := {
  ri_faults : faults w = [];
  ri_names : ix_file (sg_index s) <> sg_file s;
  ri_content : fs w !! sg_file s = Some (hd ++ frames rs ++ tail);
  ri_index : idx_inv w (sg_index s)
    (fun e => entry_at rs e /\ (tail = [] -> ie_relOffset e < Z.of_nat (length rs)));
  ri_last : segmentHeaderSize <= sg_lastIndexed s <= pos_of rs i /\ sg_lastIndexed s < 4294967296;
  ri_gap : pos_of rs i - sg_lastIndexed s <= index_gap;
  ri_seen : Forall (fun e => ie_relOffset e < Z.of_nat i) (ix_entries (sg_index s)) \/
    (sg_lastIndexed s = pos_of rs i /\ Forall (fun e => ie_relOffset e <= Z.of_nat i) (ix_entries (sg_index s)))
}.

(** What a step of the scan leaves alone. *)
Definition seg_same (s s' : segment) : Prop := seg_files s' = seg_files s /\ sg_baseOffset s' = sg_baseOffset s.

#[global] Instance seg_same_trans : Transitive seg_same.
Proof. intros a b c [H1 H2] [H3 H4]. split; congruence. Qed.

Lemma recover_step hd tail rs i w s p :
  rec_inv hd tail rs i w s -> rs !! i = Some p -> payload_ok p -> pos_of rs i < 4294967296 ->
  exists w' s', maybeIndex (Z.of_nat i) (pos_of rs i) (w, s) = (Ok tt, (w', s')) /\
    rec_inv hd tail rs (S i) w' s' /\ seg_same s s' /\ fs_same_except (seg_files s) w w'.
Proof.
  intros [Hf Hne Hc Hix Hlast Hgap Hseen] Hp Hok Hpos. unfold payload_ok in Hok.
  assert (Hi : (i < length rs)%nat) by (by eapply lookup_lt_Some).
  assert (Hstep : pos_of rs (S i) = pos_of rs i + (8 + blen p)).
  { unfold pos_of. rewrite (take_S_r _ _ p), frames_app, frames_single, blen_app, frame_blen by done. lia. }
  assert (Hle : Forall (fun e => ie_relOffset e < Z.of_nat (S i)) (ix_entries (sg_index s))).
  { destruct Hseen as [H|[_ H]]; eapply Forall_impl; try exact H; simpl; intros; lia. }
  pose proof (blen_nonneg p). assert (segmentHeaderSize = 16) by done.
  destruct (maybeIndex (Z.of_nat i) (pos_of rs i) (w, s)) as [r [w' s']] eqn:Hm. exists w', s'.
  eapply maybeIndex_inv in Hm as (Hsame & Hno & Hres); [|exact Hix|lia|].
  2:{ destruct Hseen as [H1|[H1 _]]; [by left|by right]. }
  destruct (Hno Hf) as [Hf' Hr]. specialize (Hr Hpos). subst r. split; [done|].
  assert (Hfs : fs_same_except (seg_files s) w w').
  { intros n Hnin. apply Hsame. intros ->%list_elem_of_singleton. apply Hnin. right. by left. }
  destruct Hres as [(-> & -> & Hg)|(_ & -> & Hinv)].
  - split_and!; [|done|done]. split; try done; [lia|unfold index_gap; change recordHeaderSize with 8; lia|by left].
  - split_and!; [|done|done].
    split; cbn [sg_file sg_index sg_lastIndexed ix_file ix_entries]; try done.
    + rewrite Hsame; [done|]. by intros ?%list_elem_of_singleton.
    + apply Hinv. split; [|simpl; lia]. split_and!; cbn [ie_relOffset ie_position]; [lia|lia|by rewrite Nat2Z.id|done].
    + lia.
    + unfold index_gap. change recordHeaderSize with 8. change indexIntervalBytes with 4096. lia.
    + left. apply Forall_app. split; [done|]. constructor; [simpl; lia|done].
Qed.

(** Cutting the index back to the entries before [position]. *)
Lemma count_before_spec position es :
  Forall (fun e => ie_position e < position) (take (count_before position es) es).
Proof.
  induction es as [|e es IH]; [constructor|]. cbn [count_before].
  destruct (position <=? ie_position e) eqn:E; [constructor|]. constructor; [lia|done].
Qed.

Lemma entries_sorted_take n es : entries_sorted es -> entries_sorted (take n es).
Proof.
  intros H i j a b Hij Ha Hb. apply lookup_take_Some in Ha as [Ha _]. apply lookup_take_Some in Hb as [Hb _]. by eapply H.
Qed.

Lemma truncateFrom_inv w ix rs :
  idx_inv w ix (entry_at rs) -> faults w = [] ->
  exists w' ix', index_truncateFrom (pos_of rs (length rs)) (w, ix) = (Ok tt, (w', ix')) /\
    ix_file ix' = ix_file ix /\ faults w' = [] /\ fs_same_except [ix_file ix] w w' /\ idx_inv w' ix' (entry_ok rs).
Proof.
  intros [He Hs (junk & _ & Hc)] Hf. unfold index_truncateFrom. set (kept := count_before _ _).
  cbn [ix_file]. unfold file_Truncate, next_fault. rewrite Hf. eexists _, _. split; [done|]. cbn [ix_file ix_entries].
  split_and!; [done|done|apply fs_same_set; by left|].
  pose proof (count_before_le (pos_of rs (length rs)) (ix_entries ix)) as Hk.
  split; cbn [ix_file ix_entries].
  - pose proof (count_before_spec (pos_of rs (length rs)) (ix_entries ix)) as Hb. fold kept in Hb.
    apply (Forall_take _ kept) in He. apply Forall_forall. intros e Hin. rewrite Forall_forall in Hb, He.
    specialize (Hb e Hin). specialize (He e Hin). split; [done|]. destruct He as ((H0 & H1) & H2 & _).
    destruct (decide (ie_relOffset e = Z.of_nat (length rs))) as [E|]; [|lia]. rewrite E, Nat2Z.id in H2. lia.
  - by apply entries_sorted_take.
  - exists []. split; [simpl; lia|]. cbn [fs set_content]. rewrite lookup_insert_eq, app_nil_r. f_equal. unfold content. rewrite Hc. cbn [default from_option id].
    rewrite <- (take_drop kept (ix_entries ix)) at 1. unfold entries_bytes at 1. rewrite fmap_app, concat_app, <- app_assoc.
    fold (entries_bytes (take kept (ix_entries ix))).
    replace (Z.of_nat kept * indexEntrySize) with (blen (entries_bytes (take kept (ix_entries ix)))); [apply resize_prefix|].
    rewrite entries_bytes_blen, length_take. fold kept in Hk. f_equal. lia.
Qed.

(** What the scan establishes. *)
Record recovered (hd : list byte) (rs : list (list byte)) (w : World) (s : segment) : Prop := {
  rc_faults : faults w = [];
  rc_content : fs w !! sg_file s = Some (hd ++ frames rs);
  rc_index : idx_inv w (sg_index s) (entry_ok rs);
  rc_last : segmentHeaderSize <= sg_lastIndexed s <= pos_of rs (length rs) /\ sg_lastIndexed s < 4294967296;
  rc_gap : pos_of rs (length rs) - sg_lastIndexed s <= index_gap
}.

(** The end of the scan: a clean end needs no repair, a damaged tail is cut. *)
Lemma recover_end hd tail rs e w s fuel :
  blen hd = segmentHeaderSize ->
  rec_inv hd tail rs (length rs) w s -> readRecord (mkReader tail false) = Err e ->
  exists w' s', recover_loop (S fuel) (mkReader tail false) (pos_of rs (length rs)) (Z.of_nat (length rs)) (w, s)
      = (Ok (pos_of rs (length rs), Z.of_nat (length rs)), (w', s')) /\
    recovered hd rs w' s' /\ seg_same s s' /\ fs_same_except (seg_files s) w w'.
Proof.
  intros Hhd [Hf Hne Hc Hix Hlast Hgap Hseen] He. cbn [recover_loop]. rewrite He.
  assert (Hcase : e = ErrEOF /\ tail = [] \/ e = ErrTornRecord \/ e = ErrCorruptRecord) by (by apply readRecord_err).
  destruct (decide (e = ErrEOF)) as [->|Hne2].
  - destruct Hcase as [[_ ->]|[|]]; [|done..]. eexists _, _. split; [done|]. split_and!; [|done|done].
    split; try done; [by rewrite app_nil_r in Hc|].
    eapply idx_inv_weaken; [|exact Hix]. intros x [H1 H2]. split; [done|]. by apply H2.
  - assert (Htr : file_Truncate (sg_file s) (pos_of rs (length rs)) w = (Ok tt, set_content w (sg_file s) (hd ++ frames rs))).
    { unfold file_Truncate, next_fault. rewrite Hf. do 2 f_equal. unfold content. rewrite Hc. cbn [default from_option id].
      rewrite app_assoc, pos_of_all, <- Hhd, <- blen_app. apply resize_prefix. }
    assert (Hcut : exists w' s',
      match file_Truncate (sg_file s) (pos_of rs (length rs)) w with
      | (Err e, w) => (Err e, (w, s))
      | (Ok _, w) =>
          match index_truncateFrom (pos_of rs (length rs)) (w, sg_index s) with
          | (Err e, (w, ix)) => (Err e, (w, with_index s ix))
          | (Ok _, (w, ix)) => (Ok (pos_of rs (length rs), Z.of_nat (length rs)), (w, with_index s ix))
          end
      end = (Ok (pos_of rs (length rs), Z.of_nat (length rs)), (w', s')) /\
      recovered hd rs w' s' /\ seg_same s s' /\ fs_same_except (seg_files s) w w').
    { rewrite Htr. set (w1 := set_content w _ _).
      destruct (truncateFrom_inv w1 (sg_index s) rs) as (w2 & ix2 & -> & Hfile & Hf2 & Hsame & Hidx); [|done|].
      { apply (idx_inv_fs w); [cbn; by rewrite lookup_insert_ne|].
        eapply idx_inv_weaken; [|exact Hix]. by intros x [H1 _]. }
      eexists _, _. split; [done|]. split_and!.
      - split; cbn; try done. rewrite Hsame; [cbn; by rewrite lookup_insert_eq|]. by intros ?%list_elem_of_singleton.
      - split; [|done]. unfold seg_files, with_index. cbn [sg_file sg_index]. by rewrite Hfile.
      - transitivity w1; [apply fs_same_set; by left|]. intros n Hnin. apply Hsame. intros ->%list_elem_of_singleton.
        apply Hnin. right. by left. }
    destruct Hcase as [[]|[->| ->]]; [done|exact Hcut|exact Hcut].
Qed.

Lemma recover_loop_spec hd tail rs e fuel i w s :
  blen hd = segmentHeaderSize -> Forall payload_ok rs -> pos_of rs (length rs) <= 4294967296 ->
  readRecord (mkReader tail false) = Err e ->
  rec_inv hd tail rs i w s -> (i <= length rs)%nat -> (length rs - i < fuel)%nat ->
  exists w' s', recover_loop fuel (mkReader (frames (drop i rs) ++ tail) false) (pos_of rs i) (Z.of_nat i) (w, s)
      = (Ok (pos_of rs (length rs), Z.of_nat (length rs)), (w', s')) /\
    recovered hd rs w' s' /\ seg_same s s' /\ fs_same_except (seg_files s) w w'.
Proof.
  intros Hhd Hok Hmax He. revert i w s. induction fuel as [|fuel IH]; intros i w s Hinv Hi Hfuel; [lia|].
  destruct (decide (i = length rs)) as [->|Hlt].
  { rewrite drop_ge by lia. by apply (recover_end hd tail rs e). }
  destruct (lookup_lt_is_Some_2 rs i) as [p Hp]; [lia|]. assert (Hpok : payload_ok p) by (by eapply Forall_lookup_1).
  pose proof (pos_of_lt rs i (length rs) ltac:(lia)) as Hpos.
  destruct (recover_step hd tail rs i w s p) as (w1 & s1 & Hm & Hinv1 & Hss1 & Hfs1); [done..|lia|].
  cbn [recover_loop]. rewrite (drop_S _ p), frames_cons, <- app_assoc, readRecord_frame by done. rewrite Hm.
  assert (Hstep : pos_of rs i + blen (frame p) = pos_of rs (S i)).
  { unfold pos_of. rewrite (take_S_r _ _ p), frames_app, frames_single, blen_app by done. lia. }
  pose proof (pos_of_ge rs (S i) ltac:(lia)) as Hge. change segmentHeaderSize with 16 in Hge.
  pose proof (pos_of_mono rs (S i) (length rs) ltac:(lia)) as Hmo.
  rewrite Hstep, uint32_id by lia. replace (Z.of_nat i + 1) with (Z.of_nat (S i)) by lia.
  destruct (IH (S i) w1 s1) as (w2 & s2 & -> & Hr & Hss2 & Hfs2); [done|lia|lia|].
  exists w2, s2. split_and!; [done|done|by transitivity s1|]. destruct Hss1 as [E _]. rewrite E in Hfs2. by transitivity w1.
Qed.

Lemma TrimSuffix_app a suf : TrimSuffix (a +:+ suf) suf = a.
Proof.
  assert (Hlen : forall c (x : string), String c x +:+ suf <> suf).
  { intros c x H. apply (f_equal String.length) in H. rewrite str_length_app in H. simpl in H. lia. }
  induction a as [|c a IH].
  - change (EmptyString +:+ suf) with suf. destruct suf as [|x suf]; [done|]. cbn [TrimSuffix].
    destruct (decide (String x suf = String x suf)); [done|congruence].
  - change (String c a +:+ suf) with (String c (a +:+ suf)). cbn [TrimSuffix].
    destruct (decide (String c (a +:+ suf) = suf)) as [E|_]; [by apply Hlen in E|]. by rewrite IH.
Qed.

Lemma index_name_of b : TrimSuffix (segmentName b) ".log" +:+ indexFileSuffix = indexName b.
Proof. unfold segmentName, indexName. by rewrite TrimSuffix_app. Qed.

(** Opening an index file of entries [es], with fewer bytes than an entry left over. *)
Lemma openIndex_spec w name es junk :
  faults w = [] -> content w name = entries_bytes es ++ junk -> (length junk < 8)%nat -> Forall entry_wf es ->
  exists w', openIndex name w = (Ok (mkIndex name es), w') /\ faults w' = [] /\
    fs_same_except [name] w w' /\ fs w' !! name = Some (entries_bytes es ++ junk).
Proof.
  intros Hf Hc Hj Hwf.
  assert (Hopen : exists w1, file_OpenCreate name w = (Ok tt, w1) /\ faults w1 = [] /\
    fs_same_except [name] w w1 /\ fs w1 !! name = Some (entries_bytes es ++ junk)).
  { unfold file_OpenCreate, next_fault. rewrite Hf. unfold content in Hc. eexists. split; [done|].
    destruct (fs w !! name) as [c|] eqn:E; cbn [default from_option id] in Hc.
    - subst c. split_and!; done.
    - rewrite <- Hc. cbn. rewrite lookup_insert_eq. split_and!; [done|apply fs_same_set; by left|done]. }
  destruct Hopen as (w1 & Ho & Hf1 & Hs1 & Hc1). exists w1. split_and!; [|done..].
  unfold openIndex, mbind, ST_bind. rewrite Ho. unfold file_Size, next_fault. rewrite Hf1.
  assert (Hcont : content w1 name = entries_bytes es ++ junk) by (unfold content; by rewrite Hc1).
  assert (Hcount : blen (content w1 name) / indexEntrySize = Z.of_nat (length es)).
  { rewrite Hcont, blen_app, entries_bytes_blen. change indexEntrySize with 8. unfold blen.
    rewrite Z.div_add_l by lia. rewrite Z.div_small by lia. lia. }
  rewrite Hcount. destruct (Z.of_nat (length es) =? 0) eqn:E0.
  { assert (es = []) as -> by (destruct es; [done|simpl in E0; lia]). done. }
  assert (Hrd : file_Reader name 0 (blen (entries_bytes es)) w1 = (Ok (mkReader (entries_bytes es ++ []) false), w1)).
  { unfold file_Reader, next_fault. rewrite Hf1, Hcont. change (Z.to_nat 0) with 0%nat.
    unfold blen. by rewrite drop_0, Nat2Z.id, take_app_length, app_nil_r. }
  rewrite <- entries_bytes_blen, Hrd, ReadFull_app, Nat2Z.id.
  by rewrite <- (app_nil_r (entries_bytes es)), parse_entries_encoded by done.
Qed.

(** What recovery needs of an index: unless its last entry points outside the
    file (then it is discarded), its entries are in order and each describes a
    record, or the place right after the last one. *)
Definition index_sound (rs : list (list byte)) (fileSize : Z) (es : list indexEntry) : Prop :=
  (exists e, last es = Some e /\ ~ (segmentHeaderSize <= ie_position e < fileSize)) \/
  (entries_sorted es /\ Forall (entry_at rs) es).

Definition with_last (s : segment) (position : Z) : segment :=
  mkSegment (sg_file s) (sg_index s) (sg_baseOffset s) (sg_nextOffset s) (sg_size s) position.

(** Starting with an empty index. *)
Lemma rec_inv_fresh hd tail rs w s :
  faults w = [] -> ix_file (sg_index s) <> sg_file s ->
  fs w !! sg_file s = Some (hd ++ frames rs ++ tail) -> ix_entries (sg_index s) = [] ->
  (exists junk, (length junk < 8)%nat /\ fs w !! ix_file (sg_index s) = Some junk) ->
  rec_inv hd tail rs 0 w (with_last s segmentHeaderSize).
Proof.
  intros Hf Hne Hc He Hx. split; cbn; try done; rewrite ?He.
  - split; rewrite He; [constructor|by intros ? ? ? ? ?|done].
  - by left.
Qed.

Lemma recover_start_spec hd tail rs w s junk :
  blen hd = segmentHeaderSize -> faults w = [] -> ix_file (sg_index s) <> sg_file s ->
  fs w !! sg_file s = Some (hd ++ frames rs ++ tail) ->
  fs w !! ix_file (sg_index s) = Some (entries_bytes (ix_entries (sg_index s)) ++ junk) -> (length junk < 8)%nat ->
  let fileSize := blen (hd ++ frames rs ++ tail) in
  index_sound rs fileSize (ix_entries (sg_index s)) ->
  exists (i : nat) w' s', (i <= length rs)%nat /\
    recover_start fileSize (w, s) = (Ok (pos_of rs i, Z.of_nat i), (w', s')) /\
    rec_inv hd tail rs i w' (with_last s' (pos_of rs i)) /\ seg_same s s' /\ fs_same_except (seg_files s) w w'.
Proof.
  intros Hhd Hf Hne Hc Hx Hj fileSize Hsound. unfold recover_start.
  assert (H0 : pos_of rs 0 = segmentHeaderSize) by done.
  pose proof (index_last_spec (sg_index s)) as Hl. destruct (index_last (sg_index s)) as [e|].
  2:{ exists 0%nat, w, s. rewrite H0. split_and!; [lia|done| |done|done]. apply rec_inv_fresh; [done..|].
      rewrite Hx, Hl. eauto. }
  destruct Hl as [es Hes]. destruct (_ && _) eqn:Hin.
  - destruct Hsound as [(e' & Hlast & Hout)|[Hs He]].
    { rewrite Hes, last_snoc in Hlast. injection Hlast as <-. lia. }
    assert (Hee : entry_at rs e) by (rewrite Hes in He; apply Forall_app in He as [_ He]; by inversion He).
    assert (Hall : Forall (fun x => ie_relOffset x <= ie_relOffset e) (ix_entries (sg_index s))).
    { apply Forall_forall. intros x [j Hjx]%list_elem_of_lookup. pose proof (lookup_lt_Some _ _ _ Hjx) as Hjl.
      rewrite Hes in Hjx, Hjl, Hs. rewrite length_app in Hjl. simpl in Hjl.
      assert (Hlast : (es ++ [e]) !! length es = Some e) by (by rewrite lookup_app_r, Nat.sub_diag by lia).
      destruct (decide (j = length es)) as [->|]; [rewrite Hlast in Hjx; injection Hjx as ->; lia|].
      enough (ie_relOffset x < ie_relOffset e) by lia. eapply (Hs j (length es)); [lia|done..]. }
    destruct Hee as ((E0 & E1) & E2 & E3). exists (Z.to_nat (ie_relOffset e)), w, s.
    rewrite <- E2, Z2Nat.id by lia. split_and!; [lia|done| |done|done].
    assert (Htail : tail = [] -> ie_relOffset e < Z.of_nat (length rs)).
    { intros ->. destruct (decide (ie_relOffset e = Z.of_nat (length rs))) as [Eq|]; [|lia].
      rewrite Eq, Nat2Z.id, pos_of_all in E2. unfold fileSize in Hin. rewrite app_nil_r, blen_app in Hin. lia. }
    split; cbn; rewrite <- ?E2; try done.
    + split; [|done|eauto]. apply Forall_and. split; [done|]. eapply Forall_impl; [exact Hall|]. cbn. intros x Hx1 Ht.
      specialize (Htail Ht). lia.
    + lia.
    + rewrite Z.sub_diag. by vm_compute.
    + right. split; [done|]. by rewrite Z2Nat.id by lia.
  - unfold index_reset. cbn [ix_file]. unfold file_Truncate, next_fault. rewrite Hf.
    eexists 0%nat, _, _. rewrite H0. split_and!; [lia|done| | |].
    + apply rec_inv_fresh; cbn; [done|done|by rewrite lookup_insert_ne|done|].
      rewrite lookup_insert_eq. exists []. split; [simpl; lia|done].
    + done.
    + apply fs_same_set. right. by left.
Qed.

(** Recovery of a segment file: the records before the first unreadable one are
    kept, the rest is cut off, and the segment is ready for use. *)
Lemma openSegment_spec w b rs tail e es junk :
  faults w = [] -> 0 <= b -> b + Z.of_nat (length rs) < 18446744073709551616 ->
  fs w !! segmentName b = Some (segment_header b ++ frames rs ++ tail) ->
  Forall payload_ok rs -> readRecord (mkReader tail false) = Err e -> pos_of rs (length rs) <= 4294967296 ->
  content w (indexName b) = entries_bytes es ++ junk -> (length junk < 8)%nat -> Forall entry_wf es ->
  index_sound rs (blen (segment_header b ++ frames rs ++ tail)) es ->
  exists w' s, openSegment (segmentName b) w = (Ok s, w') /\ seg_inv w' s rs /\
    sg_baseOffset s = b /\ faults w' = [] /\
    fs w' !! segmentName b = Some (segment_header b ++ frames rs) /\
    fs_same_except [segmentName b; indexName b] w w'.
Proof.
  intros Hf Hb Hb64 Hc Hok He Hmax Hxc Hj Hwf Hsound.
  assert (Hcont : content w (segmentName b) = segment_header b ++ frames rs ++ tail) by (unfold content; by rewrite Hc).
  assert (Hrd : (file_Open (segmentName b) ≫= fun _ => file_Reader (segmentName b) 0 segmentHeaderSize) w
                = (Ok (mkReader (segment_header b ++ []) false), w)).
  { unfold mbind, ST_bind, file_Open, file_Reader, next_fault. rewrite Hf, Hc, Hf, Hcont.
    change (Z.to_nat 0) with 0%nat. rewrite drop_0, take_app_length' by done. by rewrite app_nil_r. }
  assert (Hfull : ReadFull (mkReader (segment_header b ++ []) false) segmentHeaderSize
                  = Ok (segment_header b, mkReader [] false)) by apply (ReadFull_app (segment_header b)).
  unfold openSegment. rewrite Hrd, Hfull.
  destruct (segment_header_fields b ltac:(lia)) as (-> & -> & ->). rewrite !Z.eqb_refl. cbn [negb]. rewrite index_name_of.
  destruct (openIndex_spec w (indexName b) es junk) as (w1 & -> & Hf1 & Hs1 & Hx1); [done..|].
  assert (Hc1 : fs w1 !! segmentName b = Some (segment_header b ++ frames rs ++ tail)).
  { rewrite Hs1; [done|]. intros E%list_elem_of_singleton. by apply names_differ in E. }
  set (s0 := mkSegment _ _ _ _ _ _). unfold recover, file_Size, next_fault. cbn [sg_file s0]. rewrite Hf1.
  replace (content w1 (segmentName b)) with (segment_header b ++ frames rs ++ tail) by (unfold content; by rewrite Hc1).
  destruct (recover_start_spec (segment_header b) tail rs w1 s0 junk) as (i & w2 & s2 & Hi & -> & Hinv & Hss & Hfs2);
    [done|done|apply not_eq_sym, names_differ|done..|].
  destruct Hinv as [Hf2 Hne2 Hc2 Hix2 Hl2 Hg2 Hse2] eqn:Einv. clear Einv.
  cbn [sg_file with_last] in Hc2.
  assert (Hrd2 : file_Reader (sg_file s2) (pos_of rs i) (blen (segment_header b ++ frames rs ++ tail)) w2
                 = (Ok (mkReader (frames (drop i rs) ++ tail) false), w2)).
  { unfold file_Reader, next_fault. rewrite Hf2. do 2 f_equal. unfold content. rewrite Hc2.
    cbn [default from_option id]. rewrite take_ge by (rewrite length_drop; unfold blen; lia). f_equal.
    assert (E : frames rs = frames (take i rs) ++ frames (drop i rs)) by (by rewrite <- frames_app, take_drop).
    rewrite E, <- (app_assoc (frames _)), (app_assoc (segment_header _)), drop_app_length'; [done|].
    unfold pos_of. rewrite length_app. pose proof (segment_header_blen b). unfold blen in *. lia. }
  cbn [sg_file]. rewrite Hrd2. cbn [rd_bytes]. change (mkSegment (sg_file s2) _ _ _ _ _) with (with_last s2 (pos_of rs i)).
  destruct (recover_loop_spec (segment_header b) tail rs e (S (length (frames (drop i rs) ++ tail))) i w2 (with_last s2 (pos_of rs i)))
    as (w3 & s3 & -> & Hr & Hss3 & Hfs3); [done..| |].
  { rewrite length_app. clear -Hi Hok. assert (length (drop i rs) <= length (frames (drop i rs)))%nat; [|rewrite length_drop in *; lia].
    generalize (drop i rs). intros l. induction l as [|p l IH]; [simpl; lia|]. rewrite frames_cons, length_app.
    pose proof (frame_blen p). unfold blen in *. simpl. lia. }
  destruct Hr as [Rf Rc Ri Rl Rg].
  assert (Hsame : seg_same s0 s3) by (destruct Hss, Hss3; split; etransitivity; done).
  destruct Hsame as [Hfiles Hbase]. unfold seg_files in Hfiles. cbn in Hfiles, Hbase. injection Hfiles as Hfile Hifile.
  eexists _, _. split; [done|]. cbn [sg_baseOffset]. rewrite Hbase, <- Hfile. split_and!; [|done|done|done|].
  - rewrite uint64_id by lia. split; cbn; rewrite ?Hbase; try done.
    exists []. by rewrite app_nil_r.
  - rewrite Hfile. transitivity w1; [|transitivity w2; [exact Hfs2|]].
    + intros n Hn. apply Hs1. intros ->%list_elem_of_singleton. apply Hn. right. by left.
    + destruct Hss as [E _]. unfold seg_files in Hfs3, E. cbn in Hfs3, E. injection E as E1 E2. rewrite E1, E2 in Hfs3. exact Hfs3.
Qed.

(** The files of a segment whose recovery yields the records [rs]: they are
    there, no reader accepts what follows them, and the index is [sound]. *)
Record seg_with (sound : list (list byte) -> Z -> list indexEntry -> Prop) (w : World) (b : Z) (rs : list (list byte)) : Prop := {
  sd_base : 0 <= b;
  sd_next : b + Z.of_nat (length rs) < 18446744073709551616;
  sd_payloads : Forall payload_ok rs;
  sd_size : pos_of rs (length rs) <= 4294967296;
  sd_content : exists tail e es junk,
    fs w !! segmentName b = Some (segment_header b ++ frames rs ++ tail) /\
    readRecord (mkReader tail false) = Err e /\
    content w (indexName b) = entries_bytes es ++ junk /\ (length junk < 8)%nat /\ Forall entry_wf es /\
    sound rs (blen (segment_header b ++ frames rs ++ tail)) es
}.

(** The index is one that recovery can use or sees that it cannot. *)
Definition seg_disk : World -> Z -> list (list byte) -> Prop := seg_with index_sound.

(** The index is one the segment wrote itself. *)
Definition index_exact (rs : list (list byte)) (_ : Z) (es : list indexEntry) : Prop :=
  entries_sorted es /\ Forall (entry_at rs) es.

Definition seg_tidy : World -> Z -> list (list byte) -> Prop := seg_with index_exact.

Lemma seg_tidy_disk w b rs : seg_tidy w b rs -> seg_disk w b rs.
Proof.
  intros [H1 H2 H3 H4 (tail & e & es & junk & H5 & H6 & H7 & H8 & H9 & H10)]. split; try done.
  exists tail, e, es, junk. split_and!; try done. by right.
Qed.

Lemma seg_with_same sound w w' b rs :
  fs w' !! segmentName b = fs w !! segmentName b -> fs w' !! indexName b = fs w !! indexName b ->
  seg_with sound w b rs -> seg_with sound w' b rs.
Proof. intros E1 E2 [H1 H2 H3 H4 H5]. split; try done. unfold content in *. by rewrite E1, E2. Qed.

Lemma open_disk w b rs : faults w = [] -> seg_disk w b rs ->
  exists w' s, openSegment (segmentName b) w = (Ok s, w') /\ seg_inv w' s rs /\
    sg_baseOffset s = b /\ faults w' = [] /\
    fs w' !! segmentName b = Some (segment_header b ++ frames rs) /\
    fs_same_except [segmentName b; indexName b] w w'.
Proof. intros Hf [H1 H2 H3 H4 (tail & e & es & junk & C1 & C2 & C3 & C4 & C5 & C6)]. by eapply openSegment_spec. Qed.

(** ** Crashes *)

(** What an append leaves on disk: the old records and a part of the new frame,
    all of it if the append succeeded. *)
Lemma segment_append_disk w s rs junk p r w' s' :
  seg_inv w s rs -> fs w !! sg_file s = Some (segment_header (sg_baseOffset s) ++ frames rs ++ junk) ->
  segment_append p (w, s) = (r, (w', s')) ->
  exists k, (k <= length (frame p))%nat /\ (is_ok r = true -> k = length (frame p)) /\
    (k = length (frame p) -> payload_ok p) /\
    fs w' !! sg_file s = Some (segment_header (sg_baseOffset s) ++ frames rs ++ take k (frame p) ++ drop k junk).
Proof.
  intros Hinv Hc H. pose proof (frame_blen p) as Hfl. unfold segment_append in H. rewrite encodeRecord_frame in H.
  destruct (decide (payload_ok p)) as [Hp|Hp].
  2:{ injection H as <- <- <-. exists 0%nat. unfold blen in Hfl. split_and!; [lia|done|lia|done]. }
  unfold file_WriteAt in H. destruct (next_fault w) as [f w1] eqn:Hnf. apply next_fault_eq in Hnf as [Hfs _].
  assert (Hcont : content w1 (sg_file s) = (segment_header (sg_baseOffset s) ++ frames rs) ++ junk).
  { unfold content. rewrite Hfs, Hc. cbn [default from_option id]. by rewrite <- app_assoc. }
  assert (Hsz : sg_size s = blen (segment_header (sg_baseOffset s) ++ frames rs)).
  { by rewrite (si_size _ _ _ Hinv), pos_of_all, blen_app, segment_header_blen. }
  rewrite Hcont, Hsz in H. destruct f as [|k]; rewrite splice_end in H.
  - rewrite <- Hsz, <- app_assoc in H. set (w2 := set_content w1 _ _) in H.
    exists (length (frame p)). split_and!; [lia|done|done|]. rewrite firstn_all.
    match type of H with context [maybeIndex ?x ?y ?z] => destruct (maybeIndex x y z) as [r1 [w3 s3]] eqn:Hm end.
    assert (Hw3 : fs w3 !! sg_file s = fs w2 !! sg_file s).
    { pose proof (seg_count w s rs Hinv) as Hcount.
      destruct Hinv as [Hsf Hxf _ Hnx _ _ _ _ _ _ Hix]. eapply maybeIndex_inv in Hm as (Hsame & _ & _).
      - apply Hsame. intros E%list_elem_of_singleton. rewrite Hsf, Hxf in E. by apply names_differ in E.
      - eapply (idx_inv_fs w), Hix. cbn. rewrite lookup_insert_ne, Hfs; [done|].
        rewrite Hsf, Hxf. apply names_differ.
      - pose proof (blen_nonneg (segment_header (sg_baseOffset s) ++ frames rs)). lia.
      - left. eapply Forall_impl; [apply Hix|]. intros e [_ He].
        rewrite Hnx. replace (_ + _ - _) with (Z.of_nat (length rs)) by lia.
        rewrite uint64_id, uint32_id by lia. done. }
    replace (fs w') with (fs w3) by (destruct r1; by injection H as _ <- _).
    rewrite Hw3. cbn. by rewrite lookup_insert_eq.
  - injection H as <- <- <-. unfold blen in Hfl. eexists (k `min` pred (length (frame p)))%nat.
    split_and!; [lia|done|lia|]. cbn [fs set_content]. rewrite lookup_insert_eq, length_take, <- app_assoc.
    do 5 f_equal. lia.
Qed.

Lemma idx_sound w ix rs fileSize :
  idx_inv w ix (entry_ok rs) -> exists junk, content w (ix_file ix) = entries_bytes (ix_entries ix) ++ junk /\
    (length junk < 8)%nat /\ Forall entry_wf (ix_entries ix) /\ index_exact rs fileSize (ix_entries ix).
Proof.
  intros [He Hs (junk & Hj & Hc)]. exists junk. unfold content. rewrite Hc. split_and!; [done|done| |].
  - eapply Forall_impl; [exact He|]. intros e [H _]. by eapply entry_at_wf.
  - split; [done|]. eapply Forall_impl; [exact He|]. by intros e [H _].
Qed.

(** A usable index and an unreadable tail make a recoverable segment. *)
Lemma seg_tidy_intro w ix b rs tail e :
  0 <= b -> b + Z.of_nat (length rs) < 18446744073709551616 -> Forall payload_ok rs ->
  pos_of rs (length rs) <= 4294967296 -> ix_file ix = indexName b ->
  fs w !! segmentName b = Some (segment_header b ++ frames rs ++ tail) ->
  readRecord (mkReader tail false) = Err e -> idx_inv w ix (entry_ok rs) -> seg_tidy w b rs.
Proof.
  intros Hb Hn Hpl Hpos Hx Hd He Hidx.
  destruct (idx_sound w ix rs (blen (segment_header b ++ frames rs ++ tail)) Hidx) as (junk & H1 & H2 & H3 & H4).
  rewrite Hx in H1. split; try done. by exists tail, e, (ix_entries ix), junk.
Qed.

(** A segment in use, with nothing but records in its file, is recoverable. *)
Lemma seg_inv_disk w s rs :
  seg_inv w s rs -> fs w !! sg_file s = Some (segment_header (sg_baseOffset s) ++ frames rs) ->
  sg_size s <= 4294967296 -> seg_tidy w (sg_baseOffset s) rs.
Proof.
  intros [Hf Hxf Hb Hn Hn64 Hpl _ Hsz _ _ Hix] Hd Hmax. rewrite Hf in Hd.
  apply (seg_tidy_intro w (sg_index s) _ _ [] ErrEOF); try done; [lia|lia|by rewrite app_nil_r].
Qed.

(** A segment file determines its records. *)
Lemma frames_inj rs qs : Forall payload_ok rs -> Forall payload_ok qs -> frames rs = frames qs -> rs = qs.
Proof.
  intros Hr. revert qs. induction Hr as [|p rs Hp _ IH]; intros [|q qs] Hq H; [done| | |].
  - apply (f_equal blen) in H. rewrite frames_cons, blen_app, frame_blen in H. unfold frames, blen in H. simpl in H. lia.
  - apply (f_equal blen) in H. rewrite frames_cons, blen_app, frame_blen in H. unfold frames, blen in H. simpl in H. lia.
  - apply Forall_cons in Hq as [Hq Hqs]. rewrite !frames_cons in H.
    pose proof (readRecord_frame p (frames rs) false Hp) as R1. rewrite H, readRecord_frame in R1 by done.
    injection R1 as -> _ E. f_equal. by apply IH.
Qed.

Lemma seg_inv_unique w s rs qs : seg_inv w s rs -> seg_inv w s qs -> rs = qs.
Proof.
  intros [_ _ _ _ _ Hp1 (j1 & C1) S1 _ _ _] [_ _ _ _ _ Hp2 (j2 & C2) S2 _ _ _].
  apply frames_inj; [done|done|]. rewrite C1 in C2. apply (inj Some), app_inv_head in C2.
  rewrite S1, !pos_of_all in S2. apply app_inj_1 in C2 as [? _]; [done|]. unfold blen in S2. lia.
Qed.

(** The process dies during an append: any of its writes may be cut short. *)
Lemma append_disk w s rs p r w' s' :
  seg_inv w s rs -> fs w !! sg_file s = Some (segment_header (sg_baseOffset s) ++ frames rs) ->
  sg_size s <= 4294967296 -> (payload_ok p -> sg_size s + blen (frame p) <= 4294967296) ->
  sg_nextOffset s + 1 < 18446744073709551616 ->
  segment_append p (w, s) = (r, (w', s')) ->
  exists rs', seg_tidy w' (sg_baseOffset s) rs' /\ (rs' = rs \/ rs' = rs ++ [p]) /\ (is_ok r = true -> rs' = rs ++ [p]).
Proof.
  intros Hinv Hc Hsmall Hmax Hroom H. pose proof (frame_blen p) as Hfl. pose proof (blen_nonneg p) as Hp0.
  assert (Hc' : fs w !! sg_file s = Some (segment_header (sg_baseOffset s) ++ frames rs ++ [])) by (by rewrite app_nil_r).
  destruct (segment_append_disk _ _ _ _ _ _ _ _ Hinv Hc' H) as (k & Hk & Hkr & Hkp & Hdisk).
  rewrite drop_nil, app_nil_r in Hdisk.
  pose proof (segment_append_spec _ _ _ _ _ _ _ Hinv Hroom H) as (_ & Hfiles & Hbase & _ & Hres).
  destruct Hinv as [Hf Hxf Hb Hn Hn64 Hpl _ Hsz _ _ _].
  unfold seg_files in Hfiles. injection Hfiles as Hsf Hsx. rewrite Hxf in Hsx. rewrite Hf in Hdisk.
  destruct (decide (k = length (frame p))) as [->|Hne].
  - specialize (Hkp eq_refl). rewrite firstn_all in Hdisk. exists (rs ++ [p]). split_and!; [|by right|done].
    apply (seg_tidy_intro w' (sg_index s') _ _ [] ErrEOF); try done.
    + rewrite length_app. simpl. lia.
    + apply Forall_app. split; [done|by constructor].
    + specialize (Hmax Hkp). rewrite Hsz, pos_of_all in Hmax. rewrite pos_of_all, frames_app, frames_single, blen_app. lia.
    + by rewrite frames_app, frames_single, app_nil_r.
    + destruct r; [by destruct Hres as (_ & _ & []) |]. destruct Hres. eapply idx_inv_weaken; [|done].
      intros e' He'. by apply entry_ok_app.
  - destruct r as [off|er]; [by specialize (Hkr eq_refl)|]. exists rs. split_and!; [|by left|done].
    destruct (decide (payload_ok p)) as [Hok|Hok].
    + apply (seg_tidy_intro w' (sg_index s') _ _ (take k (frame p)) (if decide (k = 0)%nat then ErrEOF else ErrTornRecord));
        try done; [lia|lia|apply readRecord_cut; [done|lia]|apply Hres].
    + unfold segment_append in H. rewrite encodeRecord_frame, decide_False in H by done. injection H as <- <- <-.
      apply (seg_tidy_intro w (sg_index s) _ _ [] ErrEOF); try done; [lia|lia|by rewrite <- Hf|apply Hres].
Qed.

(** The process dies while a segment is created. *)
Lemma create_disk w c r w' :
  0 <= c < 18446744073709551616 -> (fs w !! segmentName c = None -> fs w !! indexName c = None) ->
  createSegment c w = (r, w') ->
  fs w' = fs w \/ (exists k, (k < 16)%nat /\ fs w' !! segmentName c = Some (take k (segment_header c))) \/ seg_tidy w' c [].
Proof.
  intros Hc Hx H. destruct r as [s|e].
  { apply createSegment_spec in H as (_ & _ & _ & _ & Hb & Hi & Hd); [|done|done]. right. right. rewrite <- Hb.
    apply (seg_inv_disk w' s []); [done| |rewrite (si_size _ _ _ Hi); by vm_compute].
    rewrite (si_file _ _ _ Hi), Hb, Hd. change (frames []) with (@nil byte). by rewrite app_nil_r. }
  unfold createSegment, mbind, ST_bind, file_OpenExcl in H. destruct (next_fault w) as [f1 w1] eqn:N1.
  apply next_fault_eq in N1 as [E1 _]. destruct f1; [|injection H as _ <-; by left]. rewrite E1 in H.
  destruct (fs w !! segmentName c) as [?|]; [injection H as _ <-; by left|]. specialize (Hx eq_refl).
  unfold file_WriteAt in H. set (w1' := set_content w1 _ _) in H. destruct (next_fault w1') as [f2 w2] eqn:N2.
  apply next_fault_eq in N2 as [E2 _].
  assert (Hcont : content w2 (segmentName c) = [] ++ []) by (unfold content; rewrite E2; cbn; by rewrite lookup_insert_eq).
  change 0 with (blen []) in H at 1 2. rewrite Hcont in H. pose proof (segment_header_blen c) as Hl. unfold blen in Hl.
  change segmentHeaderSize with 16 in Hl.
  destruct f2 as [|k]; rewrite splice_end in H; cbn [app] in H; rewrite drop_nil, app_nil_r in H.
  2:{ injection H as _ <-. right. left. eexists. split; [|cbn; by rewrite lookup_insert_eq]. lia. }
  set (w2' := set_content w2 _ _) in H.
  assert (Hi2 : fs w2' !! indexName c = None).
  { pose proof (names_differ c). cbn. rewrite lookup_insert_ne, E2 by done. cbn. by rewrite lookup_insert_ne, E1 by done. }
  assert (Hd2 : fs w2' !! segmentName c = Some (segment_header c)) by (cbn; by rewrite lookup_insert_eq).
  assert (Hw : fs w' !! segmentName c = Some (segment_header c) /\ content w' (indexName c) = []).
  { unfold openIndex, mbind, ST_bind, file_OpenCreate, file_Size in H. unfold content.
    destruct (next_fault w2') as [f3 w3] eqn:N3. apply next_fault_eq in N3 as [E3 _].
    destruct f3; [|injection H as _ <-; by rewrite E3, Hd2, Hi2]. rewrite E3, Hi2 in H.
    set (w3' := set_content w3 _ _) in H.
    assert (Hd3 : fs w3' !! segmentName c = Some (segment_header c) /\ fs w3' !! indexName c = Some []).
    { pose proof (names_differ c). cbn. by rewrite lookup_insert_eq, lookup_insert_ne, E3, Hd2. }
    destruct Hd3 as [D1 D2]. destruct (next_fault w3') as [f4 w4] eqn:N4. apply next_fault_eq in N4 as [E4 _].
    unfold content in H. rewrite E4, D2 in H. destruct f4; injection H as _ <-; by rewrite E4, D1, D2. }
  destruct Hw as [W1 W2]. right. right. split; [lia|simpl; lia|constructor|by vm_compute|].
  exists [], ErrEOF, [], []. rewrite W1, W2. split_and!; try done. simpl; lia.
Qed.

(** The records that lie wholly within the first [k] bytes of a segment file. *)
Fixpoint whole_records (k : Z) (rs : list (list byte)) : nat :=
  match rs with
  | [] => 0
  | p :: rs => if blen (frame p) <=? k then S (whole_records (k - blen (frame p)) rs) else 0
  end.

Lemma whole_records_spec k rs :
  (whole_records k rs <= length rs)%nat /\
  (forall i, (i <= length rs)%nat -> 0 <= k -> (i <= whole_records k rs)%nat <-> blen (frames (take i rs)) <= k).
Proof.
  revert k. induction rs as [|p rs IH]; intros k; cbn [whole_records length].
  - split; [lia|]. intros i Hi Hk. assert (i = 0%nat) as -> by lia. unfold blen. simpl. lia.
  - destruct (IH (k - blen (frame p))) as [IH1 IH2]. destruct (blen (frame p) <=? k) eqn:E; (split; [lia|]); intros [|i] Hi Hk.
    + unfold blen. simpl. lia.
    + cbn [take]. rewrite frames_cons, blen_app. specialize (IH2 i ltac:(lia) ltac:(lia)). lia.
    + unfold blen. simpl. lia.
    + cbn [take]. rewrite frames_cons, blen_app. pose proof (blen_nonneg (frames (take i rs))). lia.
Qed.

(** Nothing can be read from the start of what cannot be read. *)
Lemma readRecord_take k bs e :
  readRecord (mkReader bs false) = Err e -> exists e', readRecord (mkReader (take k bs) false) = Err e'.
Proof.
  intros He. destruct (readRecord (mkReader (take k bs) false)) as [[[p n] r]|e'] eqn:E; [|eauto]. exfalso.
  apply readRecord_ok in E as (Hp & Eb & _). rewrite <- (take_drop k bs), Eb, <- app_assoc, readRecord_frame in He by done. done.
Qed.

(** The first [k] bytes of some frames and an unreadable tail are whole frames and
    an unreadable tail. *)
Lemma frames_prefix k rs tail e :
  Forall payload_ok rs -> readRecord (mkReader tail false) = Err e ->
  exists tail' e', take k (frames rs ++ tail) = frames (take (whole_records (Z.of_nat k) rs) rs) ++ tail' /\
    readRecord (mkReader tail' false) = Err e'.
Proof.
  intros Hok He. revert k. induction Hok as [|p rs Hp Hok IH]; intros k.
  - destruct (readRecord_take k tail e He) as [e' He']. exists (take k tail), e'. done.
  - cbn [whole_records]. rewrite frames_cons, <- app_assoc. destruct (blen (frame p) <=? Z.of_nat k) eqn:E.
    + destruct (IH (k - length (frame p))%nat) as (tail' & e' & H1 & H2). exists tail', e'. split; [|done].
      unfold blen in E |- *. replace (Z.of_nat k - Z.of_nat (length (frame p))) with (Z.of_nat (k - length (frame p))) by lia.
      cbn [take]. rewrite take_app_ge, H1, frames_cons by lia. by rewrite app_assoc.
    + exists (take k (frame p)). eexists. split; [|apply readRecord_cut; [done|unfold blen in E; lia]].
      unfold blen in E. cbn [take frames]. rewrite take_app_le by lia. done.
Qed.

(** An exact index is sound for what is left of its segment. *)
Lemma index_sound_cut rs n size es :
  entries_sorted es -> Forall (entry_at rs) es -> (forall i, (i <= length rs)%nat -> pos_of rs i < size -> (i <= n)%nat) ->
  index_sound (take n rs) size es.
Proof.
  intros Hs He Hn. destruct (last es) as [l|] eqn:El.
  2:{ apply last_None in El as ->. right. split; [done|constructor]. }
  destruct (decide (segmentHeaderSize <= ie_position l < size)) as [Hin|Hout]; [|left; eauto].
  right. split; [done|]. apply Forall_forall. intros x Hx1. rewrite Forall_forall in He.
  assert (Hxl : ie_position x <= ie_position l).
  { apply last_Some in El as [es1 ->]. destruct (He x Hx1) as ((X0 & X1) & X2 & _).
    destruct (He l ltac:(apply elem_of_app; right; by left)) as ((L0 & L1) & L2 & _).
    rewrite X2, L2. apply pos_of_mono. split; [|lia].
    apply elem_of_app in Hx1 as [Hx1| ->%list_elem_of_singleton]; [|lia].
    apply list_elem_of_lookup in Hx1 as [j Hj1]. pose proof (lookup_lt_Some _ _ _ Hj1).
    enough (ie_relOffset x < ie_relOffset l) by lia.
    eapply (Hs j (length es1)); [lia|by apply lookup_app_l_Some|by rewrite lookup_app_r, Nat.sub_diag by lia]. }
  destruct (He x Hx1) as ((X0 & X1) & X2 & X3).
  assert (Hle : (Z.to_nat (ie_relOffset x) <= n)%nat) by (apply Hn; [lia|rewrite <- X2; lia]).
  split_and!; [lia|rewrite length_take; lia|by rewrite X2, pos_of_take|done].
Qed.

Lemma entries_sorted_prefix es es' : es' `prefix_of` es -> entries_sorted es -> entries_sorted es'.
Proof.
  intros [t ->] Hs i j a b Hij Ha Hb. eapply (Hs i j); [done|apply lookup_app_l_Some; done|apply lookup_app_l_Some; done].
Qed.

(** The first [k] bytes of a segment file whose records are [rs]. *)
Lemma segment_cut b rs tail e k :
  Forall payload_ok rs -> readRecord (mkReader tail false) = Err e -> (16 <= k)%nat ->
  exists n tail' e', (n <= length rs)%nat /\
    take k (segment_header b ++ frames rs ++ tail) = segment_header b ++ frames (take n rs) ++ tail' /\
    readRecord (mkReader tail' false) = Err e' /\
    (forall i, (i <= length rs)%nat -> pos_of rs i <= Z.of_nat k <-> (i <= n)%nat).
Proof.
  intros Hpl He Hk. pose proof (segment_header_blen b) as Hh. unfold blen in Hh. change segmentHeaderSize with 16 in Hh.
  destruct (frames_prefix (k - 16) rs tail e Hpl He) as (tail' & e' & Ht & He').
  destruct (whole_records_spec (Z.of_nat (k - 16)) rs) as [Hn1 Hn2]. set (n := whole_records (Z.of_nat (k - 16)) rs) in *.
  exists n, tail', e'. split; [done|]. split.
  - rewrite take_app_ge by lia. replace (k - length (segment_header b))%nat with (k - 16)%nat by lia. by rewrite Ht.
  - split; [done|]. intros i Hi. rewrite (Hn2 i Hi) by lia. unfold pos_of. change segmentHeaderSize with 16. lia.
Qed.

(** A crash that keeps only the first bytes of the file and any older state of
    the index. *)
Lemma power_loss w s rs wc k es junk :
  seg_inv w s rs -> sg_size s <= 4294967296 -> faults wc = [] -> segmentHeaderSize <= Z.of_nat k ->
  fs wc !! sg_file s = Some (take k (segment_header (sg_baseOffset s) ++ frames rs)) ->
  es `prefix_of` ix_entries (sg_index s) -> (length junk < 8)%nat ->
  content wc (ix_file (sg_index s)) = entries_bytes es ++ junk ->
  exists w2 s2 n, openSegment (sg_file s) wc = (Ok s2, w2) /\ seg_inv w2 s2 (take n rs) /\
    sg_baseOffset s2 = sg_baseOffset s /\ (forall i, (i <= length rs)%nat -> pos_of rs i <= Z.of_nat k <-> (i <= n)%nat).
Proof.
  intros Hinv Hmax Hf Hk Hc Hes Hj Hx. pose proof Hinv as [Hsf Hxf Hb Hn Hn64 Hpl _ Hsz _ _ [He Hs _]].
  pose proof Hes as [es2 Hes2]. rewrite Hes2 in He. apply Forall_app in He as [He _].
  assert (He' : Forall (entry_at rs) es) by (eapply Forall_impl; [exact He|]; by intros x [? _]).
  change segmentHeaderSize with 16 in *. rewrite <- (app_nil_r (frames rs)) in Hc.
  destruct (segment_cut (sg_baseOffset s) rs [] ErrEOF k Hpl eq_refl ltac:(lia)) as (n & tail & e & Hn1 & Htake & Herr & Hpos).
  rewrite Hsf in Hc |- *. rewrite Hxf in Hx.
  assert (Hsize : blen (segment_header (sg_baseOffset s) ++ frames (take n rs) ++ tail) <= Z.of_nat k) by (rewrite <- Htake, blen_take; lia).
  rewrite Htake in Hc.
  destruct (openSegment_spec wc (sg_baseOffset s) (take n rs) tail e es junk) as (w2 & s2 & Ho & Hi & Hb2 & _); try done.
  - rewrite length_take. lia.
  - by apply Forall_take.
  - pose proof (pos_of_mono rs n (length rs) ltac:(lia)). rewrite length_take, Nat.min_l, pos_of_take by lia. lia.
  - eapply Forall_impl; [exact He'|]. intros x H. by eapply entry_at_wf.
  - apply index_sound_cut; [by eapply entries_sorted_prefix|done|]. intros i Hi Hp. apply Hpos; [done|]. lia.
  - by exists w2, s2, n.
Qed.

Lemma entries_cut k es junk : (length junk < 8)%nat ->
  exists es' junk', take k (entries_bytes es ++ junk) = entries_bytes es' ++ junk' /\ (length junk' < 8)%nat /\ es' `prefix_of` es.
Proof.
  intros Hj. revert k. induction es as [|e es IH]; intros k.
  - exists [], (take k junk). split_and!; [done|rewrite length_take; lia|done].
  - destruct (decide (k < 8)%nat) as [Hk|Hk].
    + exists [], (take k (entries_bytes (e :: es) ++ junk)). split; [done|]. split; [rewrite length_take; lia|apply prefix_nil].
    + destruct (IH (k - 8)%nat) as (es' & junk' & E & Hj' & Hp). exists (e :: es'), junk'. split; [|split; [done|by apply prefix_cons]].
      unfold entries_bytes in *. rewrite !fmap_cons. cbn [concat]. rewrite <- !app_assoc, take_app_ge by (change (length (entry_bytes e)) with 8%nat; lia).
      by rewrite <- E.
Qed.

(** What a cut leaves of a segment that wrote its own index. *)
Lemma seg_tidy_cut w w2 b rs c c2 :
  seg_tidy w b rs -> fs w !! segmentName b = Some c -> fs w2 !! segmentName b = Some c2 -> c2 `prefix_of` c -> (16 <= length c2)%nat ->
  content w2 (indexName b) `prefix_of` content w (indexName b) ->
  exists n, seg_disk w2 b (take n rs) /\ (forall i, (i <= length rs)%nat -> pos_of rs i <= blen c2 -> (i <= n)%nat) /\ (n <= length rs)%nat.
Proof.
  intros [Hb Hn64 Hpl Hmax (tail & e & es & junk & Hc & He & Hx & Hj & Hwf & Hs & Hat)] Hc' Hc2 [t Ht] Hlen Hix.
  rewrite Hc in Hc'. injection Hc' as <-.
  destruct (segment_cut b rs tail e (length c2) Hpl He Hlen) as (n & tail' & e' & Hn & Htake & He' & Hpos).
  rewrite Ht, take_app_length in Htake. exists n. split; [|split; [intros i Hi; by apply Hpos|done]].
  destruct Hix as [t' Ht']. rewrite Hx in Ht'. set (c' := content w2 (indexName b)) in *.
  destruct (entries_cut (length c') es junk Hj) as (es' & junk' & E1 & E2 & E3). rewrite Ht', take_app_length in E1.
  split; [done|rewrite length_take; lia|by apply Forall_take| |].
  - pose proof (pos_of_mono rs n (length rs) ltac:(lia)). rewrite length_take, Nat.min_l, pos_of_take by lia. lia.
  - exists tail', e', es', junk'. split; [by rewrite Hc2, Htake|]. split; [done|]. split; [done|]. split; [done|]. split.
    + destruct E3 as [es2 ->]. by apply Forall_app in Hwf as [? _].
    + apply index_sound_cut; [by eapply entries_sorted_prefix|destruct E3 as [es2 ->]; by apply Forall_app in Hat as [? _]|].
      intros i Hi Hp. apply Hpos; [done|]. rewrite <- Htake in Hp. unfold blen in Hp. lia.
Qed.

(** ** Theorems *)

(** The process dies at any point of an append (any of its writes cut short) and
    the segment is opened again: it opens, holding either the old records or the
    old records and the new one, never part of one; and an append that was
    acknowledged is always there. The recovered file holds exactly these
    records, so the argument can be repeated. *)
Theorem append_crash_recovers w s rs p r w' s' :
  seg_inv w s rs -> fs w !! sg_file s = Some (segment_header (sg_baseOffset s) ++ frames rs) ->
  sg_size s + blen (frame p) <= 4294967296 -> sg_nextOffset s + 1 < 18446744073709551616 ->
  segment_append p (w, s) = (r, (w', s')) ->
  exists w2 s2 rs', openSegment (sg_file s) (mkWorld (fs w') []) = (Ok s2, w2) /\
    seg_inv w2 s2 rs' /\ sg_baseOffset s2 = sg_baseOffset s /\
    fs w2 !! sg_file s2 = Some (segment_header (sg_baseOffset s2) ++ frames rs') /\
    (rs' = rs \/ rs' = rs ++ [p]) /\ (is_ok r = true -> rs' = rs ++ [p]).
Proof.
  intros Hinv Hc Hmax Hroom H. pose proof (blen_nonneg (frame p)) as Hf0.
  pose proof (append_disk _ _ _ _ _ _ _ Hinv Hc ltac:(lia) (fun _ => Hmax) Hroom H) as (rs' & Hd & Hor & Hok).
  destruct (open_disk (mkWorld (fs w') []) (sg_baseOffset s) rs') as (w2 & s2 & Ho & Hi & Hb & _ & Hc2 & _); [done|by apply seg_tidy_disk, (seg_with_same _ w')|].
  exists w2, s2, rs'. rewrite (si_file _ _ _ Hinv), (si_file _ _ _ Hi), Hb. split_and!; done.
Qed.

Lemma append_crash_recovers_witness : exists w s w' s' w2 s2 e rs',
  seg_inv w s [] /\ faults w = [Fault 5] /\ segment_append [x41] (w, s) = (Err e, (w', s')) /\
  openSegment (sg_file s) (mkWorld (fs w') []) = (Ok s2, w2) /\ seg_inv w2 s2 rs' /\ (rs' = [] \/ rs' = [[x41]]).
Proof.
  destruct (created 7 ltac:(lia)) as (w0 & s & _ & Hb & Hi & _ & Hd).
  set (w := mkWorld (fs w0) [Fault 5]).
  assert (Hi' : seg_inv w s []) by (by destruct Hi as [? ? ? ? ? ? ? ? ? ? []]).
  destruct (segment_append [x41] (w, s)) as [r [w' s']] eqn:H.
  pose proof (si_next _ _ _ Hi) as Hn. rewrite Hb in Hn. simpl in Hn.
  rewrite <- Hb in Hd.
  destruct (append_crash_recovers w s [] [x41] r w' s' Hi' Hd) as (w2 & s2 & rs' & Ho & Hi2 & _ & _ & Hor & _);
    [rewrite (si_size _ _ _ Hi); by vm_compute|lia|done|].
  destruct r as [off|e]; [by injection H|]. exists w, s, w', s', w2, s2, e, rs'. done.
Defined.

(** Power is lost: of a segment holding [rs] only the first [k] bytes are left,
    and of its index any shorter list of its entries with a torn one after it.
    Opening it recovers exactly the records that lie wholly in those bytes. *)
Theorem power_loss_recovers w s rs wc k es junk :
  seg_inv w s rs -> sg_size s <= 4294967296 -> faults wc = [] -> segmentHeaderSize <= Z.of_nat k ->
  fs wc !! sg_file s = Some (take k (segment_header (sg_baseOffset s) ++ frames rs)) ->
  es `prefix_of` ix_entries (sg_index s) -> (length junk < 8)%nat ->
  content wc (ix_file (sg_index s)) = entries_bytes es ++ junk ->
  exists w2 s2 n, openSegment (sg_file s) wc = (Ok s2, w2) /\ seg_inv w2 s2 (take n rs) /\
    sg_baseOffset s2 = sg_baseOffset s /\ (forall i, (i <= length rs)%nat -> pos_of rs i <= Z.of_nat k <-> (i <= n)%nat).
Proof. apply power_loss. Qed.

Lemma power_loss_recovers_witness : exists w s wc w2 s2,
  seg_inv w s [] /\ openSegment (sg_file s) wc = (Ok s2, w2) /\ seg_inv w2 s2 [].
Proof.
  destruct (created 7 ltac:(lia)) as (w & s & _ & Hb & Hi & Hf & Hd). rewrite <- Hb in Hd.
  destruct (si_index _ _ _ Hi) as [He _ (junk & Hj & Hc)].
  assert (ix_entries (sg_index s) = []) as Hes.
  { destruct (ix_entries (sg_index s)) as [|e es]; [done|]. apply Forall_cons in He as [[[[H0 _] _] H1] _].
    simpl in H1. lia. }
  rewrite Hes in Hc.
  destruct (power_loss_recovers w s [] w 16 [] junk) as (w2 & s2 & n & Ho & Hi2 & _); [done|rewrite (si_size _ _ _ Hi); by vm_compute|done|done| | |done| |].
  - rewrite Hd. by rewrite take_ge.
  - rewrite Hes. done.
  - unfold content. by rewrite Hc.
  - exists w, s, w, w2, s2. rewrite take_nil in Hi2. done.
Defined.

(** C35: a crash while [createSegment] writes the header is not repaired: the file
    stays behind with fewer than sixteen bytes, opening it fails, and so does
    creating the segment again. *)
Theorem torn_header_is_permanent b k :
  0 <= b < 18446744073709551616 ->
  exists w', createSegment b (mkWorld ∅ [NoFault; Fault k]) = (Err ErrIO, w') /\ faults w' = [] /\
    (exists e, openSegment (segmentName b) w' = (Err e, w') /\ (e = ErrEOF \/ e = ErrUnexpectedEOF)) /\
    createSegment b w' = (Err ErrExist, w').
Proof.
  intros Hb. set (n := segmentName b). set (hd := segment_header b).
  set (c := take (k `min` pred (length hd)) hd). set (w' := mkDisk (<[n := c]> (<[n := []]> ∅)) [] ∅).
  assert (Hc : (length c < 16)%nat).
  { pose proof (segment_header_blen b) as Hl. unfold blen in Hl. change segmentHeaderSize with 16 in Hl.
    unfold c, hd. rewrite length_take. lia. }
  exists w'. split.
  { unfold createSegment, mbind, ST_bind, file_OpenExcl, file_WriteAt, next_fault, mkWorld, with_faults. cbn [faults fs durable].
    rewrite lookup_empty. cbn [set_content faults fs durable]. fold n hd. unfold set_content, content. cbn [fs faults durable].
    rewrite lookup_insert_eq. cbn [default from_option id]. fold c. do 3 f_equal.
    change 0 with (blen []). pose proof (splice_end [] [] c) as E. cbn [app] in E. by rewrite E, drop_nil, app_nil_r. }
  split; [done|].
  assert (Hw : fs w' !! n = Some c) by (cbn; by rewrite lookup_insert_eq).
  split.
  - unfold openSegment, mbind, ST_bind, file_Open, file_Reader, next_fault. cbn [faults w']. fold w'. rewrite Hw.
    cbn [faults w']. unfold content. rewrite Hw. cbn [default from_option id]. change (Z.to_nat 0) with 0%nat. rewrite drop_0.
    rewrite take_ge by (change (Z.to_nat segmentHeaderSize) with 16%nat; lia). unfold ReadFull. cbn [rd_bytes rd_fails].
    rewrite (proj2 (Z.leb_gt _ _)) by (unfold blen; change segmentHeaderSize with 16; lia).
    destruct (blen c =? 0); eexists; (split; [done|]); tauto.
  - unfold createSegment, mbind, ST_bind, file_OpenExcl, next_fault. cbn [faults w']. fold w'. fold n. by rewrite Hw.
Qed.

Lemma torn_header_is_permanent_witness : exists w' e,
  createSegment 0 (mkWorld ∅ [NoFault; Fault 7]) = (Err ErrIO, w') /\ openSegment (segmentName 0) w' = (Err e, w').
Proof.
  destruct (torn_header_is_permanent 0 7 ltac:(lia)) as (w' & H1 & _ & (e & H2 & _) & _). by exists w', e.
Defined.

(** A payload that contains, after one byte, the frame of another payload. *)
Definition nested_payload : list byte := x00 :: frame [x51].

(** bytes of a failed append can come back: the record is written, its index
    entry is not, and the append reports the error; a shorter record then takes
    its place, and when the segment is opened again what is left of the failed
    record's payload is read as a record nobody appended. *)
Theorem failed_append_resurfaces :
  exists s0 w0 s1 w1 s2 w2 s3 w3,
    createSegment 0 (mkWorld ∅ []) = (Ok s0, w0) /\
    segment_append nested_payload (mkWorld (fs w0) [NoFault; Fault 0], s0) = (Err ErrIO, (w1, s1)) /\
    segment_append [x52] (w1, s1) = (Ok 0, (w2, s2)) /\ sg_nextOffset s2 = 1 /\
    openSegment (segmentName 0) w2 = (Ok s3, w3) /\ sg_nextOffset s3 = 2 /\
    (segment_read s3 1 w3).1 = Ok [x51].
Proof.
  do 8 eexists. split; [vm_compute; reflexivity|]. split; [vm_compute; reflexivity|].
  split; [vm_compute; reflexivity|]. split; [vm_compute; reflexivity|]. split; [vm_compute; reflexivity|].
  split; vm_compute; reflexivity.
Qed.
