(* ===== verification/GroupCommit.v ===== *)
(** * Group commit: [broker/log/sync.go] and the locking of [Log.Append]

    [waitFor] holds the coordinator's mutex except inside [cond.Wait] and around
    [doSync]; it is cut there into the pieces that run atomically. The second
    half of the file runs these pieces for any number of goroutines appending to
    one log under [SyncGroup], as a step relation, and proves what an
    acknowledgement is worth. *)

From S2P Require Import Prelude.

(** ** The coordinator *)

Section coordinator.
Context {E : Type}.

Record syncCoordinator : Type := mkCoord {
  sc_synced : Z;
  sc_pending : Z;
  sc_syncing : bool;
  sc_err : option E;
  sc_syncs : Z
}.

Definition newSyncCoordinator : syncCoordinator := mkCoord 0 0 false None 0.

(** How a run of the loop's body ends: [waitFor] returns, waits on the condition
    variable, or leaves the mutex to call [doSync] for [target]. *)
Inductive wait_outcome : Type :=
| WReturn (err : option E)
| WWait
| WSync (target : Z).

Definition waitFor_enter (seq : Z) (c : syncCoordinator) : syncCoordinator :=
  if sc_pending c <? seq then mkCoord (sc_synced c) seq (sc_syncing c) (sc_err c) (sc_syncs c) else c.

Definition waitFor_loop (seq : Z) (c : syncCoordinator) : wait_outcome * syncCoordinator :=
  if seq <=? sc_synced c then (WReturn None, c)
  else match sc_err c with
       | Some e => (WReturn (Some e), c)
       | None =>
           if sc_syncing c then (WWait, c)
           else (WSync (sc_pending c),
                 mkCoord (sc_synced c) (sc_pending c) true None (uint64 (sc_syncs c + 1)))
       end.

(** After [doSync]: [Some] when [waitFor] returns at once. *)
Definition waitFor_finish (target : Z) (result : option E) (c : syncCoordinator)
    : option (option E) * syncCoordinator :=
  match result with
  | Some e => (Some (Some e), mkCoord (sc_synced c) (sc_pending c) false (Some e) (sc_syncs c))
  | None =>
      (None, mkCoord (if sc_synced c <? target then target else sc_synced c) (sc_pending c)
               false (sc_err c) (sc_syncs c))
  end.

Definition markSynced (seq : Z) (c : syncCoordinator) : syncCoordinator :=
  mkCoord (if sc_synced c <? seq then seq else sc_synced c)
    (if sc_pending c <? seq then seq else sc_pending c)
    (sc_syncing c) (sc_err c) (sc_syncs c).

Definition syncCount (c : syncCoordinator) : Z := sc_syncs c.

(** [waitFor] called when no other goroutine uses the coordinator; [None] would
    be a call that waits for ever. *)
Fixpoint waitFor_alone {S : Type} (fuel : nat) (seq : Z) (doSync : S -> option E * S)
    (c : syncCoordinator) (s : S) : option (option E) * syncCoordinator * S :=
  match fuel with
  | O => (None, c, s)
  | S fuel =>
      match waitFor_loop seq c with
      | (WReturn r, c) => (Some r, c, s)
      | (WWait, c) => (None, c, s)
      | (WSync target, c) =>
          let '(r, s) := doSync s in
          match waitFor_finish target r c with
          | (Some r, c) => (Some r, c, s)
          | (None, c) => waitFor_alone fuel seq doSync c s
          end
      end
  end.

(** Two rounds are enough: see [waitFor_returns]. *)
Definition waitFor {S : Type} (seq : Z) (doSync : S -> option E * S) (c : syncCoordinator) (s : S) :=
  waitFor_alone 2 seq doSync (waitFor_enter seq c) s.

(** A goroutine's own flush always covers its own record, so [waitFor] returns
    after at most one. *)
Lemma waitFor_spec {S : Type} seq (doSync : S -> option E * S) c s :
  sc_syncing c = false ->
  exists r c' s', waitFor seq doSync c s = (Some r, c', s') /\ sc_syncing c' = false /\
    (r = None -> sc_err c' = sc_err c) /\
    ((s' = s /\ (r = None /\ seq <= sc_synced c \/ exists e, r = Some e /\ sc_err c = Some e)) \/
     (doSync s = (r, s') /\ sc_syncs c' = uint64 (sc_syncs c + 1) /\ (r = None -> seq <= sc_synced c'))).
Proof.
  intros Hs. unfold waitFor. set (c1 := waitFor_enter seq c).
  assert (H1 : sc_synced c1 = sc_synced c /\ sc_syncing c1 = false /\ sc_err c1 = sc_err c /\
               sc_syncs c1 = sc_syncs c /\ seq <= sc_pending c1).
  { unfold c1, waitFor_enter. destruct (_ <? _) eqn:E0; cbn; split_and!; (done || lia). }
  destruct H1 as (E1 & E2 & E3 & E4 & Hp). cbn [waitFor_alone]. unfold waitFor_loop at 1. rewrite E1, E2, E3.
  destruct (seq <=? sc_synced c) eqn:Hd.
  { eexists _, _, _. split; [done|]. split; [done|]. split; [done|]. left. split; [done|]. left. split; [done|lia]. }
  destruct (sc_err c) as [e|] eqn:He.
  { eexists _, _, _. split; [done|]. split; [done|]. split; [done|]. left. split; [done|]. right. eauto. }
  destruct (doSync s) as [[e|] s'] eqn:Hdo; cbn [waitFor_finish].
  { eexists _, _, _. split; [done|]. split; [done|]. split; [done|]. right. split_and!; [done|cbn; by rewrite E4|done]. }
  unfold waitFor_loop. cbn [sc_synced].
  rewrite (proj2 (Z.ltb_lt (sc_synced c) (sc_pending c1))) by lia. rewrite (proj2 (Z.leb_le _ _)) by lia.
  eexists _, _, _. split; [done|]. split; [done|]. split; [done|]. right. split_and!; [done|cbn; by rewrite E4|cbn; lia].
Qed.

(** The counters do not run ahead of the numbers given out. *)
Lemma waitFor_bounds {S : Type} seq (doSync : S -> option E * S) c s x c' s' :
  sc_synced c <= seq -> sc_pending c <= seq -> waitFor seq doSync c s = (x, c', s') -> sc_synced c' <= seq /\ sc_pending c' <= seq.
Proof.
  intros H1 H2. unfold waitFor. set (c1 := waitFor_enter seq c).
  assert (Hc : sc_synced c1 <= seq /\ sc_pending c1 <= seq) by (unfold c1, waitFor_enter; destruct (_ <? _); cbn; lia).
  clearbody c1. generalize 2%nat. intros fuel. revert c1 s Hc. induction fuel as [|fuel IH]; intros c1 s Hc; cbn [waitFor_alone]; [by intros [= _ <- _]|].
  unfold waitFor_loop. destruct (_ <=? _); [by intros [= _ <- _]|]. destruct (sc_err c1); [by intros [= _ <- _]|].
  destruct (sc_syncing c1); [by intros [= _ <- _]|]. destruct (doSync s) as [[e|] s1]; cbn [waitFor_finish]; [by intros [= _ <- _]|].
  apply IH. cbn. destruct (_ <? _); lia.
Qed.

(** A failed flush is never retried: every later call that needs one fails. *)
Lemma err_sticky seq c e : sc_err c = Some e -> sc_synced c < seq ->
  waitFor_loop seq (waitFor_enter seq c) = (WReturn (Some e), waitFor_enter seq c).
Proof.
  intros He Hlt. unfold waitFor_loop, waitFor_enter. destruct (_ <? _); cbn; rewrite He, (proj2 (Z.leb_gt _ _)) by lia; done.
Qed.

End coordinator.

Arguments syncCoordinator : clear implicits.
Arguments wait_outcome : clear implicits.

(** ** Goroutines appending under [SyncGroup]

    [Append] runs in these steps; [l.mu] is held from the first to the write.
    Whether the active segment is full, and whether a system call fails, is
    left open. *)

Section goroutines.
Context {E : Type}.

Inductive pc : Type :=
| PStart
| PRoll                                    (* holds l.mu, flushes the full segment *)
| PMark                                    (* holds l.mu, about to call markSynced *)
| PWrite (roll : bool)                     (* holds l.mu, about to (roll and) write *)
| PEnter (seq : Z)                         (* about to call waitFor *)
| PSleep (seq : Z)                         (* in cond.Wait *)
| PWoken (seq : Z)                         (* woken, about to re-check *)
| PClaim (seq target : Z)                  (* the syncer, about to pick the active segment *)
| PFlush (seq target : Z) (seg : nat) (hi : Z) (* fsync of [seg], begun after [hi] writes *)
| PFlushed (seq target : Z) (r : option E) (* doSync has returned *)
| PDone (seq : Z) (r : option E)           (* Append has returned *)
| PFailed.                                 (* Append failed before its write *)

(** [g_home n] is the segment that holds record [n] and [g_durable n] says that
    it is on disk; both describe the files and are not variables of the program. *)
Record gstate : Type := mkG {
  g_coord : syncCoordinator E;
  g_mu : option nat;
  g_seq : Z;
  g_active : nat;
  g_home : Z -> nat;
  g_durable : Z -> Prop;
  g_threads : gmap nat pc
}.

Definition wake (p : pc) : pc := match p with PSleep s => PWoken s | _ => p end.

Definition broadcast (ts : gmap nat pc) : gmap nat pc := wake <$> ts.

Definition settle (s : Z) (o : wait_outcome E) : pc :=
  match o with
  | WReturn r => PDone s r
  | WWait => PSleep s
  | WSync t => PClaim s t
  end.

Definition with_threads (g : gstate) (c : syncCoordinator E) (ts : gmap nat pc) : gstate :=
  mkG c (g_mu g) (g_seq g) (g_active g) (g_home g) (g_durable g) ts.

(** Goroutine [i] runs the loop's body on coordinator [c]. *)
Definition run_loop (g : gstate) (i : nat) (s : Z) (c : syncCoordinator E) (ts : gmap nat pc) : gstate :=
  let '(o, c) := waitFor_loop s c in with_threads g c (<[i := settle s o]> ts).

Definition set_pc (g : gstate) (i : nat) (mu : option nat) (p : pc) : gstate :=
  mkG (g_coord g) mu (g_seq g) (g_active g) (g_home g) (g_durable g) (<[i := p]> (g_threads g)).

(** A completed flush of segment [seg] that began after [hi] writes. *)
Definition flushed (g : gstate) (seg : nat) (hi : Z) : Z -> Prop :=
  fun n => g_durable g n \/ (1 <= n <= hi /\ g_home g n = seg).

Definition after_flush (g : gstate) (seg : nat) (hi : Z) (i : nat) (p : pc) : gstate :=
  mkG (g_coord g) (g_mu g) (g_seq g) (g_active g) (g_home g) (flushed g seg hi) (<[i := p]> (g_threads g)).

Definition after_write (g : gstate) (roll : bool) (i : nat) : gstate :=
  let seg := if roll then S (g_active g) else g_active g in
  let n := g_seq g + 1 in
  mkG (g_coord g) None n seg (fun m => if decide (m = n) then seg else g_home g m) (g_durable g)
    (<[i := PEnter n]> (g_threads g)).

Inductive step (i : nat) (g : gstate) : gstate -> Prop :=
| S_lock full :
    g_threads g !! i = Some PStart -> g_mu g = None ->
    step i g (set_pc g i (Some i) (if full : bool then PRoll else PWrite false))
| S_roll_ok :
    g_threads g !! i = Some PRoll ->
    step i g (after_flush g (g_active g) (g_seq g) i PMark)
| S_roll_fail :
    g_threads g !! i = Some PRoll -> step i g (set_pc g i None PFailed)
| S_mark :
    g_threads g !! i = Some PMark ->
    step i g (with_threads g (markSynced (g_seq g) (g_coord g)) (<[i := PWrite true]> (broadcast (g_threads g))))
| S_write roll :
    g_threads g !! i = Some (PWrite roll) -> g_seq g + 1 < 18446744073709551616 ->
    step i g (after_write g roll i)
| S_write_fail roll seg :
    g_threads g !! i = Some (PWrite roll) -> (seg = g_active g \/ roll = true /\ seg = S (g_active g)) ->
    step i g (mkG (g_coord g) None (g_seq g) seg (g_home g) (g_durable g) (<[i := PFailed]> (g_threads g)))
| S_enter s :
    g_threads g !! i = Some (PEnter s) ->
    step i g (run_loop g i s (waitFor_enter s (g_coord g)) (g_threads g))
| S_wake s :
    g_threads g !! i = Some (PWoken s) -> step i g (run_loop g i s (g_coord g) (g_threads g))
| S_active s t :
    g_threads g !! i = Some (PClaim s t) -> g_mu g = None ->
    step i g (set_pc g i None (PFlush s t (g_active g) (g_seq g)))
| S_flush_ok s t seg hi :
    g_threads g !! i = Some (PFlush s t seg hi) ->
    step i g (after_flush g seg hi i (PFlushed s t None))
| S_flush_fail s t seg hi e :
    g_threads g !! i = Some (PFlush s t seg hi) ->
    step i g (set_pc g i (g_mu g) (PFlushed s t (Some e)))
| S_finish s t r :
    g_threads g !! i = Some (PFlushed s t r) ->
    step i g (match waitFor_finish t r (g_coord g) with
              | (Some r, c) => with_threads g c (<[i := PDone s r]> (broadcast (g_threads g)))
              | (None, c) => run_loop g i s c (broadcast (g_threads g))
              end).

(** Besides, the kernel may write a record back whenever it likes. *)
Inductive gstep (g : gstate) : gstate -> Prop :=
| G_thread i g' : step i g g' -> gstep g g'
| G_writeback n : 1 <= n <= g_seq g ->
    gstep g (mkG (g_coord g) (g_mu g) (g_seq g) (g_active g) (g_home g) (fun m => g_durable g m \/ m = n) (g_threads g)).

Definition initial (g : gstate) : Prop :=
  g_coord g = newSyncCoordinator /\ g_mu g = None /\ g_seq g = 0 /\
  forall i p, g_threads g !! i = Some p -> p = PStart.

Definition reachable (g : gstate) : Prop := exists g0, initial g0 /\ rtc gstep g0 g.

(** ** The invariant *)

Definition is_syncer (p : pc) : bool :=
  match p with PClaim _ _ | PFlush _ _ _ _ | PFlushed _ _ _ => true | _ => false end.

Definition holds_mu (p : pc) : bool :=
  match p with PRoll | PMark | PWrite _ => true | _ => false end.

Definition finished (p : pc) : bool :=
  match p with PDone _ _ | PFailed => true | _ => false end.

Definition all_durable (g : gstate) (hi : Z) : Prop := forall n, 1 <= n <= hi -> g_durable g n.

Definition pc_ok (g : gstate) (p : pc) : Prop :=
  match p with
  | PMark | PWrite true => all_durable g (g_seq g)
  | PEnter s => 1 <= s <= g_seq g
  | PSleep s => 1 <= s <= sc_pending (g_coord g) /\ sc_syncing (g_coord g) = true
  | PWoken s => 1 <= s <= sc_pending (g_coord g)
  | PClaim s t => 1 <= s <= t /\ t <= sc_pending (g_coord g)
  | PFlush s t seg hi => 1 <= s <= t /\ t <= sc_pending (g_coord g) /\ t <= hi <= g_seq g /\
      forall n, 1 <= n <= t -> g_durable g n \/ g_home g n = seg
  | PFlushed s t r => 1 <= s <= t /\ t <= sc_pending (g_coord g) /\ (r = None -> all_durable g t)
  | PDone s r => r = None -> 1 <= s <= g_seq g /\ g_durable g s
  | _ => True
  end.

(** The goroutine, if any, that a role of its program counter marks. *)
Definition owner (role : pc -> bool) (ts : gmap nat pc) (o : option nat) : Prop :=
  forall i, o = Some i <-> exists p, ts !! i = Some p /\ role p = true.

Record gc_inv (g : gstate) : Prop := {
  iv_bounds : 0 <= sc_synced (g_coord g) <= g_seq g /\ sc_pending (g_coord g) <= g_seq g;
  iv_synced : all_durable g (sc_synced (g_coord g));
  iv_rolled : forall n, 1 <= n <= g_seq g -> (g_home g n <= g_active g)%nat /\
    ((g_home g n < g_active g)%nat -> g_durable g n);
  iv_pcs : map_Forall (fun _ => pc_ok g) (g_threads g);
  iv_syncer : exists o, owner is_syncer (g_threads g) o /\ sc_syncing (g_coord g) = bool_decide (is_Some o);
  iv_mu : owner holds_mu (g_threads g) (g_mu g)
}.

(** *** Roles *)

Lemma owner_keep role ts o i p q :
  ts !! i = Some p -> role q = role p -> owner role ts o -> owner role (<[i := q]> ts) o.
Proof.
  intros Hi Hr Ho j. rewrite (Ho j). destruct (decide (i = j)) as [<-|Hne].
  - rewrite lookup_insert_eq, Hi. split; intros (x & [= <-] & Hx); eexists; (split; [done|]); congruence.
  - by rewrite lookup_insert_ne.
Qed.

Lemma owner_take role ts i q :
  owner role ts None -> role q = true -> owner role (<[i := q]> ts) (Some i).
Proof.
  intros Ho Hq j. destruct (decide (i = j)) as [<-|Hne].
  - rewrite lookup_insert_eq. split; [|done]. eauto.
  - rewrite lookup_insert_ne by done. split; [congruence|]. intros H%Ho. done.
Qed.

Lemma owner_drop role ts o i p q :
  ts !! i = Some p -> role p = true -> role q = false -> owner role ts o -> owner role (<[i := q]> ts) None.
Proof.
  intros Hi Hp Hq Ho. assert (o = Some i) as -> by (apply Ho; eauto).
  intros j. split; [done|]. intros (x & Hx & Hr). exfalso. destruct (decide (i = j)) as [<-|Hne].
  - rewrite lookup_insert_eq in Hx. congruence.
  - rewrite lookup_insert_ne in Hx by done. assert (Some i = Some j) as [= ->] by (apply Ho; eauto). done.
Qed.

Lemma owner_broadcast role ts o :
  (forall p, role (wake p) = role p) -> owner role ts o -> owner role (broadcast ts) o.
Proof.
  intros Hw Ho j. rewrite (Ho j). unfold broadcast. setoid_rewrite lookup_fmap. split.
  - intros (p & -> & Hp). eexists. split; [done|]. by rewrite Hw.
  - destruct (ts !! j) as [p|]; intros (q & [= <-] & Hq). rewrite Hw in Hq. eauto.
Qed.

(** *** Program counters *)

(** What a step of another goroutine must respect. *)
Record later (g g' : gstate) : Prop := {
  lt_durable : forall n, g_durable g n -> g_durable g' n;
  lt_seq : g_seq g <= g_seq g';
  lt_pending : sc_pending (g_coord g) <= sc_pending (g_coord g');
  lt_home : forall n, 1 <= n <= g_seq g -> g_home g' n = g_home g n
}.

Lemma pc_ok_later g g' p :
  later g g' -> g_seq g' = g_seq g \/ holds_mu p = false ->
  (forall s, p = PSleep s -> sc_syncing (g_coord g) = true -> sc_syncing (g_coord g') = true) ->
  pc_ok g p -> pc_ok g' p.
Proof.
  intros [Hd Hs Hp Hh] Hmu Hsl Hok. unfold all_durable in *.
  destruct p as [| | |[]|s|s|s|s t|s t seg hi|s t r|s r|]; cbn in *; try done; unfold all_durable in *.
  - destruct Hmu as [->|]; [|done]. intros n Hn. by apply Hd, Hok.
  - destruct Hmu as [->|]; [|done]. intros n Hn. by apply Hd, Hok.
  - lia.
  - destruct Hok as [? Hsy]. split; [lia|]. by apply (Hsl s).
  - lia.
  - lia.
  - destruct Hok as (? & ? & ? & H). split_and!; try lia. intros n Hn. rewrite Hh by lia. destruct (H n Hn); [left; by apply Hd|by right].
  - destruct Hok as (? & ? & H). split_and!; try lia. intros Hr n Hn. by apply Hd, H.
  - intros Hr. destruct (Hok Hr). split; [lia|]. by apply Hd.
Qed.

Lemma pcs_later g g' i p ts :
  map_Forall (fun _ => pc_ok g) (g_threads g) -> later g g' ->
  (g_seq g' = g_seq g \/ (owner holds_mu (g_threads g) (g_mu g) /\ exists q, g_threads g !! i = Some q /\ holds_mu q = true)) ->
  ts = g_threads g /\ (sc_syncing (g_coord g) = true -> sc_syncing (g_coord g') = true) \/ ts = broadcast (g_threads g) ->
  pc_ok g' p -> map_Forall (fun _ => pc_ok g') (<[i := p]> ts).
Proof.
  intros Hall Hl Hseq Hts Hp j x Hx. destruct (decide (i = j)) as [<-|Hne].
  { rewrite lookup_insert_eq in Hx. by injection Hx as <-. }
  rewrite lookup_insert_ne in Hx by done.
  assert (Hmu : forall y, g_threads g !! j = Some y -> g_seq g' = g_seq g \/ holds_mu y = false).
  { intros y Hy. destruct Hseq as [->|(Ho & q & Hi & Hq)]; [by left|]. right. destruct (holds_mu y) eqn:Hh; [|done].
    assert (g_mu g = Some i) as E1 by (apply Ho; eauto). assert (g_mu g = Some j) as E2 by (apply Ho; eauto). congruence. }
  destruct Hts as [[-> Hsy]| ->].
  - eapply pc_ok_later; [done|by apply Hmu|intros ? _; exact Hsy|by apply (Hall j)].
  - unfold broadcast in Hx. rewrite lookup_fmap in Hx. destruct (g_threads g !! j) as [y|] eqn:Hy; [|done].
    injection Hx as <-. specialize (Hall j y Hy). specialize (Hmu y eq_refl).
    assert (Hw : pc_ok g (wake y)) by (destruct y as [| | |[]| | | | | | | |]; cbn in *; tauto).
    eapply pc_ok_later; [done| | |done].
    + by destruct y.
    + intros s Hs. by destruct y.
Qed.

(** *** Preservation *)

Lemma loop_inv g i s :
  gc_inv g -> g_threads g !! i = Some (PWoken s) -> gc_inv (run_loop g i s (g_coord g) (g_threads g)).
Proof.
  intros [Hb Hsy Hr Hp (o & Ho & Hso) Hmu] Hi. pose proof (Hp _ _ Hi) as Hpc. cbn in Hpc.
  unfold run_loop, waitFor_loop. destruct (s <=? sc_synced (g_coord g)) eqn:Hd.
  { split; cbn; try done.
    - eapply (pcs_later g); [done|by split|by left|by left|]. cbn. intros _. split; [lia|]. apply Hsy. lia.
    - exists o. split; [|done]. by eapply owner_keep.
    - by eapply owner_keep. }
  destruct (sc_err (g_coord g)) as [e|] eqn:He.
  { split; cbn; try done.
    - by eapply (pcs_later g); [done|split|left|left|].
    - exists o. split; [|done]. by eapply owner_keep.
    - by eapply owner_keep. }
  destruct (sc_syncing (g_coord g)) eqn:Hsyn.
  { split; cbn; try done.
    - eapply (pcs_later g); [done|by split|by left|by left|]. by split.
    - exists o. rewrite Hsyn. split; [|done]. by eapply owner_keep.
    - by eapply owner_keep. }
  assert (o = None) as -> by (destruct o; [by rewrite bool_decide_true in Hso by eauto|done]).
  split; cbn; try done.
  - eapply (pcs_later g); [done|by split|by left|by left|]. cbn. lia.
  - exists (Some i). split; [|by rewrite bool_decide_true by eauto]. by apply owner_take.
  - by eapply owner_keep.
Qed.

Lemma enter_inv g i s :
  gc_inv g -> g_threads g !! i = Some (PEnter s) ->
  gc_inv (with_threads g (waitFor_enter s (g_coord g)) (<[i := PWoken s]> (g_threads g))).
Proof.
  intros [Hb Hsy Hr Hp (o & Ho & Hso) Hmu] Hi. pose proof (Hp _ _ Hi) as Hpc. cbn in Hpc.
  assert (Hc : sc_synced (waitFor_enter s (g_coord g)) = sc_synced (g_coord g) /\
    sc_syncing (waitFor_enter s (g_coord g)) = sc_syncing (g_coord g) /\
    sc_pending (g_coord g) <= sc_pending (waitFor_enter s (g_coord g)) <= g_seq g /\
    s <= sc_pending (waitFor_enter s (g_coord g))).
  { unfold waitFor_enter. destruct (_ <? _) eqn:E0; cbn; split_and!; (done || lia). }
  destruct Hc as (E1 & E2 & E3 & E4).
  split; cbn; rewrite ?E1, ?E2; try done; try lia.
  - eapply (pcs_later g); [done|split; cbn; (done || lia)|by left|left; cbn; by rewrite E2|]. cbn. lia.
  - exists o. split; [|done]. by eapply owner_keep.
  - by eapply owner_keep.
Qed.

Lemma finish_inv g i s t r :
  gc_inv g -> g_threads g !! i = Some (PFlushed s t r) ->
  let c := (waitFor_finish t r (g_coord g)).2 in
  gc_inv (with_threads g c (<[i := match r with Some e => PDone s (Some e) | None => PWoken s end]> (broadcast (g_threads g)))).
Proof.
  intros [Hb Hsy Hr Hp (o & Ho & Hso) Hmu] Hi. pose proof (Hp _ _ Hi) as (Hs & Ht & Hd).
  pose proof (owner_broadcast is_syncer _ _ ltac:(by intros []) Ho) as Hob.
  pose proof (owner_broadcast holds_mu _ _ ltac:(by intros []) Hmu) as Hmub.
  assert (Hib : broadcast (g_threads g) !! i = Some (PFlushed s t r)) by (unfold broadcast; by rewrite lookup_fmap, Hi).
  assert (Hlater : forall c ts, sc_pending c = sc_pending (g_coord g) -> later g (with_threads g c ts)).
  { intros c ts Hc. split; cbn; try done; lia. }
  destruct r as [e|]; cbn [waitFor_finish snd].
  - split; cbn; try done.
    + eapply (pcs_later g); [done|by apply Hlater|by left|by right|done].
    + exists None. split; [by eapply owner_drop|done].
    + by eapply owner_keep.
  - specialize (Hd eq_refl).
    assert (Hsync : all_durable g (if sc_synced (g_coord g) <? t then t else sc_synced (g_coord g))) by (by destruct (_ <? _)).
    split; cbn; try done.
    + destruct (_ <? _); lia.
    + eapply (pcs_later g); [done|by apply Hlater|by left|by right|]. cbn. lia.
    + exists None. split; [by eapply owner_drop|done].
    + by eapply owner_keep.
Qed.

(** A step that only moves one goroutine. *)
Lemma set_pc_inv g i q mu p : gc_inv g -> g_threads g !! i = Some q -> pc_ok (set_pc g i mu p) p -> is_syncer p = is_syncer q ->
  owner holds_mu (<[i := p]> (g_threads g)) mu -> gc_inv (set_pc g i mu p).
Proof.
  intros [Hb Hsy Hr Hp (o & Ho & Hso) Hmu] Hi Hpc Hq Hmu'. split; cbn; try done.
  - by eapply (pcs_later g); [done|split|left|left|].
  - exists o. split; [by eapply owner_keep|done].
Qed.

(** A flush that succeeds: what was on disk still is. *)
Lemma after_flush_inv g i q seg hi p : gc_inv g -> g_threads g !! i = Some q -> pc_ok (after_flush g seg hi i p) p ->
  is_syncer p = is_syncer q -> holds_mu p = holds_mu q -> gc_inv (after_flush g seg hi i p).
Proof.
  intros [Hb Hsy Hr Hp (o & Ho & Hso) Hmu] Hi Hpc Hq1 Hq2. split; cbn; try done.
  - intros n Hn. by left; apply Hsy.
  - intros n Hn. destruct (Hr n Hn) as [Hle Hlt]. split; [done|]. intros H. left. by apply Hlt.
  - eapply (pcs_later g); [done|split; cbn; try done; by left|by left|by left|done].
  - exists o. split; [by eapply owner_keep|done].
  - by eapply owner_keep.
Qed.

Lemma mark_inv g i : gc_inv g -> g_threads g !! i = Some PMark ->
  gc_inv (with_threads g (markSynced (g_seq g) (g_coord g)) (<[i := PWrite true]> (broadcast (g_threads g)))).
Proof.
  intros [Hb Hsy Hr Hp (o & Ho & Hso) Hmu] Hi. pose proof (Hp _ _ Hi) as Hpc. cbn in Hpc.
  assert (Hib : broadcast (g_threads g) !! i = Some PMark) by (unfold broadcast; by rewrite lookup_fmap, Hi).
  set (c := markSynced (g_seq g) (g_coord g)).
  assert (Hc : sc_synced c = g_seq g /\ sc_pending c = g_seq g /\ sc_syncing c = sc_syncing (g_coord g)).
  { unfold c, markSynced. cbn. destruct (sc_synced (g_coord g) <? g_seq g) eqn:E1, (sc_pending (g_coord g) <? g_seq g) eqn:E2; split_and!; (done || lia). }
  destruct Hc as (E1 & E2 & E3). clearbody c. split; cbn; rewrite ?E1, ?E2, ?E3; try done; try lia.
  - eapply (pcs_later g); [done|split; cbn; rewrite ?E2; (done || lia)|by left|by right|done].
  - exists o. split; [|done]. eapply owner_keep; [done..|]. by apply owner_broadcast; [intros []|].
  - eapply owner_keep; [done..|]. by apply owner_broadcast; [intros []|].
Qed.

Lemma write_inv g i roll : gc_inv g -> g_threads g !! i = Some (PWrite roll) -> gc_inv (after_write g roll i).
Proof.
  intros [Hb Hsy Hr Hp (o & Ho & Hso) Hmu] Hi. pose proof (Hp _ _ Hi) as Hpc. cbn in Hpc.
  assert (Hd : roll = true -> all_durable g (g_seq g)) by (by intros ->).
  assert (Hl : later g (after_write g roll i)).
  { split; cbn; [done|lia|lia|]. intros n Hn1. by rewrite decide_False by lia. }
  split; cbn; try done; try lia.
  - intros n Hn1. case_decide; [subst; destruct roll; lia|]. destruct (Hr n ltac:(lia)) as [Hle Hlt].
    destruct roll; [|done]. split; [lia|]. intros _. apply Hd; [done|lia].
  - eapply (pcs_later g); [done|done|by right; eauto|by left|]. cbn. lia.
  - exists o. split; [|done]. by eapply owner_keep.
  - by eapply owner_drop.
Qed.

Lemma write_fail_inv g i roll seg : gc_inv g -> g_threads g !! i = Some (PWrite roll) ->
  seg = g_active g \/ roll = true /\ seg = S (g_active g) ->
  gc_inv (mkG (g_coord g) None (g_seq g) seg (g_home g) (g_durable g) (<[i := PFailed]> (g_threads g))).
Proof.
  intros [Hb Hsy Hr Hp (o & Ho & Hso) Hmu] Hi Hseg. pose proof (Hp _ _ Hi) as Hpc. cbn in Hpc. split; cbn; try done.
  - intros n Hn. destruct (Hr n Hn) as [Hle Hlt]. destruct Hseg as [->|[-> ->]]; [done|]. split; [lia|]. intros _. by apply Hpc.
  - by eapply (pcs_later g); [done|split|left|left|].
  - exists o. split; [|done]. by eapply owner_keep.
  - by eapply owner_drop.
Qed.

(** Where a record is, when the active segment is flushed. *)
Lemma active_or_durable g n : gc_inv g -> 1 <= n <= g_seq g -> g_durable g n \/ g_home g n = g_active g.
Proof.
  intros Hinv Hn. destruct (iv_rolled _ Hinv n Hn) as [Hle Hlt]. destruct (decide (g_home g n = g_active g)); [by right|]. left. apply Hlt. lia.
Qed.

Lemma step_inv i g g' : gc_inv g -> step i g g' -> gc_inv g'.
Proof.
  intros Hinv Hstep. pose proof Hinv as [_ _ _ Hp _ Hmu].
  destruct Hstep as [full Hi Hm|Hi|Hi|Hi|roll Hi Hn|roll seg Hi Hseg|s Hi|s Hi|s t Hi Hm|s t seg hi Hi|s t seg hi e Hi|s t r Hi];
    pose proof (Hp _ _ Hi) as Hpc; cbn in Hpc.
  - (* lock *) rewrite Hm in Hmu. eapply set_pc_inv; [done|done|by destruct full..|]. apply owner_take; [done|by destruct full].
  - (* roll flushed *) eapply after_flush_inv; try done. intros n Hn. cbn. unfold flushed.
    destruct (active_or_durable g n Hinv Hn); [by left|right; split; [apply Hn|done]].
  - (* roll failed *) eapply set_pc_inv; try done. by eapply owner_drop.
  - by apply mark_inv.
  - by apply write_inv.
  - by eapply write_fail_inv.
  - (* enter *)
    pose proof (loop_inv _ i s (enter_inv g i s Hinv Hi)) as H. cbn in H. rewrite lookup_insert_eq in H.
    specialize (H eq_refl). unfold run_loop in *. destruct (waitFor_loop s _) as [o1 c1]. unfold with_threads in *. cbn in *.
    by rewrite insert_insert_eq in H.
  - (* woken *) by apply loop_inv.
  - (* pick the active segment *) pose proof (iv_bounds _ Hinv) as Hb. eapply set_pc_inv; [done|done| |done|rewrite <- Hm; by eapply owner_keep].
    cbn. split_and!; try lia. intros n Hn. apply active_or_durable; [done|lia].
  - (* flushed *) destruct Hpc as (Hs & Ht & Hhi & Hd). eapply after_flush_inv; try done. cbn. split_and!; try lia.
    intros _ n Hn. cbn. unfold flushed. destruct (Hd n Hn); [by left|right; split; [lia|done]].
  - (* flush failed *) eapply set_pc_inv; [done|done| |done|by eapply owner_keep]. cbn. split_and!; (lia || done).
  - (* finish *) pose proof (finish_inv g i s t r Hinv Hi) as H. destruct r as [e|]; cbn [waitFor_finish snd] in *; [done|].
    apply (loop_inv _ i s) in H; [|cbn; by rewrite lookup_insert_eq].
    unfold run_loop in *. cbn [g_coord with_threads] in H. destruct (waitFor_loop s _) as [o1 c1]. unfold with_threads in *. cbn in *.
    by rewrite insert_insert_eq in H.
Qed.

Lemma reachable_inv g : reachable g -> gc_inv g.
Proof.
  intros (g0 & (Hc & Hm & Hs & Ht) & Hsteps). assert (H0 : gc_inv g0).
  { split; rewrite ?Hc, ?Hs; cbn; try lia.
    - intros n Hn. cbn in Hn. lia.
    - intros i p Hi. by rewrite (Ht i p Hi).
    - exists None. split; [|done]. intros i. split; [done|]. intros (p & Hp & Hr). by rewrite (Ht i p Hp) in Hr.
    - rewrite Hm. intros i. split; [done|]. intros (p & Hp & Hr). by rewrite (Ht i p Hp) in Hr. }
  clear Hc Hm Hs Ht. induction Hsteps as [|g1 g2 g3 Hstep _ IH]; [done|]. apply IH. destruct Hstep as [i g' Hi|n Hn].
  - by eapply step_inv.
  - destruct H0 as [Hb Hsy Hr Hp Ho Hmu]. split; cbn; try done.
    + intros m Hm. by left; apply Hsy.
    + intros m Hm. destruct (Hr m Hm). split; [done|]. intros. left. auto.
    + intros j p Hj. eapply (pc_ok_later g1); [|by left|done|by apply (Hp j)]. split; cbn; try done; by left.
Qed.

(** *** Progress *)

(** As long as a goroutine has not returned, one can move. *)
Lemma no_deadlock g i p :
  gc_inv g -> g_threads g !! i = Some p -> finished p = false -> g_seq g + 1 < 18446744073709551616 ->
  exists j g', step j g g'.
Proof.
  intros [Hb Hsy Hr Hp (o & Ho & Hso) Hmu] Hi Hf Hcap.
  (* the holder of l.mu can always move *)
  assert (Hholder : forall j, g_mu g = Some j -> exists j g', step j g g').
  { intros j Hj. apply Hmu in Hj as (q & Hq & Hh). exists j.
    destruct q; try done; eexists; [by apply S_roll_ok|by apply S_mark|by apply S_write]. }
  assert (Hfree : (g_mu g = None -> exists j g', step j g g') -> exists j g', step j g g').
  { intros H. destruct (g_mu g) as [j|] eqn:Hm; [by apply (Hholder j)|by apply H]. }
  (* so can a syncer, once l.mu is free *)
  assert (Hsyncer : forall j q, g_threads g !! j = Some q -> is_syncer q = true -> exists j g', step j g g').
  { intros j q Hj Hq. apply Hfree. intros Hm. exists j.
    destruct q; try done; eexists; [by eapply S_active|by eapply S_flush_ok|by eapply S_finish]. }
  destruct p as [| | |roll|s|s|s|s t|s t seg hi|s t r|s r|] eqn:Ep; try done.
  - apply Hfree. intros Hm. eexists i, _. by apply (S_lock i g true).
  - eexists i, _. by apply S_roll_ok.
  - eexists i, _. by apply S_mark.
  - eexists i, _. by apply S_write.
  - eexists i, _. by apply S_enter.
  - (* asleep: then some goroutine is flushing *)
    pose proof (Hp _ _ Hi) as [_ Hs]. rewrite Hs in Hso. symmetry in Hso. apply bool_decide_eq_true in Hso as [j ->].
    destruct (proj1 (Ho j) eq_refl) as (q & Hq & Hsq). by apply (Hsyncer j q).
  - eexists i, _. by apply S_wake.
  - by eapply Hsyncer.
  - by eapply Hsyncer.
  - by eapply Hsyncer.
Qed.

Definition stage (p : pc) : Z :=
  match p with
  | PStart => 9 | PRoll => 8 | PMark => 7 | PWrite _ => 6 | PEnter _ => 5
  | PSleep _ | PWoken _ => 4 | PClaim _ _ => 3 | PFlush _ _ _ _ => 2 | PFlushed _ _ _ => 1
  | PDone _ _ | PFailed => 0
  end.

(** Each advance of a goroutine may wake all the others, once. *)
Definition weight (n : Z) (p : pc) : Z := stage p * (n + 1) + match p with PWoken _ => 1 | _ => 0 end.

Definition total (n : Z) (ts : gmap nat pc) : Z := sumZ ((fun x => weight n x.2) <$> map_to_list ts).

Definition potential (g : gstate) : Z := total (Z.of_nat (size (g_threads g))) (g_threads g).

Lemma total_insert n ts i p q : ts !! i = Some p -> total n (<[i := q]> ts) = total n ts - weight n p + weight n q.
Proof.
  intros Hi. unfold total. rewrite <- insert_delete_eq.
  rewrite (map_to_list_insert (delete i ts) i q) by apply lookup_delete_eq.
  rewrite <- (map_to_list_delete ts i p Hi). cbn. unfold sumZ. cbn. lia.
Qed.

Lemma total_broadcast n ts : total n (broadcast ts) <= total n ts + Z.of_nat (size ts).
Proof.
  unfold total, broadcast. rewrite map_to_list_fmap, <- list_fmap_compose.
  rewrite <- length_map_to_list. induction (map_to_list ts) as [|[j p] l IH]; [done|].
  cbn [fmap list_fmap length]. rewrite !sumZ_cons. unfold compose in *. cbn [snd prod_map fst] in *.
  assert (weight n (wake p) <= weight n p + 1) by (unfold weight; destruct p; cbn [stage wake]; lia). lia.
Qed.

Lemma size_broadcast_insert i p q (ts : gmap nat pc) :
  ts !! i = Some p -> size (<[i := q]> (broadcast ts)) = size ts.
Proof. intros Hi. rewrite map_size_insert_Some; [apply map_size_fmap|]. unfold broadcast. by rewrite lookup_fmap, Hi. Qed.

(** A step that moves goroutine [i] from [p] to [q] and may wake the others. *)
Lemma total_advance ts i p q :
  ts !! i = Some p -> stage q < stage p -> (forall s, p <> PSleep s) -> (forall s, q <> PWoken s) ->
  let n := Z.of_nat (size ts) in
  total n (<[i := q]> ts) < total n ts /\ total n (<[i := q]> (broadcast ts)) < total n ts.
Proof.
  intros Hi Hst Hp Hq n. assert (Hn : 0 <= n) by lia.
  assert (Hw : weight n q + (n + 1) <= weight n p).
  { unfold weight. assert (Hm : match q with PWoken _ => 1 | _ => 0 end = 0) by (destruct q; try done; by edestruct Hq).
    rewrite Hm. assert (0 <= match p with PWoken _ => 1 | _ => 0 end) by (destruct p; lia). nia. }
  split; [rewrite (total_insert n ts i p q Hi); lia|].
  rewrite (total_insert n (broadcast ts) i (wake p) q) by (unfold broadcast; by rewrite lookup_fmap, Hi).
  assert (weight n (wake p) = weight n p) by (destruct p; try done; by edestruct Hp).
  pose proof (total_broadcast n ts). lia.
Qed.

Lemma total_run_loop g i s c ts p :
  ts !! i = Some p -> stage p = 5 \/ p = PWoken s -> size ts = size (g_threads g) ->
  let n := Z.of_nat (size ts) in
  size (g_threads (run_loop g i s c ts)) = size ts /\ total n (g_threads (run_loop g i s c ts)) < total n ts.
Proof.
  intros Hi Hp Hs n. assert (0 <= n) by lia. unfold run_loop. destruct (waitFor_loop s c) as [o c']. cbn.
  rewrite (map_size_insert_Some _ _ _ (mk_is_Some _ _ Hi)), (total_insert n ts i p _ Hi). split; [done|].
  destruct Hp as [Hp| ->]; destruct o; unfold weight; cbn [settle stage]; rewrite ?Hp; try lia.
  all: destruct p; try done; lia.
Qed.

(** Every step of a goroutine brings the end nearer. *)
Lemma step_potential i g g' : gc_inv g -> step i g g' ->
  size (g_threads g') = size (g_threads g) /\ potential g' < potential g.
Proof.
  intros Hinv Hstep. pose proof (iv_pcs _ Hinv) as Hp. unfold potential.
  destruct Hstep as [full Hi Hm|Hi|Hi|Hi|roll Hi Hn|roll seg Hi Hseg|s Hi|s Hi|s t Hi Hm|s t seg hi Hi|s t seg hi e Hi|s t r Hi];
    try (cbn; rewrite (map_size_insert_Some _ _ _ (mk_is_Some _ _ Hi)); split; [done|];
         eapply total_advance; [done|try destruct full; cbn; lia|done|by try destruct full]).
  - (* mark *) cbn. rewrite (size_broadcast_insert _ _ _ _ Hi). split; [done|]. by eapply total_advance.
  - (* enter *) destruct (total_run_loop g i s (waitFor_enter s (g_coord g)) _ _ Hi) as [E1 E2]; [by left|done|].
    rewrite E1. done.
  - (* woken *) destruct (total_run_loop g i s (g_coord g) _ _ Hi) as [E1 E2]; [by right|done|]. rewrite E1. done.
  - (* finish: a flush of one's own covers one's own record *)
    pose proof (Hp _ _ Hi) as (Hs & Ht & _). destruct r as [e|]; cbn [waitFor_finish].
    + cbn. rewrite (size_broadcast_insert _ _ _ _ Hi). split; [done|]. by eapply total_advance.
    + unfold run_loop, waitFor_loop. cbn [sc_synced].
      rewrite (proj2 (Z.leb_le s _)) by (destruct (sc_synced (g_coord g) <? t) eqn:E0; lia). cbn.
      rewrite (size_broadcast_insert _ _ _ _ Hi). split; [done|]. by eapply total_advance.
Qed.

Definition all_returned (g : gstate) : Prop := forall i p, g_threads g !! i = Some p -> finished p = true.

Definition tstep (g g' : gstate) : Prop := exists i, step i g g'.

(** Appends that may still take a sequence number. *)
Lemma seq_bound i g g' : step i g g' -> g_seq g <= g_seq g' <= g_seq g + 1.
Proof.
  intros H. destruct H; cbn; try lia.
  - unfold run_loop. destruct (waitFor_loop _ _). cbn. lia.
  - unfold run_loop. destruct (waitFor_loop _ _). cbn. lia.
  - destruct (waitFor_finish _ _ _) as [[?|] ?]; [cbn; lia|]. unfold run_loop. destruct (waitFor_loop _ _). cbn. lia.
Qed.

Lemma potential_nonneg g : 0 <= potential g.
Proof. apply sumZ_nonneg, Forall_fmap, Forall_true. intros [j q]. unfold weight. cbn. destruct q; cbn [stage]; lia. Qed.

Lemma tstep_budget g g' : gc_inv g -> tstep g g' ->
  gc_inv g' /\ potential g' < potential g /\ g_seq g' + potential g' <= g_seq g + potential g.
Proof.
  intros Hinv [i Hstep]. destruct (step_potential _ _ _ Hinv Hstep) as [_ Hlt]. pose proof (seq_bound _ _ _ Hstep).
  split_and!; [by eapply step_inv|done|lia].
Qed.

Lemma run_bounded n g g' : gc_inv g -> nsteps tstep n g g' ->
  gc_inv g' /\ Z.of_nat n + potential g' <= potential g /\ g_seq g' + potential g' <= g_seq g + potential g.
Proof.
  intros Hinv H. induction H as [g|n g g1 g2 Hs _ IH]; [split_and!; [done|lia|lia]|].
  apply tstep_budget in Hs as (H1 & H2 & H3); [|done]. destruct (IH H1) as (I1 & I2 & I3). split_and!; [done|lia|lia].
Qed.
End goroutines.

Arguments pc : clear implicits.
Arguments gstate : clear implicits.

(** ** Theorems *)

(** [waitFor] called on an idle coordinator always returns, after at most one
    flush of its own; it returns no error only if the sequence number is covered
    by [synced], and an error only if that flush failed or an earlier one did. *)
Theorem waitFor_returns {E S : Type} seq (doSync : S -> option E * S) (c : syncCoordinator E) s :
  sc_syncing c = false ->
  exists r c' s', waitFor seq doSync c s = (Some r, c', s') /\ sc_syncing c' = false /\
    (r = None -> sc_err c' = sc_err c) /\
    ((s' = s /\ (r = None /\ seq <= sc_synced c \/ exists e, r = Some e /\ sc_err c = Some e)) \/
     (doSync s = (r, s') /\ sc_syncs c' = uint64 (sc_syncs c + 1) /\ (r = None -> seq <= sc_synced c'))).
Proof. apply waitFor_spec. Qed.

Lemma waitFor_returns_witness : exists r c' s',
  waitFor 1 (fun n : nat => (@None unit, (n + 1)%nat)) newSyncCoordinator 0%nat = (Some r, c', s') /\ sc_syncing c' = false.
Proof.
  destruct (waitFor_returns 1 (fun n : nat => (@None unit, (n + 1)%nat)) newSyncCoordinator 0%nat eq_refl)
    as (r & c' & s' & H1 & H2 & _ & _). by exists r, c', s'.
Defined.

(** the error of a failed flush is never cleared: once set, every call whose
    record is not yet covered fails with it and starts no flush (the field's
    comment says the next attempt clears it). *)
Theorem sync_error_is_sticky {E : Type} seq (c : syncCoordinator E) e :
  sc_err c = Some e -> sc_synced c < seq ->
  waitFor_loop seq (waitFor_enter seq c) = (WReturn (Some e), waitFor_enter seq c) /\
  sc_err (waitFor_enter seq c) = Some e /\
  (forall t, sc_err (waitFor_finish t None c).2 = Some e) /\ (forall n, sc_err (markSynced n c) = Some e).
Proof.
  intros He Hlt. split_and!; [by apply err_sticky| |done|done]. unfold waitFor_enter. by destruct (_ <? _).
Qed.

Lemma sync_error_is_sticky_witness :
  let c := mkCoord 0 1 false (Some tt) 1 in
  sc_err c = Some tt /\ waitFor_loop 2 (waitFor_enter 2 c) = (WReturn (Some tt), waitFor_enter 2 c).
Proof. split; [done|]. apply (sync_error_is_sticky 2 (mkCoord 0 1 false (Some tt) 1) tt); [done|simpl; lia]. Defined.

(** C12: under [SyncGroup] with any number of goroutines, segment rolls and failing
    calls: an append that has returned without error is on disk, and so is
    every record the coordinator counts as synced; and no two goroutines are
    ever flushing at once. *)
Theorem acknowledged_is_durable {E : Type} (g : gstate E) :
  reachable g ->
  (forall i s, g_threads g !! i = Some (PDone s None) -> 1 <= s <= g_seq g /\ g_durable g s) /\
  (forall n, 1 <= n <= sc_synced (g_coord g) -> g_durable g n) /\
  (forall i j p q, g_threads g !! i = Some p -> g_threads g !! j = Some q ->
     is_syncer p = true -> is_syncer q = true -> i = j).
Proof.
  intros Hr%reachable_inv. destruct Hr as [_ Hsy _ Hp (o & Ho & _) _]. split_and!; [|done|].
  - intros i s Hi. by apply (Hp i _ Hi).
  - intros i j p q Hi Hj Hpi Hqj. assert (o = Some i) as E1 by (apply Ho; eauto).
    assert (o = Some j) as E2 by (apply Ho; eauto). congruence.
Qed.

(** One goroutine, run to its return. *)
Lemma acknowledged_is_durable_witness : exists g : gstate unit,
  reachable g /\ g_threads g !! 0%nat = Some (PDone 1 None) /\ g_durable g 1.
Proof.
  set (g0 := mkG (E:=unit) newSyncCoordinator None 0 0 (fun _ => 0%nat) (fun _ => False) {[0%nat := PStart]}).
  assert (H : exists g, rtc gstep g0 g /\ g_threads g !! 0%nat = Some (PDone 1 None)).
  { eexists. split.
    - eapply rtc_l; [eapply (G_thread _ 0), (S_lock _ _ false); done|].
      eapply rtc_l; [eapply (G_thread _ 0), (S_write _ _ false); [done|by cbn]|].
      eapply rtc_l; [eapply (G_thread _ 0), S_enter; done|].
      eapply rtc_l; [eapply (G_thread _ 0), S_active; done|].
      eapply rtc_l; [eapply (G_thread _ 0), S_flush_ok; done|].
      eapply rtc_l; [eapply (G_thread _ 0), S_finish; done|]. apply rtc_refl.
    - done. }
  destruct H as (g & Hr & Hd).
  assert (Hg : reachable g).
  { exists g0. split; [|done]. split_and!; try done. intros i p. cbn. rewrite lookup_singleton_Some. by intros [_ <-]. }
  exists g. split_and!; [done|done|]. destruct (acknowledged_is_durable g Hg) as [H _]. by apply (H 0%nat 1).
Defined.

(** C18: every append returns, whatever the scheduler does: a run of the goroutines
    takes at most [potential g] steps, and where no goroutine can move, all
    have returned. A sleeping goroutine is never forgotten. *)
Theorem every_append_returns {E : Type} (g : gstate E) :
  reachable g -> g_seq g + potential g + 1 < 18446744073709551616 ->
  (forall n g', nsteps tstep n g g' -> Z.of_nat n <= potential g) /\
  (forall g', rtc tstep g g' -> (forall g'', ~ tstep g' g'') -> all_returned g').
Proof.
  intros Hinv%reachable_inv Hcap. split.
  - intros n g' Hn. apply run_bounded in Hn as (_ & H & _); [|done]. pose proof (potential_nonneg g'). lia.
  - intros g' [n Hn]%rtc_nsteps Hstuck i p Hi. apply run_bounded in Hn as (Hinv' & _ & Hb); [|done].
    pose proof (potential_nonneg g'). destruct (finished p) eqn:Hf; [done|]. exfalso.
    destruct (no_deadlock g' i p Hinv' Hi Hf ltac:(lia)) as (j & g2 & Hs). apply (Hstuck g2). by exists j.
Qed.

Lemma every_append_returns_witness :
  let g0 := mkG (E:=unit) newSyncCoordinator None 0 0 (fun _ => 0%nat) (fun _ => False) {[0%nat := PStart; 1%nat := PStart]} in
  reachable g0 /\ (forall n g', nsteps tstep n g0 g' -> Z.of_nat n <= 54).
Proof.
  intros g0. assert (Hg : reachable g0).
  { exists g0. split; [|apply rtc_refl]. split_and!; try done. intros i p. cbn.
    rewrite lookup_insert_Some, lookup_singleton_Some. by intros [[_ <-]|[_ [_ <-]]]. }
  split; [done|]. destruct (every_append_returns g0 Hg) as [H _]; [by vm_compute|]. exact H.
Defined.
