(* ===== verification/BrokerLog.v ===== *)
(** * The log: [broker/log/log.go]

    A log is its segments and the group-commit coordinator; its methods run on
    the directory and the log. Between goroutines they are serialised by
    [l.mu] except for the flush, which [GroupCommit.v] treats; here each call
    runs to its end. *)

From stdpp Require Import sorting.
From S2P Require Import Prelude Decimal Bytes Record LogSpec FileSys Index Segment Recovery GroupCommit.

#[local] Opaque segment_header frame PutUint32 PutUint64.

(** ** Data *)

Definition DefaultMaxSegmentBytes : Z := Z.shiftl 64 20.

Abbreviation SyncPolicy := Z (only parsing).

Definition SyncNever : SyncPolicy := 0.

Definition SyncAlways : SyncPolicy := 1.

Definition SyncEveryN : SyncPolicy := 2.

Definition SyncGroup : SyncPolicy := 3.

Definition SyncPolicy_Durable (p : SyncPolicy) : bool := (p =? SyncAlways) || (p =? SyncGroup).

Definition SyncPolicy_String (p : SyncPolicy) : string :=
  if p =? SyncNever then "SyncNever"
  else if p =? SyncAlways then "SyncAlways"
  else if p =? SyncEveryN then "SyncEveryN"
  else if p =? SyncGroup then "SyncGroup"
  else "unknown sync policy".

Record Options : Type := mkOptions {
  op_MaxSegmentBytes : Z;
  op_Sync : SyncPolicy;
  op_SyncEveryNRecords : Z
}.

Definition DefaultSyncEveryNRecords : Z := 100.

Record Log : Type := mkLog {
  lg_opts : Options;
  lg_segments : list segment;
  lg_sinceSync : Z;
  lg_seq : Z;
  lg_syncer : syncCoordinator log_err
}.

(** ** strings and strconv *)

Fixpoint HasSuffix (s suffix : string) : bool :=
  if decide (s = suffix) then true
  else match s with
       | EmptyString => false
       | String _ r => HasSuffix r suffix
       end.

(** [strconv.ParseUint s 10 64] *)
Definition ParseUint (s : string) : res log_err Z :=
  if bool_decide (s = ""%string) || negb (str_all is_digit s) then Err ErrBadName
  else if dec_value s <? 18446744073709551616 then Ok (dec_value s)
  else Err ErrBadName.

(** ** Opening *)

Fixpoint segment_offsets (names : list string) : res log_err (list Z) :=
  match names with
  | [] => Ok []
  | name :: names =>
      if negb (HasSuffix name ".log") then segment_offsets names
      else
        base ← ParseUint (TrimSuffix name ".log");
        offsets ← segment_offsets names;
        mret (base :: offsets)
  end.

Definition listSegmentOffsets : ST World log_err (list Z) :=
  names ← ReadDir;
  offsets ← st_lift (segment_offsets names);
  mret (merge_sort Z.le offsets).

(** The loop over the base offsets; on an error the segments opened so far are
    returned too, for [Close]. *)
Fixpoint open_segments (offsets : list Z) (opened : list segment) (w : World)
    : res log_err (list segment) * list segment * World :=
  match offsets with
  | [] => (Ok opened, opened, w)
  | base :: offsets =>
      match openSegment (segmentName base) w with
      | (Err e, w) => (Err e, opened, w)
      | (Ok s, w) => open_segments offsets (opened ++ [s]) w
      end
  end.

(** [Close] goes on after an error and reports the first. *)
Fixpoint close_segments (ss : list segment) (firstErr : option log_err) (w : World) : option log_err * World :=
  match ss with
  | [] => (firstErr, w)
  | s :: ss =>
      let '(r, w) := segment_close s w in
      close_segments ss (match r, firstErr with Err e, None => Some e | _, _ => firstErr end) w
  end.

Definition Log_Close : ST (World * Log) log_err unit := fun '(w, l) =>
  let '(firstErr, w) := close_segments (lg_segments l) None w in
  let l := mkLog (lg_opts l) [] (lg_sinceSync l) (lg_seq l) (lg_syncer l) in
  (match firstErr with Some e => Err e | None => Ok tt end, (w, l)).

Definition with_defaults (opts : Options) : Options :=
  mkOptions
    (if op_MaxSegmentBytes opts <=? 0 then DefaultMaxSegmentBytes else op_MaxSegmentBytes opts)
    (op_Sync opts)
    (if op_SyncEveryNRecords opts <=? 0 then DefaultSyncEveryNRecords else op_SyncEveryNRecords opts).

Definition Open (opts : Options) : ST World log_err Log := fun w =>
  let opts := with_defaults opts in
  match (MkdirAll ≫= fun _ => listSegmentOffsets) w with
  | (Err e, w) => (Err e, w)
  | (Ok baseOffsets, w) =>
      match open_segments baseOffsets [] w with
      | (Err e, opened, w) =>
          (Err e, (Log_Close (w, mkLog opts opened 0 0 newSyncCoordinator)).2.1)
      | (Ok [], _, w) =>
          match createSegment 0 w with
          | (Err e, w) => (Err e, w)
          | (Ok s, w) => (Ok (mkLog opts [s] 0 0 newSyncCoordinator), w)
          end
      | (Ok ss, _, w) => (Ok (mkLog opts ss 0 0 newSyncCoordinator), w)
      end
  end.

Definition OpenDurable (opts : Options) : ST World log_err Log :=
  if negb (SyncPolicy_Durable (op_Sync opts)) then st_fail ErrNotDurable else Open opts.

(** ** Operations *)

Definition set_segments (l : Log) (ss : list segment) : Log :=
  mkLog (lg_opts l) ss (lg_sinceSync l) (lg_seq l) (lg_syncer l).

Definition set_syncer (l : Log) (c : syncCoordinator log_err) : Log :=
  mkLog (lg_opts l) (lg_segments l) (lg_sinceSync l) (lg_seq l) c.

Definition syncActive (l : Log) : ST World log_err unit :=
  match last (lg_segments l) with
  | None => mret tt
  | Some active => segment_sync active
  end.

(** Rolling flushes the outgoing segment first, unless nothing ever is. *)
Definition roll_sync (active : segment) : ST (World * Log) log_err unit := fun '(w, l) =>
  if negb (op_Sync (lg_opts l) =? SyncNever) then
    match segment_sync active w with
    | (Err e, w) => (Err e, (w, l))
    | (Ok _, w) => (Ok tt, (w, set_syncer l (markSynced (lg_seq l) (lg_syncer l))))
    end
  else (Ok tt, (w, l)).

(** The first part of [Append]: a full active segment is flushed (unless the
    policy is [SyncNever]) and a new one started. *)
Definition roll_if_full (payload : list byte) (active : segment) : ST (World * Log) log_err unit := fun '(w, l) =>
  let recordSize := recordHeaderSize + blen payload in
  if (sg_baseOffset active <? sg_nextOffset active) && (op_MaxSegmentBytes (lg_opts l) <? sg_size active + recordSize) then
    match roll_sync active (w, l) with
    | (Err e, wl) => (Err e, wl)
    | (Ok _, (w, l)) =>
        match createSegment (sg_nextOffset active) w with
        | (Err e, w) => (Err e, (w, l))
        | (Ok next, w) => (Ok tt, (w, set_segments l (lg_segments l ++ [next])))
        end
    end
  else (Ok tt, (w, l)).

(** The active segment's [append]; the segment is updated in place. *)
Definition append_active (payload : list byte) : ST (World * Log) log_err Z := fun '(w, l) =>
  match last (lg_segments l) with
  | None => (Err ErrPanic, (w, l))
  | Some active =>
      let '(r, (w, active)) := segment_append payload (w, active) in
      (r, (w, set_segments l (removelast (lg_segments l) ++ [active])))
  end.

(** The last part of [Append], by policy. *)
Definition sync_after_append (seq sinceSync : Z) : ST (World * Log) log_err unit := fun '(w, l) =>
  let sync_now := let '(r, w) := syncActive l w in (r, (w, l)) in
  if op_Sync (lg_opts l) =? SyncAlways then sync_now
  else if op_Sync (lg_opts l) =? SyncEveryN then
    if op_SyncEveryNRecords (lg_opts l) <=? sinceSync then sync_now else (Ok tt, (w, l))
  else if op_Sync (lg_opts l) =? SyncGroup then
    let doSync w := let '(r, w) := syncActive l w in (match r with Ok _ => None | Err e => Some e end, w) in
    match waitFor seq doSync (lg_syncer l) w with
    | (None, c, w) => (Err ErrStuck, (w, set_syncer l c))
    | (Some (Some e), c, w) => (Err e, (w, set_syncer l c))
    | (Some None, c, w) => (Ok tt, (w, set_syncer l c))
    end
  else (Ok tt, (w, l)).

Definition Append (payload : list byte) : ST (World * Log) log_err Z := fun '(w, l) =>
  match last (lg_segments l) with
  | None => (Err ErrPanic, (w, l))
  | Some active =>
      match roll_if_full payload active (w, l) with
      | (Err e, wl) => (Err e, wl)
      | (Ok _, wl) =>
          match append_active payload wl with
          | (Err e, wl) => (Err e, wl)
          | (Ok offset, (w, l)) =>
              let seq := uint64 (lg_seq l + 1) in
              let sinceSync := lg_sinceSync l + 1 in
              let reset := (op_Sync (lg_opts l) =? SyncEveryN) && (op_SyncEveryNRecords (lg_opts l) <=? sinceSync) in
              let l := mkLog (lg_opts l) (lg_segments l) (if reset then 0 else sinceSync) seq (lg_syncer l) in
              match sync_after_append seq sinceSync (w, l) with
              | (Err e, wl) => (Err e, wl)
              | (Ok _, wl) => (Ok offset, wl)
              end
          end
      end
  end.

Definition Read (l : Log) (offset : Z) : ST World log_err (list byte) :=
  let i := sort_Search (length (lg_segments l)) (fun i =>
    match lg_segments l !! i with Some s => offset <? sg_baseOffset s | None => false end) in
  if (i =? 0)%nat then st_fail ErrOffsetOutOfRange
  else match lg_segments l !! (i - 1)%nat with
       | Some s => segment_read s offset
       | None => st_fail ErrPanic
       end.

Definition NextOffset (l : Log) : res log_err Z :=
  match last (lg_segments l) with
  | Some active => Ok (sg_nextOffset active)
  | None => Err ErrPanic
  end.

Fixpoint sync_segments (ss : list segment) : ST World log_err unit :=
  match ss with
  | [] => mret tt
  | s :: ss => segment_sync s ≫= fun _ => sync_segments ss
  end.

Definition Log_Sync (l : Log) : ST World log_err unit := sync_segments (lg_segments l).

Definition SyncCount (l : Log) : Z := syncCount (lg_syncer l).

(** ** Specification: the list of records a log holds *)

(** The segments [ss] hold the records [rs], numbered from [b]; later segments
    have larger base offsets, so no two share a file. *)
Inductive log_chain (w : World) (b : Z) : list segment -> list (list byte) -> Prop :=
| chain_nil : log_chain w b [] []
| chain_snoc ss s rs qs :
    log_chain w b ss rs -> seg_inv w s qs -> sg_baseOffset s = b + Z.of_nat (length rs) ->
    Forall (fun x => sg_baseOffset x < sg_baseOffset s) ss ->
    log_chain w b (ss ++ [s]) (rs ++ qs).

(** An index file never comes before its segment file. *)
Definition index_follows (w : World) : Prop :=
  forall b, fs w !! segmentName b = None -> fs w !! indexName b = None.

Record log_inv (w : World) (l : Log) (b : Z) (rs : list (list byte)) : Prop := {
  li_chain : log_chain w b (lg_segments l) rs;
  li_open : lg_segments l <> [];
  li_idle : sc_syncing (lg_syncer l) = false;
  li_index : index_follows w
}.

(** ** Lemmas on names *)

Definition is_u64 (b : Z) : Prop := 0 <= b < 18446744073709551616.

Lemma pad20 b : is_u64 b -> str_all is_digit (fmt_pad 20 b) = true /\ dec_value (fmt_pad 20 b) = b /\
  String.length (fmt_pad 20 b) = 20%nat.
Proof. intros H. unfold is_u64 in H. apply fmt_pad_spec; lia. Qed.

Lemma segmentName_inj a b : is_u64 a -> is_u64 b -> segmentName a = segmentName b -> a = b.
Proof.
  intros Ha Hb H. destruct (pad20 a Ha) as (_ & A2 & _), (pad20 b Hb) as (_ & B2 & _).
  apply str_app_inj_r in H. congruence.
Qed.

Lemma indexName_segment a b : indexName a = indexName b -> segmentName a = segmentName b.
Proof. intros H. apply str_app_inj_r in H. unfold segmentName. by rewrite H. Qed.

(** A segment file is never an index file: they end differently. *)
Lemma suffix_apart (a b : string) : a +:+ ".log" <> b +:+ indexFileSuffix.
Proof.
  assert (Hlast : forall (x : string) c, exists y, x +:+ String c "" = y /\ forall z d, x +:+ String c "" = z +:+ String d "" -> c = d).
  { intros x c. eexists. split; [done|]. revert x. induction x as [|e x IH]; intros [|f z] d H.
    - by injection H.
    - change (String c "" = String f (z +:+ String d "")) in H. injection H as _ H. by destruct z.
    - change (String e (x +:+ String c "") = String d "") in H. injection H as _ H. by destruct x.
    - change (String e (x +:+ String c "") = String f (z +:+ String d "")) in H. injection H as _ H. by apply (IH z d). }
  intros H.
  assert (Hassoc : forall x y z : string, x +:+ (y +:+ z) = (x +:+ y) +:+ z).
  { induction x as [|c x IH]; [done|]. intros y z. change (String c (x +:+ (y +:+ z)) = String c ((x +:+ y) +:+ z)). by rewrite IH. }
  change ".log"%string with (".lo" +:+ "g") in H. change indexFileSuffix with (".inde" +:+ "x") in H.
  rewrite !Hassoc in H. destruct (Hlast (a +:+ ".lo") "g"%char) as (y & _ & Hl). by apply Hl in H.
Qed.

Lemma names_apart a b : segmentName a <> indexName b.
Proof. apply suffix_apart. Qed.

(** ** Framing *)

Lemma seg_inv_same w w' s rs :
  (forall n, n ∈ seg_files s -> fs w' !! n = fs w !! n) -> seg_inv w s rs -> seg_inv w' s rs.
Proof.
  intros H [H1 H2 H3 H4 H5 H6 H7 H8 H9 H10 H11]. split; try done.
  - rewrite H by (by left). done.
  - eapply idx_inv_fs; [|done]. apply H. right. by left.
Qed.

Lemma seg_u64 w s rs : seg_inv w s rs -> is_u64 (sg_baseOffset s).
Proof. intros []. unfold is_u64. lia. Qed.

(** Segments with different base offsets share no file. *)
Lemma seg_files_disjoint w s rs w' x qs n :
  seg_inv w s rs -> seg_inv w' x qs -> sg_baseOffset s <> sg_baseOffset x -> n ∈ seg_files s -> n ∉ seg_files x.
Proof.
  intros Hs Hx Hne Hn Hn'. pose proof (seg_u64 _ _ _ Hs). pose proof (seg_u64 _ _ _ Hx). apply Hne.
  destruct Hs as [F1 F2 _ _ _ _ _ _ _ _ _], Hx as [G1 G2 _ _ _ _ _ _ _ _ _].
  unfold seg_files in *. rewrite F1, F2 in Hn. rewrite G1, G2 in Hn'.
  apply elem_of_cons in Hn as [->|Hn]; [|apply list_elem_of_singleton in Hn as ->];
  (apply elem_of_cons in Hn' as [E|Hn']; [|apply list_elem_of_singleton in Hn' as E]).
  - by apply segmentName_inj.
  - by apply names_apart in E.
  - symmetry in E. by apply names_apart in E.
  - apply segmentName_inj; [done|done|]. by apply indexName_segment.
Qed.

Lemma chain_frame w w' b ss rs :
  log_chain w b ss rs -> (forall s n, s ∈ ss -> n ∈ seg_files s -> fs w' !! n = fs w !! n) -> log_chain w' b ss rs.
Proof.
  induction 1 as [|ss s rs qs Hc IH Hs Hb Hlt]; intros H; [constructor|]. constructor; [|by eapply seg_inv_same; [|done]; intros n; apply H; apply elem_of_app; right; left|done|done].
  apply IH. intros x n Hx. apply H. apply elem_of_app. by left.
Qed.

Lemma chain_seg w b ss rs s : log_chain w b ss rs -> s ∈ ss -> exists qs, seg_inv w s qs.
Proof.
  induction 1 as [|ss x rs qs Hc IH Hs Hb Hlt]; [by intros ?%elem_of_nil|].
  intros [Hin| ->%list_elem_of_singleton]%elem_of_app; eauto.
Qed.

Lemma chain_last_inv w b ss s rs :
  log_chain w b (ss ++ [s]) rs ->
  exists rs0 qs, rs = rs0 ++ qs /\ log_chain w b ss rs0 /\ seg_inv w s qs /\
    sg_baseOffset s = b + Z.of_nat (length rs0) /\ Forall (fun x => sg_baseOffset x < sg_baseOffset s) ss.
Proof.
  intros H. remember (ss ++ [s]) as all eqn:E. destruct H as [|ss1 s1 rs1 qs Hc Hs Hb Hlt]; [by destruct ss|].
  apply app_inj_tail in E as [<- <-]. eauto 10.
Qed.

(** The log's view of a step that only touches the active segment's files. *)
Lemma chain_step w w' b ss s rs0 qs s' qs' :
  log_chain w b ss rs0 -> seg_inv w s qs -> sg_baseOffset s = b + Z.of_nat (length rs0) ->
  Forall (fun x => sg_baseOffset x < sg_baseOffset s) ss ->
  fs_same_except (seg_files s) w w' -> seg_inv w' s' qs' -> sg_baseOffset s' = sg_baseOffset s ->
  log_chain w' b (ss ++ [s']) (rs0 ++ qs').
Proof.
  intros Hc Hs Hb Hlt Hsame Hs' Hbase. constructor; [|done|congruence|by rewrite Hbase].
  eapply chain_frame; [done|]. intros x n Hx Hn. destruct (chain_seg _ _ _ _ _ Hc Hx) as [xs Hxs].
  apply Hsame. eapply seg_files_disjoint; [exact Hxs|exact Hs| |done]. rewrite Forall_forall in Hlt. specialize (Hlt x Hx). lia.
Qed.

Lemma index_follows_step w w' s qs :
  index_follows w -> fs_same_except (seg_files s) w w' -> seg_inv w' s qs -> index_follows w'.
Proof.
  intros Hi Hsame Hs b Hnone. pose proof Hs as [F1 F2 _ _ _ _ (junk & Hc) _ _ _ _].
  assert (Hne : segmentName b <> segmentName (sg_baseOffset s)) by (intros E; rewrite E, <- F1 in Hnone; congruence).
  assert (Hout : segmentName b ∉ seg_files s).
  { unfold seg_files. rewrite F1, F2. intros [E|[E|[]%elem_of_nil]%elem_of_cons]%elem_of_cons; [done|by apply names_apart in E]. }
  rewrite Hsame in Hnone by done. apply Hi in Hnone. rewrite Hsame; [done|].
  unfold seg_files. rewrite F1, F2. intros [E|[E|[]%elem_of_nil]%elem_of_cons]%elem_of_cons.
  - symmetry in E. by apply names_apart in E.
  - by apply indexName_segment in E.
Qed.

Lemma log_inv_fs w w' l l' b rs :
  fs w' = fs w -> lg_segments l' = lg_segments l -> sc_syncing (lg_syncer l') = false ->
  log_inv w l b rs -> log_inv w' l' b rs.
Proof.
  intros Hfs Hss Hsy [H1 H2 _ H4]. split; [|by rewrite Hss|done|].
  - rewrite Hss. eapply chain_frame; [done|]. by rewrite Hfs.
  - unfold index_follows. by rewrite Hfs.
Qed.

(** ** Append *)

Lemma file_Sync_spec name w r w' : file_Sync name w = (r, w') ->
  fs w' = fs w /\ (faults w = [] -> faults w' = [] /\ r = Ok tt) /\
  (is_ok r = true -> is_Some (fs w !! name) -> durable w' !! name = fs w !! name) /\
  (forall n, n <> name -> durable w' !! n = durable w !! n).
Proof.
  unfold file_Sync. destruct (next_fault w) as [f w1] eqn:N. pose proof (next_fault_durable w) as D. rewrite N in D. cbn in D.
  apply next_fault_eq in N as [E F]. rewrite <- E, <- D.
  destruct f; intros [= <- <-]; cbn [is_ok]; rewrite ?flush_fs, ?flush_faults.
  - split_and!; [done|by intros [_ ?]%F| |].
    + intros _ [c Hc]. unfold flush. rewrite Hc. cbn. by rewrite lookup_insert_eq.
    + intros n Hn. unfold flush. destruct (fs w1 !! name); [|done]. cbn. by rewrite lookup_insert_ne.
  - split_and!; [done|by intros [? _]%F|done|done].
Qed.

Lemma segment_sync_spec s w r w' : segment_sync s w = (r, w') ->
  fs w' = fs w /\ (faults w = [] -> faults w' = [] /\ r = Ok tt).
Proof.
  unfold segment_sync, mbind, ST_bind, index_sync. intros H.
  destruct (file_Sync (sg_file s) w) as [[[]|e] w1] eqn:S1; apply file_Sync_spec in S1 as (E1 & F1 & _).
  - apply file_Sync_spec in H as (E2 & F2 & _). split; [congruence|]. intros Hf. destruct (F1 Hf) as [Hf1 _]. by apply F2.
  - injection H as <- <-. split; [done|]. by intros [_ ?]%F1.
Qed.

(** No file stands where the next segments will be created. *)
Definition log_fresh (w : World) (l : Log) : Prop :=
  forall s x, last (lg_segments l) = Some s -> sg_nextOffset s <= x < 18446744073709551616 ->
    sg_nextOffset s <> sg_baseOffset s \/ x <> sg_nextOffset s -> fs w !! segmentName x = None.

Lemma createSegment_follows w c r w' : is_u64 c -> index_follows w -> createSegment c w = (r, w') -> index_follows w'.
Proof.
  intros Hc Hi H. pose proof (createSegment_spec w c r w' Hc (Hi c) H) as (Hsame & Hnone & _ & _).
  intros x Hx. destruct (decide (segmentName x = segmentName c)) as [E|Hne].
  - rewrite E in Hx. specialize (Hnone Hx). rewrite Hnone in *. apply Hi. by rewrite E.
  - assert (Hout : segmentName x ∉ [segmentName c; indexName c]).
    { intros [E|[E|[]%elem_of_nil]%elem_of_cons]%elem_of_cons; [done|by apply names_apart in E]. }
    rewrite Hsame in Hx by done. rewrite Hsame; [by apply Hi|].
    intros [E|[E|[]%elem_of_nil]%elem_of_cons]%elem_of_cons; [symmetry in E; by apply names_apart in E|by apply indexName_segment in E].
Qed.

(** Starting a segment after the active one. *)
Lemma create_next w b ss rs c r w' :
  log_chain w b ss rs -> index_follows w -> is_u64 c -> c = b + Z.of_nat (length rs) ->
  Forall (fun x => sg_baseOffset x < c) ss -> createSegment c w = (r, w') ->
  index_follows w' /\ log_chain w' b ss rs /\
  match r with Ok s => sg_baseOffset s = c /\ seg_inv w' s [] /\ log_chain w' b (ss ++ [s]) rs | Err _ => True end.
Proof.
  intros Hch Hi Hc Hcb Hlt H. pose proof (createSegment_follows _ _ _ _ Hc Hi H) as Hi'.
  pose proof (createSegment_spec w c r w' Hc (Hi c) H) as (Hsame & _ & _ & Hr).
  assert (Hch' : log_chain w' b ss rs).
  { eapply chain_frame; [done|]. intros s n Hs Hn. apply Hsame. destruct (chain_seg _ _ _ _ _ Hch Hs) as [qs Hq].
    rewrite Forall_forall in Hlt. specialize (Hlt s Hs). pose proof (seg_u64 _ _ _ Hq) as Hu.
    destruct Hq as [F1 F2 _ _ _ _ _ _ _ _ _]. unfold seg_files in Hn. rewrite F1, F2 in Hn.
    apply elem_of_cons in Hn as [->|Hn]; [|apply list_elem_of_singleton in Hn as ->];
    intros [E|[E|[]%elem_of_nil]%elem_of_cons]%elem_of_cons.
    - apply segmentName_inj in E; [lia|done|done].
    - by apply names_apart in E.
    - symmetry in E. by apply names_apart in E.
    - apply indexName_segment, segmentName_inj in E; [lia|done|done]. }
  split_and!; [done|done|]. destruct r as [s|]; [|done]. destruct Hr as (_ & Hb & Hs & _).
  split_and!; [done|done|]. rewrite <- (app_nil_r rs). constructor; [done|done|congruence|by rewrite Hb].
Qed.

Lemma log_last w l b rs active :
  log_inv w l b rs -> last (lg_segments l) = Some active ->
  exists ss rs0 qs, lg_segments l = ss ++ [active] /\ rs = rs0 ++ qs /\ log_chain w b ss rs0 /\ seg_inv w active qs /\
    sg_baseOffset active = b + Z.of_nat (length rs0) /\ Forall (fun x => sg_baseOffset x < sg_baseOffset active) ss /\
    sg_nextOffset active = b + Z.of_nat (length rs).
Proof.
  intros [Hc _ _ _] [ss Hss]%last_Some. rewrite Hss in Hc.
  destruct (chain_last_inv _ _ _ _ _ Hc) as (rs0 & qs & -> & H1 & H2 & H3 & H4). exists ss, rs0, qs.
  split_and!; try done. rewrite (si_next _ _ _ H2), length_app. lia.
Qed.

Lemma roll_sync_spec active w l r w' l' : sc_syncing (lg_syncer l) = false -> roll_sync active (w, l) = (r, (w', l')) ->
  fs w' = fs w /\ lg_segments l' = lg_segments l /\ sc_syncing (lg_syncer l') = false /\ lg_opts l' = lg_opts l /\ lg_seq l' = lg_seq l /\
  lg_sinceSync l' = lg_sinceSync l /\ sc_err (lg_syncer l') = sc_err (lg_syncer l) /\ (faults w = [] -> faults w' = [] /\ is_ok r = true).
Proof.
  intros Hidle. unfold roll_sync. destruct (negb _); [|intros [= <- <- <-]; by split_and!].
  destruct (segment_sync active w) as [r1 w1] eqn:Hs. apply segment_sync_spec in Hs as [Hfs Hno].
  destruct r1 as [[]|e]; intros [= <- <- <-]; split_and!; try done; intros H0; by destruct (Hno H0).
Qed.

(** A log that rolls has every segment below the next offset. *)
Lemma roll_bases w l b rs active : log_inv w l b rs -> last (lg_segments l) = Some active ->
  sg_baseOffset active < sg_nextOffset active -> Forall (fun x => sg_baseOffset x < b + Z.of_nat (length rs)) (lg_segments l).
Proof.
  intros Hinv Hlast Hne. destruct (log_last _ _ _ _ _ Hinv Hlast) as (ss & rs0 & qs & -> & _ & _ & _ & _ & Hlt & Hnext).
  apply Forall_app. split; [|constructor; [lia|constructor]]. eapply Forall_impl; [exact Hlt|]. cbn. intros x Hx. lia.
Qed.

Lemma roll_spec w l b rs active p r w' l' :
  log_inv w l b rs -> last (lg_segments l) = Some active -> is_u64 (b + Z.of_nat (length rs)) ->
  roll_if_full p active (w, l) = (r, (w', l')) ->
  log_inv w' l' b rs /\ lg_opts l' = lg_opts l /\ lg_seq l' = lg_seq l /\ lg_sinceSync l' = lg_sinceSync l /\
  sc_err (lg_syncer l') = sc_err (lg_syncer l) /\
  (faults w = [] -> log_fresh w l -> faults w' = [] /\ is_ok r = true /\ log_fresh w' l') /\
  (is_ok r = true -> exists a, last (lg_segments l') = Some a /\
     (sg_size a = segmentHeaderSize \/ sg_size a + (8 + blen p) <= op_MaxSegmentBytes (lg_opts l))).
Proof.
  intros Hinv Hlast Hu H. destruct (log_last _ _ _ _ _ Hinv Hlast) as (ss & rs0 & qs & Hss & Hrs & Hch & Hact & Hbase & Hlt & Hnext).
  unfold roll_if_full in H. change recordHeaderSize with 8 in H.
  destruct (_ && _) eqn:Hfull.
  2:{ injection H as <- <- <-. split_and!; try done. intros _. exists active. split; [done|].
      pose proof Hact as [_ _ _ Hn _ _ _ Hsz _ _ _]. destruct qs; [left|right].
      - rewrite Hsz. done.
      - simpl in Hn. lia. }
  destruct (roll_sync active (w, l)) as [r1 [w1 l1]] eqn:Hpre.
  apply roll_sync_spec in Hpre as (Hfs1 & Hseg1 & Hidle1 & Hop1 & Hsq1 & Hss1 & Her1 & Hno1); [|apply Hinv].
  pose proof (log_inv_fs w w1 l l1 b rs Hfs1 Hseg1 Hidle1 Hinv) as Hinv1.
  destruct r1 as [[]|e].
  2:{ injection H as <- <- <-. split_and!; try done. intros H0. by destruct (Hno1 H0). }
  destruct (createSegment (sg_nextOffset active) w1) as [r2 w2] eqn:Hcr.
  pose proof Hinv1 as [Hch1 _ _ Hix1]. rewrite Hnext in Hcr.
  assert (Hlt1 : Forall (fun x => sg_baseOffset x < b + Z.of_nat (length rs)) (lg_segments l1)) by (rewrite Hseg1; eapply roll_bases; [done..|lia]).
  pose proof (create_next _ _ _ _ _ _ _ Hch1 Hix1 Hu eq_refl Hlt1 Hcr) as (Hix2 & Hch2 & Hr2).
  pose proof (createSegment_spec w1 _ r2 w2 Hu (Hix1 _) Hcr) as (Hsame2 & _ & Hno2 & _).
  assert (Hfree : log_fresh w l -> fs w1 !! segmentName (b + Z.of_nat (length rs)) = None).
  { intros Hfr. rewrite Hfs1, <- Hnext. eapply Hfr; [done|unfold is_u64 in Hu; lia|lia]. }
  assert (Hok2 : faults w = [] -> log_fresh w l -> faults w2 = [] /\ is_ok r2 = true).
  { intros H0 Hfr. destruct (Hno1 H0) as [H1 _]. destruct (Hno2 H1) as [H2 H3]. split; [done|]. by apply H3, Hfree. }
  destruct r2 as [next|e]; injection H as <- <- <-.
  - destruct Hr2 as (Hb2 & Hi2 & Hch3). split_and!; try done.
    + split; cbn; [done|by destruct (lg_segments l1)|done|done].
    + intros H0 Hfr. destruct (Hok2 H0 Hfr). split_and!; [done|done|].
      intros s x Hs Hx Hor. cbn in Hs. rewrite last_snoc in Hs. injection Hs as <-.
      pose proof (si_next _ _ _ Hi2) as Hn2. simpl in Hn2. rewrite Hb2 in Hn2.
      rewrite Hsame2, Hfs1.
      * eapply Hfr; [done|lia|lia].
      * intros [E|[E|[]%elem_of_nil]%elem_of_cons]%elem_of_cons; [|by apply names_apart in E].
        apply segmentName_inj in E; [|unfold is_u64 in *; lia|done]. lia.
    + intros _. exists next. cbn. rewrite last_snoc. split; [done|]. left. by rewrite (si_size _ _ _ Hi2).
  - split_and!; try done.
    + split; try done. apply Hinv1.
    + intros H0 Hfr. by destruct (Hok2 H0 Hfr).
Qed.

Lemma append_active_spec w l b rs p r w' l' :
  log_inv w l b rs -> is_u64 (b + Z.of_nat (length rs) + 1) ->
  append_active p (w, l) = (r, (w', l')) ->
  lg_opts l' = lg_opts l /\ lg_seq l' = lg_seq l /\ lg_sinceSync l' = lg_sinceSync l /\ lg_syncer l' = lg_syncer l /\
  (faults w = [] -> log_fresh w l -> faults w' = [] /\ log_fresh w' l') /\
  (forall a, faults w = [] -> payload_ok p -> last (lg_segments l) = Some a -> sg_size a < 4294967296 -> is_ok r = true) /\
  match r with
  | Ok off => payload_ok p /\ off = b + Z.of_nat (length rs) /\ log_inv w' l' b (rs ++ [p])
  | Err _ => log_inv w' l' b rs
  end.
Proof.
  intros Hinv Hu H. unfold append_active in H.
  destruct (last (lg_segments l)) as [active|] eqn:Hlast.
  2:{ apply last_None in Hlast. by destruct (li_open _ _ _ _ Hinv). }
  destruct (log_last _ _ _ _ _ Hinv Hlast) as (ss & rs0 & qs & Hss & -> & Hch & Hact & Hbase & Hlt & Hnext).
  rewrite Hss, removelast_last in H.
  destruct (segment_append p (w, active)) as [r1 [w1 a1]] eqn:Ha.
  unfold is_u64 in Hu. apply (segment_append_spec w active qs) in Ha as (Hsame & Hfiles & Hb1 & Hno & Hr); [|done|lia].
  injection H as <- <- <-. split_and!; [done..| | |].
  - intros H0 Hfr. split; [by apply Hno|]. intros s x Hs Hx Hor. cbn in Hs. rewrite last_snoc in Hs. injection Hs as <-.
    assert (Hnx : sg_nextOffset active <= sg_nextOffset a1).
    { destruct r1; [destruct Hr as (_ & _ & Hr)|]; rewrite (si_next _ _ _ Hr), (si_next _ _ _ Hact), Hb1, ?length_app; lia. }
    assert (Hb' : sg_baseOffset active <= sg_nextOffset active) by (rewrite (si_next _ _ _ Hact); lia).
    rewrite Hsame.
    + eapply Hfr; [done|lia|]. destruct r1 as [off|e].
      * destruct Hr as (_ & _ & Hr). pose proof (si_next _ _ _ Hr) as N1. pose proof (si_next _ _ _ Hact) as N2.
        rewrite length_app, Hb1 in N1. simpl in N1. right. lia.
      * pose proof (si_next _ _ _ Hr) as N1. pose proof (si_next _ _ _ Hact) as N2. rewrite Hb1 in N1. lia.
    + unfold seg_files. rewrite (si_file _ _ _ Hact), (si_ixfile _ _ _ Hact).
      intros [E|[E|[]%elem_of_nil]%elem_of_cons]%elem_of_cons; [|by apply names_apart in E].
      apply segmentName_inj in E; [|pose proof (si_base _ _ _ Hact); unfold is_u64; lia|by eapply seg_u64].
      destruct r1 as [off|e].
      * destruct Hr as (_ & _ & Hr). pose proof (si_next _ _ _ Hr) as N1. rewrite length_app, Hb1 in N1. simpl in N1. lia.
      * pose proof (si_next _ _ _ Hr) as N1. rewrite Hb1 in N1. lia.
  - intros a H0 Hp [= <-] Hsz. by apply Hno.
  - destruct r1 as [off|e].
    + destruct Hr as (Hp & -> & Hr). split_and!; [done|lia|]. split; cbn.
      * rewrite <- app_assoc. by eapply chain_step.
      * by destruct ss.
      * apply Hinv.
      * eapply index_follows_step; [apply Hinv| |exact Hr]. by rewrite Hfiles.
    + split; cbn.
      * by eapply chain_step.
      * by destruct ss.
      * apply Hinv.
      * eapply index_follows_step; [apply Hinv| |exact Hr]. by rewrite Hfiles.
Qed.

Lemma syncActive_spec l w r w' : syncActive l w = (r, w') ->
  fs w' = fs w /\ (faults w = [] -> faults w' = [] /\ r = Ok tt).
Proof.
  unfold syncActive. destruct (last _); [apply segment_sync_spec|]. intros H. by injection H as <- <-.
Qed.

(** The flush at the end never blocks and changes nothing readers see. *)
Lemma sync_after_spec seq since w l r w' l' :
  sc_syncing (lg_syncer l) = false -> sync_after_append seq since (w, l) = (r, (w', l')) ->
  fs w' = fs w /\ lg_segments l' = lg_segments l /\ lg_opts l' = lg_opts l /\ lg_seq l' = lg_seq l /\
  lg_sinceSync l' = lg_sinceSync l /\ sc_syncing (lg_syncer l') = false /\
  (faults w = [] -> faults w' = [] /\ (sc_err (lg_syncer l) = None -> r = Ok tt /\ sc_err (lg_syncer l') = None)).
Proof.
  intros Hidle H. unfold sync_after_append in H.
  assert (Hnow : forall r w' l', (let '(r, w) := syncActive l w in (r, (w, l))) = (r, (w', l')) ->
    l' = l /\ fs w' = fs w /\ (faults w = [] -> faults w' = [] /\ r = Ok tt)).
  { intros r0 w0 l0 Heq. destruct (syncActive l w) as [r1 w1] eqn:Hs. apply syncActive_spec in Hs as [Hfs Hno].
    by injection Heq as <- <- <-. }
  destruct (op_Sync (lg_opts l) =? SyncAlways).
  { apply Hnow in H as (-> & ? & Hno). split_and!; try done. intros Hf. by destruct (Hno Hf). }
  destruct (op_Sync (lg_opts l) =? SyncEveryN).
  { destruct (_ <=? _); [|by injection H as <- <- <-]. apply Hnow in H as (-> & ? & Hno). split_and!; try done.
    intros Hf. by destruct (Hno Hf). }
  destruct (op_Sync (lg_opts l) =? SyncGroup); [|by injection H as <- <- <-].
  set (doSync := fun w => _) in H.
  assert (Hdo : forall r1 w1, doSync w = (r1, w1) -> fs w1 = fs w /\ (faults w = [] -> faults w1 = [] /\ r1 = None)).
  { intros r1 w1 Heq. unfold doSync in Heq. destruct (syncActive l w) as [r2 w2] eqn:Hs. apply syncActive_spec in Hs as [Hfs Hno].
    injection Heq as <- <-. split; [done|]. intros Hf. by destruct (Hno Hf) as [? ->]. }
  destruct (waitFor_spec seq doSync (lg_syncer l) w Hidle) as (r1 & c1 & w1 & Hw & Hidle1 & Herr & Hcase). rewrite Hw in H.
  assert (Hfs : fs w1 = fs w /\ (faults w = [] -> faults w1 = [] /\ (sc_err (lg_syncer l) = None -> r1 = None))).
  { destruct Hcase as [[-> [[-> _]|(e & -> & He)]]|(Hd & _ & _)].
    - done.
    - split; [done|]. intros Hf. split; [done|]. congruence.
    - destruct (Hdo _ _ Hd) as [? Hno]. split; [done|]. intros Hf. by destruct (Hno Hf). }
  destruct Hfs as [Hfs Hno]. destruct r1 as [e|]; injection H as <- <- <-; split_and!; try done.
  - intros Hf. destruct (Hno Hf) as [? Hn]. split; [done|]. intros He. by specialize (Hn He).
  - intros Hf. destruct (Hno Hf) as [? _]. split; [done|]. intros He. split; [done|]. cbn. by rewrite Herr.
Qed.

Lemma log_inv_touch w l l' b rs :
  lg_segments l' = lg_segments l -> lg_syncer l' = lg_syncer l -> log_inv w l b rs -> log_inv w l' b rs.
Proof. intros H1 H2 Hinv. eapply log_inv_fs; [done|done| |done]. rewrite H2. apply Hinv. Qed.

(** The log is ready to accept the payload. *)
Definition can_append (w : World) (l : Log) (p : list byte) : Prop :=
  faults w = [] /\ log_fresh w l /\ payload_ok p /\ op_MaxSegmentBytes (lg_opts l) <= 4294967296 /\
  sc_err (lg_syncer l) = None.

Lemma Append_spec w l b rs p r w' l' :
  log_inv w l b rs -> 0 <= b -> b + Z.of_nat (length rs) + 1 < 18446744073709551616 ->
  Append p (w, l) = (r, (w', l')) ->
  lg_opts l' = lg_opts l /\
  match r with
  | Ok off => off = b + Z.of_nat (length rs) /\ payload_ok p /\ log_inv w' l' b (rs ++ [p])
  | Err _ => log_inv w' l' b rs \/ log_inv w' l' b (rs ++ [p])
  end /\
  (can_append w l p -> is_ok r = true /\ faults w' = [] /\ log_fresh w' l' /\ sc_err (lg_syncer l') = None).
Proof.
  intros Hinv Hb Hu H. unfold Append in H.
  destruct (last (lg_segments l)) as [active|] eqn:Hlast.
  2:{ apply last_None in Hlast. by destruct (li_open _ _ _ _ Hinv). }
  destruct (roll_if_full p active (w, l)) as [r1 [w1 l1]] eqn:H1.
  apply (roll_spec w l b rs) in H1 as (Hi1 & Ho1 & Hq1 & Hs1 & He1 & Hno1 & Hok1); [|done|done|unfold is_u64; lia].
  destruct r1 as [[]|e].
  2:{ injection H as <- <- <-. split_and!; [done|by left|]. intros (Hf & Hfr & _). by destruct (Hno1 Hf Hfr) as (_ & ? & _). }
  destruct (append_active p (w1, l1)) as [r2 [w2 l2]] eqn:H2.
  apply (append_active_spec w1 l1 b rs) in H2 as (Ho2 & Hq2 & Hs2 & Hy2 & Hno2 & Hok2 & Hr2); [|done|unfold is_u64; lia].
  destruct (Hok1 eq_refl) as (a & Ha & Hasz).
  assert (Hgood : can_append w l p -> is_ok r2 = true /\ faults w2 = [] /\ log_fresh w2 l2 /\ sc_err (lg_syncer l2) = None).
  { intros (Hf & Hfr & Hp & Hmax & Herr). destruct (Hno1 Hf Hfr) as (Hf1 & _ & Hfr1). destruct (Hno2 Hf1 Hfr1) as [Hf2 Hfr2].
    split_and!; [|done|done|congruence]. apply (Hok2 a); [done|done|done|]. change segmentHeaderSize with 16 in Hasz.
    pose proof (blen_nonneg p). lia. }
  destruct r2 as [off|e].
  2:{ injection H as <- <- <-. split_and!; [congruence|by left|]. intros Hc. by destruct (Hgood Hc). }
  destruct Hr2 as (Hp & -> & Hi2).
  set (l3 := mkLog _ _ _ _ _) in H.
  destruct (sync_after_append _ _ (w2, l3)) as [r4 [w4 l4]] eqn:H4.
  assert (Hi3 : log_inv w2 l3 b (rs ++ [p])) by (eapply log_inv_touch; [| |exact Hi2]; done).
  apply sync_after_spec in H4 as (Hfs4 & Hsg4 & Ho4 & _ & _ & Hid4 & Hno4); [|apply Hi3].
  assert (Hi4 : log_inv w4 l4 b (rs ++ [p])) by (eapply log_inv_fs; [done|exact Hsg4|done|exact Hi3]).
  assert (Hgood4 : can_append w l p -> r4 = Ok tt /\ faults w4 = [] /\ log_fresh w4 l4 /\ sc_err (lg_syncer l4) = None).
  { intros Hc. destruct (Hgood Hc) as (_ & Hf2 & Hfr2 & He2). destruct (Hno4 Hf2) as [Hf4 Hr4].
    destruct (Hr4 He2) as [-> He4]. split_and!; try done. intros s x Hs. rewrite Hsg4 in Hs. rewrite Hfs4. by apply Hfr2. }
  assert (Hopt : lg_opts l4 = lg_opts l) by (rewrite Ho4; cbn; congruence).
  destruct r4 as [[]|e]; injection H as <- <- <-.
  - split_and!; try done. intros Hc. by destruct (Hgood4 Hc).
  - split_and!; [done|by right|]. intros Hc. by destruct (Hgood4 Hc).
Qed.

(** ** Read *)

Lemma chain_find w b ss rs off k s i p :
  log_chain w b ss rs -> ss !! k = Some s -> sg_baseOffset s <= off ->
  (forall j x, (k < j)%nat -> ss !! j = Some x -> off < sg_baseOffset x) ->
  off = b + Z.of_nat i -> rs !! i = Some p ->
  exists qs j, seg_inv w s qs /\ off = sg_baseOffset s + Z.of_nat j /\ qs !! j = Some p.
Proof.
  intros Hc. revert k s i p. induction Hc as [|ss s rs qs Hc IH Hs Hb Hlt]; intros k x i p Hk Hle Hlater Hoff Hp; [done|].
  destruct (decide (k < length ss)%nat) as [Hkl|Hkl].
  - rewrite lookup_app_l in Hk by done.
    assert (Hlt1 : off < sg_baseOffset s) by (apply (Hlater (length ss)); [done|by rewrite lookup_app_r, Nat.sub_diag by lia]).
    apply (IH k x i p); [done|done| |done|].
    + intros j y Hj Hy. apply (Hlater j); [done|]. by apply lookup_app_l_Some.
    + rewrite lookup_app_l in Hp by lia. done.
  - pose proof (lookup_lt_Some _ _ _ Hk) as Hkk. rewrite length_app in Hkk. simpl in Hkk.
    rewrite lookup_app_r in Hk by lia. replace (k - length ss)%nat with 0%nat in Hk by lia. injection Hk as <-.
    exists qs, (i - length rs)%nat. rewrite lookup_app_r in Hp by lia. split_and!; [done|lia|done].
Qed.

Lemma chain_sorted w b ss rs i j x y :
  log_chain w b ss rs -> (i < j)%nat -> ss !! i = Some x -> ss !! j = Some y -> sg_baseOffset x < sg_baseOffset y.
Proof.
  intros Hc. revert i j x y. induction Hc as [|ss s rs qs Hc IH Hs Hb Hlt]; intros i j x y Hij Hx Hy; [done|].
  destruct (decide (j < length ss)%nat).
  - rewrite lookup_app_l in Hx, Hy by lia. by apply (IH i j).
  - pose proof (lookup_lt_Some _ _ _ Hy) as Hj. rewrite length_app in Hj. simpl in Hj.
    rewrite lookup_app_r in Hy by lia. replace (j - length ss)%nat with 0%nat in Hy by lia. injection Hy as <-.
    rewrite lookup_app_l in Hx by lia. rewrite Forall_forall in Hlt. apply Hlt. apply list_elem_of_lookup. eauto.
Qed.

Lemma chain_first w b ss rs s : log_chain w b ss rs -> ss !! 0%nat = Some s -> sg_baseOffset s = b.
Proof.
  induction 1 as [|ss x rs qs Hc IH Hs Hb Hlt]; intros H0; [done|]. destruct ss as [|y ss]; [|by apply IH].
  injection H0 as <-. inversion Hc as [|ss1 ? ? ? ? ? ? ? E]; [subst; simpl in Hb; lia|by destruct ss1].
Qed.

(** The segment [Read] looks in: the last one that starts at or before [off]. *)
Lemma Read_search w b l rs off :
  log_chain w b (lg_segments l) rs ->
  let r := sort_Search (length (lg_segments l)) (fun i =>
    match lg_segments l !! i with Some s => off <? sg_baseOffset s | None => false end) in
  (r <= length (lg_segments l))%nat /\
  (forall i s, (i < r)%nat -> lg_segments l !! i = Some s -> sg_baseOffset s <= off) /\
  (forall i s, (r <= i)%nat -> lg_segments l !! i = Some s -> off < sg_baseOffset s).
Proof.
  intros Hc. set (ss := lg_segments l) in *. set (f := fun i => match ss !! i with Some s => off <? sg_baseOffset s | None => false end).
  assert (Hmono : forall a b, (a <= b < length ss)%nat -> f a = true -> f b = true).
  { intros i j Hij Hi. unfold f in *. destruct (ss !! i) as [x|] eqn:Ex; [|done].
    destruct (lookup_lt_is_Some_2 ss j) as [y Ey]; [lia|]. rewrite Ey. destruct (decide (i = j)) as [->|]; [congruence|].
    assert (sg_baseOffset x < sg_baseOffset y) by (by eapply (chain_sorted w b ss rs i j); [|lia|..]). lia. }
  destruct (sort_Search_spec f (length ss) Hmono) as (H1 & H2 & H3). split_and!; [done| |].
  - intros i s Hi Hs. specialize (H2 i Hi). unfold f in H2. rewrite Hs in H2. lia.
  - intros i s Hi Hs. specialize (H3 i ltac:(apply lookup_lt_Some in Hs; lia)). unfold f in H3. rewrite Hs in H3. lia.
Qed.

Lemma Read_spec w l b rs off r w' :
  log_inv w l b rs -> Read l off w = (r, w') ->
  fs w' = fs w /\
  (off < b \/ b + Z.of_nat (length rs) <= off -> r = Err ErrOffsetOutOfRange /\ w' = w) /\
  (forall i p, off = b + Z.of_nat i -> rs !! i = Some p ->
     (faults w = [] -> r = Ok p /\ faults w' = []) /\ (forall q, r = Ok q -> q = p)).
Proof.
  intros [Hc Hne _ _] H. unfold Read in H. pose proof (Read_search w b l rs off Hc) as Hs. cbv zeta in Hs.
  set (k := sort_Search _ _) in *. destruct Hs as (Hk & Hlo & Hhi). clearbody k.
  destruct (Nat.eqb_spec k 0) as [E0|E0].
  { injection H as <- <-. split_and!; [done|done|]. intros i p -> Hp.
    destruct (lg_segments l) as [|s ss] eqn:Ess; [done|]. pose proof (chain_first _ _ _ _ s Hc eq_refl).
    specialize (Hhi 0%nat s ltac:(lia) eq_refl). lia. }
  destruct (lookup_lt_is_Some_2 (lg_segments l) (k - 1)) as [s Hsk]; [lia|]. rewrite Hsk in H.
  destruct (chain_seg _ _ _ _ s Hc) as [qs Hq]; [apply list_elem_of_lookup; eauto|].
  pose proof (segment_read_spec _ _ _ _ _ _ Hq H) as (Hfs & Hout & Hin).
  specialize (Hlo (k - 1)%nat s ltac:(lia) Hsk). split_and!; [done| |].
  - intros [Hlt|Hge]; apply Hout.
    + destruct (lg_segments l) as [|s0 ss] eqn:Ess; [done|]. pose proof (chain_first _ _ _ _ s0 Hc eq_refl) as Hf0.
      left. destruct (decide (k - 1 = 0)%nat) as [Ek|Ek]; [rewrite Ek in Hsk; injection Hsk as <-; lia|].
      assert (sg_baseOffset s0 < sg_baseOffset s) by (by eapply (chain_sorted w b _ rs 0 (k - 1)); [exact Hc|lia|..]). lia.
    + right. destruct (exists_last Hne) as (ss & x & Ess). rewrite Ess in *.
      destruct (chain_last_inv _ _ _ _ _ Hc) as (rs0 & qs0 & -> & Hc0 & Hx & Hb & Hlt). rewrite length_app in Hge.
      assert (Hkl : k = length (ss ++ [x])).
      { destruct (decide (k = length (ss ++ [x]))); [done|]. rewrite length_app in *. simpl in *.
        specialize (Hhi (length ss) x ltac:(lia) ltac:(by rewrite lookup_app_r, Nat.sub_diag by lia)). lia. }
      rewrite Hkl, length_app in Hsk. simpl in Hsk. rewrite lookup_app_r in Hsk by lia.
      replace (length ss + 1 - 1 - length ss)%nat with 0%nat in Hsk by lia. injection Hsk as <-.
      rewrite (si_next _ _ _ Hx). lia.
  - intros i p Hoff Hp. destruct (chain_find w b (lg_segments l) rs off (k - 1) s i p) as (qs' & j & Hq' & Hj & Hp'); try done.
    { intros j x Hj Hx. apply (Hhi j x); [lia|done]. }
    pose proof (segment_read_spec _ _ _ _ _ _ Hq' H) as (_ & _ & Hin'). by apply (Hin' j).
Qed.

Lemma NextOffset_spec w l b rs : log_inv w l b rs -> NextOffset l = Ok (b + Z.of_nat (length rs)).
Proof.
  intros Hinv. unfold NextOffset. destruct (last (lg_segments l)) as [a|] eqn:Hl.
  - by destruct (log_last _ _ _ _ _ Hinv Hl) as (? & ? & ? & _ & _ & _ & _ & _ & _ & ->).
  - apply last_None in Hl. by destruct (li_open _ _ _ _ Hinv).
Qed.

(** ** The contract is kept *)

#[global] Program Instance broker_LogStore : LogStore (World * Log) := {
  ls_Append := Append;
  ls_Read := fun off '(w, l) => let '(r, w) := Read l off w in (r, (w, l));
  ls_NextOffset := fun '(_, l) => NextOffset l;
  ls_holds := fun '(w, l) rs => log_inv w l 0 rs
}.
Next Obligation.
  intros [w l] rs p r [w' l'] Hinv Hu H. apply (Append_spec w l 0 rs) in H as (_ & H & _); [|done|lia|lia].
  destruct r; [|done]. destruct H as (-> & _ & ?). split; [lia|done].
Qed.
Next Obligation.
  intros [w l] rs off r [w' l'] Hinv H. cbn in H. destruct (Read l off w) as [r1 w1] eqn:Hr. injection H as <- <- <-.
  apply (Read_spec w l 0 rs) in Hr as (Hfs & Hout & Hin); [|done]. split_and!.
  - eapply log_inv_fs; [done|done|apply Hinv|done].
  - intros Ho. apply Hout. lia.
  - intros p Hoff ->. destruct (decide (off < Z.of_nat (length rs))) as [Hlt|Hge].
    + destruct (lookup_lt_is_Some_2 rs (Z.to_nat off)) as [q Hq]; [lia|]. destruct (Hin (Z.to_nat off) q) as [_ Heq]; [lia|done|].
      by rewrite (Heq p eq_refl).
    + destruct Hout as [? _]; [lia|done].
Qed.
Next Obligation.
  intros [w l] rs Hinv. cbn in *. rewrite (NextOffset_spec w l 0 rs Hinv). by f_equal.
Qed.

(** ** Theorems *)

(** C13: [Log.Append] against the list of records, under any sequence of I/O
    faults, any sync policy and segment rolls: a success returns the next
    offset and appends exactly the payload; a failure leaves the log as it was
    or with the payload stored but not acknowledged; and when nothing fails a
    payload within the size limit is accepted. *)
Theorem Append_correct w l b rs p r w' l' :
  log_inv w l b rs -> 0 <= b -> b + Z.of_nat (length rs) + 1 < 18446744073709551616 ->
  Append p (w, l) = (r, (w', l')) ->
  lg_opts l' = lg_opts l /\
  match r with
  | Ok off => off = b + Z.of_nat (length rs) /\ payload_ok p /\ log_inv w' l' b (rs ++ [p])
  | Err _ => log_inv w' l' b rs \/ log_inv w' l' b (rs ++ [p])
  end /\
  (can_append w l p -> is_ok r = true /\ faults w' = [] /\ log_fresh w' l' /\ sc_err (lg_syncer l') = None).
Proof. apply Append_spec. Qed.

(** A log of one empty segment. *)
Lemma one_segment opts : exists w l, log_inv w l 0 [] /\ lg_opts l = opts /\ faults w = [] /\ log_fresh w l /\
  sc_err (lg_syncer l) = None.
Proof.
  destruct (createSegment 0 (mkWorld ∅ [])) as [r w] eqn:H.
  pose proof (createSegment_follows (mkWorld ∅ []) 0 _ _ ltac:(unfold is_u64; lia) ltac:(by intros x) H) as Hix.
  pose proof (createSegment_spec (mkWorld ∅ []) 0 r w ltac:(lia) ltac:(done) H) as (Hsame & _ & Hno & Hr).
  destruct (Hno eq_refl) as [Hf Hok]. specialize (Hok eq_refl). destruct r as [s|]; [|done].
  destruct Hr as (_ & Hb & Hi & _). exists w, (mkLog opts [s] 0 0 newSyncCoordinator). split_and!; [|done|done| |done].
  - split; cbn; [|done|done|done]. apply (chain_snoc _ _ [] s [] []); [constructor|done|done|constructor].
  - intros s' x Hs' Hx Hor. injection Hs' as <-. pose proof (si_next _ _ _ Hi) as Hn. simpl in Hn.
    rewrite Hsame; [done|]. intros [E|[E|[]%elem_of_nil]%elem_of_cons]%elem_of_cons; [|by apply names_apart in E].
    apply segmentName_inj in E; [|unfold is_u64; lia|unfold is_u64; lia]. lia.
Qed.

Lemma Append_correct_witness : exists w l w' l',
  log_inv w l 0 [] /\ Append [x41] (w, l) = (Ok 0, (w', l')) /\ log_inv w' l' 0 [[x41]].
Proof.
  destruct (one_segment (mkOptions 1048576 SyncGroup 100)) as (w & l & Hi & Ho & Hf & Hfr & He).
  destruct (Append [x41] (w, l)) as [r [w' l']] eqn:H. exists w, l, w', l'.
  destruct (Append_correct w l 0 [] [x41] r w' l' Hi ltac:(lia) ltac:(simpl; lia) H) as (_ & Hr & Hgood).
  destruct Hgood as (Hok & _); [split_and!; [done|done|by vm_compute|by rewrite Ho|done]|].
  destruct r as [off|]; [|done]. destruct Hr as (-> & _ & Hi'). by split_and!.
Defined.

(** C14: [Log.Read] against the list of records: an offset outside the log is
    refused, and the offset of record [i] yields that record, whichever segment
    holds it; I/O errors can only turn the answer into an error. *)
Theorem Read_correct w l b rs off r w' :
  log_inv w l b rs -> Read l off w = (r, w') ->
  fs w' = fs w /\
  (off < b \/ b + Z.of_nat (length rs) <= off -> r = Err ErrOffsetOutOfRange /\ w' = w) /\
  (forall i p, off = b + Z.of_nat i -> rs !! i = Some p ->
     (faults w = [] -> r = Ok p /\ faults w' = []) /\ (forall q, r = Ok q -> q = p)).
Proof. apply Read_spec. Qed.

Lemma Read_correct_witness : exists w l, log_inv w l 0 [] /\ (Read l 0 w).1 = Err ErrOffsetOutOfRange.
Proof.
  destruct (one_segment (mkOptions 1048576 SyncGroup 100)) as (w & l & Hi & _). exists w, l. split; [done|].
  destruct (Read l 0 w) as [r w'] eqn:H. destruct (Read_correct w l 0 [] 0 r w' Hi H) as (_ & Hout & _).
  destruct Hout as [-> _]; [simpl; lia|done].
Defined.
