(* ===== verification/Frame.v ===== *)
(** * What a sequence of system calls keeps

    The operations of [broker/log] are sequences of system calls: a preorder on
    worlds that is respected by the calls an operation makes is respected by the
    operation, whatever state the log is in. *)

From S2P Require Import Prelude Decimal Bytes Record FileSys Index Segment GroupCommit BrokerLog.

Section Frame.
Variable R : World -> World -> Prop.
Context `{PreOrder World R}.

Definition resp {A} (m : ST World log_err A) : Prop := forall w r w', m w = (r, w') -> R w w'.

Definition resp_on {X A} (m : ST (World * X) log_err A) : Prop :=
  forall w x r w' x', m (w, x) = (r, (w', x')) -> R w w'.

Hypothesis R_fault : forall w f w', next_fault w = (f, w') -> R w w'.

(** ** Calls that change no file *)

Lemma resp_ret {A} (a : A) : resp (mret a).
Proof. intros w r w' E. injection E as _ <-. reflexivity. Qed.

Lemma resp_fail {A} e : resp (st_fail (A := A) e).
Proof. intros w r w' E. injection E as _ <-. reflexivity. Qed.

Lemma resp_lift {A} (x : res log_err A) : resp (st_lift x).
Proof. intros w r w' E. injection E as _ <-. reflexivity. Qed.

Lemma resp_bind {A B} (m : ST World log_err A) (f : A -> ST World log_err B) :
  resp m -> (forall a, resp (f a)) -> resp (m ≫= f).
Proof.
  intros Hm Hf w r w'. unfold mbind, ST_bind. destruct (m w) as [[a|e] w1] eqn:E.
  - intros E2. etrans; [by eapply Hm|by eapply Hf].
  - intros E2. injection E2 as _ <-. by eapply Hm.
Qed.

Ltac call := intros w r w'; destruct (next_fault w) as [f w1] eqn:N; apply R_fault in N.

Lemma resp_Size name : resp (file_Size name).
Proof. unfold file_Size. call. destruct f; intros [= _ <-]; done. Qed.

Lemma resp_Reader name pos n : resp (file_Reader name pos n).
Proof. unfold file_Reader. call. destruct f; intros [= _ <-]; done. Qed.

Lemma resp_Open name : resp (file_Open name).
Proof. unfold file_Open. call. destruct f; [destruct (fs w1 !! name)|]; intros [= _ <-]; done. Qed.

Lemma resp_Close name : resp (file_Close name).
Proof. unfold file_Close. call. destruct f; intros [= _ <-]; done. Qed.

Lemma resp_MkdirAll : resp MkdirAll.
Proof. unfold MkdirAll. call. destruct f; intros [= _ <-]; done. Qed.

Lemma resp_ReadDir : resp ReadDir.
Proof. unfold ReadDir. call. destruct f; intros [= _ <-]; done. Qed.

Lemma resp_segment_close s : resp (segment_close s).
Proof.
  intros w r w'. unfold segment_close, index_close. destruct (file_Close (sg_file s) w) as [r1 w1] eqn:E1.
  destruct (file_Close _ w1) as [r2 w2] eqn:E2. intros [= _ <-]. etrans; by eapply resp_Close.
Qed.

Lemma resp_close_segments ss e w r w' : close_segments ss e w = (r, w') -> R w w'.
Proof.
  revert e w. induction ss as [|s ss IH]; intros e w; cbn [close_segments]; [by intros [= _ <-]|].
  destruct (segment_close s w) as [r1 w1] eqn:E1. intros E2. etrans; [by eapply resp_segment_close|by eapply IH].
Qed.

Lemma resp_Log_Close : resp_on Log_Close.
Proof.
  intros w l r w' l'. unfold Log_Close. destruct (close_segments _ _ _) as [e w1] eqn:E. intros [= _ <- _].
  by eapply resp_close_segments.
Qed.

Lemma resp_Read l offset : resp (Read l offset).
Proof.
  unfold Read. cbv zeta. destruct (_ =? _)%nat; [apply resp_fail|]. destruct (lg_segments l !! _) as [s|]; [|apply resp_fail].
  unfold segment_read. destruct (_ || _); [apply resp_fail|]. cbv zeta.
  destruct (match index_lookup _ _ with Some e => _ | None => _ end) as [position rel].
  apply resp_bind; [destruct (_ <? _); [apply resp_bind; [apply resp_Reader|intros rd; apply resp_lift]|apply resp_ret]|].
  intros position'. apply resp_bind; [apply resp_Reader|]. intros rd. destruct (readRecord rd) as [[[p n] rest]|e]; [apply resp_ret|apply resp_fail].
Qed.

(** ** Writing and creating *)

Section Writes.
Hypothesis R_write : forall w name off buf, R w (set_content w name (splice (content w name) off buf)).
Hypothesis R_create : forall w name, fs w !! name = None -> R w (set_content w name []).

Lemma resp_WriteAt name buf off : resp (file_WriteAt name buf off).
Proof. unfold file_WriteAt. call. destruct f; intros [= _ <-]; (etrans; [exact N|apply R_write]). Qed.

Lemma resp_OpenCreate name : resp (file_OpenCreate name).
Proof.
  unfold file_OpenCreate. call. destruct f; intros [= _ <-]; [|done].
  destruct (fs w1 !! name) eqn:E; [done|]. etrans; [exact N|by apply R_create].
Qed.

Lemma resp_OpenExcl name : resp (file_OpenExcl name).
Proof.
  unfold file_OpenExcl. call. destruct f; [|by intros [= _ <-]].
  destruct (fs w1 !! name) eqn:E; intros [= _ <-]; [done|]. etrans; [exact N|by apply R_create].
Qed.

Lemma resp_openIndex name : resp (openIndex name).
Proof.
  unfold openIndex. apply resp_bind; [apply resp_OpenCreate|]. intros _. apply resp_bind; [apply resp_Size|]. intros size. cbv zeta.
  destruct (_ =? _); [apply resp_ret|]. apply resp_bind; [apply resp_Reader|]. intros rd. destruct (ReadFull _ _) as [[raw rest]|e]; apply resp_ret.
Qed.

Lemma resp_index_append rel position : resp_on (index_append rel position).
Proof.
  intros w ix r w' ix'. unfold index_append. destruct (_ <=? _); [by intros [= _ <- _]|].
  destruct (file_WriteAt _ _ _ w) as [[[]|e] w1] eqn:E; intros [= _ <- _]; by eapply resp_WriteAt.
Qed.

Lemma resp_maybeIndex rel position : resp_on (maybeIndex rel position).
Proof.
  intros w s r w' s'. unfold maybeIndex. destruct (_ && _); [by intros [= _ <- _]|].
  destruct (index_append _ _ _) as [[[]|e] [w1 ix]] eqn:E; intros [= _ <- _]; by eapply resp_index_append.
Qed.

Lemma resp_createSegment base : resp (createSegment base).
Proof.
  unfold createSegment. apply resp_bind; [apply resp_OpenExcl|]. intros _. apply resp_bind; [apply resp_WriteAt|]. intros _.
  apply resp_bind; [apply resp_openIndex|]. intros ix. apply resp_ret.
Qed.

Lemma resp_segment_append p : resp_on (segment_append p).
Proof.
  intros w s r w' s'. unfold segment_append. destruct (encodeRecord p) as [enc|e]; [|by intros [= _ <- _]].
  destruct (file_WriteAt _ _ _ w) as [[[]|e] w1] eqn:E1; [|intros [= _ <- _]; by eapply resp_WriteAt].
  destruct (maybeIndex _ _ _) as [[[]|e] [w2 s2]] eqn:E2; intros [= _ <- _]; (etrans; [by eapply resp_WriteAt|by eapply resp_maybeIndex]).
Qed.

Lemma resp_append_active p : resp_on (append_active p).
Proof.
  intros w l r w' l'. unfold append_active. destruct (last _) as [a|]; [|by intros [= _ <- _]].
  destruct (segment_append p (w, a)) as [r1 [w1 a1]] eqn:E. intros [= _ <- _]. by eapply resp_segment_append.
Qed.

(** ** Flushing *)

Section Flushes.
Hypothesis R_flush : forall w name, R w (flush w name).

Lemma resp_Sync name : resp (file_Sync name).
Proof. unfold file_Sync. call. destruct f; intros [= _ <-]; [|done]. etrans; [exact N|apply R_flush]. Qed.

Lemma resp_segment_sync s : resp (segment_sync s).
Proof. unfold segment_sync, index_sync. apply resp_bind; [apply resp_Sync|]. intros _. apply resp_Sync. Qed.

Lemma resp_syncActive l : resp (syncActive l).
Proof. unfold syncActive. destruct (last _); [apply resp_segment_sync|apply resp_ret]. Qed.

Lemma resp_roll_sync active : resp_on (roll_sync active).
Proof.
  intros w l r w' l'. unfold roll_sync. destruct (negb _); [|by intros [= _ <- _]].
  destruct (segment_sync active w) as [[[]|e] w2] eqn:E; intros [= _ <- _]; by eapply resp_segment_sync.
Qed.

Lemma resp_roll p active : resp_on (roll_if_full p active).
Proof.
  intros w l r w' l'. unfold roll_if_full. cbv zeta. destruct (_ && _); [|by intros [= _ <- _]].
  destruct (roll_sync active (w, l)) as [[[]|e] [w1 l1]] eqn:P; [|intros [= _ <- _]; by eapply resp_roll_sync].
  destruct (createSegment _ w1) as [[s|e] w2] eqn:E; intros [= _ <- _]; (etrans; [by eapply resp_roll_sync|by eapply resp_createSegment]).
Qed.

Lemma resp_sync_after seq since : resp_on (sync_after_append seq since).
Proof.
  intros w l r w' l'. unfold sync_after_append.
  assert (Now : forall r1 w1 l1, (let '(r, w) := syncActive l w in (r, (w, l))) = (r1, (w1, l1)) -> R w w1).
  { intros r1 w1 l1. destruct (syncActive l w) as [r2 w2] eqn:E. intros [= _ <- _]. by eapply resp_syncActive. }
  destruct (_ =? SyncAlways); [apply Now|]. destruct (_ =? SyncEveryN); [destruct (_ <=? _); [apply Now|by intros [= _ <- _]]|].
  destruct (_ =? SyncGroup); [|by intros [= _ <- _]].
  set (doSync := fun w => _).
  assert (Hdo : forall u r1 u1, doSync u = (r1, u1) -> R u u1).
  { intros u r1 u1. unfold doSync. destruct (syncActive l u) as [r2 u2] eqn:E. intros [= _ <-]. by eapply resp_syncActive. }
  assert (W : forall fuel c u x c1 u1, waitFor_alone fuel seq doSync c u = (x, c1, u1) -> R u u1).
  { induction fuel as [|fuel IH]; intros c u x c1 u1; cbn [waitFor_alone]; [by intros [= _ _ <-]|].
    destruct (waitFor_loop seq c) as [[r1| |t] c2]; [by intros [= _ _ <-]..|]. destruct (doSync u) as [r1 u2] eqn:E.
    destruct (waitFor_finish t r1 c2) as [[r2|] c3]; [intros [= _ _ <-]; by eapply Hdo|]. intros E2. etrans; [by eapply Hdo|by eapply IH]. }
  unfold waitFor. destruct (waitFor_alone _ _ _ _ _) as [[[[e|]|] c1] w1] eqn:E; intros [= _ <- _]; by eapply W.
Qed.

Lemma resp_Append p : resp_on (Append p).
Proof.
  intros w l r w' l'. unfold Append. destruct (last (lg_segments l)) as [active|]; [|by intros [= _ <- _]].
  destruct (roll_if_full p active (w, l)) as [[[]|e] [w1 l1]] eqn:E1; [|intros [= _ <- _]; by eapply resp_roll].
  destruct (append_active p (w1, l1)) as [[off|e] [w2 l2]] eqn:E2.
  2:{ intros [= _ <- _]. etrans; [by eapply resp_roll|by eapply resp_append_active]. }
  cbv zeta. destruct (sync_after_append _ _ _) as [[[]|e] [w3 l3]] eqn:E3; intros [= _ <- _];
    (etrans; [by eapply resp_roll|]; etrans; [by eapply resp_append_active|by eapply resp_sync_after]).
Qed.

End Flushes.

(** ** Recovery *)

Section Cuts.
Hypothesis R_cut : forall w name n, R w (set_content w name (resize (content w name) n)).

Lemma resp_Truncate name n : resp (file_Truncate name n).
Proof. unfold file_Truncate. call. destruct f; intros [= _ <-]; [|done]. etrans; [exact N|apply R_cut]. Qed.

Lemma resp_index_truncateFrom position : resp_on (index_truncateFrom position).
Proof.
  intros w ix r w' ix'. unfold index_truncateFrom. cbn [ix_file].
  destruct (file_Truncate _ _ w) as [[[]|e] w1] eqn:E; intros [= _ <- _]; by eapply resp_Truncate.
Qed.

Lemma resp_recover_loop fuel rd position rel : resp_on (recover_loop fuel rd position rel).
Proof.
  revert rd position rel. induction fuel as [|fuel IH]; intros rd position rel w s r w' s'; cbn [recover_loop]; [by intros [= _ <- _]|].
  assert (Cut : forall r1 w1 s1, match file_Truncate (sg_file s) position w with
    | (Err e, w) => (Err e, (w, s))
    | (Ok _, w) => match index_truncateFrom position (w, sg_index s) with
        | (Err e, (w, ix)) => (Err e, (w, with_index s ix))
        | (Ok _, (w, ix)) => (Ok (position, rel), (w, with_index s ix))
        end
    end = (r1, (w1, s1)) -> R w w1).
  { intros r1 w1 s1. destruct (file_Truncate _ _ w) as [[[]|e] w2] eqn:E; [|intros [= _ <- _]; by eapply resp_Truncate].
    destruct (index_truncateFrom _ _) as [[[]|e] [w3 ix]] eqn:E2; intros [= _ <- _];
      (etrans; [by eapply resp_Truncate|by eapply resp_index_truncateFrom]). }
  destruct (readRecord rd) as [[[p n] rd']|e].
  - destruct (maybeIndex _ _ _) as [[[]|e] [w1 s1]] eqn:E; [|intros [= _ <- _]; by eapply resp_maybeIndex].
    intros E2. etrans; [by eapply resp_maybeIndex|by eapply IH].
  - destruct e; first [by intros [= _ <- _]|apply Cut].
Qed.

Lemma resp_recover_start size : resp_on (recover_start size).
Proof.
  intros w s r w' s'. unfold recover_start. destruct (index_last _); [|by intros [= _ <- _]].
  destruct (_ && _); [by intros [= _ <- _]|]. unfold index_reset. cbn [ix_file].
  destruct (file_Truncate _ _ w) as [[[]|e] w1] eqn:E; intros [= _ <- _]; by eapply resp_Truncate.
Qed.

Lemma resp_recover : resp_on recover.
Proof.
  intros w s r w' s'. unfold recover. destruct (file_Size _ w) as [[size|e] w1] eqn:E1; [|intros [= _ <- _]; by eapply resp_Size].
  destruct (recover_start _ _) as [[[position rel]|e] [w2 s2]] eqn:E2.
  2:{ intros [= _ <- _]. etrans; [by eapply resp_Size|by eapply resp_recover_start]. }
  cbv zeta. cbn [sg_file]. destruct (file_Reader _ _ _ w2) as [[rd|e] w3] eqn:E3.
  2:{ intros [= _ <- _]. etrans; [by eapply resp_Size|]. etrans; [by eapply resp_recover_start|by eapply resp_Reader]. }
  destruct (recover_loop _ _ _ _ _) as [[[position' rel']|e] [w4 s4]] eqn:E4; intros [= _ <- _];
    (etrans; [by eapply resp_Size|]; etrans; [by eapply resp_recover_start|]; etrans; [by eapply resp_Reader|by eapply resp_recover_loop]).
Qed.

Lemma resp_openSegment path : resp (openSegment path).
Proof.
  intros w r w'. unfold openSegment.
  assert (B : resp (file_Open path ≫= fun _ => file_Reader path 0 segmentHeaderSize)) by (apply resp_bind; [apply resp_Open|intros _; apply resp_Reader]).
  destruct ((file_Open path ≫= _) w) as [[rd|e] w1] eqn:E1; [|intros [= _ <-]; by eapply B].
  destruct (ReadFull rd _) as [[hd rest]|e]; [|intros [= _ <-]; by eapply B].
  destruct (negb _); [intros [= _ <-]; by eapply B|]. destruct (negb _); [intros [= _ <-]; by eapply B|].
  cbv zeta. destruct (openIndex _ w1) as [[ix|e] w2] eqn:E2; [|intros [= _ <-]; etrans; [by eapply B|by eapply resp_openIndex]].
  destruct (recover _) as [[[]|e] [w3 s3]] eqn:E3; intros [= _ <-];
    (etrans; [by eapply B|]; etrans; [by eapply resp_openIndex|by eapply resp_recover]).
Qed.

Lemma resp_open_segments offsets opened w r ss w' : open_segments offsets opened w = (r, ss, w') -> R w w'.
Proof.
  revert opened w. induction offsets as [|c offsets IH]; intros opened w; cbn [open_segments]; [by intros [= _ _ <-]|].
  destruct (openSegment _ w) as [[s|e] w1] eqn:E; [|intros [= _ _ <-]; by eapply resp_openSegment].
  intros E2. etrans; [by eapply resp_openSegment|by eapply IH].
Qed.

Lemma resp_Log_Open opts : resp (BrokerLog.Open opts).
Proof.
  intros w r w'. unfold BrokerLog.Open. cbv zeta.
  assert (B : resp (MkdirAll ≫= fun _ => listSegmentOffsets)).
  { apply resp_bind; [apply resp_MkdirAll|]. intros _. unfold listSegmentOffsets. apply resp_bind; [apply resp_ReadDir|]. intros names.
    apply resp_bind; [apply resp_lift|]. intros offs. apply resp_ret. }
  destruct ((MkdirAll ≫= _) w) as [[offs|e] w1] eqn:E1; [|intros [= _ <-]; by eapply B].
  destruct (open_segments offs [] w1) as [[[ss|e] opened] w2] eqn:E2.
  - destruct ss as [|s ss].
    + destruct (createSegment 0 w2) as [[s|e] w3] eqn:E3; intros [= _ <-];
        (etrans; [by eapply B|]; etrans; [by eapply resp_open_segments|by eapply resp_createSegment]).
    + intros [= _ <-]. etrans; [by eapply B|by eapply resp_open_segments].
  - destruct (Log_Close _) as [r3 [w3 l3]] eqn:E3. intros [= _ <-]. etrans; [by eapply B|]. etrans; [by eapply resp_open_segments|].
    by eapply resp_Log_Close.
Qed.

End Cuts.
End Writes.
End Frame.
