(* ===== verification/LogRecovery.v ===== *)
(** * Opening a log: [Open] and [listSegmentOffsets] of [broker/log/log.go]

    What a directory must hold for [Open] to find the log's records again, and
    that every crash during [Append] leaves such a directory. *)

From stdpp Require Import sorting.
From S2P Require Import Prelude Decimal Bytes Record LogSpec FileSys Index Segment Recovery GroupCommit BrokerLog.

#[local] Opaque segment_header frame PutUint32 PutUint64.

(** ** Listing the directory *)

Lemma HasSuffix_app a s : HasSuffix (a +:+ s) s = true.
Proof.
  induction a as [|c a IH].
  - change ("" +:+ s) with s. destruct s as [|x s]; [done|]. cbn [HasSuffix].
    destruct (decide (String x s = String x s)); [done|congruence].
  - change (String c a +:+ s) with (String c (a +:+ s)). cbn [HasSuffix].
    destruct (decide (String c (a +:+ s) = s)); done.
Qed.

Lemma HasSuffix_spec x s : HasSuffix x s = true -> exists a, x = a +:+ s.
Proof.
  induction x as [|c x IH]; cbn [HasSuffix]; intros H.
  - destruct (decide (""%string = s)) as [<-|]; [by exists ""%string|done].
  - destruct (decide (String c x = s)) as [<-|]; [by exists ""%string|]. destruct (IH H) as [a ->]. by exists (String c a).
Qed.

Lemma ParseUint_name b : is_u64 b -> ParseUint (TrimSuffix (segmentName b) ".log") = Ok b.
Proof.
  intros H. destruct (pad20 b H) as (H1 & H2 & H3). unfold segmentName. rewrite TrimSuffix_app. unfold ParseUint.
  rewrite H1, H2. destruct (bool_decide_reflect (fmt_pad 20 b = ""%string)) as [E|_]; [by rewrite E in H3|]. simpl.
  unfold is_u64 in H. by rewrite (proj2 (Z.ltb_lt _ _)) by lia.
Qed.

(** The directory's [.log] files are the segments with base offsets [bs]. *)
Definition log_names (w : World) (bs : list Z) : Prop :=
  forall n, is_Some (fs w !! n) -> HasSuffix n ".log" = true -> exists c, c ∈ bs /\ n = segmentName c.

Lemma segment_offsets_spec names :
  NoDup names -> (forall n, n ∈ names -> HasSuffix n ".log" = true -> exists c, is_u64 c /\ n = segmentName c) ->
  exists offs, segment_offsets names = Ok offs /\ NoDup offs /\ Forall is_u64 offs /\
    (forall c, is_u64 c -> c ∈ offs <-> segmentName c ∈ names).
Proof.
  induction 1 as [|n names Hn _ IH]; intros Hall.
  { exists []. split_and!; [done|constructor|constructor|]. intros c _. by rewrite !elem_of_nil. }
  destruct IH as (offs & Ho & Hnd & Hu & Hin); [intros x Hx; apply Hall; by right|]. cbn [segment_offsets].
  destruct (HasSuffix n ".log") eqn:Hs; cbn [negb].
  - destruct (Hall n ltac:(by left) Hs) as (c & Hc & ->). exists (c :: offs). rewrite ParseUint_name by done.
    unfold mbind, res_bind. rewrite Ho. split_and!; [done| | |].
    + constructor; [|done]. by rewrite Hin.
    + by constructor.
    + intros x Hx. rewrite !elem_of_cons, Hin by done. split; (intros [E|]; [left|by right]); [by rewrite E|].
      by apply segmentName_inj.
  - exists offs. split_and!; [done..|]. intros c Hc. rewrite Hin, elem_of_cons by done.
    split; [by right|]. intros [E|]; [|done]. rewrite <- E in Hs. unfold segmentName in Hs. by rewrite HasSuffix_app in Hs.
Qed.

Lemma listSegmentOffsets_spec w bs :
  faults w = [] -> log_names w bs -> Forall is_u64 bs -> StronglySorted Z.lt bs ->
  (forall c, c ∈ bs -> is_Some (fs w !! segmentName c)) ->
  listSegmentOffsets w = (Ok bs, w).
Proof.
  intros Hf Hn Hu Hs Hex. unfold listSegmentOffsets, mbind, ST_bind, ReadDir, next_fault. rewrite Hf.
  rewrite Forall_forall in Hu.
  assert (Hkeys : forall n, n ∈ (map_to_list (fs w)).*1 <-> is_Some (fs w !! n)).
  { intros n. rewrite list_elem_of_fmap. split.
    - intros ([k v] & -> & H%elem_of_map_to_list). by exists v.
    - intros [v Hv]. exists (n, v). split; [done|]. by apply elem_of_map_to_list. }
  destruct (segment_offsets_spec (map_to_list (fs w)).*1) as (offs & Ho & Hnd & Hu' & Hin).
  { apply NoDup_fst_map_to_list. }
  { intros n Hin Hsuf. apply Hkeys in Hin. destruct (Hn n Hin Hsuf) as (c & Hc & ->). exists c. split; [by apply Hu|done]. }
  unfold st_lift. rewrite Ho. transitivity (@Ok log_err _ (merge_sort Z.le offs), w); [reflexivity|].
  do 2 f_equal. rewrite Forall_forall in Hu'.
  assert (Hnd2 : NoDup bs).
  { clear -Hs. induction Hs as [|x l _ IH Hx]; constructor; [|done]. intros Hin. rewrite Forall_forall in Hx. specialize (Hx x Hin). lia. }
  assert (Hperm : offs ≡ₚ bs).
  { apply NoDup_Permutation; [done|done|]. intros c. split.
    - intros Hc. pose proof (Hu' c Hc) as Hcu. apply Hin in Hc; [|done]. apply Hkeys in Hc.
      destruct (Hn _ Hc) as (d & Hd & E); [apply HasSuffix_app|]. apply segmentName_inj in E; [by subst|done|by apply Hu].
    - intros Hc. apply Hin; [by apply Hu|]. by apply Hkeys, Hex. }
  apply (Sorted_unique Z.le).
  - apply Sorted_merge_sort; apply _.
  - apply StronglySorted_Sorted. clear -Hs. induction Hs as [|x l _ IH Hx]; constructor; [done|].
    eapply Forall_impl; [exact Hx|]. cbn. lia.
  - by rewrite merge_sort_Permutation.
Qed.

(** ** Opening the segments *)

(** Segments at [bs], each with its records as [P] says, and the records [rs] in
    all, numbered from [b]. *)
Inductive chain_of (P : Z -> list (list byte) -> Prop) (b : Z) : list Z -> list (list byte) -> Prop :=
| dc_nil : chain_of P b [] []
| dc_snoc bs c rs qs :
    chain_of P b bs rs -> P c qs -> c = b + Z.of_nat (length rs) -> Forall (fun x => x < c) bs ->
    chain_of P b (bs ++ [c]) (rs ++ qs).

Lemma chain_of_mono (P Q : Z -> list (list byte) -> Prop) b bs rs :
  (forall c qs, c ∈ bs -> P c qs -> Q c qs) -> chain_of P b bs rs -> chain_of Q b bs rs.
Proof.
  intros HPQ. induction 1 as [|bs c rs qs Hch IH Hd Hc Hlt]; constructor; try done.
  - apply IH. intros x xs Hx. apply HPQ, elem_of_app. by left.
  - apply HPQ; [apply elem_of_app; right; by left|done].
Qed.

(** The directory has the segments at [bs] and no others, with the records [rs]. *)
Record dir_holds (P : World -> Z -> list (list byte) -> Prop) (w : World) (b : Z) (bs : list Z) (rs : list (list byte)) : Prop := {
  dh_chain : chain_of (P w) b bs rs;
  dh_base : bs = [] -> b = 0;
  dh_names : log_names w bs;
  dh_index : index_follows w
}.

Lemma dir_tidy_disk w b bs rs : dir_holds seg_tidy w b bs rs -> dir_holds seg_disk w b bs rs.
Proof. intros [H1 H2 H3 H4]. split; try done. eapply chain_of_mono; [|exact H1]. intros c qs _. apply seg_tidy_disk. Qed.

Lemma seg_disk_u64 w c qs : seg_disk w c qs -> is_u64 c.
Proof. intros []. unfold is_u64. lia. Qed.

Lemma disk_chain_facts w b bs rs : chain_of (seg_disk w) b bs rs ->
  Forall is_u64 bs /\ StronglySorted Z.lt bs /\ (forall c, c ∈ bs -> is_Some (fs w !! segmentName c)).
Proof.
  induction 1 as [|bs c rs qs _ (IH1 & IH2 & IH3) Hd Hc Hlt]; [split_and!; [constructor|constructor|by intros ? ?%elem_of_nil]|].
  split_and!.
  - apply Forall_app. split; [done|]. constructor; [by eapply seg_disk_u64|constructor].
  - clear -IH2 Hlt. induction bs as [|x bs IH]; [constructor; constructor|]. inversion IH2; subst. inversion Hlt; subst.
    constructor; [by apply IH|]. apply Forall_app. split; [done|by constructor].
  - intros x [Hx| ->%list_elem_of_singleton]%elem_of_app; [by apply IH3|].
    destruct Hd as [_ _ _ _ (tail & e & es & junk & -> & _)]. eauto.
Qed.

Lemma open_segments_app l1 l2 opened w :
  open_segments (l1 ++ l2) opened w =
  match open_segments l1 opened w with
  | (Ok ss, _, w) => open_segments l2 ss w
  | (Err e, ss, w) => (Err e, ss, w)
  end.
Proof.
  revert opened w. induction l1 as [|c l1 IH]; intros opened w; [done|]. cbn [app open_segments].
  destruct (openSegment (segmentName c) w) as [[s|e] w1]; [apply IH|done].
Qed.

(** A segment in use whose file holds its records and nothing else. *)
Definition seg_clean (w : World) (s : segment) : Prop :=
  exists qs, seg_inv w s qs /\ fs w !! sg_file s = Some (segment_header (sg_baseOffset s) ++ frames qs) /\
    sg_size s <= 4294967296.

Definition log_clean (w : World) (l : Log) : Prop := Forall (seg_clean w) (lg_segments l).

Lemma seg_clean_same w w' s : (forall n, n ∈ seg_files s -> fs w' !! n = fs w !! n) -> seg_clean w s -> seg_clean w' s.
Proof.
  intros H (qs & H1 & H2 & H3). exists qs. split_and!; [by eapply seg_inv_same|rewrite H; [done|by left]|done].
Qed.

Definition files_at (c : Z) : list string := [segmentName c; indexName c].

Lemma files_at_disjoint c d n : is_u64 c -> is_u64 d -> c <> d -> n ∈ files_at c -> n ∉ files_at d.
Proof.
  intros Hc Hd Hne Hn Hn'. apply Hne.
  apply elem_of_cons in Hn as [->|Hn]; [|apply list_elem_of_singleton in Hn as ->];
  (apply elem_of_cons in Hn' as [E|Hn']; [|apply list_elem_of_singleton in Hn' as E]).
  - by apply segmentName_inj.
  - by apply names_apart in E.
  - symmetry in E. by apply names_apart in E.
  - apply segmentName_inj; [done|done|]. by apply indexName_segment.
Qed.

Lemma open_segments_spec w b bs rs :
  chain_of (seg_disk w) b bs rs -> faults w = [] ->
  exists ss w', open_segments bs [] w = (Ok ss, ss, w') /\ log_chain w' b ss rs /\ faults w' = [] /\
    sg_baseOffset <$> ss = bs /\ Forall (seg_clean w') ss /\
    (forall n, (forall c, c ∈ bs -> n ∉ files_at c) -> fs w' !! n = fs w !! n) /\
    (forall c, c ∈ bs -> blen (content w' (segmentName c)) <= blen (content w (segmentName c))).
Proof.
  induction 1 as [|bs c rs qs Hch IH Hd Hc Hlt]; intros Hf.
  { exists [], w. split_and!; try done; constructor. }
  destruct (IH Hf) as (ss & w1 & Ho & Hlc & Hf1 & Hbs & Hcl & Hsame & Hcut). destruct (disk_chain_facts _ _ _ _ Hch) as (Hu & _ & _).
  pose proof (seg_disk_u64 _ _ _ Hd) as Huc. rewrite Forall_forall in Hlt, Hu.
  assert (Hd1 : seg_disk w1 c qs).
  { eapply seg_with_same; [| |exact Hd]; apply Hsame; intros x Hx; pose proof (Hlt x Hx);
      apply (files_at_disjoint c x); [done|by apply Hu|lia|by left|done|by apply Hu|lia|right; by left]. }
  destruct (open_disk w1 c qs Hf1 Hd1) as (w2 & s & Hos & Hi & Hb & Hf2 & Hc2 & Hsame2).
  assert (Hkeep : forall x n, x ∈ ss -> n ∈ seg_files x -> fs w2 !! n = fs w1 !! n).
  { intros x n Hx Hn. apply Hsame2. destruct (chain_seg _ _ _ _ _ Hlc Hx) as [xs Hxs].
    assert (Hxb : sg_baseOffset x ∈ bs) by (rewrite <- Hbs; by apply list_elem_of_fmap_2).
    pose proof (Hlt _ Hxb). apply (files_at_disjoint (sg_baseOffset x) c); [by apply Hu|done|lia|].
    unfold seg_files in Hn. by rewrite (si_file _ _ _ Hxs), (si_ixfile _ _ _ Hxs) in Hn. }
  exists (ss ++ [s]), w2. rewrite open_segments_app, Ho. cbn [open_segments]. rewrite Hos. split_and!; [done| |done| | | |].
  - constructor; [by eapply chain_frame|done|congruence|]. rewrite Hb. apply Forall_forall. intros x Hx. apply Hlt.
    rewrite <- Hbs. by apply list_elem_of_fmap_2.
  - by rewrite fmap_app, Hbs, fmap_cons, Hb.
  - apply Forall_app. split.
    + rewrite Forall_forall in Hcl |- *. intros x Hx. eapply seg_clean_same; [|by apply Hcl]. intros n. by apply Hkeep.
    + constructor; [|constructor]. exists qs. rewrite (si_file _ _ _ Hi), Hb, (si_size _ _ _ Hi). split_and!; [done|done|by apply sd_size in Hd].
  - intros n Hn. rewrite Hsame2, Hsame; [done| |].
    + intros x Hx. apply Hn. apply elem_of_app. by left.
    + apply (Hn c). apply elem_of_app. right. by left.
  - intros x [Hx| ->%list_elem_of_singleton]%elem_of_app.
    + pose proof (Hlt x Hx). rewrite (content_eq_at w1); [by apply Hcut|]. apply Hsame2.
      apply (files_at_disjoint x c); [by apply Hu|done|lia|by left].
    + destruct Hd as [_ _ _ _ (tail & e & es & junk & Hcont & _)]. unfold content. rewrite Hc2, Hcont. cbn. rewrite !blen_app.
      pose proof (blen_nonneg tail). lia.
Qed.

Lemma Open_chain w b bs rs opts :
  faults w = [] -> chain_of (seg_disk w) b bs rs -> bs <> [] -> log_names w bs -> index_follows w ->
  exists l w', Open opts w = (Ok l, w') /\ log_inv w' l b rs /\ log_clean w' l /\ faults w' = [] /\
    lg_opts l = with_defaults opts /\ sg_baseOffset <$> lg_segments l = bs /\ log_names w' bs /\
    lg_syncer l = newSyncCoordinator /\ lg_seq l = 0 /\
    (forall c, c ∈ bs -> blen (content w' (segmentName c)) <= blen (content w (segmentName c))).
Proof.
  intros Hf Hd Hne Hn Hi. destruct (disk_chain_facts _ _ _ _ Hd) as (Hu & Hs & Hex).
  destruct (open_segments_spec _ _ _ _ Hd Hf) as (ss & w' & Ho & Hlc & Hf' & Hbs & Hcl & Hsame & Hcut).
  assert (Hss : ss <> []) by (intros ->; by destruct bs).
  exists (mkLog (with_defaults opts) ss 0 0 newSyncCoordinator), w'. split.
  - unfold Open. unfold mbind, ST_bind, MkdirAll, next_fault. rewrite Hf, (listSegmentOffsets_spec w bs) by done.
    rewrite Ho. by destruct ss.
  - assert (Hnone : forall x, fs w' !! segmentName x = None -> forall c, c ∈ bs -> segmentName x <> segmentName c).
    { intros x Hx c Hc E. rewrite <- Hbs in Hc. apply list_elem_of_fmap in Hc as (s & -> & Hs1).
      destruct (chain_seg _ _ _ _ _ Hlc Hs1) as [qs Hq]. destruct (si_content _ _ _ Hq) as [junk Hj].
      rewrite (si_file _ _ _ Hq), <- E in Hj. congruence. }
    split_and!; try done.
    + split; cbn; try done. intros x Hx. pose proof (Hnone x Hx) as Hx'.
      assert (Hout : forall c, c ∈ bs -> segmentName x ∉ files_at c).
      { intros c Hc [E|[E|[]%elem_of_nil]%elem_of_cons]%elem_of_cons; [by apply (Hx' c)|by apply names_apart in E]. }
      rewrite Hsame in Hx by done. rewrite Hsame.
      * by apply Hi.
      * intros c Hc [E|[E|[]%elem_of_nil]%elem_of_cons]%elem_of_cons; [symmetry in E; by apply names_apart in E|].
        apply indexName_segment in E. by apply (Hx' c).
    + intros n Hex' Hsuf. destruct (decide (Exists (fun c => n ∈ files_at c) bs)) as [Hin|Hno].
      * apply Exists_exists in Hin as (c & Hc & [->|[->|[]%elem_of_nil]%elem_of_cons]%elem_of_cons); [by exists c|].
        apply HasSuffix_spec in Hsuf as [a E]. symmetry in E. by apply suffix_apart in E.
      * apply Hn; [|done]. rewrite <- Hsame; [done|]. intros c Hc Hin. apply Hno, Exists_exists. eauto.
Qed.

(** ** Crashes during [Append] *)

(** The directory is one [Open] recovers the records [rs] from. *)
Definition recoverable (w : World) (b : Z) (rs : list (list byte)) : Prop := exists bs, dir_holds seg_disk w b bs rs.

Lemma chain_with_frame sound w w' b bs rs :
  chain_of (seg_with sound w) b bs rs -> (forall c n, c ∈ bs -> n ∈ files_at c -> fs w' !! n = fs w !! n) ->
  chain_of (seg_with sound w') b bs rs.
Proof.
  intros Hc H. eapply chain_of_mono; [|exact Hc]. intros c qs Hin. apply seg_with_same; apply (H c); try done; [by left|right; by left].
Qed.

Lemma dir_holds_fs sound w w' b bs rs : fs w' = fs w -> dir_holds (seg_with sound) w b bs rs -> dir_holds (seg_with sound) w' b bs rs.
Proof.
  intros Hfs [H1 H2 H3 H4]. split; [|done|by unfold log_names; rewrite Hfs|by unfold index_follows; rewrite Hfs].
  eapply chain_with_frame; [exact H1|]. by rewrite Hfs.
Qed.

Lemma recoverable_fs w w' b rs : fs w' = fs w -> recoverable w b rs -> recoverable w' b rs.
Proof. intros Hfs [bs H]. exists bs. by apply (dir_holds_fs _ w). Qed.

Lemma chain_disk w b ss rs :
  log_chain w b ss rs -> Forall (seg_clean w) ss -> chain_of (seg_tidy w) b (sg_baseOffset <$> ss) rs.
Proof.
  induction 1 as [|ss s rs qs Hc IH Hs Hb Hlt]; intros Hcl; [constructor|]. apply Forall_app in Hcl as [Hcl Hcs].
  apply Forall_singleton in Hcs as (qs' & Hi & Hd & Hsz). rewrite <- (seg_inv_unique _ _ _ _ Hs Hi) in Hd. rewrite fmap_app.
  constructor; [by apply IH|by apply seg_inv_disk|done|]. apply Forall_fmap. done.
Qed.

(** The state between calls. *)
Record log_ready (w : World) (l : Log) (b : Z) (rs : list (list byte)) : Prop := {
  lr_inv : log_inv w l b rs;
  lr_clean : log_clean w l;
  lr_names : log_names w (sg_baseOffset <$> lg_segments l)
}.

Definition bases (l : Log) : list Z := sg_baseOffset <$> lg_segments l.

Lemma ready_tidy w l b rs : log_ready w l b rs -> dir_holds seg_tidy w b (bases l) rs.
Proof. intros [[H1 H2 H3 H4] H5 H6]. split; [by apply chain_disk| |done|done]. by intros E%fmap_nil_inv. Qed.

Lemma ready_recoverable w l b rs : log_ready w l b rs -> recoverable w b rs.
Proof. intros H. exists (bases l). by apply dir_tidy_disk, ready_tidy. Qed.

(** A step that touches only the files at [c]. *)
Lemma log_names_step w w' bs c :
  log_names w bs -> fs_same_except (files_at c) w w' -> c ∈ bs -> log_names w' bs.
Proof.
  intros Hn Hsame Hc n Hex Hsuf. destruct (decide (n ∈ files_at c)) as [Hin|Hout]; [|apply Hn; [by rewrite <- Hsame|done]].
  apply elem_of_cons in Hin as [->|[->|[]%elem_of_nil]%elem_of_cons]; [by exists c|].
  apply HasSuffix_spec in Hsuf as [a E]. symmetry in E. by apply suffix_apart in E.
Qed.

Lemma log_names_mono w bs bs' : log_names w bs -> (forall c, c ∈ bs -> c ∈ bs') -> log_names w bs'.
Proof. intros H Hs n H1 H2. destruct (H n H1 H2) as (c & Hc & E). eauto. Qed.

Lemma append_active_crash w l b rs p r w' l' a :
  log_ready w l b rs -> 0 <= b -> b + Z.of_nat (length rs) + 1 < 18446744073709551616 ->
  last (lg_segments l) = Some a -> (payload_ok p -> sg_size a + (8 + blen p) <= 4294967296) ->
  append_active p (w, l) = (r, (w', l')) ->
  exists rs', dir_holds seg_tidy w' b (bases l) rs' /\ (rs' = rs \/ rs' = rs ++ [p]) /\ (is_ok r = true -> rs' = rs ++ [p]).
Proof.
  intros [Hinv Hcl Hn] Hb Hu Hlast Hfit H.
  destruct (log_last _ _ _ _ _ Hinv Hlast) as (ss & rs0 & qs & Hss & -> & Hch & Hact & Hbase & Hlt & Hnext).
  unfold log_clean in Hcl. rewrite Hss in Hcl, Hn. apply Forall_app in Hcl as [Hcl Hca].
  apply Forall_singleton in Hca as (qs' & Hi & Hd & Hsz). rewrite <- (seg_inv_unique _ _ _ _ Hact Hi) in Hd.
  unfold append_active in H. rewrite Hlast in H. destruct (segment_append p (w, a)) as [r1 [w1 a1]] eqn:Ha.
  injection H as <- <- <-.
  pose proof (segment_append_spec _ _ _ _ _ _ _ Hact ltac:(lia) Ha) as (Hsame & Hf1 & Hb1 & _ & Hr).
  destruct (append_disk _ _ _ _ _ _ _ Hact Hd Hsz ltac:(rewrite frame_blen; exact Hfit) ltac:(lia) Ha) as (qs1 & Hdisk & Hor & Hok).
  assert (Hs1 : exists qs2, seg_inv w1 a1 qs2) by (destruct r1; [destruct Hr as (_ & _ & Hr)|]; eauto). destruct Hs1 as [qs2 Hs1].
  unfold seg_files in Hsame. rewrite (si_file _ _ _ Hact), (si_ixfile _ _ _ Hact) in Hsame.
  exists (rs0 ++ qs1). split; [|rewrite <- app_assoc; split; [destruct Hor as [->| ->]; eauto|intros Hk; by rewrite (Hok Hk)]].
  unfold bases. rewrite Hss. split.
  - rewrite fmap_app. constructor; [|done|done|by apply Forall_fmap].
    eapply chain_with_frame; [by apply chain_disk|]. intros c n Hc Hnn. apply Hsame.
    apply list_elem_of_fmap in Hc as (x & -> & Hx). destruct (chain_seg _ _ _ _ _ Hch Hx) as [xs Hxs].
    rewrite Forall_forall in Hlt. pose proof (Hlt x Hx). eapply files_at_disjoint; [by eapply seg_u64|by eapply seg_u64|lia|done].
  - by destruct ss.
  - eapply log_names_step; [done|exact Hsame|]. rewrite fmap_app. apply elem_of_app. right. by left.
  - eapply index_follows_step; [apply Hinv| |exact Hs1]. unfold seg_files.
    rewrite (si_file _ _ _ Hs1), (si_ixfile _ _ _ Hs1), Hb1. done.
Qed.

Lemma roll_crash w l b rs active p r w' l' :
  log_ready w l b rs -> last (lg_segments l) = Some active -> is_u64 (b + Z.of_nat (length rs)) ->
  (is_ok r = false -> forall c, fs w' !! segmentName (b + Z.of_nat (length rs)) = Some c -> (16 <= length c)%nat) ->
  roll_if_full p active (w, l) = (r, (w', l')) ->
  (dir_holds seg_tidy w' b (bases l) rs \/ dir_holds seg_tidy w' b (bases l ++ [b + Z.of_nat (length rs)]) rs) /\
  (is_ok r = true -> log_ready w' l' b rs).
Proof.
  intros Hready Hlast Hu Htorn H. pose proof Hready as [Hinv Hcl Hn].
  destruct (log_last _ _ _ _ _ Hinv Hlast) as (ss & rs0 & qs & Hss & Hrs & Hch & Hact & Hbase & Hlt & Hnext).
  unfold roll_if_full in H. destruct (_ && _) eqn:Hfull.
  2:{ injection H as <- <- <-. split; [left; by eapply ready_tidy|done]. }
  destruct (roll_sync active (w, l)) as [r1 [w1 l1]] eqn:Hpre. apply roll_sync_spec in Hpre as (Hfs1 & Hseg1 & Hidle1 & _); [|apply Hinv].
  assert (Hready1 : log_ready w1 l1 b rs).
  { split; [by eapply log_inv_fs| |by unfold log_names; rewrite Hfs1, Hseg1]. unfold log_clean in *. rewrite Hseg1.
    eapply Forall_impl; [exact Hcl|]. intros s. apply seg_clean_same. by rewrite Hfs1. }
  assert (Hdir1 : dir_holds seg_tidy w1 b (bases l) rs) by (unfold bases; rewrite <- Hseg1; by eapply ready_tidy).
  destruct r1 as [[]|e]; [|injection H as <- <- <-; split; [by left|done]].
  destruct (createSegment (sg_nextOffset active) w1) as [r2 w2] eqn:Hcr. rewrite Hnext in Hcr.
  pose proof Hready1 as [[Hch1 Hop1 _ Hix1] Hcl1 Hn1]. set (c := b + Z.of_nat (length rs)) in *.
  assert (Hlt1 : Forall (fun x => sg_baseOffset x < c) (lg_segments l1)) by (rewrite Hseg1; eapply roll_bases; [done..|lia]).
  pose proof (create_next _ _ _ _ _ _ _ Hch1 Hix1 Hu eq_refl Hlt1 Hcr) as (Hix2 & Hch2 & Hr2).
  pose proof (createSegment_spec w1 _ r2 w2 Hu (Hix1 _) Hcr) as (Hsame2 & _ & _ & Hr2').
  destruct (create_disk _ _ _ _ Hu (Hix1 _) Hcr) as [Hsamefs|[(k & Hk & Htk)|Hdisk]].
  - assert (r2 = Err (match r2 with Err e => e | _ => ErrIO end)) as Hr.
    { destruct r2 as [s|]; [|done]. destruct Hr2' as (Hnone & _ & _ & Hsome). rewrite Hsamefs in Hsome. congruence. }
    rewrite Hr in H. injection H as <- <- <-. split; [|done]. left. by eapply dir_holds_fs.
  - destruct r2 as [s|e].
    + destruct Hr2' as (_ & _ & _ & Hd2). rewrite Hd2 in Htk. apply (inj Some), (f_equal length) in Htk.
      pose proof (segment_header_blen c) as Hl. unfold blen in Hl. change segmentHeaderSize with 16 in Hl.
      rewrite length_take in Htk. lia.
    + injection H as <- <- <-. apply (Htorn eq_refl) in Htk. rewrite length_take in Htk. lia.
  - assert (Hrec : dir_holds seg_tidy w2 b (bases l ++ [c]) rs).
    { unfold bases. rewrite <- Hseg1, <- (app_nil_r rs). split; [|by destruct (lg_segments l1)| |done].
      - constructor; [|done|done|by apply Forall_fmap]. apply (chain_with_frame _ w1); [exact (chain_disk _ _ _ _ Hch1 Hcl1)|].
        intros d n Hd Hnn. apply Hsame2. apply list_elem_of_fmap in Hd as (x & -> & Hx). destruct (chain_seg _ _ _ _ _ Hch1 Hx) as [xs Hxs].
        rewrite Forall_forall in Hlt1. pose proof (Hlt1 x Hx). eapply (files_at_disjoint _ c); [by eapply seg_u64|done|lia|done].
      - eapply log_names_step; [|exact Hsame2|apply elem_of_app; right; by left]. eapply log_names_mono; [done|].
        intros d Hd. apply elem_of_app. by left. }
    destruct r2 as [next|e]; injection H as <- <- <-; [|by split; [right|]].
    split; [by right|]. intros _. destruct Hr2 as (Hb2 & Hi2 & Hch3). destruct Hr2' as (_ & _ & _ & Hd2). split.
    + split; cbn; [done|by destruct (lg_segments l1)|done|done].
    + unfold log_clean. cbn. apply Forall_app. split.
      * rewrite Forall_forall. intros x Hx. unfold log_clean in Hcl1. rewrite Forall_forall in Hcl1.
        eapply seg_clean_same; [|by apply Hcl1]. intros n Hnn. apply Hsame2. destruct (chain_seg _ _ _ _ _ Hch1 Hx) as [xs Hxs].
        rewrite Forall_forall in Hlt1. pose proof (Hlt1 x Hx). eapply (files_at_disjoint (sg_baseOffset x) c); [by eapply seg_u64|done|lia|].
        unfold seg_files in Hnn. by rewrite (si_file _ _ _ Hxs), (si_ixfile _ _ _ Hxs) in Hnn.
      * constructor; [|constructor]. exists []. rewrite (si_file _ _ _ Hi2), Hb2, Hd2, (si_size _ _ _ Hi2).
        change (frames []) with (@nil byte). rewrite app_nil_r. by split_and!.
    + cbn. rewrite fmap_app. eapply log_names_step; [|exact Hsame2|apply elem_of_app; right; rewrite <- Hb2; by left].
      eapply log_names_mono; [done|]. intros d Hd. apply elem_of_app. by left.
Qed.

Lemma Append_crash w l b rs p r w' l' :
  log_ready w l b rs -> 0 <= b -> b + Z.of_nat (length rs) + 1 < 18446744073709551616 ->
  op_MaxSegmentBytes (lg_opts l) <= 4294967296 ->
  (forall c, fs w' !! segmentName (b + Z.of_nat (length rs)) = Some c -> (16 <= length c)%nat) ->
  Append p (w, l) = (r, (w', l')) ->
  exists rs', recoverable w' b rs' /\ (rs' = rs \/ rs' = rs ++ [p]) /\ (is_ok r = true -> rs' = rs ++ [p]).
Proof.
  intros Hready Hb Hu Hmax Htorn H. unfold Append in H.
  destruct (last (lg_segments l)) as [active|] eqn:Hlast.
  2:{ apply last_None in Hlast. by destruct (li_open _ _ _ _ (lr_inv _ _ _ _ Hready)). }
  destruct (roll_if_full p active (w, l)) as [r1 [w1 l1]] eqn:H1.
  pose proof (roll_spec w l b rs _ _ _ _ _ (lr_inv _ _ _ _ Hready) Hlast ltac:(unfold is_u64; lia) H1)
    as (Hi1 & Ho1 & _ & _ & _ & _ & Hok1).
  destruct r1 as [[]|e].
  2:{ injection H as <- <- <-. apply (roll_crash w l b rs) in H1 as [Hrec _]; [|done|done|unfold is_u64; lia|done].
      exists rs. split; [|by split; [left|]]. destruct Hrec as [Hrec|Hrec]; eexists; by apply dir_tidy_disk. }
  apply (roll_crash w l b rs) in H1 as [_ Hready1]; [|done|done|unfold is_u64; lia|done]. specialize (Hready1 eq_refl).
  destruct (Hok1 eq_refl) as (a & Ha & Hasz).
  destruct (append_active p (w1, l1)) as [r2 [w2 l2]] eqn:H2.
  assert (Hfit : payload_ok p -> sg_size a + (8 + blen p) <= 4294967296).
  { intros Hp. unfold payload_ok in Hp. rewrite MaxRecordSize_val in Hp. change segmentHeaderSize with 16 in Hasz. lia. }
  pose proof (append_active_spec _ _ _ _ _ _ _ _ Hi1 ltac:(unfold is_u64; lia) H2) as (_ & _ & _ & _ & _ & _ & Hr2).
  destruct (append_active_crash _ _ _ _ _ _ _ _ _ Hready1 Hb Hu Ha Hfit H2) as (rs' & Hdir & Hor & Hok).
  assert (Hrec : recoverable w2 b rs') by (eexists; by apply dir_tidy_disk).
  destruct r2 as [off|e]; [|injection H as <- <- <-; by exists rs'].
  specialize (Hok eq_refl). destruct Hr2 as (_ & _ & Hi2).
  destruct (sync_after_append _ _ _) as [r4 [w4 l4]] eqn:H4. apply sync_after_spec in H4 as (Hfs4 & _); [|apply Hi2].
  exists rs'. split; [eapply (recoverable_fs w2); [|done]|done].
  destruct r4; injection H as _ <- _; done.
Qed.

(** A successful append leaves nothing behind but the record. *)
Lemma append_active_ready w l b rs p off w' l' a :
  log_ready w l b rs -> 0 <= b -> b + Z.of_nat (length rs) + 1 < 18446744073709551616 ->
  last (lg_segments l) = Some a -> sg_size a + (8 + blen p) <= 4294967296 ->
  append_active p (w, l) = (Ok off, (w', l')) -> log_ready w' l' b (rs ++ [p]).
Proof.
  intros [Hinv Hcl Hn] Hb Hu Hlast Hfit H.
  pose proof (append_active_spec _ _ _ _ _ _ _ _ Hinv ltac:(unfold is_u64; lia) H) as (_ & _ & _ & _ & _ & _ & Hp & _ & Hinv').
  destruct (log_last _ _ _ _ _ Hinv Hlast) as (ss & rs0 & qs & Hss & -> & Hch & Hact & Hbase & Hlt & Hnext).
  unfold log_clean in Hcl. rewrite Hss in Hcl, Hn. apply Forall_app in Hcl as [Hcl Hca].
  apply Forall_singleton in Hca as (qs' & Hi & Hd & Hsz). rewrite <- (seg_inv_unique _ _ _ _ Hact Hi) in Hd.
  unfold append_active in H. rewrite Hlast in H. destruct (segment_append p (w, a)) as [r1 [w1 a1]] eqn:Ha.
  injection H as -> <- <-.
  pose proof (segment_append_spec _ _ _ _ _ _ _ Hact ltac:(lia) Ha) as (Hsame & Hf1 & Hb1 & _ & _ & _ & Hr).
  destruct (segment_append_disk _ _ _ [] _ _ _ _ Hact ltac:(by rewrite app_nil_r) Ha) as (k & _ & Hk & _ & Hdisk).
  rewrite (Hk eq_refl), firstn_all, drop_nil, app_nil_r in Hdisk.
  assert (Hf : sg_file a1 = sg_file a) by (by unfold seg_files in Hf1; injection Hf1).
  split; [done| |].
  - unfold log_clean. cbn. rewrite Hss, removelast_last. apply Forall_app. split.
    + rewrite Forall_forall in Hcl, Hlt |- *. intros x Hx. eapply seg_clean_same; [|by apply Hcl]. intros n Hnn. apply Hsame.
      destruct (chain_seg _ _ _ _ _ Hch Hx) as [xs Hxs]. pose proof (Hlt x Hx).
      eapply seg_files_disjoint; [exact Hxs|exact Hact|lia|done].
    + constructor; [|constructor]. exists (qs ++ [p]). rewrite Hf, Hb1, Hdisk, frames_app, frames_single. split_and!; [done|done|].
      rewrite (si_size _ _ _ Hr), pos_of_all, frames_app, frames_single, blen_app, frame_blen.
      rewrite (si_size _ _ _ Hact), pos_of_all in Hfit. lia.
  - cbn. rewrite Hss, removelast_last, fmap_app. cbn. rewrite Hb1. rewrite fmap_app in Hn.
    eapply log_names_step; [exact Hn| |apply elem_of_app; right; by left].
    unfold seg_files in Hsame. by rewrite (si_file _ _ _ Hact), (si_ixfile _ _ _ Hact) in Hsame.
Qed.

Lemma log_ready_same w w' l l' b rs :
  fs w' = fs w -> lg_segments l' = lg_segments l -> sc_syncing (lg_syncer l') = false ->
  log_ready w l b rs -> log_ready w' l' b rs.
Proof.
  intros Hfs Hss Hsy [H1 H2 H3]. split; [by eapply log_inv_fs| |].
  - unfold log_clean in *. rewrite Hss. eapply Forall_impl; [exact H2|]. intros s. apply seg_clean_same. by rewrite Hfs.
  - unfold log_names. by rewrite Hfs, Hss.
Qed.

Lemma Append_ready w l b rs p off w' l' :
  log_ready w l b rs -> 0 <= b -> b + Z.of_nat (length rs) + 1 < 18446744073709551616 ->
  op_MaxSegmentBytes (lg_opts l) <= 4294967296 ->
  Append p (w, l) = (Ok off, (w', l')) -> log_ready w' l' b (rs ++ [p]).
Proof.
  intros Hready Hb Hu Hmax H. unfold Append in H.
  destruct (last (lg_segments l)) as [active|] eqn:Hlast; [|done].
  destruct (roll_if_full p active (w, l)) as [[[]|e] [w1 l1]] eqn:H1; [|done].
  pose proof (roll_spec w l b rs _ _ _ _ _ (lr_inv _ _ _ _ Hready) Hlast ltac:(unfold is_u64; lia) H1)
    as (Hi1 & Ho1 & _ & _ & _ & _ & Hok1).
  apply (roll_crash w l b rs) in H1 as [_ Hready1]; [|done|done|unfold is_u64; lia|done]. specialize (Hready1 eq_refl).
  destruct (Hok1 eq_refl) as (a & Ha & Hasz).
  destruct (append_active p (w1, l1)) as [[o|e] [w2 l2]] eqn:H2; [|done].
  pose proof (append_active_spec _ _ _ _ _ _ _ _ Hi1 ltac:(unfold is_u64; lia) H2) as (_ & _ & _ & _ & _ & _ & Hp & _ & Hi2).
  unfold payload_ok in Hp. rewrite MaxRecordSize_val in Hp. change segmentHeaderSize with 16 in Hasz.
  pose proof (append_active_ready w1 l1 b rs p o w2 l2 a Hready1 Hb Hu Ha ltac:(lia) H2) as Hready2.
  destruct (sync_after_append _ _ _) as [[[]|e] [w4 l4]] eqn:H4; [|done].
  apply sync_after_spec in H4 as (Hfs4 & Hsg4 & _ & _ & _ & Hid4 & _); [|apply Hi2]. injection H as _ <- <-.
  by apply (log_ready_same w2 w4 l2 l4).
Qed.

(** A directory without segments. *)
Lemma Open_empty_dir w opts : faults w = [] -> log_names w [] -> index_follows w ->
  exists l w', Open opts w = (Ok l, w') /\ log_ready w' l 0 [] /\ faults w' = [] /\
  log_fresh w' l /\ bases l = [0] /\ lg_syncer l = newSyncCoordinator /\ lg_seq l = 0 /\ lg_opts l = with_defaults opts.
Proof.
  intros Hf0 Hn0 Hi0.
  assert (Hnone : forall c, fs w !! segmentName c = None).
  { intros c. apply eq_None_not_Some. intros Hs. destruct (Hn0 _ Hs (HasSuffix_app _ _)) as (d & []%elem_of_nil & _). }
  assert (Hl : (MkdirAll ≫= fun _ => listSegmentOffsets) w = (Ok [], w)).
  { unfold mbind, ST_bind, MkdirAll, next_fault. rewrite Hf0. apply listSegmentOffsets_spec; [done|done|constructor|constructor|by intros c ?%elem_of_nil]. }
  unfold Open. rewrite Hl. cbn [open_segments]. destruct (createSegment 0 w) as [r w'] eqn:Hc.
  pose proof (createSegment_spec w 0 r w' ltac:(lia) (Hi0 0) Hc) as (Hsame & _ & Hno & Hr).
  destruct (Hno Hf0) as [Hf Hok]. specialize (Hok (Hnone 0)). destruct r as [s|]; [|done].
  destruct Hr as (_ & Hb & Hi & Hd). eexists _, w'. split; [done|]. cbn. split_and!; [|done| |unfold bases; cbn; by rewrite Hb|done|done|done].
  - split.
    + split; cbn; [|done|done|].
      * apply (chain_snoc _ _ [] s [] []); [constructor|done|done|constructor].
      * intros x Hx. destruct (decide (segmentName x = segmentName 0)) as [E|Hne]; [rewrite E, Hd in Hx; done|].
        rewrite Hsame; [by apply Hi0|]. intros [E|[E|[]%elem_of_nil]%elem_of_cons]%elem_of_cons; [symmetry in E; by apply names_apart in E|].
        by apply indexName_segment in E.
    + constructor; [|constructor]. exists []. rewrite (si_file _ _ _ Hi), Hb, Hd, (si_size _ _ _ Hi).
      change (frames []) with (@nil byte). rewrite app_nil_r. by split_and!.
    + cbn. rewrite Hb. eapply (log_names_step w); [|exact Hsame|by left]. by eapply log_names_mono; [exact Hn0|intros c ?%elem_of_nil].
  - intros s' x Hs' Hx Hor. cbn in Hs'. injection Hs' as <-. pose proof (si_next _ _ _ Hi) as Hn. simpl in Hn.
    rewrite Hsame; [done|]. intros [E|[E|[]%elem_of_nil]%elem_of_cons]%elem_of_cons; [|by apply names_apart in E].
    apply segmentName_inj in E; [|unfold is_u64; lia|unfold is_u64; lia]. lia.
Qed.

(** [Open] finds the records again and leaves clean files. *)
Lemma Open_spec w b bs rs opts : faults w = [] -> dir_holds seg_disk w b bs rs ->
  exists l w', Open opts w = (Ok l, w') /\ log_ready w' l b rs /\ faults w' = [] /\ lg_opts l = with_defaults opts /\
    bases l = (if decide (bs = []) then [0] else bs) /\ lg_syncer l = newSyncCoordinator /\ lg_seq l = 0 /\
    (forall c, c ∈ bs -> blen (content w' (segmentName c)) <= blen (content w (segmentName c))).
Proof.
  intros Hf [Hc Hb0 Hn Hi]. case_decide as E.
  - subst bs. rewrite Hb0 by done. inversion Hc as [|? ? ? ? _ _ _ _ Hbad]; [|by destruct bs].
    destruct (Open_empty_dir w opts Hf Hn Hi) as (l & w' & Ho & Hr & Hf' & _ & Hbs & Hsy & Hsq & Hopt). exists l, w'.
    split_and!; try done. by intros c ?%elem_of_nil.
  - destruct (Open_chain w b bs rs opts Hf Hc E Hn Hi) as (l & w' & Ho & Hinv & Hcl & Hf' & Hopt & Hbs & Hn' & Hsy & Hsq & Hcut).
    exists l, w'. split_and!; try done. split; [done|done|by rewrite Hbs].
Qed.

Lemma Open_empty opts : exists l w, Open opts (mkWorld ∅ []) = (Ok l, w) /\ log_ready w l 0 [] /\ faults w = [] /\
  log_fresh w l /\ sc_err (lg_syncer l) = None /\ lg_opts l = with_defaults opts.
Proof.
  destruct (Open_empty_dir (mkWorld ∅ []) opts) as (l & w & Ho & Hr & Hf & Hfr & _ & Hsy & _ & Hopt); [done|by intros n [? ?]|done|].
  exists l, w. split_and!; try done. by rewrite Hsy.
Qed.

(** Appending a list of records, one call each. *)
Fixpoint append_all (ps : list (list byte)) : ST (World * Log) log_err (list Z) :=
  match ps with
  | [] => mret []
  | p :: ps => off ← Append p; offs ← append_all ps; mret (off :: offs)
  end.

Lemma append_all_spec ps w l b rs :
  log_ready w l b rs -> 0 <= b -> b + Z.of_nat (length (rs ++ ps)) < 18446744073709551616 ->
  Forall payload_ok ps -> faults w = [] -> log_fresh w l -> sc_err (lg_syncer l) = None ->
  op_MaxSegmentBytes (lg_opts l) <= 4294967296 ->
  exists w' l', append_all ps (w, l) = (Ok (seqZ (b + Z.of_nat (length rs)) (Z.of_nat (length ps))), (w', l')) /\
    log_ready w' l' b (rs ++ ps) /\ faults w' = [].
Proof.
  intros Hready Hb Hu Hok. revert w l rs Hready Hu. induction Hok as [|p ps Hp Hok IH]; intros w l rs Hready Hu Hf Hfr He Hmax.
  { exists w, l. rewrite app_nil_r. by split_and!. }
  cbn [append_all]. unfold mbind, ST_bind. destruct (Append p (w, l)) as [r [w1 l1]] eqn:Ha.
  rewrite length_app in Hu. simpl in Hu.
  pose proof (Append_spec _ _ _ _ _ _ _ _ (lr_inv _ _ _ _ Hready) Hb ltac:(lia) Ha) as (Ho1 & Hr & Hgood).
  destruct Hgood as (Hr1 & Hf1 & Hfr1 & He1); [by split_and!|]. destruct r as [off|]; [|done]. destruct Hr as (-> & _ & _).
  apply (Append_ready w l b rs) in Ha; [|done|done|lia|done].
  destruct (IH w1 l1 (rs ++ [p])) as (w2 & l2 & -> & Hready2 & Hf2); try done.
  { rewrite !length_app. simpl. lia. }
  { by rewrite Ho1. }
  exists w2, l2. rewrite <- app_assoc in Hready2. split_and!; [|done|done]. cbn [length].
  rewrite Nat2Z.inj_succ, (seqZ_cons _ (Z.succ _)) by lia. unfold mret, ST_ret. do 3 f_equal. rewrite Z.pred_succ, length_app. f_equal. simpl. lia.
Qed.

(** ** Theorems *)



(** The whole life of a log: open an empty directory, append any list of
    payloads, stop, open the directory again, and every payload is read back at
    the offset its append returned, offsets counting up from zero. *)
Theorem log_roundtrip opts ps :
  Forall payload_ok ps -> Z.of_nat (length ps) < 18446744073709551616 ->
  op_MaxSegmentBytes (with_defaults opts) <= 4294967296 ->
  exists l0 w0 w1 l1 l2 w2,
    Open opts (mkWorld ∅ []) = (Ok l0, w0) /\
    append_all ps (w0, l0) = (Ok (seqZ 0 (Z.of_nat (length ps))), (w1, l1)) /\
    Open opts (mkWorld (fs w1) []) = (Ok l2, w2) /\ NextOffset l2 = Ok (Z.of_nat (length ps)) /\
    forall i p, ps !! i = Some p -> (Read l2 (Z.of_nat i) w2).1 = Ok p.
Proof.
  intros Hok Hlen Hmax. destruct (Open_empty opts) as (l0 & w0 & Ho & Hready & Hf & Hfr & He & Hopt).
  destruct (append_all_spec ps w0 l0 0 [] Hready) as (w1 & l1 & Ha & Hready1 & _); try done; [by rewrite Hopt|].
  apply ready_recoverable, (recoverable_fs _ (mkWorld (fs w1) [])) in Hready1 as [bs Hd]; [|done].
  destruct (Open_spec (mkWorld (fs w1) []) _ _ _ opts eq_refl Hd) as (l2 & w2 & Ho2 & [Hinv _ _] & Hf2 & _).
  exists l0, w0, w1, l1, l2, w2. split_and!; [done|done|done|by rewrite (NextOffset_spec _ _ _ _ Hinv)|].
  intros i p Hp. destruct (Read l2 (Z.of_nat i) w2) as [r w3] eqn:Hr.
  apply (Read_spec w2 l2 0 ps) in Hr as (_ & _ & Hin); [|done]. destruct (Hin i p) as [Hno _]; [lia|done|]. by destruct (Hno Hf2) as [-> _].
Qed.

Lemma log_roundtrip_witness : exists l0 w0 w1 l1,
  Open (mkOptions 30 SyncGroup 0) (mkWorld ∅ []) = (Ok l0, w0) /\
  append_all [[x41]; [x42; x43]] (w0, l0) = (Ok [0; 1], (w1, l1)).
Proof.
  destruct (log_roundtrip (mkOptions 30 SyncGroup 0) [[x41]; [x42; x43]]) as (l0 & w0 & w1 & l1 & _ & _ & H1 & H2 & _).
  - repeat constructor; by vm_compute.
  - simpl. lia.
  - by vm_compute.
  - exists l0, w0, w1, l1. split; [exact H1|exact H2].
Defined.

(** A log that answers clients is durable: [OpenDurable] refuses every policy
    that acknowledges before a flush and touches nothing then; otherwise it is
    [Open], and the log it returns runs under the policy asked for. *)
Theorem OpenDurable_policy opts w r w' :
  OpenDurable opts w = (r, w') ->
  match r with
  | Ok l => op_Sync (lg_opts l) = op_Sync opts /\ (op_Sync opts = SyncAlways \/ op_Sync opts = SyncGroup)
  | Err e => op_Sync opts <> SyncAlways -> op_Sync opts <> SyncGroup -> e = ErrNotDurable /\ w' = w
  end.
Proof.
  unfold OpenDurable. intros H. destruct (SyncPolicy_Durable (op_Sync opts)) eqn:Hd; cbn [negb] in H.
  - assert (Hp : op_Sync opts = SyncAlways \/ op_Sync opts = SyncGroup).
    { unfold SyncPolicy_Durable in Hd. apply orb_true_iff in Hd as [?%Z.eqb_eq|?%Z.eqb_eq]; auto. }
    destruct r as [l|e]; [|tauto]. split; [|done]. unfold Open in H. repeat (case_match; simplify_eq/=; try done).
  - unfold SyncPolicy_Durable in Hd. apply orb_false_iff in Hd as [H1%Z.eqb_neq H2%Z.eqb_neq]. injection H as <- <-. done.
Qed.

Lemma OpenDurable_policy_witness : exists r w', OpenDurable (mkOptions 0 SyncEveryN 0) (mkWorld ∅ []) = (r, w') /\ r = Err ErrNotDurable.
Proof.
  eexists _, _. split; [reflexivity|]. pose proof (OpenDurable_policy (mkOptions 0 SyncEveryN 0) (mkWorld ∅ []) _ _ eq_refl) as H.
  destruct H as [H _]; [done|done|]. exact (f_equal Err H).
Defined.
