(* ===== verification/PowerLoss.v ===== *)
(** * What survives a power loss

    A crash of the process keeps what it wrote; a power loss keeps what was flushed
    to the medium, and of the rest only what happened to reach it. Under a durable
    policy [Append] flushes before it returns, and a full segment is flushed before
    the next one is created; the rest follows from what recovery does with a cut
    file. *)

From S2P Require Import Prelude Decimal Bytes Record LogSpec FileSys Index Segment Recovery GroupCommit BrokerLog Frame LogRecovery.

#[local] Opaque segment_header frame PutUint32 PutUint64.

(** ** What is on the medium *)

Definition seg_len (w : World) (c : Z) : Z := blen (content w (segmentName c)).

(** At least [n] bytes of the segment file at [c] are on the medium. *)
Definition flushed (w : World) (c n : Z) : Prop :=
  exists d, durable w !! segmentName c = Some d /\ n <= blen d.

(** Segment files only grow, and what was flushed of them stays so. *)
Record advances (w w' : World) : Prop := {
  ad_len : forall c, seg_len w c <= seg_len w' c;
  ad_flushed : forall c n, flushed w c n -> n <= seg_len w c -> flushed w' c n
}.

#[global] Instance advances_preorder : PreOrder advances.
Proof.
  split.
  - intros w. split; [lia|done].
  - intros w1 w2 w3 [L1 F1] [L2 F2]. split.
    + intros c. etrans; [apply L1|apply L2].
    + intros c n H Hn. apply F2; [by apply F1|]. etrans; [exact Hn|apply L1].
Qed.

Lemma splice_grows c off buf : blen c <= blen (splice c off buf).
Proof.
  unfold splice. case_decide; [lia|]. unfold blen. rewrite !length_app, length_take, length_app, length_replicate, length_drop. lia.
Qed.

Lemma advances_set w name c : blen (content w name) <= blen c -> advances w (set_content w name c).
Proof.
  intros Hc. split; [|done]. intros x. unfold seg_len, content. cbn. destruct (decide (name = segmentName x)) as [->|Hne].
  - rewrite lookup_insert_eq. done.
  - by rewrite lookup_insert_ne.
Qed.

Lemma advances_flush w name : advances w (flush w name).
Proof.
  split; [intros c; unfold seg_len, content; rewrite flush_fs; lia|]. intros c n (d & Hd & Hn) Hlen. unfold flush, flushed.
  destruct (fs w !! name) as [x|] eqn:E; [|by exists d]. cbn. destruct (decide (name = segmentName c)) as [->|Hne].
  - exists x. rewrite lookup_insert_eq. split; [done|]. unfold seg_len, content in Hlen. by rewrite E in Hlen.
  - exists d. by rewrite lookup_insert_ne.
Qed.

Lemma advances_fault w f w' : next_fault w = (f, w') -> advances w w'.
Proof.
  intros E. pose proof (next_fault_durable w) as D. rewrite E in D. cbn in D. apply next_fault_eq in E as [E _].
  split; intros c; unfold seg_len, flushed, content; rewrite ?E, ?D; [lia|done].
Qed.

Lemma advances_create w name : fs w !! name = None -> advances w (set_content w name []).
Proof. intros E. apply advances_set. unfold content. rewrite E. done. Qed.

Lemma advances_write w name off buf : advances w (set_content w name (splice (content w name) off buf)).
Proof. apply advances_set, splice_grows. Qed.

Create HintDb disk.
#[export] Hint Resolve advances_fault advances_write advances_create advances_flush : disk.

(** ** [Open] flushes nothing *)

Definition same_durable (w w' : World) : Prop := durable w' = durable w.

#[global] Instance same_durable_preorder : PreOrder same_durable.
Proof. split; [done|]. intros a b c. unfold same_durable. congruence. Qed.

Lemma Open_durable opts w r w' : BrokerLog.Open opts w = (r, w') -> durable w' = durable w.
Proof.
  apply (resp_Log_Open same_durable); [|done..]. intros u f u' E. pose proof (next_fault_durable u) as D. by rewrite E in D.
Qed.

(** ** A successful flush *)

Lemma segment_sync_flushes s w w' qs : seg_inv w s qs -> segment_sync s w = (Ok tt, w') ->
  flushed w' (sg_baseOffset s) (seg_len w (sg_baseOffset s)).
Proof.
  intros Hi H. unfold segment_sync, mbind, ST_bind in H.
  destruct (file_Sync (sg_file s) w) as [[[]|e] w1] eqn:E1; [|done]. apply file_Sync_spec in E1 as (_ & _ & D1 & _).
  destruct (si_content _ _ _ Hi) as [junk Hc]. specialize (D1 eq_refl ltac:(by rewrite Hc)).
  unfold index_sync in H. apply file_Sync_spec in H as (_ & _ & _ & D2). rewrite (si_file _ _ _ Hi) in *.
  eexists. rewrite D2 by (rewrite (si_ixfile _ _ _ Hi); apply names_apart). rewrite D1. split; [exact Hc|].
  unfold seg_len, content. by rewrite Hc.
Qed.

(** The flush at the end of [Append] covers the record just written. *)
Lemma sync_after_flushes seq since w l w' l' a :
  SyncPolicy_Durable (op_Sync (lg_opts l)) = true -> sc_syncing (lg_syncer l) = false -> sc_synced (lg_syncer l) < seq ->
  last (lg_segments l) = Some a -> sync_after_append seq since (w, l) = (Ok tt, (w', l')) -> segment_sync a w = (Ok tt, w').
Proof.
  intros Hp Hidle Hseq Hlast. unfold sync_after_append.
  assert (Now : forall l1, (let '(r, w) := syncActive l w in (r, (w, l))) = (Ok tt, (w', l1)) -> segment_sync a w = (Ok tt, w')).
  { intros l1. unfold syncActive. rewrite Hlast. by destruct (segment_sync a w) as [[[]|e] w1]; intros [= <- _]. }
  unfold SyncPolicy_Durable in Hp. apply orb_true_iff in Hp. destruct (_ =? SyncAlways); [apply Now|].
  destruct Hp as [?|Hg]; [done|]. rewrite Hg. replace (op_Sync (lg_opts l) =? SyncEveryN) with false by (apply Z.eqb_eq in Hg as ->; done).
  set (doSync := fun w => _). destruct (waitFor_spec seq doSync (lg_syncer l) w Hidle) as (r1 & c1 & w1 & -> & _ & _ & Hcase).
  destruct r1 as [e|]; [done|]. intros [= <- _]. destruct Hcase as [[_ [[_ Hle]|(e & ? & _)]]|(Hd & _)]; [lia|done|].
  unfold doSync, syncActive in Hd. rewrite Hlast in Hd. destruct (segment_sync a w) as [[[]|e] w2]; by simplify_eq.
Qed.

Lemma sync_after_bounds seq since w l r w' l' : sync_after_append seq since (w, l) = (r, (w', l')) ->
  sc_synced (lg_syncer l) <= seq -> sc_pending (lg_syncer l) <= seq -> sc_synced (lg_syncer l') <= seq /\ sc_pending (lg_syncer l') <= seq.
Proof.
  intros E H1 H2. unfold sync_after_append in E.
  assert (Now : forall r1 w1 l1, (let '(r, w) := syncActive l w in (r, (w, l))) = (r1, (w1, l1)) -> l1 = l).
  { intros r1 w1 l1. destruct (syncActive l w). by intros [= _ _ <-]. }
  destruct (_ =? SyncAlways); [apply Now in E as ->; done|].
  destruct (_ =? SyncEveryN); [destruct (_ <=? _); [apply Now in E as ->; done|by injection E as _ _ <-]|].
  destruct (_ =? SyncGroup); [|by injection E as _ _ <-].
  destruct (waitFor _ _ _ _) as [[x c] w1] eqn:Ew. apply waitFor_bounds in Ew; [|done|done].
  destruct x as [[e|]|]; injection E as _ _ <-; done.
Qed.

(** ** How much of a log is flushed *)

(** The segments at [bs] hold the records [rs]; all but the last are flushed as a
    whole, and the first [m] records are. *)
Record flush_inv (w : World) (b : Z) (bs : list Z) (rs : list (list byte)) (m : nat) : Prop := {
  fi_old : forall x, x ∈ bs -> last bs <> Some x -> flushed w x (seg_len w x);
  fi_last : forall c, last bs = Some c -> c <= b + Z.of_nat m /\
    (c < b + Z.of_nat m -> flushed w c (pos_of (drop (Z.to_nat (c - b)) rs) (Z.to_nat (b + Z.of_nat m - c))));
  fi_len : (m <= length rs)%nat
}.

(** The last segment of a directory. *)
Lemma dir_last sound w b bs rs c : dir_holds (seg_with sound) w b bs rs -> last bs = Some c ->
  exists bs0 rs0 qs, bs = bs0 ++ [c] /\ rs = rs0 ++ qs /\ c = b + Z.of_nat (length rs0) /\ seg_with sound w c qs /\
    drop (Z.to_nat (c - b)) rs = qs /\ pos_of qs (length qs) <= seg_len w c /\ Forall (fun x => x < c) bs0 /\
    chain_of (seg_with sound w) b bs0 rs0.
Proof.
  intros [Hc _ _ _] Hl. inversion Hc as [|bs0 c' rs0 qs Hch Hs Hb Hlt]; subst; [done|].
  rewrite last_snoc in Hl. injection Hl as <-. exists bs0, rs0, qs. split_and!; try done.
  - rewrite drop_app_length'; [done|lia].
  - destruct Hs as [_ _ _ _ (tail & e & es & junk & Hf & _)]. unfold seg_len, content. rewrite Hf. cbn.
    rewrite pos_of_all, !blen_app, segment_header_blen. pose proof (blen_nonneg tail). lia.
Qed.

(** Steps that let the last segment grow keep it. *)
Lemma flush_inv_step sound w w' b bs rs rs' m :
  dir_holds (seg_with sound) w b bs rs -> flush_inv w b bs rs m -> advances w w' ->
  (forall x, x ∈ bs -> last bs <> Some x -> seg_len w' x = seg_len w x) -> rs `prefix_of` rs' -> flush_inv w' b bs rs' m.
Proof.
  intros Hd [Ho Hl Hm] [_ Ha] Hsame [t ->]. split.
  - intros x Hx Hn. rewrite Hsame by done. apply Ha; [by apply Ho|done].
  - intros c Hc. destruct (Hl c Hc) as [H1 H2]. split; [done|]. intros Hlt. specialize (H2 Hlt).
    destruct (dir_last _ _ _ _ _ _ Hd Hc) as (bs0 & rs0 & qs & -> & -> & Hcb & _ & Hq & Hlen & _).
    rewrite length_app in Hm. assert (Hj : (Z.to_nat (b + Z.of_nat m - c) <= length qs)%nat) by lia.
    rewrite Hq in H2. rewrite <- app_assoc, drop_app_length' by lia. rewrite pos_of_app by done.
    apply Ha; [done|]. etrans; [by apply pos_of_mono|done].
  - rewrite length_app. lia.
Qed.

(** Once the last segment is flushed, all records are. *)
Lemma flush_inv_full sound w b bs rs m :
  dir_holds (seg_with sound) w b bs rs -> flush_inv w b bs rs m ->
  (forall c, last bs = Some c -> flushed w c (seg_len w c)) -> flush_inv w b bs rs (length rs).
Proof.
  intros Hd [Ho Hl Hm] Hf. split; [done| |lia]. intros c Hc.
  destruct (dir_last _ _ _ _ _ _ Hd Hc) as (bs0 & rs0 & qs & -> & -> & Hcb & _ & -> & Hlen & _).
  rewrite length_app. split; [lia|]. intros _. destruct (Hf c Hc) as (d & Hd1 & Hd2). exists d. split; [done|].
  replace (Z.to_nat _) with (length qs) by lia. lia.
Qed.

(** A new segment comes after everything was flushed. *)
Lemma flush_inv_new w w' b bs rs m :
  flush_inv w b bs rs m -> advances w w' -> (forall x, x ∈ bs -> seg_len w' x = seg_len w x) ->
  (forall c, last bs = Some c -> flushed w' c (seg_len w' c)) -> flush_inv w' b (bs ++ [b + Z.of_nat (length rs)]) rs (length rs).
Proof.
  intros [Ho Hl Hm] [_ Ha] Hsame Hf. split; [|intros c; rewrite last_snoc; intros [= <-]; split; [lia|lia]|lia].
  intros x [Hx| ->%list_elem_of_singleton]%elem_of_app Hn; [|by rewrite last_snoc in Hn].
  destruct (decide (last bs = Some x)) as [E|E]; [by apply Hf|]. rewrite Hsame by done. apply Ha; [by apply Ho|done].
Qed.

(** ** [Append] under a durable policy *)

(** The state of a log between calls: ready, the first [m] records flushed, and the
    coordinator's counters no further than the appends. *)
Record durable_log (w : World) (l : Log) (b : Z) (rs : list (list byte)) (m : nat) : Prop := {
  dl_ready : log_ready w l b rs;
  dl_flush : flush_inv w b (bases l) rs m;
  dl_policy : SyncPolicy_Durable (op_Sync (lg_opts l)) = true;
  dl_max : op_MaxSegmentBytes (lg_opts l) <= 4294967296;
  dl_synced : sc_synced (lg_syncer l) <= lg_seq l;
  dl_pending : sc_pending (lg_syncer l) <= lg_seq l;
  dl_seq : 0 <= lg_seq l <= b + Z.of_nat (length rs)
}.

Lemma seg_len_same w w' c x : fs_same_except (files_at c) w w' -> is_u64 c -> is_u64 x -> x <> c -> seg_len w' x = seg_len w x.
Proof.
  intros Hs Hc Hx Hne. unfold seg_len. f_equal. apply content_eq_at, Hs. apply (files_at_disjoint x c); [done|done|done|by left].
Qed.

Lemma seg_len_fs w w' x : fs w' = fs w -> seg_len w' x = seg_len w x.
Proof. intros E. unfold seg_len. f_equal. by apply content_eq. Qed.

(** What rolling does to the disk: nothing, or the full segment is flushed and the
    next one appears. *)
Lemma roll_effect w l b rs active p r w' l' :
  log_ready w l b rs -> last (lg_segments l) = Some active -> is_u64 (b + Z.of_nat (length rs)) -> op_Sync (lg_opts l) <> SyncNever ->
  roll_if_full p active (w, l) = (r, (w', l')) ->
  fs_same_except (files_at (b + Z.of_nat (length rs))) w w' /\
  (sc_synced (lg_syncer l) <= lg_seq l -> sc_synced (lg_syncer l') <= lg_seq l) /\
  (sc_pending (lg_syncer l) <= lg_seq l -> sc_pending (lg_syncer l') <= lg_seq l) /\
  ((fs w' = fs w /\ bases l' = bases l) \/
   (flushed w' (sg_baseOffset active) (seg_len w' (sg_baseOffset active)) /\
    (is_ok r = true -> bases l' = bases l ++ [b + Z.of_nat (length rs)]))).
Proof.
  intros Hready Hlast Hu Hpol. pose proof (lr_inv _ _ _ _ Hready) as Hinv.
  destruct (log_last _ _ _ _ _ Hinv Hlast) as (ss & rs0 & qs & Hss & Hrs & Hch & Hact & Hbase & Hlt & Hnext).
  unfold roll_if_full. cbv zeta. destruct (_ && _) eqn:Hfull; [|intros [= _ <- <-]; split_and!; [reflexivity|done|done|by left]].
  unfold roll_sync. rewrite (proj2 (Z.eqb_neq _ _) Hpol). cbn [negb]. destruct (segment_sync active w) as [[[]|e] w1] eqn:Es.
  2:{ intros [= _ <- <-]. apply segment_sync_spec in Es as [Hfs _]. split_and!; [by apply fs_same_eq|done|done|by left]. }
  pose proof (segment_sync_spec _ _ _ _ Es) as [Hfs1 _]. pose proof (segment_sync_flushes _ _ _ _ Hact Es) as Hfl.
  rewrite Hnext. destruct (createSegment _ w1) as [r2 w2] eqn:Ec.
  pose proof (li_index _ _ _ _ Hinv) as Hix.
  assert (Hix1 : fs w1 !! segmentName (b + Z.of_nat (length rs)) = None -> fs w1 !! indexName (b + Z.of_nat (length rs)) = None) by (rewrite Hfs1; apply Hix).
  pose proof (createSegment_spec w1 _ r2 w2 Hu Hix1 Ec) as (Hsame & _ & _ & Hr2).
  assert (Hsame' : fs_same_except (files_at (b + Z.of_nat (length rs))) w w2) by (etrans; [by apply fs_same_eq|exact Hsame]).
  assert (Hne : sg_baseOffset active <> b + Z.of_nat (length rs)).
  { apply andb_true_iff in Hfull as [Hnz _]. apply Z.ltb_lt in Hnz. lia. }
  assert (Hfl2 : flushed w2 (sg_baseOffset active) (seg_len w2 (sg_baseOffset active))).
  { rewrite (seg_len_same _ _ _ _ Hsame' Hu (seg_u64 _ _ _ Hact) Hne).
    apply (ad_flushed w1); [|exact Hfl|by rewrite (seg_len_fs w w1)]. eapply (resp_createSegment advances); [..|exact Ec]; eauto with disk. }
  assert (Hmark : forall x, x <= lg_seq l -> (if x <? lg_seq l then lg_seq l else x) <= lg_seq l) by (intros x Hx; clear -Hx; destruct (_ <? _); lia).
  destruct r2 as [s|e]; intros [= <- <- <-]; (split; [done|]); (split; [intros Hx; by apply Hmark|]); (split; [intros Hx; by apply Hmark|]); right; (split; [done|]); [|done].
  intros _. unfold bases. cbn. rewrite fmap_app. cbn. by destruct Hr2 as (_ & -> & _).
Qed.

Lemma roll_flushed w l b rs active p r w' l' m :
  durable_log w l b rs m -> last (lg_segments l) = Some active -> is_u64 (b + Z.of_nat (length rs)) ->
  (is_ok r = false -> forall c, fs w' !! segmentName (b + Z.of_nat (length rs)) = Some c -> (16 <= length c)%nat) ->
  roll_if_full p active (w, l) = (r, (w', l')) ->
  exists bs' m', dir_holds seg_tidy w' b bs' rs /\ flush_inv w' b bs' rs m' /\ (m <= m')%nat /\
    (is_ok r = true -> bs' = bases l' /\ log_ready w' l' b rs).
Proof.
  intros [Hready Hfl Hpol _ _ _ _] Hlast Hu Htorn E.
  assert (Hnever : op_Sync (lg_opts l) <> SyncNever) by (intros Ep; by rewrite Ep in Hpol).
  destruct (roll_crash _ _ _ _ _ _ _ _ _ Hready Hlast Hu Htorn E) as [Hdir Hok].
  destruct (roll_effect _ _ _ _ _ _ _ _ _ Hready Hlast Hu Hnever E) as (Hsame & _ & _ & Hcase).
  assert (Hadv : advances w w') by (eapply (resp_roll advances); [..|exact E]; eauto with disk).
  pose proof (ready_tidy _ _ _ _ Hready) as Hd0.
  assert (Hlast' : last (bases l) = Some (sg_baseOffset active)) by (unfold bases; by rewrite fmap_last, Hlast).
  assert (Hlen : forall x, x ∈ bases l -> x <> b + Z.of_nat (length rs) -> seg_len w' x = seg_len w x).
  { intros x Hx Hne. eapply seg_len_same; [exact Hsame|done| |done]. destruct (disk_chain_facts _ _ _ _ (dh_chain _ _ _ _ _ (dir_tidy_disk _ _ _ _ Hd0))) as [Hu64 _].
    rewrite Forall_forall in Hu64. by apply Hu64. }
  assert (Hstay : (forall x, x ∈ bases l -> last (bases l) <> Some x -> seg_len w' x = seg_len w x) -> flush_inv w' b (bases l) rs m).
  { intros Hx. by eapply (flush_inv_step index_exact w w'). }
  assert (Hbig : forall x, x ∈ bases l -> last (bases l) <> Some x -> x <> b + Z.of_nat (length rs)).
  { intros x Hx Hn ->. destruct (dir_last _ _ _ _ _ _ Hd0 Hlast') as (bs0 & rs0 & qs & Ebs & -> & Ec & _ & _ & _ & Hlt & _).
    rewrite Ebs in Hx. apply elem_of_app in Hx as [Hx| Hx%list_elem_of_singleton]; [|by rewrite Hlast', Hx in Hn].
    rewrite Forall_forall in Hlt. specialize (Hlt _ Hx). cbn in Hlt. rewrite length_app in Hlt. lia. }
  destruct Hcase as [[Hfs Hb']|[Hact Hnew]].
  - exists (bases l), m. split; [by eapply dir_holds_fs|]. split; [apply Hstay; intros; by apply seg_len_fs|]. split; [done|].
    intros Hk. split; [by rewrite Hb'|by apply Hok].
  - assert (Hfresh : dir_holds seg_tidy w' b (bases l ++ [b + Z.of_nat (length rs)]) rs ->
      flush_inv w' b (bases l ++ [b + Z.of_nat (length rs)]) rs (length rs)).
    { intros Hd. apply (flush_inv_new w w' b _ rs m); [done|done| |intros c; rewrite Hlast'; by intros [= <-]].
      intros x Hx. apply Hlen; [done|]. intros ->. destruct (dir_last _ _ _ _ _ _ Hd ltac:(apply last_snoc)) as (bs0 & _ & _ & Ebs & _ & _ & _ & _ & _ & Hlt & _).
      apply app_inj_tail in Ebs as [<- _]. rewrite Forall_forall in Hlt. specialize (Hlt _ Hx). cbn in Hlt. lia. }
    destruct r as [[]|e].
    + specialize (Hok eq_refl). specialize (Hnew eq_refl). pose proof (ready_tidy _ _ _ _ Hok) as Hd. exists (bases l'), (length rs).
      rewrite Hnew in Hd |- *. split; [done|]. split; [by apply Hfresh|]. split; [apply Hfl|done].
    + destruct Hdir as [Hd|Hd].
      * exists (bases l), m. split; [done|]. split; [apply Hstay; intros x Hx Hn; apply Hlen; [done|by apply Hbig]|done].
      * exists (bases l ++ [b + Z.of_nat (length rs)]), (length rs). split; [done|]. split; [by apply Hfresh|]. split; [apply Hfl|done].
Qed.

(** The write itself. *)
Lemma append_active_flushed w l b rs p r w' l' a m :
  log_ready w l b rs -> flush_inv w b (bases l) rs m -> 0 <= b -> b + Z.of_nat (length rs) + 1 < 18446744073709551616 ->
  last (lg_segments l) = Some a -> (payload_ok p -> sg_size a + (8 + blen p) <= 4294967296) ->
  append_active p (w, l) = (r, (w', l')) ->
  bases l' = bases l /\
  exists rs', dir_holds seg_tidy w' b (bases l) rs' /\ flush_inv w' b (bases l) rs' m /\ (rs' = rs \/ rs' = rs ++ [p]) /\
    (is_ok r = true -> rs' = rs ++ [p]).
Proof.
  intros Hready Hfl Hb Hu Hlast Hfit E. pose proof (lr_inv _ _ _ _ Hready) as Hinv.
  destruct (append_active_crash _ _ _ _ _ _ _ _ _ Hready Hb Hu Hlast Hfit E) as (rs' & Hdir & Hor & Hok).
  assert (Hadv : advances w w') by (eapply (resp_append_active advances); [..|exact E]; eauto with disk).
  destruct (log_last _ _ _ _ _ Hinv Hlast) as (ss & rs0 & qs & Hss & Hrs & Hch & Hact & Hbase & Hlt & Hnext).
  unfold append_active in E. rewrite Hlast in E. destruct (segment_append p (w, a)) as [r1 [w1 a1]] eqn:Ea. injection E as <- <- <-.
  pose proof (segment_append_spec _ _ _ _ _ _ _ Hact ltac:(lia) Ea) as (Hsame & _ & Hb1 & _).
  unfold seg_files in Hsame. rewrite (si_file _ _ _ Hact), (si_ixfile _ _ _ Hact) in Hsame. fold (files_at (sg_baseOffset a)) in Hsame.
  split. { unfold bases. cbn. rewrite Hss, removelast_last, !fmap_app. cbn. by rewrite Hb1. }
  exists rs'. split; [done|]. split; [|done].
  apply (flush_inv_step index_exact w w1 b (bases l) rs rs' m); [by apply ready_tidy|done|done| |destruct Hor as [->| ->]; [done|by apply prefix_app_r]].
  intros x Hx Hn. unfold bases in Hx, Hn. rewrite Hss, fmap_app in Hx, Hn. cbn in Hn. rewrite last_snoc in Hn.
  apply elem_of_app in Hx as [Hx|Hx%list_elem_of_singleton]; [|by rewrite Hx in Hn].
  apply list_elem_of_fmap in Hx as (s & -> & Hs). destruct (chain_seg _ _ _ _ _ Hch Hs) as [xs Hxs].
  eapply seg_len_same; [exact Hsame|by eapply seg_u64|by eapply seg_u64|congruence].
Qed.

(** When the flush after an append is reported done, every record is on the medium. *)
Lemma sync_after_full seq since w l l3 b rs m w' l' :
  log_inv w l b rs -> lg_segments l3 = lg_segments l -> sc_syncing (lg_syncer l3) = false ->
  SyncPolicy_Durable (op_Sync (lg_opts l3)) = true -> sc_synced (lg_syncer l3) < seq ->
  dir_holds seg_tidy w' b (bases l) rs -> flush_inv w' b (bases l) rs m ->
  sync_after_append seq since (w, l3) = (Ok tt, (w', l')) -> flush_inv w' b (bases l) rs (length rs).
Proof.
  intros Hi Hsegs Hidle Hpol Hlt Hd Hf E. pose proof (sync_after_spec _ _ _ _ _ _ _ Hidle E) as (Hfs & _).
  destruct (last (lg_segments l)) as [a|] eqn:Ha; [|apply last_None in Ha; by destruct (li_open _ _ _ _ Hi)].
  destruct (log_last _ _ _ _ _ Hi Ha) as (_ & _ & qs & _ & _ & _ & Hact & _).
  assert (Hs : segment_sync a w = (Ok tt, w')) by (eapply (sync_after_flushes seq since w l3); [..|exact E]; try done; by rewrite Hsegs).
  pose proof (segment_sync_flushes _ _ _ _ Hact Hs) as Hfl. rewrite <- (seg_len_fs w w') in Hfl by done.
  eapply flush_inv_full; [exact Hd|exact Hf|]. intros c Hc. unfold bases in Hc. rewrite fmap_last, Ha in Hc. cbn in Hc. by injection Hc as <-.
Qed.

(** At every moment of an append at least the records flushed before it are
    flushed; after a successful one all are. *)
Lemma Append_durable w l b rs p r w' l' m :
  durable_log w l b rs m -> 0 <= b -> b + Z.of_nat (length rs) + 1 < 18446744073709551616 ->
  (forall c, fs w' !! segmentName (b + Z.of_nat (length rs)) = Some c -> (16 <= length c)%nat) ->
  Append p (w, l) = (r, (w', l')) ->
  (exists bs' rs' m', dir_holds seg_tidy w' b bs' rs' /\ flush_inv w' b bs' rs' m' /\ (m <= m')%nat /\ (rs' = rs \/ rs' = rs ++ [p]) /\
     (is_ok r = true -> rs' = rs ++ [p] /\ m' = length rs')) /\
  (is_ok r = true -> durable_log w' l' b (rs ++ [p]) (S (length rs))).
Proof.
  intros Hdl Hb Hu Htorn E. pose proof Hdl as [Hready Hfl Hpol Hmax Hsyn Hpen Hseq]. pose proof E as E0. unfold Append in E.
  destruct (last (lg_segments l)) as [active|] eqn:Hlast.
  2:{ apply last_None in Hlast. by destruct (li_open _ _ _ _ (lr_inv _ _ _ _ Hready)). }
  destruct (roll_if_full p active (w, l)) as [r1 [w1 l1]] eqn:H1.
  pose proof (roll_spec w l b rs _ _ _ _ _ (lr_inv _ _ _ _ Hready) Hlast ltac:(unfold is_u64; lia) H1) as (Hi1 & Ho1 & Hq1 & _ & _ & _ & Hok1).
  assert (Hnever : op_Sync (lg_opts l) <> SyncNever) by (intros Ep; by rewrite Ep in Hpol).
  destruct (roll_effect _ _ _ _ _ _ _ _ _ Hready Hlast ltac:(unfold is_u64; lia) Hnever H1) as (_ & Hsyn1 & Hpen1 & _).
  assert (Htorn1 : is_ok r1 = false -> forall c, fs w1 !! segmentName (b + Z.of_nat (length rs)) = Some c -> (16 <= length c)%nat).
  { intros Hr1. destruct r1; [done|]. injection E as _ <- _. exact Htorn. }
  destruct (roll_flushed _ _ _ _ _ _ _ _ _ _ Hdl Hlast ltac:(unfold is_u64; lia) Htorn1 H1) as (bs1 & m1 & Hd1 & Hf1 & Hm1 & Hokr).
  destruct r1 as [[]|e]; [|injection E as <- <- <-; split; [exists bs1, rs, m1; split_and!; try done; by left|done]].
  destruct (Hokr eq_refl) as [-> Hready1]. destruct (Hok1 eq_refl) as (a & Ha & Hasz).
  assert (Hfit : payload_ok p -> sg_size a + (8 + blen p) <= 4294967296).
  { intros Hp. unfold payload_ok in Hp. rewrite MaxRecordSize_val in Hp. change segmentHeaderSize with 16 in Hasz. lia. }
  destruct (append_active p (w1, l1)) as [r2 [w2 l2]] eqn:H2.
  destruct (append_active_flushed _ _ _ _ _ _ _ _ _ _ Hready1 Hf1 Hb Hu Ha Hfit H2) as (Hb2 & rs' & Hd2 & Hf2 & Hor & Hok2).
  pose proof (append_active_spec _ _ _ _ _ _ _ _ Hi1 ltac:(unfold is_u64; lia) H2) as (Ho2 & Hq2 & _ & Hy2 & _ & _ & Hr2).
  destruct r2 as [off|e]; [|injection E as <- <- <-; split; [exists (bases l1), rs', m1; by split_and!|done]].
  specialize (Hok2 eq_refl). subst rs'. destruct Hr2 as (_ & _ & Hi2).
  set (seq := uint64 (lg_seq l2 + 1)) in E. set (l3 := mkLog _ _ _ _ _) in E.
  assert (Eseq : seq = lg_seq l + 1) by (unfold seq; rewrite uint64_id by lia; lia).
  destruct (sync_after_append seq _ (w2, l3)) as [r4 [w4 l4]] eqn:H4.
  assert (Hidle : sc_syncing (lg_syncer l3) = false) by apply Hi2.
  pose proof (sync_after_spec _ _ _ _ _ _ _ Hidle H4) as (Hfs4 & Hsg4 & Ho4 & Hq4 & _ & _ & _).
  assert (Hadv4 : advances w2 w4) by (eapply (resp_sync_after advances); [..|exact H4]; eauto with disk).
  assert (Hd4 : dir_holds seg_tidy w4 b (bases l1) (rs ++ [p])) by (by eapply dir_holds_fs).
  assert (Hf4 : flush_inv w4 b (bases l1) (rs ++ [p]) m1).
  { eapply (flush_inv_step index_exact w2 w4); [exact Hd2|done|done|intros; by apply seg_len_fs|done]. }
  destruct r4 as [[]|e]; injection E as <- <- <-; [|split; [exists (bases l1), (rs ++ [p]), m1; split_and!; try done; by right|done]].
  assert (Hfull : flush_inv w4 b (bases l1) (rs ++ [p]) (S (length rs))).
  { replace (S (length rs)) with (length (rs ++ [p])) by (rewrite length_app; cbn; lia). rewrite <- Hb2 in Hd4, Hf4 |- *.
    apply (sync_after_full seq _ w2 l2 l3 b (rs ++ [p]) m1 w4 l4) in H4; try done; cbn; [by rewrite Ho2, Ho1|]. rewrite Hy2. specialize (Hsyn1 Hsyn). lia. }
  split.
  - exists (bases l1), (rs ++ [p]), (S (length rs)). split; [done|]. split; [done|]. pose proof (fi_len _ _ _ _ _ Hfl).
    split; [lia|]. split; [by right|]. intros _. split; [done|]. rewrite length_app. cbn. lia.
  - intros _. assert (Hopt : lg_opts l4 = lg_opts l) by (rewrite Ho4; cbn; congruence).
    assert (Hcnt : sc_synced (lg_syncer l4) <= seq /\ sc_pending (lg_syncer l4) <= seq).
    { specialize (Hsyn1 Hsyn). specialize (Hpen1 Hpen). apply (sync_after_bounds _ _ _ _ _ _ _ H4); cbn; rewrite Hy2; lia. }
    split.
    + apply (Append_ready w l b rs p off w4 l4); done.
    + assert (bases l4 = bases l1) as ->; [|done]. rewrite <- Hb2. unfold bases. by rewrite Hsg4.
    + by rewrite Hopt.
    + by rewrite Hopt.
    + rewrite Hq4. cbn. fold seq. apply Hcnt.
    + rewrite Hq4. cbn. fold seq. apply Hcnt.
    + rewrite Hq4, length_app. cbn. fold seq. lia.
Qed.

(** ** Losing power *)

(** [w2] is what may be found of [w] after a power loss: a file that was flushed is
    there, with at least what was flushed; a file holds the first bytes of what was
    written. Entries of the directory reach the medium in the order they were made,
    so that there is no index without its segment. Excluded are a segment header cut
    short, see [torn_header_is_permanent], and a file that was truncated and not
    flushed since. *)
Record power_lost (w w2 : World) : Prop := {
  pl_kept : forall n d, durable w !! n = Some d -> exists c2, fs w2 !! n = Some c2 /\ d `prefix_of` c2;
  pl_cut : forall n c2, fs w2 !! n = Some c2 -> exists c, fs w !! n = Some c /\ c2 `prefix_of` c;
  pl_order : index_follows w2;
  pl_header : forall b c2, fs w2 !! segmentName b = Some c2 -> (16 <= length c2)%nat;
  pl_durable : durable w2 = fs w2
}.

Lemma power_lost_index w w2 b : power_lost w w2 -> content w2 (indexName b) `prefix_of` content w (indexName b).
Proof.
  intros [_ Hc _ _ _]. unfold content at 1. destruct (fs w2 !! indexName b) as [c2|] eqn:E; [|apply prefix_nil].
  destruct (Hc _ _ E) as (c & Ec & Hp). unfold content. by rewrite Ec.
Qed.

(** What is left of one segment. *)
Lemma seg_lost w w2 c qs c2 : power_lost w w2 -> seg_tidy w c qs -> fs w2 !! segmentName c = Some c2 ->
  exists n, seg_disk w2 c (take n qs) /\ (n <= length qs)%nat /\
    (forall j, (j <= length qs)%nat -> flushed w c (pos_of qs j) -> (j <= n)%nat).
Proof.
  intros Hpl Ht E. destruct (pl_cut _ _ Hpl _ _ E) as (c1 & Ec & Hp).
  destruct (seg_tidy_cut w w2 c qs c1 c2 Ht Ec E Hp (pl_header _ _ Hpl _ _ E) (power_lost_index _ _ _ Hpl)) as (n & Hd & Hn & Hle).
  exists n. split; [done|]. split; [done|]. intros j Hj (d & Hd1 & Hd2). apply Hn; [done|].
  destruct (pl_kept _ _ Hpl _ _ Hd1) as (c2' & E' & [t ->]). rewrite E in E'. injection E' as ->. rewrite blen_app.
  pose proof (blen_nonneg t). lia.
Qed.

(** A segment that was flushed as a whole is left as a whole. *)
Lemma seg_flushed_kept w w2 c qs : power_lost w w2 -> seg_tidy w c qs -> flushed w c (seg_len w c) -> seg_disk w2 c qs.
Proof.
  intros Hpl Ht (d & Hd1 & Hd2). destruct (pl_kept _ _ Hpl _ _ Hd1) as (c2 & E & _).
  destruct (seg_lost w w2 c qs c2 Hpl Ht E) as (n & Hd & Hn & Hj).
  assert (Hlen : (length qs <= n)%nat).
  { apply Hj; [done|]. exists d. split; [done|]. etrans; [|exact Hd2].
    destruct Ht as [_ _ _ _ (tail & e & es & junk & Hf & _)]. unfold seg_len, content. rewrite Hf. cbn.
    rewrite pos_of_all, !blen_app, segment_header_blen. pose proof (blen_nonneg tail). lia. }
  by rewrite take_ge in Hd by lia.
Qed.

Lemma log_names_sub w w2 bs bs' : log_names w bs -> (forall n, is_Some (fs w2 !! n) -> is_Some (fs w !! n)) ->
  (forall c, c ∈ bs -> is_Some (fs w2 !! segmentName c) -> c ∈ bs') -> log_names w2 bs'.
Proof. intros Hn Hs Hb n Hi Hsuf. destruct (Hn n (Hs n Hi) Hsuf) as (c & Hc & ->). exists c. split; [by apply Hb|done]. Qed.

(** When everything on disk is flushed, all its records are. *)
Lemma flush_inv_all w b bs rs : durable w = fs w -> dir_holds seg_disk w b bs rs -> flush_inv w b bs rs (length rs).
Proof.
  intros Hdur Hd. destruct (disk_chain_facts _ _ _ _ (dh_chain _ _ _ _ _ Hd)) as (_ & _ & Hex).
  assert (Hall : forall x, x ∈ bs -> flushed w x (seg_len w x)).
  { intros x Hx. destruct (Hex x Hx) as [c Hc]. exists c. rewrite Hdur. split; [done|]. unfold seg_len, content. by rewrite Hc. }
  split; [intros x Hx _; by apply Hall| |done]. intros c Hc.
  destruct (dir_last _ _ _ _ _ _ Hd Hc) as (bs0 & rs0 & qs & -> & -> & Hcb & _ & -> & Hlen & _).
  rewrite length_app. split; [lia|]. intros _. destruct (Hall c ltac:(apply elem_of_app; right; by left)) as (d & H1 & H2).
  exists d. split; [done|]. replace (Z.to_nat _) with (length qs) by lia. lia.
Qed.

(** The directory opens again, with the first records, at least those flushed. *)
Lemma power_lost_dir w w2 bs rs m :
  dir_holds seg_tidy w 0 bs rs -> flush_inv w 0 bs rs m -> power_lost w w2 ->
  exists bs' rs', dir_holds seg_disk w2 0 bs' rs' /\ rs' `prefix_of` rs /\ (m <= length rs')%nat.
Proof.
  intros Hd [Ho Hl Hm] Hpl. pose proof (pl_order _ _ Hpl) as Hix.
  assert (Hsub : forall n, is_Some (fs w2 !! n) -> is_Some (fs w !! n)).
  { intros n [c2 E]. destruct (pl_cut _ _ Hpl _ _ E) as (c & Ec & _). eauto. }
  destruct (last bs) as [c|] eqn:Hlast.
  2:{ apply last_None in Hlast as ->. pose proof (dh_chain _ _ _ _ _ Hd) as Hc. inversion Hc as [|? ? ? ? _ _ _ _ Hbad]; [|by destruct bs].
      subst rs. exists [], []. split; [|by split]. split; [constructor|done| |done]. by eapply log_names_sub; [apply Hd|done|]. }
  destruct (dir_last _ _ _ _ _ _ Hd Hlast) as (bs0 & rs0 & qs & -> & -> & Hcb & Ht & Hq & Hlen & Hlt & Hch).
  assert (Hch2 : chain_of (seg_disk w2) 0 bs0 rs0).
  { eapply chain_of_mono; [|exact Hch]. intros x xs Hx Hxs. eapply seg_flushed_kept; [done|done|].
    apply Ho; [apply elem_of_app; by left|]. intros [= ->]. rewrite Forall_forall in Hlt. specialize (Hlt x Hx). cbn in Hlt. lia. }
  destruct (Hl c eq_refl) as [Hc1 Hc2]. rewrite Hq in Hc2. destruct (fs w2 !! segmentName c) as [c2|] eqn:E.
  - destruct (seg_lost w w2 c qs c2 Hpl Ht E) as (n & Hdn & Hn & Hj). exists (bs0 ++ [c]), (rs0 ++ take n qs). split; [|split].
    + split; [by constructor|by destruct bs0| |done]. by eapply log_names_sub; [apply Hd|done|].
    + apply prefix_app, prefix_take.
    + rewrite length_app, length_take, Nat.min_l by done. rewrite length_app in Hm. destruct (decide (c < 0 + Z.of_nat m)) as [Hlt'|]; [|lia].
      specialize (Hj (Z.to_nat (0 + Z.of_nat m - c)) ltac:(lia) (Hc2 Hlt')). lia.
  - assert (Hm0 : (m <= length rs0)%nat).
    { destruct (decide (c < 0 + Z.of_nat m)) as [Hlt'|]; [|lia]. destruct (Hc2 Hlt') as (d & Hd1 & _).
      destruct (pl_kept _ _ Hpl _ _ Hd1) as (? & ? & _). congruence. }
    exists bs0, rs0. split; [|split; [by apply prefix_app_r|done]]. split; [done|done| |done].
    eapply log_names_sub; [apply Hd|done|]. intros x [Hx| ->%list_elem_of_singleton]%elem_of_app [y Hy]; [done|congruence].
Qed.

(** ** Opening *)

Lemma Open_durable_log w bs rs m opts :
  faults w = [] -> dir_holds seg_disk w 0 bs rs -> flush_inv w 0 bs rs m ->
  SyncPolicy_Durable (op_Sync opts) = true -> op_MaxSegmentBytes (with_defaults opts) <= 4294967296 ->
  exists l w', BrokerLog.Open opts w = (Ok l, w') /\ durable_log w' l 0 rs m /\ faults w' = [].
Proof.
  intros Hf Hd [Ho Hl Hm] Hp Hmax. destruct (Open_spec w 0 bs rs opts Hf Hd) as (l & w' & E & Hr & Hf' & Hopt & Hb & Hsy & Hsq & Hcut).
  exists l, w'. split; [done|]. split; [|done]. pose proof (Open_durable _ _ _ _ E) as Hdur. split; [done| |by rewrite Hopt|by rewrite Hopt|by rewrite Hsy, Hsq..|lia].
  rewrite Hb. case_decide as Ebs.
  - subst bs. pose proof (dh_chain _ _ _ _ _ Hd) as Hc. inversion Hc as [|? ? ? ? _ _ _ _ Hbad]; [|by destruct bs]. subst rs. cbn in Hm.
    assert (m = 0%nat) as -> by lia. split; [|intros c [= <-]; split; lia|done]. intros x ->%list_elem_of_singleton Hn. by destruct Hn.
  - split; [|intros c Hc; destruct (Hl c Hc) as [H1 H2]; split; [done|]; unfold flushed; rewrite Hdur; exact H2|done].
    intros x Hx Hn. destruct (Ho x Hx Hn) as (d & Hd1 & Hd2). exists d. rewrite Hdur. split; [done|]. etrans; [by apply Hcut|exact Hd2].
Qed.

Lemma durable_log_faults w l b rs m fl : durable_log w l b rs m -> durable_log (with_faults w fl) l b rs m.
Proof.
  intros [Hr [F1 F2 F3] H3 H4 H5 H6 H7]. split; try done. apply (log_ready_same w _ l l); [done|done|apply Hr|done].
Qed.

(** Between calls no header is cut short. *)
Lemma ready_header w l b rs n c : log_ready w l b rs -> fs w !! segmentName n = Some c -> (16 <= length c)%nat.
Proof.
  intros Hr Hc. pose proof (ready_tidy _ _ _ _ Hr) as [Hch _ Hn _].
  destruct (Hn (segmentName n) ltac:(eauto) (HasSuffix_app _ _)) as (d & Hd & E). rewrite E in Hc. clear E Hn Hr.
  induction Hch as [|bs x rs qs _ IH Hs _ _]; [by apply elem_of_nil in Hd|].
  apply elem_of_app in Hd as [Hd|Hd%list_elem_of_singleton]; [by apply IH|]. subst d.
  destruct Hs as [_ _ _ _ (tail & e & es & junk & Hf & _)]. rewrite Hf in Hc. injection Hc as <-. rewrite length_app.
  pose proof (segment_header_blen x) as Hl. unfold blen in Hl. change segmentHeaderSize with 16 in Hl. lia.
Qed.

(** ** Theorem *)


(** ** Witness: the second append is cut short, and only what was flushed is left *)

Definition always : Options := mkOptions 0 SyncAlways 0.

Definition opened : World * Log :=
  match BrokerLog.Open always (mkWorld ∅ []) with (Ok l, w) => (w, l) | (Err _, w) => (w, mkLog always [] 0 0 newSyncCoordinator) end.

Definition one_record : World * Log := (Append [x41; x42] opened).2.

Definition in_flight : World * Log := (Append [x43] (with_faults one_record.1 [Fault 5], one_record.2)).2.

Definition left_over : World := mkWorld (durable in_flight.1) [].

Lemma durable_keys (m : gmap string (list byte)) c d : m = {[segmentName 0 := c; indexName 0 := d]} ->
  (forall b, m !! segmentName b = None -> m !! indexName b = None) /\
  (forall b x, m !! segmentName b = Some x -> x = c).
Proof.
  intros ->. split.
  - intros b Hn. destruct (decide (indexName b = indexName 0)) as [E|E].
    + rewrite (indexName_segment _ _ E), lookup_insert_eq in Hn. done.
    + rewrite lookup_insert_ne by apply names_apart. by rewrite lookup_singleton_ne.
  - intros b x. destruct (decide (segmentName 0 = segmentName b)) as [<-|E]; [rewrite lookup_insert_eq; by intros [= ->]|].
    rewrite lookup_insert_ne, lookup_singleton_ne by (done || apply not_eq_sym, names_apart). done.
Qed.

(** Only what was flushed is left. *)
Definition tail_unflushed (w : World) : bool :=
  let c := default [] (durable w !! segmentName 0) in
  let d := default [] (durable w !! indexName 0) in
  bool_decide (durable w = {[segmentName 0 := c; indexName 0 := d]} /\
    fs w = {[segmentName 0 := c ++ drop (length c) (content w (segmentName 0)); indexName 0 := d]} /\ (16 <= length c)%nat).

Lemma only_flushed w : tail_unflushed w = true -> power_lost w (mkWorld (durable w) []).
Proof.
  intros (E & Ef & Hc)%bool_decide_eq_true. set (c := default [] (durable w !! segmentName 0)) in *.
  set (d := default [] (durable w !! indexName 0)) in *. clearbody c d. destruct (durable_keys _ c d E) as [K1 K2]. split.
  - intros n x Hx. by exists x.
  - intros n x. cbn [mkWorld fs]. rewrite E, Ef. destruct (decide (n = segmentName 0)) as [->|H1].
    + rewrite !lookup_insert_eq. intros [= <-]. eexists. split; [done|by apply prefix_app_r].
    + rewrite !lookup_insert_ne by done. intros Hx. by exists x.
  - exact K1.
  - intros b x Hx. by rewrite (K2 b x Hx).
  - done.
Qed.

Lemma left_over_lost : power_lost in_flight.1 left_over.
Proof. apply only_flushed. vm_compute. reflexivity. Qed.

Lemma torn_file : fs in_flight.1 <> fs left_over.
Proof. intros E. apply (f_equal (fun m => length (default [] (m !! segmentName 0)))) in E. revert E. vm_compute. discriminate. Qed.

