(* ===== verification/Unicode.v ===== *)
(** * UTF-8 and base64

    What [encoding/json] uses of [unicode/utf8], [unicode/utf16] and
    [encoding/base64]. Text is a list of bytes, a rune a code point. *)

From S2P Require Import Prelude Bytes.

(** ** UTF-8 *)

Definition RuneError : Z := 65533.

Definition is_surrogate (r : Z) : bool := (55296 <=? r) && (r <=? 57343).

(** A rune that has an encoding. *)
Definition valid_rune (r : Z) : bool := (0 <=? r) && (r <=? 1114111) && negb (is_surrogate r).

Definition EncodeRune (r : Z) : list byte :=
  let r := if valid_rune r then r else RuneError in
  if r <? 128 then [byte_of r]
  else if r <? 2048 then [byte_of (192 + r / 64); byte_of (128 + r mod 64)]
  else if r <? 65536 then [byte_of (224 + r / 4096); byte_of (128 + r / 64 mod 64); byte_of (128 + r mod 64)]
  else [byte_of (240 + r / 262144); byte_of (128 + r / 4096 mod 64); byte_of (128 + r / 64 mod 64); byte_of (128 + r mod 64)].

Definition in_range (lo hi : Z) (b : byte) : bool := (lo <=? byte_val b) && (byte_val b <=? hi).

(** The bytes that may follow a first byte: a continuation byte, less what would
    be overlong, a surrogate or beyond the last code point. *)
Definition second_ok (x0 : Z) : byte -> bool :=
  in_range (if x0 =? 224 then 160 else if x0 =? 240 then 144 else 128)
           (if x0 =? 237 then 159 else if x0 =? 244 then 143 else 191).

(** The first rune of [s] and its size; a byte that starts none is a
    [RuneError] of size 1. *)
Definition DecodeRune (s : list byte) : Z * nat :=
  match s with
  | [] => (RuneError, 0%nat)
  | b0 :: r =>
      let x0 := byte_val b0 in
      if x0 <? 128 then (x0, 1%nat)
      else if (x0 <? 194) || (244 <? x0) then (RuneError, 1%nat)
      else
        match r with
        | [] => (RuneError, 1%nat)
        | b1 :: r =>
            if negb (second_ok x0 b1) then (RuneError, 1%nat)
            else if x0 <? 224 then ((x0 - 192) * 64 + (byte_val b1 - 128), 2%nat)
            else
              match r with
              | [] => (RuneError, 1%nat)
              | b2 :: r =>
                  if negb (in_range 128 191 b2) then (RuneError, 1%nat)
                  else if x0 <? 240 then
                    ((x0 - 224) * 4096 + (byte_val b1 - 128) * 64 + (byte_val b2 - 128), 3%nat)
                  else
                    match r with
                    | [] => (RuneError, 1%nat)
                    | b3 :: _ =>
                        if negb (in_range 128 191 b3) then (RuneError, 1%nat)
                        else ((x0 - 240) * 262144 + (byte_val b1 - 128) * 4096 + (byte_val b2 - 128) * 64
                              + (byte_val b3 - 128), 4%nat)
                    end
              end
        end
  end.

(** [utf16.DecodeRune]: the rune of a surrogate pair. *)
Definition utf16_DecodeRune (r1 r2 : Z) : Z :=
  if (55296 <=? r1) && (r1 <? 56320) && (56320 <=? r2) && (r2 <? 57344)
  then (r1 - 55296) * 1024 + (r2 - 56320) + 65536
  else RuneError.

(** Well-formed text is a sequence of encoded runes. *)
Definition utf8 (s : list byte) : Prop := exists rs, s = concat (map EncodeRune rs).

(** *** Lemmas *)

Lemma EncodeRune_error r : valid_rune r = false -> EncodeRune r = EncodeRune RuneError.
Proof. intros H. unfold EncodeRune. by rewrite H. Qed.

Lemma EncodeRune_not_nil r : EncodeRune r <> [].
Proof. unfold EncodeRune. repeat case_match; done. Qed.

Lemma valid_rune_range r : valid_rune r = true -> 0 <= r <= 1114111 /\ (r < 55296 \/ 57343 < r).
Proof. unfold valid_rune, is_surrogate. intros H. lia. Qed.

Ltac byte_vals := rewrite ?byte_val_of in *; unfold second_ok, in_range; rewrite ?byte_val_of in *.

(** The test of a branch that is not taken contradicts the range of the rune. *)
Ltac no_branch :=
  match goal with |- context [if ?c then _ else _] =>
    let F := fresh in
    destruct c eqn:F; [exfalso; repeat match type of F with context [if ?d then _ else _] => destruct d eqn:? end; lia|]
  end.

Ltac yes_branch :=
  match goal with |- context [if ?c then _ else _] => let F := fresh in destruct c eqn:F; [|exfalso; lia] end.

(** Decode after encode. *)
Lemma DecodeRune_Encode r t : valid_rune r = true ->
  DecodeRune (EncodeRune r ++ t) = (r, length (EncodeRune r)).
Proof.
  intros Hv. pose proof (valid_rune_range r Hv) as [Hr Hs]. unfold EncodeRune. rewrite Hv.
  destruct (r <? 128) eqn:E1.
  { cbn. rewrite byte_val_of, Z.mod_small by lia. rewrite E1. done. }
  destruct (r <? 2048) eqn:E2.
  { cbn. byte_vals. rewrite !Z.mod_small by lia. do 3 no_branch. yes_branch. f_equal. lia. }
  destruct (r <? 65536) eqn:E3.
  { cbn. byte_vals. rewrite !Z.mod_small by lia. do 5 no_branch. yes_branch. f_equal. lia. }
  cbn. byte_vals. rewrite !Z.mod_small by lia. do 7 no_branch. f_equal. lia.
Qed.

Lemma utf8_nil : utf8 [].
Proof. by exists []. Qed.

Lemma utf8_app s t : utf8 s -> utf8 t -> utf8 (s ++ t).
Proof. intros [rs ->] [rs' ->]. exists (rs ++ rs'). by rewrite map_app, concat_app. Qed.

Lemma utf8_rune r : utf8 (EncodeRune r).
Proof. exists [r]. cbn. by rewrite app_nil_r. Qed.

Lemma EncodeRune_ascii b : byte_val b < 128 -> EncodeRune (byte_val b) = [b].
Proof.
  intros H. pose proof (byte_val_range b). unfold EncodeRune, valid_rune, is_surrogate.
  destruct (_ && negb _) eqn:E; [|lia]. destruct (byte_val b <? 128) eqn:F; [|lia]. by rewrite byte_of_val.
Qed.

Lemma utf8_ascii s : forallb (fun b => byte_val b <? 128) s = true -> utf8 s.
Proof.
  intros H. exists (map byte_val s). rewrite map_map. induction s as [|b s IH]; [done|].
  cbn in H |- *. apply andb_true_iff in H as [Hb Hs]. rewrite EncodeRune_ascii by lia. cbn. by rewrite <- IH.
Qed.

(** Every text can be taken to be made of valid runes. *)
Lemma utf8_valid s : utf8 s -> exists rs, Forall (fun r => valid_rune r = true) rs /\ s = concat (map EncodeRune rs).
Proof.
  intros [rs ->]. exists (map (fun r => if valid_rune r then r else RuneError) rs). split.
  - apply Forall_fmap, Forall_true. intros r. cbn. by destruct (valid_rune r) eqn:E.
  - rewrite map_map. f_equal. apply map_ext. intros r. destruct (valid_rune r) eqn:E; [done|by apply EncodeRune_error].
Qed.

(** A rune beyond ASCII starts with a byte beyond ASCII. *)
Lemma EncodeRune_high r : valid_rune r = true -> 128 <= r ->
  exists b t, EncodeRune r = b :: t /\ 128 <= byte_val b.
Proof.
  intros Hv Hr. pose proof (valid_rune_range r Hv) as [H1 H2]. unfold EncodeRune. rewrite Hv.
  destruct (r <? 128) eqn:E1; [lia|].
  destruct (r <? 2048) eqn:E2; [|destruct (r <? 65536) eqn:E3];
    (do 2 eexists; split; [done|]); rewrite byte_val_of, Z.mod_small by lia; lia.
Qed.

(** ** Base64 *)

Definition base64_char (v : Z) : byte :=
  if v <? 26 then byte_of (65 + v)
  else if v <? 52 then byte_of (97 + (v - 26))
  else if v <? 62 then byte_of (48 + (v - 52))
  else if v =? 62 then "+"%byte else "/"%byte.

Definition base64_val (b : byte) : option Z :=
  let x := byte_val b in
  if (65 <=? x) && (x <=? 90) then Some (x - 65)
  else if (97 <=? x) && (x <=? 122) then Some (x - 97 + 26)
  else if (48 <=? x) && (x <=? 57) then Some (x - 48 + 52)
  else if x =? 43 then Some 62
  else if x =? 47 then Some 63
  else None.

Definition pad_char : byte := "="%byte.

Fixpoint base64_encode (s : list byte) : list byte :=
  match s with
  | [] => []
  | [a] => let x := byte_val a in [base64_char (x / 4); base64_char (x mod 4 * 16); pad_char; pad_char]
  | [a; b] =>
      let x := byte_val a * 256 + byte_val b in
      [base64_char (x / 1024); base64_char (x / 16 mod 64); base64_char (x mod 16 * 4); pad_char]
  | a :: b :: c :: r =>
      let x := byte_val a * 65536 + byte_val b * 256 + byte_val c in
      [base64_char (x / 262144); base64_char (x / 4096 mod 64); base64_char (x / 64 mod 64); base64_char (x mod 64)]
      ++ base64_encode r
  end.

(** The quanta of a text without line breaks; padding ends it. *)
Fixpoint base64_quanta (s : list byte) : option (list byte) :=
  match s with
  | [] => Some []
  | a :: b :: c :: d :: r =>
      va ← base64_val a; vb ← base64_val b;
      if decide (c = pad_char) then
        if decide (d = pad_char /\ r = []) then Some [byte_of (va * 4 + vb / 16)] else None
      else
        vc ← base64_val c;
        if decide (d = pad_char) then
          if decide (r = []) then Some [byte_of (va * 4 + vb / 16); byte_of (vb mod 16 * 16 + vc / 4)] else None
        else
          vd ← base64_val d; rest ← base64_quanta r;
          Some (byte_of (va * 4 + vb / 16) :: byte_of (vb mod 16 * 16 + vc / 4) :: byte_of (vc mod 4 * 64 + vd) :: rest)
  | _ => None
  end.

(** [StdEncoding.Decode] passes over line breaks. *)
Definition base64_decode (s : list byte) : option (list byte) :=
  base64_quanta (List.filter (fun b => negb (Byte.eqb b x0a || Byte.eqb b x0d)) s).

(** *** Lemmas *)

Lemma base64_val_char v : 0 <= v < 64 -> base64_val (base64_char v) = Some v.
Proof.
  intros H. unfold base64_char. repeat case_match; unfold base64_val; rewrite ?byte_val_of, ?Z.mod_small by lia;
    repeat case_match; try lia; f_equal; try lia; try (vm_compute in *; congruence).
Qed.

(** The bytes that may appear in an encoding. *)
Definition base64_byte (b : byte) : Prop := b = pad_char \/ is_Some (base64_val b).

Lemma base64_char_ok v : 0 <= v < 64 -> base64_char v <> pad_char /\ base64_byte (base64_char v).
Proof.
  intros H. pose proof (base64_val_char v H) as E. split; [|right; eauto]. intros F. rewrite F in E. by vm_compute in E.
Qed.

Lemma base64_encode_bytes s : Forall base64_byte (base64_encode s).
Proof.
  assert (P : base64_byte pad_char) by by left.
  assert (C : forall v l, 0 <= v < 64 -> Forall base64_byte l -> Forall base64_byte (base64_char v :: l)).
  { intros v l Hv Hl. constructor; [by apply base64_char_ok|done]. }
  induction s as [s IH] using (induction_ltof1 _ (@length byte)). unfold ltof in IH.
  destruct s as [|a [|b [|c r]]]; [by apply Forall_nil|..]; pose proof (byte_val_range a);
    try pose proof (byte_val_range b); try pose proof (byte_val_range c); cbn -[Z.div Z.modulo];
    repeat (apply C; [lia|]); [by repeat apply Forall_cons_2..|]. apply IH. cbn. lia.
Qed.

Lemma base64_no_breaks s : Forall base64_byte s ->
  List.filter (fun b => negb (Byte.eqb b x0a || Byte.eqb b x0d)) s = s.
Proof.
  intros H. induction H as [|b s Hb _ IH]; [done|]. cbn [List.filter]. rewrite IH.
  destruct (Byte.eqb b x0a || Byte.eqb b x0d) eqn:E; [|done]. exfalso.
  apply orb_true_iff in E as [E|E]; apply Byte.byte_dec_bl in E as ->; destruct Hb as [Hb|[v Hb]]; done.
Qed.

Lemma base64_quanta_encode s : base64_quanta (base64_encode s) = Some s.
Proof.
  induction s as [s IH] using (induction_ltof1 _ (@length byte)). unfold ltof in IH.
  destruct s as [|a [|b [|c r]]]; [done|..]; pose proof (byte_val_range a); try pose proof (byte_val_range b); try pose proof (byte_val_range c).
  - cbn -[Z.div Z.modulo]. rewrite !base64_val_char by lia. cbn -[Z.div Z.modulo].
    f_equal. bytes_eq.
  - cbn -[Z.div Z.modulo pad_char]. rewrite !base64_val_char by lia. cbn -[Z.div Z.modulo pad_char].
    rewrite decide_False by (apply base64_char_ok; lia). rewrite (decide_True (P := pad_char = pad_char)), (decide_True (P := [] = [])) by done.
    f_equal. bytes_eq.
  - cbn -[Z.div Z.modulo pad_char]. rewrite !base64_val_char by lia. cbn -[Z.div Z.modulo pad_char].
    rewrite !decide_False by (apply base64_char_ok; lia). rewrite IH by (cbn; lia). cbn -[Z.div Z.modulo]. f_equal. bytes_eq.
Qed.

(** Decode after encode. *)
Lemma base64_roundtrip s : base64_decode (base64_encode s) = Some s.
Proof. unfold base64_decode. rewrite base64_no_breaks by apply base64_encode_bytes. apply base64_quanta_encode. Qed.
