(* ===== verification/Json.v ===== *)
(** * JSON text: what the code uses of [encoding/json]

    Printing of strings, the scanner that delimits and checks one value, and the
    decoding of an object into a struct whose fields are given by name. The
    packages that call [json.Marshal] and [Decoder.Decode] instantiate it with
    their own structs. *)

From S2P Require Import Prelude Bytes Unicode.

Definition quote : byte := x22.

Definition backslash : byte := x5c.

Definition hex_char (v : Z) : byte := byte_of (if v <? 10 then 48 + v else 97 + (v - 10)).

Definition hex_val (b : byte) : option Z :=
  let x := byte_val b in
  if (48 <=? x) && (x <=? 57) then Some (x - 48)
  else if (97 <=? x) && (x <=? 102) then Some (x - 97 + 10)
  else if (65 <=? x) && (x <=? 70) then Some (x - 65 + 10)
  else None.

(** ** Printing strings: [appendString] with [escapeHTML] *)

(** [htmlSafeSet] *)
Definition html_safe (b : byte) : bool :=
  (32 <=? byte_val b) && negb (bool_decide (b ∈ [quote; backslash; "<"; ">"; "&"]%byte)).

Definition escape_ascii (b : byte) : list byte :=
  if html_safe b then [b]
  else match b with
       | x5c => [backslash; backslash]
       | x22 => [backslash; quote]
       | x08 => [backslash; "b"%byte]
       | x0c => [backslash; "f"%byte]
       | x0a => [backslash; "n"%byte]
       | x0d => [backslash; "r"%byte]
       | x09 => [backslash; "t"%byte]
       | _ => [backslash; "u"; "0"; "0"; hex_char (byte_val b / 16); hex_char (byte_val b mod 16)]%byte
       end.

Fixpoint escape_loop (fuel : nat) (s : list byte) : list byte :=
  match fuel, s with
  | S fuel, b :: r =>
      if byte_val b <? 128 then escape_ascii b ++ escape_loop fuel r
      else
        let '(c, size) := DecodeRune s in
        if (c =? RuneError) && (size =? 1)%nat then
          [backslash; "u"; "f"; "f"; "f"; "d"]%byte ++ escape_loop fuel (drop size s)
        else if (c =? 8232) || (c =? 8233) then
          [backslash; "u"; "2"; "0"; "2"; hex_char (c mod 16)]%byte ++ escape_loop fuel (drop size s)
        else take size s ++ escape_loop fuel (drop size s)
  | _, _ => []
  end.

(** The text between the quotes. Every turn takes at least a byte. *)
Definition escape (s : list byte) : list byte := escape_loop (length s) s.

Definition print_string (s : list byte) : list byte := quote :: escape s ++ [quote].

(** ** Printing structs *)

(** A field: its name, and the text of its value. *)
Definition print_member (m : list byte * list byte) : list byte := quote :: m.1 ++ quote :: ":"%byte :: m.2.

Fixpoint print_members (ms : list (list byte * list byte)) : list byte :=
  match ms with
  | [] => []
  | [m] => print_member m
  | m :: ms => print_member m ++ ","%byte :: print_members ms
  end.

Definition print_object (ms : list (list byte * list byte)) : list byte :=
  "{"%byte :: print_members ms ++ ["}"%byte].

Definition print_null : list byte := ["n"; "u"; "l"; "l"]%byte.

(** A [[]byte]. *)
Definition print_bytes (b : option (list byte)) : list byte :=
  match b with
  | None => print_null
  | Some b => quote :: base64_encode b ++ [quote]
  end.

(** ** Reading strings: [unquote] *)

(** [getu4]: the value of [\uXXXX], or [-1]. *)
Definition getu4 (s : list byte) : Z :=
  match s with
  | a :: u :: h1 :: h2 :: h3 :: h4 :: _ =>
      if Byte.eqb a backslash && Byte.eqb u "u"%byte then
        match hex_val h1, hex_val h2, hex_val h3, hex_val h4 with
        | Some v1, Some v2, Some v3, Some v4 => v1 * 4096 + v2 * 256 + v3 * 16 + v4
        | _, _, _, _ => -1
        end
      else -1
  | _ => -1
  end.

(** The byte an escape other than [\u] stands for. *)
Definition unescape (b : byte) : option byte :=
  match b with
  | x22 | x5c | x2f | x27 => Some b
  | x62 => Some x08
  | x66 => Some x0c
  | x6e => Some x0a
  | x72 => Some x0d
  | x74 => Some x09
  | _ => None
  end.

(** The rune of a [\u] escape at the head of [s], and what follows it: a
    surrogate takes its partner along or becomes [RuneError]. *)
Definition unquote_u4 (s : list byte) : option (Z * list byte) :=
  let rr := getu4 s in
  if rr <? 0 then None
  else
    let rest := drop 6 s in
    if is_surrogate rr then
      let dec := utf16_DecodeRune rr (getu4 rest) in
      if dec =? RuneError then Some (RuneError, rest) else Some (dec, drop 6 rest)
    else Some (rr, rest).

(** One turn of the loop on a text that is not empty; [k] reads the rest. *)
Definition unquote_step (k : list byte -> option (list byte)) (c : byte) (r : list byte) : option (list byte) :=
  if Byte.eqb c backslash then
    match r with
    | [] => None
    | e :: r' =>
        if Byte.eqb e "u"%byte then
          '(rr, rest) ← unquote_u4 (c :: r);
          t ← k rest;
          Some (EncodeRune rr ++ t)
        else
          b ← unescape e;
          t ← k r';
          Some (b :: t)
    end
  else if Byte.eqb c quote || (byte_val c <? 32) then None
  else if byte_val c <? 128 then t ← k r; Some (c :: t)
  else
    let '(rr, size) := DecodeRune (c :: r) in
    t ← k (drop size (c :: r));
    Some (EncodeRune rr ++ t).

Fixpoint unquote_loop (fuel : nat) (s : list byte) : option (list byte) :=
  match s with
  | [] => Some []
  | c :: r =>
      match fuel with
      | O => None
      | S fuel => unquote_step (unquote_loop fuel) c r
      end
  end.

(** The string a literal denotes, given the text between its quotes. *)
Definition unquote (raw : list byte) : option (list byte) := unquote_loop (length raw) raw.

(** ** The scanner *)

Unset Elimination Schemes.

Inductive json : Type :=
| JNull
| JBool (b : bool)
| JNumber (raw : list byte)
| JString (raw : list byte)
| JArray (elements : list json)
| JObject (members : list (list byte * json)).

Set Elimination Schemes.

(** A value and what follows it; the input ended first; a byte that cannot be
    there. *)
Inductive scan (A : Type) : Type :=
| Done (a : A) (rest : list byte)
| Short
| Bad.
Arguments Done {A} a rest.
Arguments Short {A}.
Arguments Bad {A}.

Definition scan_then {A B} (m : scan A) (f : A -> list byte -> scan B) : scan B :=
  match m with
  | Done a rest => f a rest
  | Short => Short
  | Bad => Bad
  end.

Definition is_space (b : byte) : bool := bool_decide (b ∈ [x20; x09; x0a; x0d]).

Fixpoint skip_space (s : list byte) : list byte :=
  match s with
  | b :: r => if is_space b then skip_space r else s
  | [] => []
  end.

(** The states inside a string: in the text, after a backslash, and with digits
    of [\uXXXX] still to come after the next one. *)
Inductive string_state : Type :=
| InString
| InStringEsc
| InStringEscU (more : nat).

(** The state after one more byte: [None] for a byte that cannot be there,
    [Some None] for the closing quote. *)
Definition string_step (st : string_state) (c : byte) : option (option string_state) :=
  match st with
  | InString =>
      if Byte.eqb c quote then Some None
      else if Byte.eqb c backslash then Some (Some InStringEsc)
      else if byte_val c <? 32 then None
      else Some (Some InString)
  | InStringEsc =>
      if bool_decide (c ∈ ["b"; "f"; "n"; "r"; "t"; backslash; "/"; quote]%byte) then Some (Some InString)
      else if Byte.eqb c "u"%byte then Some (Some (InStringEscU 3))
      else None
  | InStringEscU more =>
      match hex_val c with
      | None => None
      | Some _ => Some (Some (match more with O => InString | S more => InStringEscU more end))
      end
  end.

(** The rest of a string literal after its opening quote: the text up to the
    closing one. *)
Fixpoint scan_string (st : string_state) (s : list byte) : scan (list byte) :=
  match s with
  | [] => Short
  | c :: r =>
      match string_step st c with
      | None => Bad
      | Some None => Done [] r
      | Some (Some st) => scan_then (scan_string st r) (fun raw rest => Done (c :: raw) rest)
      end
  end.

(** The states of a number, named after the scanner's. *)
Inductive number_state : Type :=
| Neg
| Num0
| Num1
| Dot
| Dot0
| Exp
| ExpSign
| Exp0.

Definition is_digit_byte (b : byte) : bool := (48 <=? byte_val b) && (byte_val b <=? 57).

(** The state after one more byte; [None] when the byte is not part of the
    number. *)
Definition number_step (st : number_state) (c : byte) : option number_state :=
  let exp := bool_decide (c ∈ ["e"; "E"]%byte) in
  match st with
  | Neg => if Byte.eqb c "0"%byte then Some Num0 else if is_digit_byte c then Some Num1 else None
  | Num1 => if is_digit_byte c then Some Num1
            else if Byte.eqb c "."%byte then Some Dot else if exp then Some Exp else None
  | Num0 => if Byte.eqb c "."%byte then Some Dot else if exp then Some Exp else None
  | Dot => if is_digit_byte c then Some Dot0 else None
  | Dot0 => if is_digit_byte c then Some Dot0 else if exp then Some Exp else None
  | Exp => if bool_decide (c ∈ ["+"; "-"]%byte) then Some ExpSign else if is_digit_byte c then Some Exp0 else None
  | ExpSign => if is_digit_byte c then Some Exp0 else None
  | Exp0 => if is_digit_byte c then Some Exp0 else None
  end.

Definition number_complete (st : number_state) : bool :=
  match st with Num0 | Num1 | Dot0 | Exp0 => true | _ => false end.

Fixpoint scan_number (st : number_state) (s : list byte) : scan (list byte) :=
  match s with
  | [] => if number_complete st then Done [] [] else Short
  | c :: r =>
      match number_step st c with
      | Some st => scan_then (scan_number st r) (fun raw rest => Done (c :: raw) rest)
      | None => if number_complete st then Done [] s else Bad
      end
  end.

(** The rest of [true], [false] or [null]. *)
Fixpoint scan_literal (v : json) (lit s : list byte) : scan json :=
  match lit, s with
  | [], _ => Done v s
  | _ :: _, [] => Short
  | c :: lit, b :: r => if Byte.eqb b c then scan_literal v lit r else Bad
  end.

Definition maxNestingDepth : Z := 10000.

(** A value, [depth] being the number of objects and arrays around it; the
    members of an object from the first key on; the elements of an array from the
    first value on. *)
Fixpoint parse_value (fuel : nat) (depth : Z) (s : list byte) : scan json :=
  match fuel with
  | O => Bad
  | S fuel =>
      match skip_space s with
      | [] => Short
      | c :: r =>
          if Byte.eqb c "{"%byte then
            if maxNestingDepth <=? depth then Bad
            else
              match skip_space r with
              | [] => Short
              | c' :: r' =>
                  if Byte.eqb c' "}"%byte then Done (JObject []) r'
                  else scan_then (parse_members fuel (depth + 1) (c' :: r')) (fun ms rest => Done (JObject ms) rest)
              end
          else if Byte.eqb c "["%byte then
            if maxNestingDepth <=? depth then Bad
            else
              match skip_space r with
              | [] => Short
              | c' :: r' =>
                  if Byte.eqb c' "]"%byte then Done (JArray []) r'
                  else scan_then (parse_elements fuel (depth + 1) (c' :: r')) (fun vs rest => Done (JArray vs) rest)
              end
          else if Byte.eqb c quote then
            scan_then (scan_string InString r) (fun raw rest => Done (JString raw) rest)
          else if Byte.eqb c "-"%byte then
            scan_then (scan_number Neg r) (fun raw rest => Done (JNumber (c :: raw)) rest)
          else if Byte.eqb c "0"%byte then
            scan_then (scan_number Num0 r) (fun raw rest => Done (JNumber (c :: raw)) rest)
          else if is_digit_byte c then
            scan_then (scan_number Num1 r) (fun raw rest => Done (JNumber (c :: raw)) rest)
          else if Byte.eqb c "t"%byte then scan_literal (JBool true) ["r"; "u"; "e"]%byte r
          else if Byte.eqb c "f"%byte then scan_literal (JBool false) ["a"; "l"; "s"; "e"]%byte r
          else if Byte.eqb c "n"%byte then scan_literal JNull ["u"; "l"; "l"]%byte r
          else Bad
      end
  end
with parse_members (fuel : nat) (depth : Z) (s : list byte) : scan (list (list byte * json)) :=
  match fuel with
  | O => Bad
  | S fuel =>
      match skip_space s with
      | [] => Short
      | c :: r =>
          if negb (Byte.eqb c quote) then Bad
          else scan_then (scan_string InString r) (fun key r =>
            match skip_space r with
            | [] => Short
            | c :: r =>
                if negb (Byte.eqb c ":"%byte) then Bad
                else scan_then (parse_value fuel depth r) (fun v r =>
                  match skip_space r with
                  | [] => Short
                  | c :: r =>
                      if Byte.eqb c "}"%byte then Done [(key, v)] r
                      else if Byte.eqb c ","%byte then
                        scan_then (parse_members fuel depth r) (fun ms rest => Done ((key, v) :: ms) rest)
                      else Bad
                  end)
            end)
      end
  end
with parse_elements (fuel : nat) (depth : Z) (s : list byte) : scan (list json) :=
  match fuel with
  | O => Bad
  | S fuel =>
      scan_then (parse_value fuel depth s) (fun v r =>
        match skip_space r with
        | [] => Short
        | c :: r =>
            if Byte.eqb c "]"%byte then Done [v] r
            else if Byte.eqb c ","%byte then
              scan_then (parse_elements fuel depth r) (fun vs rest => Done (v :: vs) rest)
            else Bad
        end)
  end.

(** ** Decoding into a struct *)

(** Why a decoder refuses its input. *)
Inductive json_err : Type :=
| ErrSyntax
| ErrEOF
| ErrUnexpectedEOF
| ErrTooLarge
| ErrUnknownField (key : list byte)
| ErrUnmarshalType
| ErrTimeFormat
| ErrCorruptInput
| ErrPhase.

#[global] Instance json_err_eq_dec : EqDecision json_err.
Proof. solve_decision. Defined.

(** How a value is stored in a struct: a type mismatch is remembered and
    decoding goes on, the error of an [Unmarshaler] ends it. *)
Definition setter (S : Type) : Type := json -> S -> res json_err (S * option json_err).

(** A field of type [string]. *)
Definition store_string {S} (set : string -> S -> S) : setter S := fun v s =>
  match v with
  | JString raw =>
      match unquote raw with
      | Some t => Ok (set (String.string_of_list_byte t) s, None)
      | None => Err ErrPhase
      end
  | JNull => Ok (s, None)
  | _ => Ok (s, Some ErrUnmarshalType)
  end.

(** A number as an element of a [[]byte]: digits that make up less
    than 256; [null] leaves the element at zero. *)
Definition uint8_of (v : json) : option byte :=
  match v with
  | JNumber raw =>
      if forallb is_digit_byte raw then
        let n := fold_left (fun n b => n * 10 + (byte_val b - 48)) raw 0 in
        if n <? 256 then Some (byte_of n) else None
      else None
  | JNull => Some x00
  | _ => None
  end.

(** A field of type [[]byte]. An array is taken element by element into a fresh
    slice. *)
Definition store_bytes {S} (set : option (list byte) -> S -> S) : setter S := fun v s =>
  match v with
  | JString raw =>
      match unquote raw with
      | Some t =>
          match base64_decode t with
          | Some b => Ok (set (Some b) s, None)
          | None => Ok (s, Some ErrCorruptInput)
          end
      | None => Err ErrPhase
      end
  | JNull => Ok (set None s, None)
  | JArray vs =>
      let bytes := map uint8_of vs in
      Ok (set (Some (map (default x00) bytes)) s, if forallb (fun o => bool_decide (is_Some o)) bytes then None else Some ErrUnmarshalType)
  | _ => Ok (s, Some ErrUnmarshalType)
  end.

(** [foldName] as far as it can produce ASCII: the letters, the long s and the
    Kelvin sign. *)
Fixpoint fold_name (s : list byte) : list byte :=
  match s with
  | xc5 :: xbf :: r => "S"%byte :: fold_name r
  | xe2 :: x84 :: xaa :: r => "K"%byte :: fold_name r
  | b :: r => (if (97 <=? byte_val b) && (byte_val b <=? 122) then byte_of (byte_val b - 32) else b) :: fold_name r
  | [] => []
  end.

Section Struct.
Context {S : Type}.

(** The fields by name. *)
Variable fields : list (list byte * setter S).

(** The exact name first, then the first one that differs in case only. *)
Definition find_field (key : list byte) : option (setter S) :=
  match List.find (fun f => bool_decide (f.1 = key)) fields with
  | Some f => Some f.2
  | None => snd <$> List.find (fun f => bool_decide (fold_name f.1 = fold_name key)) fields
  end.

(** [saveError] keeps the first. *)
Definition save_error (saved e : option json_err) : option json_err :=
  match saved with Some _ => saved | None => e end.

Fixpoint decode_members (ms : list (list byte * json)) (s : S) (saved : option json_err)
  : res json_err (S * option json_err) :=
  match ms with
  | [] => Ok (s, saved)
  | (raw, v) :: ms =>
      match unquote raw with
      | None => Err ErrPhase
      | Some key =>
          match find_field key with
          | None => decode_members ms s (save_error saved (Some (ErrUnknownField key)))
          | Some store =>
              match store v s with
              | Err e => Err e
              | Ok (s, e) => decode_members ms s (save_error saved e)
              end
          end
      end
  end.

Variable zero : S.

(** [unmarshal] with [DisallowUnknownFields]. *)
Definition unmarshal (v : json) : res json_err S :=
  match v with
  | JObject ms =>
      match decode_members ms zero None with
      | Err e => Err e
      | Ok (s, None) => Ok s
      | Ok (_, Some e) => Err e
      end
  | JNull => Ok zero
  | _ => Err ErrUnmarshalType
  end.

(** The end of these is seen only with the byte after them. *)
Definition is_scalar (v : json) : bool :=
  match v with JArray _ | JObject _ => false | _ => true end.

(** [Decoder.Decode] of the first value of [input]; [limit] is what a
    [MaxBytesReader] lets through before it fails. What follows the value is not
    looked at. *)
Definition Decoder_Decode (limit : option Z) (input : list byte) : res json_err S :=
  let buf := match limit with Some n => take (Z.to_nat n) input | None => input end in
  let more := match limit with Some n => n <? Z.of_nat (length input) | None => false end in
  match parse_value (Datatypes.S (2 * length buf)) 0 buf with
  | Bad => Err ErrSyntax
  | Short =>
      if more then Err ErrTooLarge
      else if forallb is_space buf then Err ErrEOF
      else Err ErrUnexpectedEOF
  | Done v rest =>
      if more && is_scalar v && bool_decide (rest = []) then Err ErrTooLarge
      else unmarshal v
  end.

End Struct.

(** ** Lemmas: strings *)

(** What becomes of one rune. *)
Definition escape_rune (r : Z) : list byte :=
  if r <? 128 then escape_ascii (byte_of r)
  else if (r =? 8232) || (r =? 8233) then [backslash; "u"; "2"; "0"; "2"; hex_char (r mod 16)]%byte
  else EncodeRune r.

Abbreviation valid_runes := (Forall (fun r => valid_rune r = true)).

Lemma EncodeRune_low r : valid_rune r = true -> r < 128 -> EncodeRune r = [byte_of r] /\ byte_val (byte_of r) = r.
Proof.
  intros Hv Hr. pose proof (valid_rune_range r Hv). assert (E : byte_val (byte_of r) = r) by (rewrite byte_val_of, Z.mod_small; lia).
  split; [|done]. rewrite <- E at 1. apply EncodeRune_ascii. lia.
Qed.

Lemma escape_runes rs : forall fuel, valid_runes rs -> (length (concat (map EncodeRune rs)) <= fuel)%nat ->
  escape_loop fuel (concat (map EncodeRune rs)) = concat (map escape_rune rs).
Proof.
  induction rs as [|r rs IH]; intros fuel Hv Hf; [by destruct fuel|].
  apply Forall_cons in Hv as [Hr Hv]. cbn [map concat] in *. rewrite length_app in Hf.
  destruct (Z.ltb_spec r 128) as [Hl|Hl].
  - destruct (EncodeRune_low r Hr Hl) as [E V]. rewrite E in *. cbn [length] in Hf. destruct fuel as [|fuel]; [lia|].
    cbn [app escape_loop]. rewrite V. unfold escape_rune at 1. rewrite (proj2 (Z.ltb_lt r 128) Hl). by rewrite IH by (done || lia).
  - destruct (EncodeRune_high r Hr Hl) as (b & t & E & Hb). pose proof (DecodeRune_Encode r (concat (map EncodeRune rs)) Hr) as D.
    assert (Hlen : (1 <= length (EncodeRune r))%nat) by (rewrite E; cbn; lia). destruct fuel as [|fuel]; [lia|].
    assert (Hd : drop (length (EncodeRune r)) (EncodeRune r ++ concat (map EncodeRune rs)) = concat (map EncodeRune rs)) by apply drop_app_length.
    assert (Ht : take (length (EncodeRune r)) (EncodeRune r ++ concat (map EncodeRune rs)) = EncodeRune r) by apply take_app_length.
    cbn [escape_loop]. rewrite E in D |- *. cbn [app] in D |- *. rewrite (proj2 (Z.ltb_ge _ 128) Hb), D.
    change (b :: t ++ concat (map EncodeRune rs)) with ((b :: t) ++ concat (map EncodeRune rs)). rewrite <- E, Hd, Ht, IH by (done || lia).
    unfold escape_rune at 4. rewrite (proj2 (Z.ltb_ge r 128) Hl).
    destruct (_ && _) eqn:F; [|by destruct (_ || _)]. exfalso. apply andb_true_iff in F as [F1 F2].
    assert (r = RuneError) as -> by lia. by vm_compute in F2.
Qed.

(** An escaped ASCII byte reads back as itself. *)
Lemma unquote_ascii b t fuel : byte_val b < 128 ->
  unquote_loop (S fuel) (escape_ascii b ++ t) = (fun u => b :: u) <$> unquote_loop fuel t.
Proof.
  intros H. assert (G : (byte_val b <? 128) = true) by lia. clear H.
  assert (K : forall k : list byte -> option (list byte), match escape_ascii b ++ t with [] => Some [] | c :: r => unquote_step k c r end = (fun u => b :: u) <$> k t).
  { intros k. destruct b; try (vm_compute in G; discriminate G); clear G; vm_compute; by destruct (k t). }
  rewrite <- K. by destruct (escape_ascii b ++ t).
Qed.

(** So does any rune. *)
Lemma unquote_rune r t fuel : valid_rune r = true ->
  unquote_loop (S fuel) (escape_rune r ++ t) = (fun u => EncodeRune r ++ u) <$> unquote_loop fuel t.
Proof.
  intros Hr. unfold escape_rune. destruct (r <? 128) eqn:E1.
  { destruct (EncodeRune_low r Hr ltac:(lia)) as [E V]. rewrite E. apply unquote_ascii. lia. }
  destruct (_ || _) eqn:E2.
  { assert (r = 8232 \/ r = 8233) as [-> | ->] by lia; cbn [app unquote_loop]; generalize (unquote_loop fuel) as k; intros k; vm_compute; by destruct (k t). }
  destruct (EncodeRune_high r Hr ltac:(lia)) as (b & u & E & Hb). pose proof (DecodeRune_Encode r t Hr) as D.
  assert (Hd : drop (length (EncodeRune r)) (EncodeRune r ++ t) = t) by apply drop_app_length.
  assert (Nb : forall c, byte_val c < 128 -> Byte.eqb b c = false).
  { intros c Hc. destruct (Byte.eqb b c) eqn:F; [|done]. apply Byte.byte_dec_bl in F as ->. lia. }
  rewrite E in *. cbn [app] in *. cbn [unquote_loop]. unfold unquote_step. rewrite !Nb by done. rewrite D. cbn [orb].
  rewrite (proj2 (Z.ltb_ge _ 32)), (proj2 (Z.ltb_ge _ 128)) by lia. rewrite Hd. rewrite E. by destruct (unquote_loop fuel t).
Qed.

Lemma escape_rune_not_nil r : escape_rune r <> [].
Proof.
  unfold escape_rune. destruct (r <? 128); [|destruct (_ || _); [done|apply EncodeRune_not_nil]].
  unfold escape_ascii. repeat case_match; done.
Qed.

Lemma unquote_runes rs : forall fuel, valid_runes rs -> (length (concat (map escape_rune rs)) <= fuel)%nat ->
  unquote_loop fuel (concat (map escape_rune rs)) = Some (concat (map EncodeRune rs)).
Proof.
  induction rs as [|r rs IH]; intros fuel Hv Hf; [by destruct fuel|].
  apply Forall_cons in Hv as [Hr Hv]. cbn [map concat] in *. rewrite length_app in Hf.
  assert (1 <= length (escape_rune r))%nat by (pose proof (escape_rune_not_nil r); destruct (escape_rune r); [done|cbn; lia]).
  destruct fuel as [|fuel]; [lia|]. rewrite unquote_rune, IH by (done || lia). done.
Qed.

(** A string that is printed and read back is the string. *)
Lemma unquote_escape s : utf8 s -> unquote (escape s) = Some s.
Proof.
  intros (rs & Hv & ->)%utf8_valid. unfold unquote, escape. rewrite escape_runes by done. by apply unquote_runes.
Qed.

(** What is read is well formed. *)
Lemma unquote_loop_utf8 fuel : forall s t, unquote_loop fuel s = Some t -> utf8 t.
Proof.
  induction fuel as [|fuel IH]; intros s t H; destruct s as [|c r]; cbn in H; try discriminate; try (injection H as <-; apply utf8_nil).
  unfold unquote_step in H.
  assert (Cat : forall x rest, (t' ← unquote_loop fuel rest; Some (EncodeRune x ++ t')) = Some t -> utf8 t).
  { intros x rest E. destruct (unquote_loop fuel rest) as [u|] eqn:F; [|discriminate]. injection E as <-. apply utf8_app; [apply utf8_rune|by eapply IH]. }
  assert (Cons : forall b rest, byte_val b < 128 -> (t' ← unquote_loop fuel rest; Some (b :: t')) = Some t -> utf8 t).
  { intros b rest Hb E. apply (Cat (byte_val b) rest). by rewrite EncodeRune_ascii. }
  destruct (Byte.eqb c backslash).
  - destruct r as [|e r']; [discriminate|]. destruct (Byte.eqb e "u"%byte).
    + destruct (unquote_u4 (c :: e :: r')) as [[rr rest]|]; [|discriminate]. by apply Cat in H.
    + destruct (unescape e) as [b|] eqn:Ue; [|discriminate]. cbn [mbind option_bind] in H. apply Cons in H; [done|].
      destruct e; try discriminate; injection Ue as <-; by vm_compute.
  - destruct (_ || _); [discriminate|]. destruct (byte_val c <? 128) eqn:E; [apply Cons in H; [done|lia]|].
    destruct (DecodeRune (c :: r)) as [rr size]. by apply Cat in H.
Qed.

(** ** Lemmas: the scanner *)

(** The state after bytes that stay inside the string. *)
Fixpoint string_run (st : string_state) (l : list byte) : option string_state :=
  match l with
  | [] => Some st
  | c :: l => match string_step st c with Some (Some st) => string_run st l | _ => None end
  end.

Lemma scan_string_run l t : forall st st', string_run st l = Some st' ->
  scan_string st (l ++ t) = scan_then (scan_string st' t) (fun raw rest => Done (l ++ raw) rest).
Proof.
  induction l as [|c l IH]; intros st st' H; cbn in H |- *.
  - injection H as <-. by destruct (scan_string st t).
  - destruct (string_step st c) as [[st1|]|]; [|discriminate..]. rewrite (IH _ _ H). by destruct (scan_string st' t).
Qed.

Lemma string_run_app l1 l2 st st' : string_run st l1 = Some st' -> string_run st (l1 ++ l2) = string_run st' l2.
Proof.
  revert st. induction l1 as [|c l1 IH]; intros st H; cbn in H |- *; [by injection H as ->|].
  destruct (string_step st c) as [[st1|]|]; [|discriminate..]. by apply IH.
Qed.

Lemma string_run_high l : Forall (fun b => 128 <= byte_val b) l -> string_run InString l = Some InString.
Proof.
  intros H. induction H as [|c l Hc _ IH]; [done|]. cbn.
  assert (Nb : forall b, byte_val b < 128 -> Byte.eqb c b = false).
  { intros b Hb. destruct (Byte.eqb c b) eqn:F; [|done]. apply Byte.byte_dec_bl in F as ->. lia. }
  rewrite !Nb by done. by rewrite (proj2 (Z.ltb_ge _ 32)) by lia.
Qed.

Lemma EncodeRune_all_high r : valid_rune r = true -> 128 <= r -> Forall (fun b => 128 <= byte_val b) (EncodeRune r).
Proof.
  intros Hv Hr. pose proof (valid_rune_range r Hv) as [H1 H2]. unfold EncodeRune. rewrite Hv.
  destruct (r <? 128) eqn:E1; [lia|].
  destruct (r <? 2048) eqn:E2; [|destruct (r <? 65536) eqn:E3];
    repeat (constructor; [rewrite byte_val_of, Z.mod_small by lia; lia|]); constructor.
Qed.

Lemma escape_rune_run r : valid_rune r = true -> string_run InString (escape_rune r) = Some InString.
Proof.
  intros Hr. unfold escape_rune. destruct (r <? 128) eqn:E1.
  - destruct (EncodeRune_low r Hr ltac:(lia)) as [_ V]. assert (G : (byte_val (byte_of r) <? 128) = true) by lia.
    generalize dependent (byte_of r). intros b _ G. destruct b; try (vm_compute in G; discriminate G); vm_compute; reflexivity.
  - destruct (_ || _) eqn:E2; [assert (r = 8232 \/ r = 8233) as [-> | ->] by lia; vm_compute; reflexivity|].
    apply string_run_high, EncodeRune_all_high; [done|lia].
Qed.

Lemma escape_run s : utf8 s -> string_run InString (escape s) = Some InString.
Proof.
  intros (rs & Hv & ->)%utf8_valid. unfold escape. rewrite escape_runes by done.
  induction Hv as [|r rs Hr _ IH]; [done|]. cbn [map concat]. by rewrite (string_run_app _ _ _ _ (escape_rune_run r Hr)).
Qed.

Lemma scan_quoted l rest : string_run InString l = Some InString -> scan_string InString (l ++ quote :: rest) = Done l rest.
Proof. intros H. rewrite (scan_string_run _ _ _ _ H). cbn. by rewrite app_nil_r. Qed.

(** A text with nothing to escape and nothing to decode. *)
Definition plain (b : byte) : bool :=
  (32 <=? byte_val b) && (byte_val b <? 128) && negb (Byte.eqb b quote) && negb (Byte.eqb b backslash).

Lemma plain_run l : forallb plain l = true -> string_run InString l = Some InString.
Proof.
  induction l as [|c l IH]; [done|]. cbn [forallb string_run string_step]. unfold plain at 1. intros [Hc Hl]%andb_true_iff.
  rewrite !andb_true_iff, !negb_true_iff in Hc. destruct Hc as [[[H1 H2] ->] ->]. rewrite (proj2 (Z.ltb_ge _ 32)) by lia. auto.
Qed.

Lemma unquote_plain l : forallb plain l = true -> unquote l = Some l.
Proof.
  unfold unquote. induction l as [|c l IH]; [done|]. cbn [forallb length unquote_loop]. unfold plain at 1. intros [Hc Hl]%andb_true_iff.
  rewrite !andb_true_iff, !negb_true_iff in Hc. destruct Hc as [[[H1 H2] H3] H4].
  unfold unquote_step. rewrite H3, H4, H2, (proj2 (Z.ltb_ge _ 32)) by lia. cbn. by rewrite IH.
Qed.

Lemma skip_space_length s : (length (skip_space s) <= length s)%nat.
Proof. induction s as [|b s IH]; [done|]. cbn. destruct (is_space b); cbn; lia. Qed.

(** What is left after a successful scan is shorter. *)
Definition shrinks {A} (s : list byte) (m : scan A) : Prop :=
  match m with Done _ rest => (length rest < length s)%nat | _ => True end.

Definition no_longer {A} (s : list byte) (m : scan A) : Prop :=
  match m with Done _ rest => (length rest <= length s)%nat | _ => True end.

Lemma scan_string_shrinks s : forall st, shrinks s (scan_string st s).
Proof.
  induction s as [|c s IH]; intros st; [done|]. cbn. destruct (string_step st c) as [[st'|]|]; cbn; [|lia|done].
  specialize (IH st'). destruct (scan_string st' s); cbn in *; [lia|done..].
Qed.

Lemma scan_number_no_longer s : forall st, no_longer s (scan_number st s).
Proof.
  induction s as [|c s IH]; intros st; cbn; [destruct (number_complete st); cbn; [lia|done]|].
  destruct (number_step st c) as [st'|]; [|destruct (number_complete st); cbn; [lia|done]].
  specialize (IH st'). destruct (scan_number st' s); cbn in *; [lia|done..].
Qed.

Lemma scan_literal_no_longer v lit : forall s, no_longer s (scan_literal v lit s).
Proof.
  induction lit as [|c lit IH]; intros [|b s]; cbn; try done; try lia.
  destruct (Byte.eqb b c); [|done]. specialize (IH s). destruct (scan_literal v lit s); cbn in *; [lia|done..].
Qed.

(** The scanners of values, members and elements take at least a byte. *)
Lemma parse_shrinks fuel :
  (forall depth s, shrinks s (parse_value fuel depth s)) /\
  (forall depth s, shrinks s (parse_members fuel depth s)) /\
  (forall depth s, shrinks s (parse_elements fuel depth s)).
Proof.
  induction fuel as [|fuel (IHv & IHm & IHe)]; [done|]. split_and!; intros depth s; cbn -[scan_literal].
  - pose proof (skip_space_length s) as Hs. destruct (skip_space s) as [|c r]; [done|]. cbn in Hs.
    pose proof (skip_space_length r) as Hr.
    destruct (Byte.eqb c "{").
    { destruct (_ <=? _); [done|]. destruct (skip_space r) as [|c' r']; [done|]. cbn in Hr. destruct (Byte.eqb c' "}"); [cbn; lia|].
      pose proof (IHm (depth + 1) (c' :: r')) as H. destruct (parse_members _ _ _); cbn in *; [lia|done..]. }
    destruct (Byte.eqb c "[").
    { destruct (_ <=? _); [done|]. destruct (skip_space r) as [|c' r']; [done|]. cbn in Hr. destruct (Byte.eqb c' "]"); [cbn; lia|].
      pose proof (IHe (depth + 1) (c' :: r')) as H. destruct (parse_elements _ _ _); cbn in *; [lia|done..]. }
    destruct (Byte.eqb c quote).
    { pose proof (scan_string_shrinks r InString) as H. destruct (scan_string InString r); cbn in *; [lia|done..]. }
    assert (Hn : forall st, shrinks s (scan_then (scan_number st r) (fun raw rest => Done (JNumber (c :: raw)) rest))).
    { intros st. pose proof (scan_number_no_longer r st) as H. destruct (scan_number st r); cbn in *; [lia|done..]. }
    assert (Hl : forall v lit, shrinks s (scan_literal v lit r)).
    { intros v lit. pose proof (scan_literal_no_longer v lit r) as H. destruct (scan_literal v lit r); cbn in *; [lia|done..]. }
    repeat match goal with |- context [if ?b then _ else _] => destruct b; [first [apply Hn|apply Hl]|] end. done.
  - pose proof (skip_space_length s) as Hs. destruct (skip_space s) as [|c r]; [done|]. cbn in Hs. destruct (negb _); [done|].
    pose proof (scan_string_shrinks r InString) as H1. destruct (scan_string InString r) as [key r1| |]; cbn in *; try done.
    pose proof (skip_space_length r1) as H2. destruct (skip_space r1) as [|c2 r2]; [done|]. cbn in H2. destruct (negb _); [done|].
    pose proof (IHv depth r2) as H3. destruct (parse_value fuel depth r2) as [v r3| |]; cbn in *; try done.
    pose proof (skip_space_length r3) as H4. destruct (skip_space r3) as [|c4 r4]; [done|]. cbn in H4.
    destruct (Byte.eqb c4 "}"); [cbn; lia|]. destruct (Byte.eqb c4 ","); [|done].
    pose proof (IHm depth r4) as H5. destruct (parse_members fuel depth r4); cbn in *; [lia|done..].
  - pose proof (IHv depth s) as H3. destruct (parse_value fuel depth s) as [v r3| |]; cbn in *; try done.
    pose proof (skip_space_length r3) as H4. destruct (skip_space r3) as [|c4 r4]; [done|]. cbn in H4.
    destruct (Byte.eqb c4 "]"); [cbn; lia|]. destruct (Byte.eqb c4 ","); [|done].
    pose proof (IHe depth r4) as H5. destruct (parse_elements fuel depth r4); cbn in *; [lia|done..].
Qed.

(** Fuel beyond twice the length of the input makes no difference. *)
Lemma parse_fuel fuel : forall fuel',
  (forall depth s, (2 * length s < fuel)%nat -> (2 * length s < fuel')%nat -> parse_value fuel depth s = parse_value fuel' depth s) /\
  (forall depth s, (2 * length s < fuel)%nat -> (2 * length s < fuel')%nat -> parse_members fuel depth s = parse_members fuel' depth s) /\
  (forall depth s, (S (2 * length s) < fuel)%nat -> (S (2 * length s) < fuel')%nat -> parse_elements fuel depth s = parse_elements fuel' depth s).
Proof.
  induction fuel as [|fuel IH]; intros fuel'; [split_and!; intros; lia|].
  destruct fuel' as [|fuel']; [split_and!; intros; lia|]. specialize (IH fuel') as (IHv & IHm & IHe).
  destruct (parse_shrinks fuel') as (Sv & _ & _). split_and!; intros depth s Hf Hf'; cbn.
  - pose proof (skip_space_length s) as Hs. destruct (skip_space s) as [|c r]; [done|]. cbn in Hs.
    pose proof (skip_space_length r) as Hr. destruct (skip_space r) as [|c' r']; [done|]. cbn in Hr.
    rewrite (IHm (depth + 1) (c' :: r')), (IHe (depth + 1) (c' :: r')) by (cbn; lia). done.
  - pose proof (skip_space_length s) as Hs. destruct (skip_space s) as [|c r]; [done|]. cbn in Hs. destruct (negb _); [done|].
    pose proof (scan_string_shrinks r InString) as H1. destruct (scan_string InString r) as [key r1| |]; cbn in *; try done.
    pose proof (skip_space_length r1) as H2. destruct (skip_space r1) as [|c2 r2]; [done|]. cbn in H2. destruct (negb _); [done|].
    rewrite (IHv depth r2) by lia. pose proof (Sv depth r2) as H3. destruct (parse_value fuel' depth r2) as [v r3| |]; cbn in *; try done.
    pose proof (skip_space_length r3) as H4. destruct (skip_space r3) as [|c4 r4]; [done|]. cbn in H4. by rewrite (IHm depth r4) by lia.
  - rewrite (IHv depth s) by lia. pose proof (Sv depth s) as H3. destruct (parse_value fuel' depth s) as [v r3| |]; cbn in *; try done.
    pose proof (skip_space_length r3) as H4. destruct (skip_space r3) as [|c4 r4]; [done|]. cbn in H4. by rewrite (IHe depth r4) by lia.
Qed.

(** ** Lemmas: printed structs *)

(** [text] is a way to write [v]. *)
Definition value_text (text : list byte) (v : json) : Prop :=
  forall fuel depth rest, parse_value (S fuel) depth (text ++ rest) = Done v rest.

Lemma value_text_quoted raw : string_run InString raw = Some InString -> value_text (quote :: raw ++ [quote]) (JString raw).
Proof.
  intros H fuel depth rest. rewrite <- app_comm_cons, <- app_assoc. cbn [app].
  change (scan_then (scan_string InString (raw ++ quote :: rest)) (fun raw rest => Done (JString raw) rest) = Done (JString raw) rest).
  by rewrite scan_quoted.
Qed.

Lemma value_text_string s : utf8 s -> value_text (print_string s) (JString (escape s)).
Proof. intros H. by apply value_text_quoted, escape_run. Qed.

Lemma base64_plain b : base64_byte b -> plain b = true.
Proof. intros [-> |[v H]]; [done|]. destruct b; try (vm_compute in H; discriminate H); done. Qed.

Lemma base64_encode_plain b : forallb plain (base64_encode b) = true.
Proof. apply forallb_forall. intros x Hx. apply base64_plain. pose proof (base64_encode_bytes b) as F. rewrite Forall_forall in F. by apply F, list_elem_of_In. Qed.

Lemma value_text_bytes b : value_text (print_bytes b) (match b with Some b => JString (base64_encode b) | None => JNull end).
Proof. destruct b as [b|]; [apply value_text_quoted, plain_run, base64_encode_plain|done]. Qed.

(** What [parse_members] does after a key and after a value. *)
Definition member_end (fuel : nat) (depth : Z) (key : list byte) (v : json) (r : list byte) : scan (list (list byte * json)) :=
  match skip_space r with
  | [] => Short
  | c :: r =>
      if Byte.eqb c "}"%byte then Done [(key, v)] r
      else if Byte.eqb c ","%byte then
        scan_then (parse_members fuel depth r) (fun ms rest => Done ((key, v) :: ms) rest)
      else Bad
  end.

Definition member_tail (fuel : nat) (depth : Z) (key r : list byte) : scan (list (list byte * json)) :=
  match skip_space r with
  | [] => Short
  | c :: r =>
      if negb (Byte.eqb c ":"%byte) then Bad
      else scan_then (parse_value fuel depth r) (member_end fuel depth key)
  end.

Lemma parse_print_members ms vs depth rest : forall fuel,
  ms <> [] -> Forall2 (fun m v => forallb plain m.1 = true /\ value_text m.2 v) ms vs -> (length ms < fuel)%nat ->
  parse_members fuel depth (print_members ms ++ "}"%byte :: rest) = Done (zip ms.*1 vs) rest.
Proof.
  intros fuel Hne H. revert fuel. induction H as [|m v ms vs [Hp Hv] H IH]; intros fuel Hf; [done|]. cbn [length] in Hf.
  destruct fuel as [|[|fuel]]; [lia..|].
  assert (M : forall k, parse_members (S (S fuel)) depth (print_member m ++ k) =
    member_end (S fuel) depth m.1 v k).
  { intros k. unfold print_member. rewrite <- app_comm_cons, <- app_assoc. cbn [app].
    match goal with |- _ = ?rhs =>
      change (scan_then (scan_string InString (m.1 ++ quote :: ":"%byte :: m.2 ++ k)) (member_tail (S fuel) depth) = rhs) end.
    rewrite scan_quoted by by apply plain_run.
    match goal with |- _ = ?rhs => change (scan_then (parse_value (S fuel) depth (m.2 ++ k)) (member_end (S fuel) depth m.1) = rhs) end.
    by rewrite Hv. }
  destruct ms as [|m' ms].
  - apply Forall2_nil_inv_l in H as ->. cbn [print_members]. by rewrite M.
  - cbn [print_members]. rewrite <- app_assoc. rewrite M. rewrite <- app_comm_cons.
    match goal with |- member_end _ _ _ _ (_ :: ?l) = ?rhs =>
      change (scan_then (parse_members (S fuel) depth l) (fun ms rest => Done ((m.1, v) :: ms) rest) = rhs) end.
    rewrite IH by (done || cbn in *; lia). done.
Qed.

Lemma parse_print_object ms vs fuel rest :
  ms <> [] -> Forall2 (fun m v => forallb plain m.1 = true /\ value_text m.2 v) ms vs -> (S (length ms) < fuel)%nat ->
  parse_value fuel 0 (print_object ms ++ rest) = Done (JObject (zip ms.*1 vs)) rest.
Proof.
  intros Hne H Hf. destruct fuel as [|fuel]; [lia|]. pose proof (parse_print_members ms vs (0 + 1) rest fuel Hne H ltac:(lia)) as P.
  assert (Q : exists t, print_members ms = quote :: t).
  { destruct ms as [|m [|m' ms]]; [done|cbn; eauto..]. }
  destruct Q as [t Q]. unfold print_object. rewrite <- app_comm_cons, <- app_assoc. cbn [app] in P |- *. rewrite Q in P |- *.
  match goal with |- parse_value _ _ (_ :: ?l) = ?rhs => change (scan_then (parse_members fuel (0 + 1) l) (fun ms rest => Done (JObject ms) rest) = rhs) end.
  by rewrite P.
Qed.

Lemma print_members_length ms : (length ms <= length (print_members ms))%nat.
Proof.
  induction ms as [|m ms IH]; [done|]. destruct ms as [|m' ms]; [cbn; lia|].
  change (print_members (m :: m' :: ms)) with (print_member m ++ ","%byte :: print_members (m' :: ms)).
  rewrite length_app. remember (print_members (m' :: ms)) as l. cbn [length] in *. lia.
Qed.

(** [Decode] sees the members that were printed, whatever follows them. *)
Lemma Decoder_print {A} (fields : list (list byte * setter A)) zero limit ms vs rest :
  ms <> [] -> Forall2 (fun m v => forallb plain m.1 = true /\ value_text m.2 v) ms vs ->
  match limit with Some n => Z.of_nat (length (print_object ms)) <= n | None => True end ->
  Decoder_Decode fields zero limit (print_object ms ++ rest) = unmarshal fields zero (JObject (zip ms.*1 vs)).
Proof.
  intros Hne H Hlim. unfold Decoder_Decode.
  assert (B : exists rest', match limit with Some n => take (Z.to_nat n) (print_object ms ++ rest) | None => print_object ms ++ rest end = print_object ms ++ rest').
  { destruct limit as [n|]; [|by exists rest]. exists (take (Z.to_nat n - length (print_object ms)) rest). rewrite take_app. f_equal. apply take_ge. lia. }
  destruct B as [rest' ->]. rewrite (parse_print_object ms vs); [by rewrite andb_false_r|done|done|].
  pose proof (print_members_length ms). unfold print_object. cbn [length app]. rewrite !length_app. cbn [length]. lia.
Qed.

(** ** Lemmas: invariants of what is decoded *)

Section Invariant.
Context {A : Type} (P : A -> Prop) (fields : list (list byte * setter A)).
Hypothesis preserved : Forall (fun f => forall v s s' e, P s -> f.2 v s = Ok (s', e) -> P s') fields.

Lemma find_field_in key st : find_field fields key = Some st -> exists name, (name, st) ∈ fields.
Proof.
  unfold find_field. destruct (List.find _ fields) as [[n s]|] eqn:E.
  - apply List.find_some in E as [E _]. intros [= <-]. exists n. by apply list_elem_of_In.
  - destruct (List.find (fun f => bool_decide (fold_name f.1 = fold_name key)) fields) as [[n s]|] eqn:E'; [|done].
    apply List.find_some in E' as [E' _]. intros [= <-]. exists n. by apply list_elem_of_In.
Qed.

Lemma decode_members_inv ms : forall s saved s' saved', P s -> decode_members fields ms s saved = Ok (s', saved') -> P s'.
Proof.
  induction ms as [|[raw v] ms IH]; intros s saved s' saved' Hs H; cbn in H; [by injection H as <- _|].
  destruct (unquote raw) as [key|]; [|discriminate]. destruct (find_field fields key) as [st|] eqn:F; [|by eapply IH].
  destruct (st v s) as [[s1 e]|e] eqn:E; [|discriminate]. apply find_field_in in F as [n F].
  rewrite Forall_forall in preserved. eapply IH; [|exact H]. by apply (preserved _ F v s s1 e).
Qed.

Lemma Decoder_Decode_inv zero limit input s : P zero -> Decoder_Decode fields zero limit input = Ok s -> P s.
Proof.
  unfold Decoder_Decode. intros Hz. destruct (parse_value _ _ _) as [v rest| |]; [|by repeat case_match|done].
  destruct (_ && _); [done|]. unfold unmarshal. destruct v as [| | | | |ms]; try done; [by intros [= <-]|].
  destruct (decode_members fields ms zero None) as [[s1 [e|]]|e] eqn:E; try done. intros [= <-]. by eapply decode_members_inv.
Qed.

End Invariant.
