(* ===== verification/GoTime.v ===== *)
(** * Instants and their RFC 3339 form

    What the code uses of [time]: an instant is a number of nanoseconds since
    January 1 of year 1 UTC, and [UTC().Format(time.RFC3339Nano)] prints it in
    the proleptic Gregorian calendar. *)

From S2P Require Import Prelude Decimal.

(** ** The calendar *)

(** Days from March 1 of year 0 to January 1 of year 1. *)
Definition epoch_shift : Z := 306.

(** The year of the era, the month counted from March and the day of month of a
    day of a 400-year era that begins in March, by cutting off centuries, four-
    year cycles and years; the last of each is the long one. *)
Definition civil_of_era (doe : Z) : Z * Z * Z :=
  let c := doe / 36524 in let c := c - c / 4 in
  let doc := doe - 36524 * c in
  let q := doc / 1461 in
  let doq := doc - 1461 * q in
  let y := doq / 365 in let y := y - y / 4 in
  let doy := doq - 365 * y in
  let mp := (5 * doy + 2) / 153 in
  (100 * c + 4 * q + y, mp, doy - (153 * mp + 2) / 5 + 1).

(** The year, month and day of the [n]th day since January 1 of year 1. *)
Definition civil (n : Z) : Z * Z * Z :=
  let z := n + epoch_shift in
  let '(yoe, mp, d) := civil_of_era (z mod 146097) in
  let m := if mp <? 10 then mp + 3 else mp - 9 in
  (yoe + z / 146097 * 400 + (if m <=? 2 then 1 else 0), m, d).

(** Its inverse. *)
Definition days_of_era (yoe mp d : Z) : Z :=
  365 * yoe + yoe / 4 - yoe / 100 + (153 * mp + 2) / 5 + d - 1.

Definition days (y m d : Z) : Z :=
  let y := if m <=? 2 then y - 1 else y in
  let mp := if 2 <? m then m - 3 else m + 9 in
  y / 400 * 146097 + days_of_era (y mod 400) mp d - epoch_shift.

(** ** Formatting *)

(** A year takes at least four digits, its sign not counted. *)
Definition fmt_year (y : Z) : string := if y <? 0 then String "-" (fmt_pad 4 (- y)) else fmt_pad 4 y.

(** The fraction is cut of its trailing zeros, and left out when it is zero. *)
Definition fmt_fraction (ns : Z) : string :=
  match trim_right0 (fmt_pad 9 ns) with
  | EmptyString => ""
  | f => String "." f
  end.

Definition ns_per_day : Z := 86400000000000.

(** A clock reading followed by [tail]. *)
Definition fmt_clock (t : Time) (tail : string) : string :=
  let '(y, m, d) := civil (t / ns_per_day) in
  let s := t mod ns_per_day / 1000000000 in
  fmt_year y +:+ String "-" (fmt_pad 2 m +:+ String "-" (fmt_pad 2 d +:+ String "T" (
  fmt_pad 2 (s / 3600) +:+ String ":" (fmt_pad 2 (s / 60 mod 60) +:+ String ":" (
  fmt_pad 2 (s mod 60) +:+ (fmt_fraction (t mod 1000000000) +:+ tail)))))).

(** [t.UTC().Format(time.RFC3339Nano)] *)
Definition RFC3339Nano (t : Time) : string := fmt_clock t "Z".

(** ** Values of [time.Time]

    Code that prints a time in its own zone sees its offset from UTC as well,
    counted here in seconds; everything else uses the instant. *)
Record ZonedTime : Type := mkZoned {
  instant :> Time;
  zone : Z
}.

#[global] Instance ZonedTime_eq_dec : EqDecision ZonedTime.
Proof. solve_decision. Defined.

(** [t.UTC()] *)
Definition UTC (t : Time) : ZonedTime := mkZoned t 0.

(** ** Lemmas *)

Lemma era_spec doe : 0 <= doe < 146097 ->
  let '(yoe, mp, d) := civil_of_era doe in
  days_of_era yoe mp d = doe /\ 0 <= yoe < 400 /\ 0 <= mp <= 11 /\ 1 <= d <= 31.
Proof.
  intros H. unfold civil_of_era, days_of_era. cbv zeta.
  set (c := doe / 36524 - doe / 36524 / 4). assert (Hc : 0 <= c <= 3 /\ 0 <= doe - 36524 * c <= 36524) by (unfold c; lia).
  clearbody c. set (doc := doe - 36524 * c) in *. assert (Ed : doe = doc + 36524 * c) by lia. clearbody doc. subst doe.
  set (q := doc / 1461). assert (Hq : 0 <= q <= 24 /\ 0 <= doc - 1461 * q <= 1460) by (unfold q; lia).
  clearbody q. set (doq := doc - 1461 * q) in *. assert (Ed : doc = doq + 1461 * q) by lia. clearbody doq. subst doc.
  set (y := doq / 365 - doq / 365 / 4). assert (Hy : 0 <= y <= 3 /\ 0 <= doq - 365 * y <= 365) by (unfold y; lia).
  clearbody y. set (doy := doq - 365 * y) in *. assert (Ed : doq = doy + 365 * y) by lia. clearbody doy. subst doq.
  assert (E1 : (100 * c + 4 * q + y) / 4 = 25 * c + q) by lia.
  assert (E2 : (100 * c + 4 * q + y) / 100 = c) by lia.
  rewrite E1, E2. split_and!; lia.
Qed.

Lemma days_civil n : let '(y, m, d) := civil n in days y m d = n /\ 1 <= m <= 12 /\ 1 <= d <= 31.
Proof.
  unfold civil. set (z := n + epoch_shift). pose proof (era_spec (z mod 146097) ltac:(apply Z.mod_pos_bound; lia)) as H.
  destruct (civil_of_era (z mod 146097)) as [[yoe mp] d]. destruct H as (H1 & H2 & H3 & H4).
  unfold days. destruct (mp <? 10) eqn:E.
  - rewrite (proj2 (Z.leb_gt (mp + 3) 2)), (proj2 (Z.ltb_lt 2 (mp + 3))) by lia.
    rewrite Z.add_0_r, Z.div_add, Z.mod_add by lia. rewrite (Z.div_small yoe), (Z.mod_small yoe), Z.add_0_l by lia.
    replace (mp + 3 - 3) with mp by lia. rewrite H1. pose proof (Z.div_mod z 146097 ltac:(lia)). unfold z in *. split_and!; lia.
  - rewrite (proj2 (Z.leb_le (mp - 9) 2)), (proj2 (Z.ltb_ge 2 (mp - 9))) by lia.
    rewrite Z.add_simpl_r, Z.div_add, Z.mod_add by lia. rewrite (Z.div_small yoe), (Z.mod_small yoe), Z.add_0_l by lia.
    replace (mp - 9 + 9) with mp by lia. rewrite H1. pose proof (Z.div_mod z 146097 ltac:(lia)). unfold z in *. split_and!; lia.
Qed.

(** The year is one the format writes with four digits. *)
Definition four_digit_year (t : Time) : Prop := 0 <= (civil (t / ns_per_day)).1.1 <= 9999.

Lemma field_inj w a b (x y : string) c :
  (0 < w <= 18)%nat -> 0 <= a < 10 ^ Z.of_nat w -> 0 <= b < 10 ^ Z.of_nat w ->
  fmt_pad w a +:+ String c x = fmt_pad w b +:+ String c y -> a = b /\ x = y.
Proof.
  intros Hw Ha Hb H. apply str_app_inj_len in H as [H1 H2]; [|by rewrite !fmt_pad_length].
  split; [by apply (fmt_pad_inj w)|]. by injection H2.
Qed.

Lemma fmt_fraction_inj a b : 0 <= a < 1000000000 -> 0 <= b < 1000000000 -> fmt_fraction a = fmt_fraction b -> a = b.
Proof.
  intros Ha Hb H. apply (fmt_pad_inj 9); [lia|lia|lia|]. apply trim_right0_inj; [by rewrite !fmt_pad_length by lia|].
  unfold fmt_fraction in H. destruct (trim_right0 (fmt_pad 9 a)), (trim_right0 (fmt_pad 9 b)); try done. by injection H as -> ->.
Qed.

(** Distinct instants print differently. *)
Lemma RFC3339Nano_inj t u : four_digit_year t -> four_digit_year u -> RFC3339Nano t = RFC3339Nano u -> t = u.
Proof.
  unfold four_digit_year, RFC3339Nano, fmt_clock. intros Ht Hu H.
  pose proof (days_civil (t / ns_per_day)) as Dt. pose proof (days_civil (u / ns_per_day)) as Du.
  destruct (civil (t / ns_per_day)) as [[y m] d], (civil (u / ns_per_day)) as [[y' m'] d'].
  cbn [fst snd] in Ht, Hu. destruct Dt as (Et & Hm & Hd), Du as (Eu & Hm' & Hd').
  assert (Rs : forall x, 0 <= x mod ns_per_day / 1000000000 < 86400) by (intros x; unfold ns_per_day; lia).
  pose proof (Rs t) as St. pose proof (Rs u) as Su. set (s := t mod ns_per_day / 1000000000) in *.
  set (s' := u mod ns_per_day / 1000000000) in *.
  unfold fmt_year in H. rewrite (proj2 (Z.ltb_ge y 0)), (proj2 (Z.ltb_ge y' 0)) in H by lia.
  apply field_inj in H as [-> H]; [|lia..]. apply field_inj in H as [-> H]; [|lia..]. apply field_inj in H as [-> H]; [|lia..].
  apply field_inj in H as [Hh H]; [|lia..]. apply field_inj in H as [Hmi H]; [|lia..].
  apply str_app_inj_len in H as [Hse H]; [|rewrite !fmt_pad_length by lia; done].
  apply fmt_pad_inj in Hse; [|lia..]. apply str_app_inj_r, fmt_fraction_inj in H; [|lia..].
  assert (s = s') as Es by lia. assert (t / ns_per_day = u / ns_per_day) as Ed by congruence.
  unfold s, s', ns_per_day in *. lia.
Qed.

Lemma RFC3339Nano_length t : four_digit_year t -> (String.length (RFC3339Nano t) <= 40)%nat.
Proof.
  unfold four_digit_year, RFC3339Nano, fmt_clock. intros Ht. pose proof (days_civil (t / ns_per_day)) as Dt.
  destruct (civil (t / ns_per_day)) as [[y m] d]. cbn [fst snd] in Ht. destruct Dt as (Et & Hm & Hd).
  assert (Rs : 0 <= t mod ns_per_day / 1000000000 < 86400) by (unfold ns_per_day; lia).
  set (s := t mod ns_per_day / 1000000000) in *.
  unfold fmt_year. rewrite (proj2 (Z.ltb_ge y 0)) by lia.
  assert (Hf : (String.length (fmt_fraction (t mod 1000000000)) <= 10)%nat).
  { unfold fmt_fraction. destruct (trim_right0_zeros (fmt_pad 9 (t mod 1000000000))) as [_ L].
    rewrite fmt_pad_length in L by lia. destruct (trim_right0 _); cbn [String.length] in *; lia. }
  repeat (rewrite str_length_app || cbn [String.length]). rewrite !fmt_pad_length by lia. lia.
Qed.
