(* ===== verification/TimeText.v ===== *)
(** * Times as JSON text

    [Time.MarshalJSON] and [Time.UnmarshalJSON]: RFC 3339 in the time's own zone.
    Reading goes through [time.Parse] with the layout [RFC3339]; the library's
    shortcut for well-formed input gives the same times. *)

From S2P Require Import Prelude Decimal Bytes Unicode Json GoTime.

(** ** Printing *)

(** The offset in minutes, as the format counts it. *)
Definition zone_minutes (z : Z) : Z := Z.quot z 60.

Definition fmt_zone (z : Z) : string :=
  if z =? 0 then "Z"
  else
    let m := zone_minutes z in
    String (if m <? 0 then "-"%char else "+"%char)
      (fmt_pad 2 (Z.abs m / 60) +:+ String ":" (fmt_pad 2 (Z.abs m mod 60))).

(** The reading of a clock in the time's zone. *)
Definition local (t : ZonedTime) : Time := t + zone t * 1000000000.

(** [appendStrictRFC3339]: the year has four digits and the offset is less than a
    day. *)
Definition time_MarshalJSON (t : ZonedTime) : option (list byte) :=
  let y := (civil (local t / ns_per_day)).1.1 in
  if negb ((0 <=? y) && (y <=? 9999)) then None
  else if negb (zone t =? 0) && (24 <=? Z.abs (zone_minutes (zone t)) / 60) then None
  else Some (quote :: String.list_byte_of_string (fmt_clock (local t) (fmt_zone (zone t))) ++ [quote]).

(** ** Parsing *)

(** [getnum]: two digits, or one when it need not be [fixed]. *)
Definition getnum (fixed : bool) (s : string) : option (Z * string) :=
  match s with
  | String a s =>
      if negb (is_digit a) then None
      else
        match s with
        | String b r => if is_digit b then Some (digit_val a * 10 + digit_val b, r)
                        else if fixed then None else Some (digit_val a, s)
        | EmptyString => if fixed then None else Some (digit_val a, s)
        end
  | EmptyString => None
  end.

Definition getyear (s : string) : option (Z * string) :=
  match s with
  | String a (String b (String c (String d r))) =>
      if is_digit a && is_digit b && is_digit c && is_digit d then
        Some (dec_value (String a (String b (String c (String d EmptyString)))), r)
      else None
  | _ => None
  end.

Definition skip_char (c : ascii) (s : string) : option string :=
  match s with
  | String a r => if decide (a = c) then Some r else None
  | EmptyString => None
  end.

(** A number that must lie in a range. *)
Definition ranged (lo hi : Z) (r : option (Z * string)) : option (Z * string) :=
  match r with
  | Some (n, s) => if (lo <=? n) && (n <=? hi) then Some (n, s) else None
  | None => None
  end.

(** The longest run of digits. *)
Fixpoint span_digits (s : string) : string * string :=
  match s with
  | EmptyString => (""%string, ""%string)
  | String c r => if is_digit c then let '(d, rest) := span_digits r in (String c d, rest) else (""%string, s)
  end.

(** [parseNanoseconds]: digits beyond the ninth do not count. *)
Definition nanoseconds (d : string) : Z :=
  let d := String.substring 0 9 d in
  dec_value d * 10 ^ Z.of_nat (9 - String.length d).

(** A fraction the layout does not ask for: a point or a comma and digits. *)
Definition getfraction (s : string) : Z * string :=
  match s with
  | String c (String d _ as r) =>
      if (bool_decide (c = "."%char) || bool_decide (c = ","%char)) && is_digit d then
        let '(ds, rest) := span_digits r in (nanoseconds ds, rest)
      else (0, s)
  | _ => (0, s)
  end.

(** [Z07:00]; the offset may be as much as 24 hours and 60 minutes. *)
Definition getzone (s : string) : option (Z * string) :=
  match s with
  | String sign r =>
      if decide (sign = "Z"%char) then Some (0, r)
      else
        match r with
        | String h1 (String h2 (String colon (String m1 (String m2 r)))) =>
            if negb (bool_decide (colon = ":"%char)) then None
            else
              '(hr, _) ← getnum true (String h1 (String h2 EmptyString));
              '(mm, _) ← getnum true (String m1 (String m2 EmptyString));
              if (24 <? hr) || (60 <? mm) then None
              else
                let offset := (hr * 60 + mm) * 60 in
                if decide (sign = "+"%char) then Some (offset, r)
                else if decide (sign = "-"%char) then Some (- offset, r)
                else None
        | _ => None
        end
  | EmptyString => None
  end.

Definition is_leap (y : Z) : bool := (y mod 4 =? 0) && (negb (y mod 100 =? 0) || (y mod 400 =? 0)).

Definition daysIn (m y : Z) : Z :=
  if m =? 2 then (if is_leap y then 29 else 28)
  else if (m =? 4) || (m =? 6) || (m =? 9) || (m =? 11) then 30
  else 31.

(** [Parse(RFC3339, s)] *)
Definition time_Parse (s : string) : option ZonedTime :=
  '(y, s) ← getyear s; s ← skip_char "-" s;
  '(m, s) ← ranged 1 12 (getnum true s); s ← skip_char "-" s;
  '(d, s) ← getnum true s; s ← skip_char "T" s;
  '(hour, s) ← ranged 0 23 (getnum false s); s ← skip_char ":" s;
  '(min, s) ← ranged 0 59 (getnum true s); s ← skip_char ":" s;
  '(sec, s) ← ranged 0 59 (getnum true s);
  let '(ns, s) := getfraction s in
  '(offset, s) ← getzone s;
  if negb (bool_decide (s = ""%string)) then None
  else if (d <? 1) || (daysIn m y <? d) then None
  else Some (mkZoned (days y m d * ns_per_day + ((hour * 60 + min) * 60 + sec - offset) * 1000000000 + ns) offset).

(** [UnmarshalJSON] looks at the text of the value as it is written: [null] leaves
    the time alone, and the text between the quotes is not unescaped. *)
Definition time_UnmarshalJSON (v : json) (t : ZonedTime) : res json_err ZonedTime :=
  match v with
  | JNull => Ok t
  | JString raw => match time_Parse (String.string_of_list_byte raw) with Some t => Ok t | None => Err ErrTimeFormat end
  | _ => Err ErrTimeFormat
  end.

(** A field of type [time.Time]. *)
Definition store_time {S} (get : S -> ZonedTime) (set : ZonedTime -> S -> S) : setter S := fun v s =>
  match time_UnmarshalJSON v (get s) with
  | Ok t => Ok (set t s, None)
  | Err e => Err e
  end.

(** ** Lemmas *)

Lemma getnum_pad fixed n s : 0 <= n < 100 -> getnum fixed (fmt_pad 2 n +:+ s) = Some (n, s).
Proof.
  intros Hn. destruct (fmt_pad_spec 2 n) as (Hd & Hv & Hl); [lia..|].
  destruct (fmt_pad 2 n) as [|a [|b [|]]]; try done. cbn [str_all] in Hd. rewrite !andb_true_iff in Hd. destruct Hd as (Ha & Hb & _).
  change (String a (String b "") +:+ s) with (String a (String b s)). unfold getnum. rewrite Ha, Hb.
  unfold dec_value in Hv. cbn [dec_acc] in Hv. cbn [negb]. do 2 f_equal. lia.
Qed.

Lemma getyear_pad n s : 0 <= n < 10000 -> getyear (fmt_pad 4 n +:+ s) = Some (n, s).
Proof.
  intros Hn. destruct (fmt_pad_spec 4 n) as (Hd & Hv & Hl); [lia..|].
  destruct (fmt_pad 4 n) as [|a [|b [|c [|d [|]]]]]; try done. cbn [str_all] in Hd.
  rewrite !andb_true_iff in Hd. destruct Hd as (Ha & Hb & Hc & Hd & _).
  change (String a (String b (String c (String d ""))) +:+ s) with (String a (String b (String c (String d s)))).
  unfold getyear. by rewrite Ha, Hb, Hc, Hd, Hv.
Qed.

(** The text goes on with something that is not a digit. *)
Definition no_digit (s : string) : Prop :=
  match s with String c _ => is_digit c = false | EmptyString => True end.

Lemma span_digits_app d s : str_all is_digit d = true -> no_digit s -> span_digits (d +:+ s) = (d, s).
Proof.
  intros Hd Hs. induction d as [|c d IH].
  - change ("" +:+ s) with s. destruct s as [|c s]; [done|]. cbn in *. by rewrite Hs.
  - change (String c d +:+ s) with (String c (d +:+ s)). cbn in *. apply andb_true_iff in Hd as [-> Hd]. by rewrite IH.
Qed.

Lemma substring_all n s : (String.length s <= n)%nat -> String.substring 0 n s = s.
Proof. revert n. induction s as [|c s IH]; intros [|n] H; cbn in *; try done; try lia. rewrite IH by lia. done. Qed.

Lemma getfraction_fmt ns s : 0 <= ns < 1000000000 ->
  no_digit s -> (forall c r, s = String c r -> c <> "."%char /\ c <> ","%char) -> getfraction (fmt_fraction ns +:+ s) = (ns, s).
Proof.
  intros Hn Hs Hp. destruct (fmt_pad_spec 9 ns) as (Hd & Hv & Hl); [lia..|].
  destruct (trim_right0_zeros (fmt_pad 9 ns)) as [Ez Hz]. pose proof (trim_right0_digits _ Hd) as Hf. unfold fmt_fraction.
  destruct (trim_right0 (fmt_pad 9 ns)) as [|c f] eqn:Et.
  - change ("" +:+ s) with s. rewrite Hl in Ez. rewrite Ez in Hv. unfold dec_value in Hv. rewrite dec_acc_app, dec_acc_zeros in Hv. cbn in Hv. subst ns.
    destruct s as [|c [|d r]]; [done..|]. cbn. destruct (Hp c _ eq_refl). by rewrite !bool_decide_false by done.
  - change (String "." (String c f) +:+ s) with (String "." (String c f +:+ s)). pose proof (span_digits_app (String c f) s Hf Hs) as Sp.
    change (String c f +:+ s) with (String c (f +:+ s)) in *. unfold getfraction. rewrite Sp.
    cbn [str_all] in Hf. apply andb_true_iff in Hf as [-> _]. cbn [bool_decide orb andb]. rewrite bool_decide_true by done. cbn [orb andb].
    f_equal. unfold nanoseconds. rewrite substring_all by lia. rewrite Ez in Hv. unfold dec_value in Hv at 1.
    rewrite dec_acc_app, dec_acc_zeros, Hl in Hv. done.
Qed.

(** An offset JSON can carry: whole minutes, less than a day. *)
Definition zone_ok (z : Z) : Prop := z mod 60 = 0 /\ -86400 < z < 86400.

Lemma getzone_fmt z : zone_ok z -> getzone (fmt_zone z) = Some (z, ""%string).
Proof.
  intros [Hm Hz]. unfold fmt_zone, zone_minutes. destruct (z =? 0) eqn:E0; [by assert (z = 0) as -> by lia|].
  assert (Hq : exists m, z = m * 60 /\ Z.quot z 60 = m) by (exists (z / 60); split; [lia|]; rewrite (Z.div_mod z 60) at 1 by lia; rewrite Hm, Z.add_0_r, Z.mul_comm; apply Z.quot_mul; lia).
  destruct Hq as (m & -> & ->). assert (Hh : 0 <= Z.abs m / 60 < 100) by lia. assert (Hmm : 0 <= Z.abs m mod 60 < 100) by lia.
  destruct (fmt_pad_spec 2 (Z.abs m / 60)) as (_ & _ & Hl); [lia..|]. destruct (fmt_pad_spec 2 (Z.abs m mod 60)) as (_ & _ & Hl'); [lia..|].
  pose proof (getnum_pad true _ "" Hh) as Gh. pose proof (getnum_pad true _ "" Hmm) as Gm. rewrite str_app_nil_r in Gh, Gm.
  destruct (fmt_pad 2 (Z.abs m / 60)) as [|h1 [|h2 [|]]]; try done. destruct (fmt_pad 2 (Z.abs m mod 60)) as [|m1 [|m2 [|]]]; try done.
  change (String h1 (String h2 "") +:+ ?x) with (String h1 (String h2 x)). unfold getzone.
  destruct (m <? 0) eqn:Es; (rewrite decide_False by done); (rewrite bool_decide_true by done); cbn [negb]; rewrite Gh, Gm; cbn [mbind option_bind];
    destruct (_ || _) eqn:Er; try lia; repeat case_decide; try done; do 2 f_equal; lia.
Qed.

(** *** The calendar *)

Lemma is_leap_era y k : is_leap (y + 400 * k) = is_leap y.
Proof. unfold is_leap. replace ((y + 400 * k) mod 4) with (y mod 4) by lia. replace ((y + 400 * k) mod 100) with (y mod 100) by lia.
  by replace ((y + 400 * k) mod 400) with (y mod 400) by lia. Qed.

Lemma era_day doe : 0 <= doe < 146097 ->
  let '(yoe, mp, d) := civil_of_era doe in
  let m := if mp <? 10 then mp + 3 else mp - 9 in
  d <= daysIn m (yoe + (if m <=? 2 then 1 else 0)).
Proof.
  intros H. unfold civil_of_era. cbv zeta.
  set (c := doe / 36524 - doe / 36524 / 4). assert (Hc : 0 <= c <= 3 /\ 0 <= doe - 36524 * c <= 36524 /\ (c < 3 -> doe - 36524 * c < 36524)) by (unfold c; lia).
  clearbody c. set (doc := doe - 36524 * c) in *. clearbody doc. clear H doe.
  set (q := doc / 1461). assert (Hq : 0 <= q <= 24 /\ 0 <= doc - 1461 * q <= 1460 /\ (q = 24 -> doc - 1461 * q = 1460 -> doc = 36524)) by (unfold q; lia).
  clearbody q. set (doq := doc - 1461 * q) in *.
  set (y := doq / 365 - doq / 365 / 4). assert (Hy : 0 <= y <= 3 /\ 0 <= doq - 365 * y <= 365 /\ (doq - 365 * y = 365 -> y = 3 /\ doq = 1460)) by (unfold y; lia).
  clearbody y. set (doy := doq - 365 * y) in *. assert (Hl : doy = 365 -> y = 3 /\ (q = 24 -> c = 3)) by lia. clearbody doy doq.
  set (mp := (5 * doy + 2) / 153). assert (Hmp : 0 <= mp <= 11 /\ 153 * mp <= 5 * doy + 2 < 153 * mp + 153) by (unfold mp; lia). clearbody mp.
  set (d := doy - (153 * mp + 2) / 5 + 1).
  destruct (Z.eq_dec mp 11) as [->|Nm].
  - assert (Hd : d <= 29 /\ (d = 29 -> doy = 365)) by (unfold d; lia). clearbody d.
    change (d <= if is_leap (100 * c + 4 * q + y + 1) then 29 else 28).
    destruct (is_leap (100 * c + 4 * q + y + 1)) eqn:E; [lia|]. destruct (Z.eq_dec d 29) as [Ed|]; [|lia]. exfalso.
    apply Hd, Hl in Ed as [-> Hq24]. unfold is_leap in E.
    apply andb_false_iff in E as [E|E]; [apply Z.eqb_neq in E; lia|]. apply orb_false_iff in E as [E1 E2]. apply negb_false_iff in E1. apply Z.eqb_eq in E1. apply Z.eqb_neq in E2.
    assert (q = 24) by lia. assert (c = 3) by auto. lia.
  - unfold daysIn. destruct (mp <? 10) eqn:E10; repeat match goal with |- context [if ?b then _ else _] => destruct b eqn:? end; unfold d; lia.
Qed.

Lemma civil_day n : let '(y, m, d) := civil n in d <= daysIn m y.
Proof.
  unfold civil. set (z := n + epoch_shift). pose proof (era_day (z mod 146097) ltac:(apply Z.mod_pos_bound; lia)) as H.
  destruct (civil_of_era (z mod 146097)) as [[yoe mp] d]. cbv zeta in H |- *. set (m := if mp <? 10 then mp + 3 else mp - 9) in *.
  replace (yoe + z / 146097 * 400 + (if m <=? 2 then 1 else 0)) with (yoe + (if m <=? 2 then 1 else 0) + 400 * (z / 146097)) by lia.
  unfold daysIn in *. by rewrite is_leap_era.
Qed.

(** *** The round trip *)

(** A time that JSON can carry. *)
Definition time_ok (t : ZonedTime) : Prop := 0 <= (civil (local t / ns_per_day)).1.1 <= 9999 /\ zone_ok (zone t).

#[global] Instance time_ok_dec t : Decision (time_ok t).
Proof. unfold time_ok, zone_ok. apply _. Defined.

Lemma fmt_zone_head z : exists c r, fmt_zone z = String c r /\ is_digit c = false /\ c <> "."%char /\ c <> ","%char.
Proof. unfold fmt_zone. repeat case_match; (do 2 eexists; split; [done|]); by vm_compute. Qed.

Lemma fmt_pad_year y : 0 <= y -> fmt_year y = fmt_pad 4 y.
Proof. intros H. unfold fmt_year. by rewrite (proj2 (Z.ltb_ge y 0)) by lia. Qed.

Lemma ranged_in lo hi n s : lo <= n <= hi -> ranged lo hi (Some (n, s)) = Some (n, s).
Proof. intros H. cbn. by destruct (_ && _) eqn:E; [|lia]. Qed.

Lemma skip_char_same c s : skip_char c (String c s) = Some s.
Proof. cbn. by rewrite decide_True. Qed.

(** A time that is printed in its zone and parsed is the same time, zone
    included. *)
Lemma time_Parse_fmt t : time_ok t -> time_Parse (fmt_clock (local t) (fmt_zone (zone t))) = Some t.
Proof.
  intros [Hy Hz]. unfold fmt_clock, time_Parse. pose proof (days_civil (local t / ns_per_day)) as D. pose proof (civil_day (local t / ns_per_day)) as L.
  destruct (civil (local t / ns_per_day)) as [[y m] d]. cbn [fst snd] in Hy. destruct D as (Ed & Hm & Hd).
  assert (Hs : 0 <= local t mod ns_per_day / 1000000000 < 86400) by (unfold ns_per_day; lia).
  set (s := local t mod ns_per_day / 1000000000) in *. rewrite (fmt_pad_year y) by lia.
  rewrite getyear_pad by lia. cbn [mbind option_bind]. rewrite skip_char_same. cbn [mbind option_bind].
  rewrite getnum_pad, ranged_in by lia. cbn [mbind option_bind]. rewrite skip_char_same. cbn [mbind option_bind].
  rewrite getnum_pad by lia. cbn [mbind option_bind]. rewrite skip_char_same. cbn [mbind option_bind].
  rewrite getnum_pad, ranged_in by lia. cbn [mbind option_bind]. rewrite skip_char_same. cbn [mbind option_bind].
  rewrite getnum_pad, ranged_in by lia. cbn [mbind option_bind]. rewrite skip_char_same. cbn [mbind option_bind].
  rewrite getnum_pad, ranged_in by lia. cbn [mbind option_bind].
  destruct (fmt_zone_head (zone t)) as (c & r & Ez & Hc1 & Hc2 & Hc3).
  rewrite getfraction_fmt; [|lia|by rewrite Ez|intros c' r'; rewrite Ez; by intros [= <- <-]].
  rewrite getzone_fmt by done. cbn [mbind option_bind]. rewrite bool_decide_true by done. cbn [negb].
  destruct (_ || _) eqn:E; [lia|]. destruct t as [t z]. unfold local in *. cbn [instant zone] in *. rewrite Ed. f_equal. f_equal.
  unfold s, ns_per_day in *. lia.
Qed.

(** *** The text needs no escapes *)

Definition plain_char (c : ascii) : bool := plain (byte_of_ascii c).

Lemma digits_plain_text s : str_all is_digit s = true -> str_all plain_char s = true.
Proof.
  induction s as [|c s IH]; [done|]. cbn. intros [Hc Hs]%andb_true_iff. rewrite IH by done. rewrite andb_true_r.
  destruct c as [[] [] [] [] [] [] [] []]; try (vm_compute in Hc; discriminate Hc); done.
Qed.

Lemma fmt_pad_plain w n : (0 < w <= 18)%nat -> 0 <= n < 10 ^ Z.of_nat w -> str_all plain_char (fmt_pad w n) = true.
Proof.
  intros Hw Hn. assert (10 ^ Z.of_nat w <= 10 ^ 18) by (apply Z.pow_le_mono_r; lia). apply digits_plain_text, fmt_pad_spec; lia.
Qed.

Lemma fmt_fraction_plain ns : 0 <= ns < 1000000000 -> str_all plain_char (fmt_fraction ns) = true.
Proof.
  intros H. destruct (fmt_pad_spec 9 ns) as (Hd & _); [lia..|]. apply trim_right0_digits, digits_plain_text in Hd.
  unfold fmt_fraction. by destruct (trim_right0 (fmt_pad 9 ns)).
Qed.

Lemma fmt_zone_plain z : zone_ok z -> str_all plain_char (fmt_zone z) = true.
Proof.
  intros [Hm Hz]. unfold fmt_zone, zone_minutes. destruct (z =? 0); [done|]. set (m := Z.quot z 60).
  assert (Ha : 0 <= Z.abs m < 1440) by (unfold m; lia).
  cbn [str_all]. rewrite str_all_app. cbn [str_all]. rewrite !fmt_pad_plain by lia. by destruct (m <? 0).
Qed.

Lemma fmt_clock_plain t tail : 0 <= (civil (t / ns_per_day)).1.1 <= 9999 -> str_all plain_char tail = true ->
  str_all plain_char (fmt_clock t tail) = true.
Proof.
  intros Hy Ht. unfold fmt_clock. pose proof (days_civil (t / ns_per_day)) as D.
  destruct (civil (t / ns_per_day)) as [[y m] d]. cbn [fst snd] in Hy. destruct D as (_ & Hm & Hd).
  assert (Hs : 0 <= t mod ns_per_day / 1000000000 < 86400) by (unfold ns_per_day; lia).
  rewrite (fmt_pad_year y) by lia. repeat (rewrite str_all_app || cbn [str_all]).
  rewrite !fmt_pad_plain, fmt_fraction_plain, Ht by lia. done.
Qed.

Lemma plain_bytes s : str_all plain_char s = true -> forallb plain (String.list_byte_of_string s) = true.
Proof. induction s as [|c s IH]; [done|]. cbn. intros [Hc Hs]%andb_true_iff. unfold plain_char in Hc. rewrite Hc. by apply IH. Qed.

(** [MarshalJSON] succeeds on the times JSON can carry, and [UnmarshalJSON] reads
    its text back. *)
Lemma time_roundtrip t : time_ok t ->
  exists raw, time_MarshalJSON t = Some (quote :: raw ++ [quote]) /\ string_run InString raw = Some InString /\
    forall t0, time_UnmarshalJSON (JString raw) t0 = Ok t.
Proof.
  intros Ht. pose proof Ht as [Hy [Hm Hz]]. unfold time_MarshalJSON, zone_minutes. destruct (negb _) eqn:E1; [lia|].
  assert (Ha : Z.abs (Z.quot (zone t) 60) < 1440) by lia.
  destruct (negb (zone t =? 0) && _) eqn:E2; [lia|]. eexists. split; [done|]. split.
  - apply plain_run, plain_bytes, fmt_clock_plain; [done|]. by apply fmt_zone_plain.
  - intros t0. cbn [time_UnmarshalJSON]. by rewrite String.string_of_list_byte_of_string, time_Parse_fmt.
Qed.

(** What [Parse] returns is in whole minutes and at most 25 hours off. *)
Lemma getzone_range s z r : getzone s = Some (z, r) -> z mod 60 = 0 /\ -90000 <= z <= 90000.
Proof.
  unfold getzone. destruct s as [|sign s]; [done|]. case_decide; [by intros [= <- _]|].
  destruct s as [|h1 [|h2 [|colon [|m1 [|m2 rest]]]]]; try done. destruct (negb _); [done|].
  destruct (getnum true (String h1 _)) as [[hr ?]|] eqn:Gh; [|done]. cbn [mbind option_bind].
  destruct (getnum true (String m1 _)) as [[mm ?]|] eqn:Gm; [|done]. cbn [mbind option_bind].
  destruct (_ || _) eqn:Er; [done|]. 
  assert (P : forall a b n t, getnum true (String a (String b EmptyString)) = Some (n, t) -> 0 <= n).
  { intros a b n t Hg. unfold getnum in Hg. destruct (is_digit a) eqn:Da; [|done]. destruct (is_digit b) eqn:Db; [|done].
    apply is_digit_range in Da, Db. cbn in Hg. injection Hg as <- _. lia. }
  apply P in Gh, Gm. repeat case_decide; intros [= <- _] || done; split; lia.
Qed.

Lemma time_Parse_zone s t : time_Parse s = Some t -> zone t mod 60 = 0.
Proof.
  unfold time_Parse. intros H.
  repeat (let x := fresh in apply bind_Some in H as (x & ? & H); try destruct x as [? ?]).
  destruct (getfraction _) as [ns s9]. apply bind_Some in H as ([offset s10] & Hz & H). apply getzone_range in Hz as [Hz _].
  destruct (negb _); [discriminate|]. destruct (_ || _); [discriminate|]. by injection H as <-.
Qed.

(** A time in whole minutes that can be printed can be read back. *)
Lemma MarshalJSON_ok t text : zone t mod 60 = 0 -> time_MarshalJSON t = Some text -> time_ok t.
Proof.
  intros Hz H. unfold time_MarshalJSON, zone_minutes in H. destruct (negb _) eqn:E1; [discriminate|].
  destruct (negb (zone t =? 0) && _) eqn:E2; [discriminate|]. split; [lia|]. split; [done|].
  apply andb_false_iff in E2 as [E2|E2]; [lia|]. apply Z.leb_gt in E2. lia.
Qed.

Lemma store_time_zone {S} get (set : ZonedTime -> S -> S) v s s' e :
  zone (get s) mod 60 = 0 -> store_time get set v s = Ok (s', e) -> exists t, s' = set t s /\ zone t mod 60 = 0.
Proof.
  intros Hz. unfold store_time, time_UnmarshalJSON. destruct v; try discriminate; [intros [= <- _]; eauto|].
  destruct (time_Parse _) as [t|] eqn:E; [|discriminate]. apply time_Parse_zone in E. intros [= <- _]. eauto.
Qed.
