(* ===== verification/Sha256.v ===== *)
(** * SHA-256

    [crypto/sha256] as [event.Fingerprint] uses it: the digest of a message of
    whole bytes. Words are 32-bit integers. *)

From S2P Require Import Prelude Bytes.

Definition rotr (x n : Z) : Z := Z.lor (Z.shiftr x n) (uint32 (Z.shiftl x (32 - n))).

Definition round_constants : list Z :=
  [1116352408; 1899447441; 3049323471; 3921009573; 961987163; 1508970993; 2453635748; 2870763221;
   3624381080; 310598401; 607225278; 1426881987; 1925078388; 2162078206; 2614888103; 3248222580;
   3835390401; 4022224774; 264347078; 604807628; 770255983; 1249150122; 1555081692; 1996064986;
   2554220882; 2821834349; 2952996808; 3210313671; 3336571891; 3584528711; 113926993; 338241895;
   666307205; 773529912; 1294757372; 1396182291; 1695183700; 1986661051; 2177026350; 2456956037;
   2730485921; 2820302411; 3259730800; 3345764771; 3516065817; 3600352804; 4094571909; 275423344;
   430227734; 506948616; 659060556; 883997877; 958139571; 1322822218; 1537002063; 1747873779;
   1955562222; 2024104815; 2227730452; 2361852424; 2428436474; 2756734187; 3204031479; 3329325298].

Record hash_state : Type := mkHash { h0 : Z; h1 : Z; h2 : Z; h3 : Z; h4 : Z; h5 : Z; h6 : Z; h7 : Z }.

Definition initial_hash : hash_state :=
  mkHash 1779033703 3144134277 1013904242 2773480762 1359893119 2600822924 528734635 1541459225.

Definition small_sigma0 (x : Z) : Z := Z.lxor (Z.lxor (rotr x 7) (rotr x 18)) (Z.shiftr x 3).

Definition small_sigma1 (x : Z) : Z := Z.lxor (Z.lxor (rotr x 17) (rotr x 19)) (Z.shiftr x 10).

Definition big_sigma0 (x : Z) : Z := Z.lxor (Z.lxor (rotr x 2) (rotr x 13)) (rotr x 22).

Definition big_sigma1 (x : Z) : Z := Z.lxor (Z.lxor (rotr x 6) (rotr x 11)) (rotr x 25).

Definition choose (x y z : Z) : Z := Z.lxor (Z.land x y) (Z.land (Z.lxor x 4294967295) z).

Definition majority (x y z : Z) : Z := Z.lxor (Z.lxor (Z.land x y) (Z.land x z)) (Z.land y z).

(** The message schedule, most recent word first. *)
Fixpoint extend_schedule (n : nat) (w : list Z) : list Z :=
  match n with
  | O => w
  | S n =>
      let at_ i := nth i w 0 in
      extend_schedule n (uint32 (small_sigma1 (at_ 1%nat) + at_ 6%nat + small_sigma0 (at_ 14%nat) + at_ 15%nat) :: w)
  end.

Fixpoint words (b : list byte) (n : nat) : list Z :=
  match n with
  | O => []
  | S n => Uint32 (take 4 b) :: words (drop 4 b) n
  end.

Definition hash_round (h : hash_state) (kw : Z * Z) : hash_state :=
  let t1 := h7 h + big_sigma1 (h4 h) + choose (h4 h) (h5 h) (h6 h) + kw.1 + kw.2 in
  let t2 := big_sigma0 (h0 h) + majority (h0 h) (h1 h) (h2 h) in
  mkHash (uint32 (t1 + t2)) (h0 h) (h1 h) (h2 h) (uint32 (h3 h + t1)) (h4 h) (h5 h) (h6 h).

Definition hash_block (h : hash_state) (block : list byte) : hash_state :=
  let w := reverse (extend_schedule 48 (reverse (words block 16))) in
  let r := foldl hash_round h (zip round_constants w) in
  mkHash (uint32 (h0 h + h0 r)) (uint32 (h1 h + h1 r)) (uint32 (h2 h + h2 r)) (uint32 (h3 h + h3 r))
         (uint32 (h4 h + h4 r)) (uint32 (h5 h + h5 r)) (uint32 (h6 h + h6 r)) (uint32 (h7 h + h7 r)).

(** [n] blocks of 64 bytes. *)
Fixpoint hash_blocks (n : nat) (h : hash_state) (b : list byte) : hash_state :=
  match n with
  | O => h
  | S n => hash_blocks n (hash_block h (take 64 b)) (drop 64 b)
  end.

(** A one bit, zeros up to eight bytes short of a block, and the length in bits. *)
Definition pad (m : list byte) : list byte :=
  let n := Z.of_nat (length m) in
  m ++ [x80] ++ replicate (Z.to_nat ((55 - n) mod 64)) x00 ++ PutUint64 (uint64 (n * 8)).

Definition sha256 (m : list byte) : list byte :=
  let p := pad m in
  let h := hash_blocks (length p / 64) initial_hash p in
  PutUint32 (h0 h) ++ PutUint32 (h1 h) ++ PutUint32 (h2 h) ++ PutUint32 (h3 h) ++
  PutUint32 (h4 h) ++ PutUint32 (h5 h) ++ PutUint32 (h6 h) ++ PutUint32 (h7 h).

(** The standard's test vector for "abc". *)
Lemma sha256_abc : sha256 [x61; x62; x63] =
  [xba; x78; x16; xbf; x8f; x01; xcf; xea; x41; x41; x40; xde; x5d; xae; x22; x23;
   xb0; x03; x61; xa3; x96; x17; x7a; x9c; xb4; x10; xff; x61; xf2; x00; x15; xad].
Proof. vm_compute. reflexivity. Qed.

Lemma sha256_length m : length (sha256 m) = 32%nat.
Proof. done. Qed.
