(* ===== verification/Event.v ===== *)
(** * Usage events: [billing/event/event.go]

    The event, its canonical quantity and its fingerprint, and the class
    [EventCodec] through which the packages that read the log see [Encode] and
    [Decode]; [EventJson.v] has the functions themselves. *)

From S2P Require Import Prelude Decimal Quantity Bytes GoTime Sha256.

(** ** Data *)

(** A nil slice of bytes is [None]. *)
Record UsageEvent : Type := mkEvent {
  ev_TenantID : string;
  ev_Meter : string;
  ev_Quantity : string;
  ev_OccurredAt : ZonedTime;
  ev_ReceivedAt : ZonedTime;
  ev_IdempotencyKey : string;
  ev_Fingerprint : option (list byte)
}.

#[global] Instance UsageEvent_eq_dec : EqDecision UsageEvent.
Proof. solve_decision. Defined.

(** ** Operations *)

Definition CanonicalQuantity (quantity : string) : string :=
  let '(integer, fraction, hasPoint) := Cut "." quantity in
  let integer := trim_left0 integer in
  let integer := if decide (integer = ""%string) then "0"%string else integer in
  if negb hasPoint then integer
  else
    let fraction := trim_right0 fraction in
    if decide (fraction = ""%string) then integer
    else integer +:+ String "." fraction.

(** [[]byte(s)] *)
Definition bytes_of (s : string) : list byte := String.list_byte_of_string s.

(** What [writeField] writes to the hash: the length, then the value. *)
Definition writeField (value : string) : list byte :=
  PutUint64 (uint64 (Z.of_nat (String.length value))) ++ bytes_of value.

(** Everything [Fingerprint] writes, in order. *)
Definition fingerprint_input (e : UsageEvent) : list byte :=
  writeField (ev_TenantID e) ++
  writeField (ev_Meter e) ++
  writeField (CanonicalQuantity (ev_Quantity e)) ++
  writeField (RFC3339Nano (ev_OccurredAt e)).

Definition Fingerprint (e : UsageEvent) : list byte := sha256 (fingerprint_input e).

(** ** The codec

    [Encode] is [json.Marshal] and [Decode] a decoder that refuses unknown
    fields and explains its refusals. Their users rely on a round trip for the
    events ingest produces. *)
Class EventCodec : Type := {
  codec_ok : UsageEvent -> Prop;
  Encode : UsageEvent -> option (list byte);
  Decode : list byte -> res string UsageEvent;
  Decode_Encode e record : codec_ok e -> Encode e = Some record -> Decode record = Ok e
}.

(** ** Lemmas *)

(** A quantity that passed validation: digits, and at most [QuantityScale] of
    them after a point. *)
Definition wf_quantity (q : string) : Prop := is_Some (decimal_spec QuantityScale q).

(** Its value in units of [10^-9]. *)
Definition quantity_value (q : string) : Z := default 0 (decimal_spec QuantityScale q).

Lemma wf_quantity_parts q : wf_quantity q ->
  exists i f p, Cut "." q = (i, f, p) /\ i <> ""%string /\ str_all is_digit i = true /\ str_all is_digit f = true /\
    (p = false -> f = ""%string) /\ (String.length f <= QuantityScale)%nat /\
    quantity_value q = dec_value i * 10 ^ Z.of_nat QuantityScale + dec_value f * 10 ^ Z.of_nat (QuantityScale - String.length f).
Proof.
  unfold wf_quantity, quantity_value, decimal_spec. pose proof (Cut_tail "." q) as Ht.
  destruct (Cut "." q) as [[i f] p] eqn:E. destruct (_ && _) eqn:Hc; [|by intros []]. intros _.
  rewrite !andb_true_iff in Hc. destruct Hc as ((((H1 & H2) & H3) & H4) & H5). apply bool_decide_eq_true in H1. apply Nat.leb_le in H5.
  exists i, f, p. split_and!; done.
Qed.

Lemma quantity_value_nonneg q : wf_quantity q -> 0 <= quantity_value q.
Proof.
  intros (i & f & p & _ & _ & Di & Df & _ & _ & ->)%wf_quantity_parts.
  apply dec_value_bound in Di, Df. nia.
Qed.

(** The canonical form: the integer part without leading zeros, the fraction
    without trailing ones. *)
Definition canonical (i f : string) : string :=
  let i := if decide (trim_left0 i = ""%string) then "0"%string else trim_left0 i in
  if decide (trim_right0 f = ""%string) then i else i +:+ String "." (trim_right0 f).

Lemma CanonicalQuantity_parts q i f p :
  Cut "." q = (i, f, p) -> (p = false -> f = ""%string) -> CanonicalQuantity q = canonical i f.
Proof.
  intros H Hp. unfold CanonicalQuantity, canonical. rewrite H. destruct p; [done|]. cbn [negb]. by rewrite (Hp eq_refl).
Qed.

(** The parts of a canonical form can be read off it. *)
Lemma canonical_inj i f i' f' :
  str_all is_digit i = true -> str_all is_digit i' = true -> str_all is_digit f = true -> str_all is_digit f' = true ->
  canonical i f = canonical i' f' <-> trim_left0 i = trim_left0 i' /\ trim_right0 f = trim_right0 f'.
Proof.
  intros Hi Hi' Hf Hf'. split; [|by unfold canonical; intros [-> ->]]. unfold canonical. intros H.
  set (n := if decide (trim_left0 i = ""%string) then _ else _) in H. set (n' := if decide (trim_left0 i' = ""%string) then _ else _) in H.
  assert (Hn : str_all is_digit n = true) by (unfold n; destruct (decide (trim_left0 i = ""%string)); [done|by apply trim_left0_digits]).
  assert (Hn' : str_all is_digit n' = true) by (unfold n'; destruct (decide (trim_left0 i' = ""%string)); [done|by apply trim_left0_digits]).
  assert (Hparts : n = n' /\ trim_right0 f = trim_right0 f').
  { destruct (decide (trim_right0 f = ""%string)) as [->|Ef], (decide (trim_right0 f' = ""%string)) as [->|Ef'].
    - done.
    - apply (f_equal (Cut ".")) in H. rewrite Cut_no_point, Cut_point in H by done. by simplify_eq.
    - apply (f_equal (Cut ".")) in H. rewrite Cut_point, Cut_no_point in H by done. by simplify_eq.
    - apply (f_equal (Cut ".")) in H. rewrite !Cut_point in H by done. by simplify_eq. }
  destruct Hparts as [En ->]. split; [|done]. unfold n, n' in En.
  assert (Hz : forall s, trim_left0 s <> "0"%string).
  { induction s as [|c s IH]; [done|]. cbn [trim_left0]. destruct (decide (c = zero_char)); [done|]. intros [= -> _]. done. }
  destruct (decide (trim_left0 i = ""%string)) as [->|], (decide (trim_left0 i' = ""%string)) as [->|]; try done.
  - symmetry in En. by apply Hz in En.
  - by apply Hz in En.
Qed.

Lemma canonical_value q q' : wf_quantity q -> wf_quantity q' ->
  CanonicalQuantity q = CanonicalQuantity q' <-> quantity_value q = quantity_value q'.
Proof.
  intros (i & f & p & C & Hi & Di & Df & Hp & Hl & V)%wf_quantity_parts (i' & f' & p' & C' & Hi' & Di' & Df' & Hp' & Hl' & V')%wf_quantity_parts.
  rewrite (CanonicalQuantity_parts _ _ _ _ C Hp), (CanonicalQuantity_parts _ _ _ _ C' Hp'), canonical_inj by done.
  rewrite trim_left0_inj, (trim_right0_value QuantityScale f f'), V, V' by done.
  pose proof (fraction_bound _ f Df Hl) as B. pose proof (fraction_bound _ f' Df' Hl') as B'.
  split; [by intros [-> ->]|]. intros E. apply (Z.div_mod_unique (10 ^ Z.of_nat QuantityScale)); [by left|by left|lia].
Qed.

Lemma bytes_of_length s : length (bytes_of s) = String.length s.
Proof.
  unfold bytes_of, String.list_byte_of_string. rewrite length_map.
  induction s as [|c s IH]; [done|]. cbn [String.list_ascii_of_string length String.length]. by rewrite IH.
Qed.

Lemma bytes_of_inj s t : bytes_of s = bytes_of t -> s = t.
Proof.
  intros H. rewrite <- (String.string_of_list_byte_of_string s), <- (String.string_of_list_byte_of_string t).
  unfold bytes_of in H. by rewrite H.
Qed.

(** Fields can be told apart: the length says where each ends. *)
Lemma writeField_inj s t x y :
  Z.of_nat (String.length s) < 18446744073709551616 -> Z.of_nat (String.length t) < 18446744073709551616 ->
  writeField s ++ x = writeField t ++ y -> s = t /\ x = y.
Proof.
  intros Hs Ht H. unfold writeField in H. rewrite <- !app_assoc in H.
  apply app_inj_1 in H as [H1 H2]; [|done].
  apply (f_equal (fun l => Uint64 (l ++ []))) in H1. rewrite !uint64_id, !Uint64_Put in H1 by lia.
  apply app_inj_1 in H2 as [H2 ->]; [|rewrite !bytes_of_length; lia]. split; [by apply bytes_of_inj|done].
Qed.

Lemma CanonicalQuantity_length q : (String.length (CanonicalQuantity q) <= S (String.length q))%nat.
Proof.
  assert (Hl : forall s, (String.length (trim_left0 s) <= String.length s)%nat).
  { induction s as [|c s IH]; [done|]. cbn [trim_left0]. destruct (decide _); cbn [String.length]; lia. }
  assert (Hr : forall s, (String.length (trim_right0 s) <= String.length s)%nat) by (intros s; apply trim_right0_zeros).
  assert (Hc : forall s i f p, Cut "." s = (i, f, p) ->
    (String.length i + String.length f + Nat.b2n p <= String.length s)%nat).
  { induction s as [|c s IH]; intros i f p H; cbn [Cut] in H; [by injection H as <- <- <-|].
    destruct (decide (c = "."%char)); [injection H as <- <- <-; cbn; lia|]. destruct (Cut "." s) as [[a b] g] eqn:E.
    injection H as <- <- ->. specialize (IH _ _ _ eq_refl). cbn. lia. }
  unfold CanonicalQuantity. destruct (Cut "." q) as [[i f] p] eqn:E. specialize (Hc _ _ _ _ E). specialize (Hl i). specialize (Hr f).
  destruct p; cbn [negb]; repeat case_decide; rewrite ?str_length_app; cbn [String.length Nat.b2n] in *; lia.
Qed.

(** Go strings are shorter than [2^64] bytes, and so is what [Fingerprint] makes
    of them. *)
Definition event_sized (e : UsageEvent) : Prop :=
  Z.of_nat (String.length (ev_TenantID e)) < max_int64 /\
  Z.of_nat (String.length (ev_Meter e)) < max_int64 /\
  Z.of_nat (String.length (ev_Quantity e)) < max_int64.

(** Two events are the same usage: tenant, meter, amount and instant. *)
Definition same_usage (e e' : UsageEvent) : Prop :=
  ev_TenantID e = ev_TenantID e' /\ ev_Meter e = ev_Meter e' /\
  quantity_value (ev_Quantity e) = quantity_value (ev_Quantity e') /\
  instant (ev_OccurredAt e) = ev_OccurredAt e'.

(** What is hashed determines the usage, and the other way round. *)
Lemma fingerprint_input_inj e e' :
  event_sized e -> event_sized e' -> wf_quantity (ev_Quantity e) -> wf_quantity (ev_Quantity e') ->
  four_digit_year (ev_OccurredAt e) -> four_digit_year (ev_OccurredAt e') ->
  fingerprint_input e = fingerprint_input e' <-> same_usage e e'.
Proof.
  intros (S1 & S2 & S3) (S1' & S2' & S3') Hq Hq' Hy Hy'. unfold max_int64 in *. unfold fingerprint_input, same_usage.
  pose proof (CanonicalQuantity_length (ev_Quantity e)). pose proof (CanonicalQuantity_length (ev_Quantity e')).
  pose proof (RFC3339Nano_length _ Hy). pose proof (RFC3339Nano_length _ Hy').
  rewrite <- (canonical_value _ _ Hq Hq'). split.
  - intros X. apply writeField_inj in X as [E1 X]; [|lia..]. apply writeField_inj in X as [E2 X]; [|lia..].
    apply writeField_inj in X as [E3 X]; [|lia..]. rewrite <- (app_nil_r (writeField (RFC3339Nano _))) in X.
    rewrite <- (app_nil_r (writeField (RFC3339Nano (ev_OccurredAt e')))) in X.
    apply writeField_inj in X as [E4 _]; [|lia..]. apply RFC3339Nano_inj in E4; done.
  - by intros (-> & -> & -> & ->).
Qed.

(** ** Theorems *)

(** [CanonicalQuantity] merges exactly the spellings of one amount: two
    quantities that passed validation have the same canonical form if and only if
    they denote the same number of units. *)
Theorem CanonicalQuantity_same_value q q' :
  wf_quantity q -> wf_quantity q' ->
  CanonicalQuantity q = CanonicalQuantity q' <-> quantity_value q = quantity_value q'.
Proof. apply canonical_value. Qed.

Lemma CanonicalQuantity_same_value_witness :
  CanonicalQuantity "007.50" = CanonicalQuantity "7.5" <-> quantity_value "007.50" = quantity_value "7.5".
Proof. apply CanonicalQuantity_same_value; vm_compute; eexists; reflexivity. Defined.

(** C29: the fingerprint is taken over exactly the usage: the bytes given to
    SHA-256 are equal if and only if tenant, meter, amount and instant are, so
    neither a retry written differently nor its receive time or key matters, and
    no two different usages share an input whatever bytes their names hold. *)
Theorem fingerprint_identifies_usage e e' :
  event_sized e -> event_sized e' -> wf_quantity (ev_Quantity e) -> wf_quantity (ev_Quantity e') ->
  four_digit_year (ev_OccurredAt e) -> four_digit_year (ev_OccurredAt e') ->
  (fingerprint_input e = fingerprint_input e' <-> same_usage e e') /\
  (same_usage e e' -> Fingerprint e = Fingerprint e').
Proof.
  intros. pose proof (fingerprint_input_inj e e') as I. split; [by apply I|]. intros Hs.
  unfold Fingerprint. by rewrite (proj2 (I ltac:(done) ltac:(done) ltac:(done) ltac:(done) ltac:(done) ltac:(done)) Hs).
Qed.

Definition event_example (tenant meter quantity : string) : UsageEvent :=
  mkEvent tenant meter quantity (UTC 63900000000000000000) (UTC 63900000001000000000) "key" None.

Lemma fingerprint_identifies_usage_witness :
  (fingerprint_input (event_example "ab" "c" "1.0") = fingerprint_input (event_example "ab" "c" "1") <->
   same_usage (event_example "ab" "c" "1.0") (event_example "ab" "c" "1")) /\
  (same_usage (event_example "ab" "c" "1.0") (event_example "ab" "c" "1") ->
   Fingerprint (event_example "ab" "c" "1.0") = Fingerprint (event_example "ab" "c" "1")).
Proof.
  apply fingerprint_identifies_usage;
    [by vm_compute|by vm_compute|vm_compute; eexists; reflexivity|vm_compute; eexists; reflexivity|by vm_compute|by vm_compute].
Defined.
