(* ===== verification/EventJson.v ===== *)
(** * Events as log records: [Encode] and [Decode] of [billing/event/event.go]

    [json.Marshal] and [Decoder.Decode] on [UsageEvent], and the instance of
    [EventCodec] they make. The texts of the library's error messages are a
    parameter: nothing depends on them. *)

From S2P Require Import Prelude Decimal Quantity Bytes Unicode Json GoTime TimeText Sha256 Event.

(** ** Operations *)

Definition set_TenantID (x : string) (e : UsageEvent) : UsageEvent :=
  mkEvent x (ev_Meter e) (ev_Quantity e) (ev_OccurredAt e) (ev_ReceivedAt e) (ev_IdempotencyKey e) (ev_Fingerprint e).

Definition set_Meter (x : string) (e : UsageEvent) : UsageEvent :=
  mkEvent (ev_TenantID e) x (ev_Quantity e) (ev_OccurredAt e) (ev_ReceivedAt e) (ev_IdempotencyKey e) (ev_Fingerprint e).

Definition set_Quantity (x : string) (e : UsageEvent) : UsageEvent :=
  mkEvent (ev_TenantID e) (ev_Meter e) x (ev_OccurredAt e) (ev_ReceivedAt e) (ev_IdempotencyKey e) (ev_Fingerprint e).

Definition set_OccurredAt (x : ZonedTime) (e : UsageEvent) : UsageEvent :=
  mkEvent (ev_TenantID e) (ev_Meter e) (ev_Quantity e) x (ev_ReceivedAt e) (ev_IdempotencyKey e) (ev_Fingerprint e).

Definition set_ReceivedAt (x : ZonedTime) (e : UsageEvent) : UsageEvent :=
  mkEvent (ev_TenantID e) (ev_Meter e) (ev_Quantity e) (ev_OccurredAt e) x (ev_IdempotencyKey e) (ev_Fingerprint e).

Definition set_IdempotencyKey (x : string) (e : UsageEvent) : UsageEvent :=
  mkEvent (ev_TenantID e) (ev_Meter e) (ev_Quantity e) (ev_OccurredAt e) (ev_ReceivedAt e) x (ev_Fingerprint e).

Definition set_Fingerprint (x : option (list byte)) (e : UsageEvent) : UsageEvent :=
  mkEvent (ev_TenantID e) (ev_Meter e) (ev_Quantity e) (ev_OccurredAt e) (ev_ReceivedAt e) (ev_IdempotencyKey e) x.

(** The tags of the struct, in order of declaration. *)
Definition event_fields : list (list byte * setter UsageEvent) :=
  [(bytes_of "tenant_id", store_string set_TenantID);
   (bytes_of "meter", store_string set_Meter);
   (bytes_of "quantity", store_string set_Quantity);
   (bytes_of "occurred_at", store_time ev_OccurredAt set_OccurredAt);
   (bytes_of "received_at", store_time ev_ReceivedAt set_ReceivedAt);
   (bytes_of "idempotency_key", store_string set_IdempotencyKey);
   (bytes_of "fingerprint", store_bytes set_Fingerprint)].

(** [var e UsageEvent] *)
Definition zero_event : UsageEvent := mkEvent "" "" "" (UTC 0) (UTC 0) "" None.

(** [None] when a time cannot be written. *)
Definition event_Encode (e : UsageEvent) : option (list byte) :=
  occurred_at ← time_MarshalJSON (ev_OccurredAt e);
  received_at ← time_MarshalJSON (ev_ReceivedAt e);
  Some (print_object
    [(bytes_of "tenant_id", print_string (bytes_of (ev_TenantID e)));
     (bytes_of "meter", print_string (bytes_of (ev_Meter e)));
     (bytes_of "quantity", print_string (bytes_of (ev_Quantity e)));
     (bytes_of "occurred_at", occurred_at);
     (bytes_of "received_at", received_at);
     (bytes_of "idempotency_key", print_string (bytes_of (ev_IdempotencyKey e)));
     (bytes_of "fingerprint", print_bytes (ev_Fingerprint e))]).

Section Codec.
(** The message of an error, for the input it was raised on. *)
Variable err_text : list byte -> json_err -> string.

Definition event_Decode (record : list byte) : res string UsageEvent :=
  match Decoder_Decode event_fields zero_event None record with
  | Ok e => Ok e
  | Err err => Err ("decode event: " +:+ err_text record err)
  end.

(** ** The round trip *)

(** Go text that is well formed; everything a JSON decoder produces is. *)
Definition text_utf8 (s : string) : Prop := utf8 (bytes_of s).

Definition event_ok (e : UsageEvent) : Prop :=
  text_utf8 (ev_TenantID e) /\ text_utf8 (ev_Meter e) /\ text_utf8 (ev_Quantity e) /\ text_utf8 (ev_IdempotencyKey e) /\
  time_ok (ev_OccurredAt e) /\ time_ok (ev_ReceivedAt e).

Lemma store_string_escape {S} (set : string -> S -> S) s x : text_utf8 x ->
  store_string set (JString (escape (bytes_of x))) s = Ok (set x s, None).
Proof.
  intros H. cbn. rewrite unquote_escape by done. unfold bytes_of. by rewrite String.string_of_list_byte_of_string.
Qed.

Lemma store_string_utf8 {S} (set : string -> S -> S) v s s' e :
  store_string set v s = Ok (s', e) -> s' = s \/ exists x, text_utf8 x /\ s' = set x s.
Proof.
  destruct v; cbn; try (intros [= <- _]; by left). destruct (unquote raw) as [t|] eqn:E; [|discriminate]. intros [= <- _].
  right. eexists. split; [|done]. unfold text_utf8, bytes_of. rewrite String.list_byte_of_string_of_list_byte. by eapply unquote_loop_utf8.
Qed.

Lemma store_time_ok {S} get (set : ZonedTime -> S -> S) s t raw :
  (forall t0, time_UnmarshalJSON (JString raw) t0 = Ok t) -> store_time get set (JString raw) s = Ok (set t s, None).
Proof. intros H. unfold store_time. by rewrite H. Qed.

Lemma store_bytes_print {S} (set : option (list byte) -> S -> S) s b :
  store_bytes set (match b with Some b => JString (base64_encode b) | None => JNull end) s = Ok (set b s, None).
Proof.
  destruct b as [b|]; [|done]. cbn [store_bytes]. rewrite unquote_plain by apply base64_encode_plain. by rewrite base64_roundtrip.
Qed.

(** A field that is found by its exact name. *)
Lemma decode_members_cons {S} (fields : list (list byte * setter S)) key v ms (s : S) st s' :
  forallb plain key = true -> find_field fields key = Some st -> st v s = Ok (s', None) ->
  decode_members fields ((key, v) :: ms) s None = decode_members fields ms s' None.
Proof. intros Hp Hf Hs. cbn [decode_members]. by rewrite unquote_plain, Hf, Hs. Qed.

Lemma event_roundtrip e : event_ok e -> exists record, event_Encode e = Some record /\ event_Decode record = Ok e.
Proof.
  intros (U1 & U2 & U3 & U4 & T1 & T2). unfold event_Encode, event_Decode.
  destruct (time_roundtrip _ T1) as (r1 & -> & R1 & P1). destruct (time_roundtrip _ T2) as (r2 & -> & R2 & P2).
  cbn [mbind option_bind]. eexists. split; [done|]. rewrite <- (app_nil_r (print_object _)).
  set (vs := [JString (escape (bytes_of (ev_TenantID e))); JString (escape (bytes_of (ev_Meter e))); JString (escape (bytes_of (ev_Quantity e)));
              JString r1; JString r2; JString (escape (bytes_of (ev_IdempotencyKey e)));
              match ev_Fingerprint e with Some b => JString (base64_encode b) | None => JNull end]).
  rewrite (Decoder_print _ _ _ _ vs); [|done| |done].
  - cbn [zip zip_with fmap list_fmap fst unmarshal vs].
    repeat (erewrite decode_members_cons; [|done|done|first [by apply store_string_escape|by apply store_time_ok|apply store_bytes_print]]).
    cbn [decode_members]. by destruct e.
  - unfold vs. repeat (constructor; [split; [done|]; first [by apply value_text_string|by apply value_text_quoted|apply value_text_bytes]|]). constructor.
Qed.

(** [EventCodec] as the rest of the system uses it. *)
Definition json_EventCodec : EventCodec.
Proof.
  refine {| codec_ok := event_ok; Encode := event_Encode; Decode := event_Decode |}.
  intros e record Hok He. destruct (event_roundtrip e Hok) as (record' & He' & Hd). congruence.
Defined.

(** ** Theorem *)

(** C25: a record reads back as the event it was written from: whatever bytes the
    names of an event hold, as long as they are well-formed text, and whatever the
    zone of its times, [Encode] succeeds, [Decode] of the record is that very
    event, and two events with the same record are the same. *)
Theorem Decode_inverts_Encode e e' :
  event_ok e -> event_ok e' ->
  exists record, event_Encode e = Some record /\ event_Decode record = Ok e /\
    (event_Encode e' = Some record -> e' = e).
Proof.
  intros He He'. destruct (event_roundtrip e He) as (record & E & D). exists record. split_and!; [done|done|].
  intros E'. destruct (event_roundtrip e' He') as (record' & E1 & D'). congruence.
Qed.

End Codec.

(** ** Witness *)

(** A name with quotes, markup, a line separator and a character beyond ASCII. *)
Definition odd_name : string :=
  String.string_of_list_byte (["a"%byte; quote; backslash; "<"%byte; x0a; x00] ++ EncodeRune 8232 ++ EncodeRune 128512).

Definition odd_event : UsageEvent :=
  mkEvent odd_name "api_calls" "1.50" (mkZoned 63921351600500000000 (-16200)) (UTC 63921351601000000000) "key" (Some [x00; xff]).

Lemma odd_event_ok : event_ok odd_event.
Proof.
  assert (T : time_ok (ev_OccurredAt odd_event) /\ time_ok (ev_ReceivedAt odd_event)) by (by apply (bool_decide_unpack _); vm_compute).
  unfold event_ok. split; [exists [97; 34; 92; 60; 10; 0; 8232; 128512]; vm_compute; reflexivity|].
  split; [by apply utf8_ascii|]. split; [by apply utf8_ascii|]. split; [by apply utf8_ascii|done].
Qed.

Definition no_text (_ : list byte) (_ : json_err) : string := "".

Lemma Decode_inverts_Encode_witness :
  exists record, event_Encode odd_event = Some record /\ event_Decode no_text record = Ok odd_event.
Proof.
  destruct (Decode_inverts_Encode no_text odd_event odd_event odd_event_ok odd_event_ok) as (record & E & D & _). exists record. split; [exact E|exact D].
Defined.
