(* ===== verification/Validate.v ===== *)
(** * Request validation: [billing/ingest/validate.go] *)

From S2P Require Import Prelude Decimal Quantity GoTime Event.

(** ** strings.TrimSpace

    The white space of Unicode, each rune as its UTF-8 bytes. Only a whole rune
    is trimmed, and no encoding of one is part of another's, so trimming runes
    is trimming these byte sequences. *)
Definition byte_str (l : list nat) : string := String.string_of_list_ascii (map ascii_of_nat l).

Definition white_space : list string :=
  map byte_str
    ([[9]; [10]; [11]; [12]; [13]; [32]; [194; 133]; [194; 160]; [225; 154; 128]]
     ++ map (fun i => [226; 128; 128 + i]) (seq 0 11)
     ++ [[226; 128; 168]; [226; 128; 169]; [226; 128; 175]; [226; 129; 159]; [227; 128; 128]])%nat.

(** [strings.CutPrefix]. *)
Fixpoint cut_prefix (p s : string) : option string :=
  match p, s with
  | EmptyString, _ => Some s
  | String a p, String b s => if decide (a = b) then cut_prefix p s else None
  | String _ _, EmptyString => None
  end.

Fixpoint cut_any (ps : list string) (s : string) : option string :=
  match ps with
  | [] => None
  | p :: ps => match cut_prefix p s with Some r => Some r | None => cut_any ps s end
  end.

(** Each round drops a byte at least: the length bounds their number. *)
Fixpoint trim_prefixes (fuel : nat) (ps : list string) (s : string) : string :=
  match fuel with
  | O => s
  | S n => match cut_any ps s with Some r => trim_prefixes n ps r | None => s end
  end.

Definition rev_str (s : string) : string := String.rev s.

Definition TrimLeftSpace (s : string) : string := trim_prefixes (String.length s) white_space s.

Definition TrimRightSpace (s : string) : string :=
  rev_str (trim_prefixes (String.length s) (map rev_str white_space) (rev_str s)).

Definition TrimSpace (s : string) : string := TrimRightSpace (TrimLeftSpace s).

(** ** Data *)

Definition maxFieldLen : nat := 255.

Definition maxIntegerDigits : nat := 29.

Definition maxFractionDigits : nat := 9.

(** [5 * time.Minute] *)
Definition maxClockSkew : Z := 300000000000.

(** [35 * 24 * time.Hour] *)
Definition maxBackfillAge : Z := 3024000000000000.

Definition codeMalformed : string := "malformed_request".

Definition codeInvalid : string := "invalid_field".

Definition codeTooOld : string := "event_too_old".

Record rejection : Type := mkRejection {
  rej_status : Z;
  rej_code : string;
  rej_detail : string
}.

#[global] Instance rejection_eq_dec : EqDecision rejection.
Proof. solve_decision. Defined.

Record eventRequest : Type := mkRequest {
  req_TenantID : string;
  req_Meter : string;
  req_Quantity : string;
  req_OccurredAt : ZonedTime;
  req_IdempotencyKey : string
}.

(** ** Operations *)

Definition rejection_Error (r : rejection) : string := rej_code r +:+ ": " +:+ rej_detail r.

Definition invalid (field reason : string) : rejection :=
  mkRejection 400 codeInvalid (field +:+ " " +:+ reason).

Definition validateString (field value : string) : option rejection :=
  if decide (value = ""%string) then Some (invalid field "is required")
  else if decide (maxFieldLen < String.length value)%nat then
    Some (invalid field ("must be at most " +:+ fmt_d (Z.of_nat maxFieldLen) +:+ " bytes"))
  else if decide (TrimSpace value <> value) then
    Some (invalid field "must not have leading or trailing whitespace")
  else None.

Definition allDigits (s : string) : bool := str_all is_digit s && (0 <? String.length s)%nat.

Definition validateQuantity (value : string) : option rejection :=
  if decide (value = ""%string) then Some (invalid "quantity" "is required")
  else if ContainsAny value ["e"; "E"]%char then Some (invalid "quantity" "must not use scientific notation")
  else if has_prefix_char "-" value then Some (invalid "quantity" "must not be negative")
  else if has_prefix_char "+" value then Some (invalid "quantity" "must not have a leading plus sign")
  else
    let '(integer, fraction, hasPoint) := Cut "." value in
    if decide (integer = ""%string) then
      Some (invalid "quantity" "must have at least one digit before the decimal point")
    else if hasPoint && bool_decide (fraction = ""%string) then
      Some (invalid "quantity" "must have at least one digit after the decimal point")
    else if negb (allDigits integer) || (hasPoint && negb (allDigits fraction)) then
      Some (invalid "quantity" "must be a decimal number")
    else if decide (maxIntegerDigits < String.length (trim_left0 integer))%nat then
      Some (invalid "quantity" ("must have at most " +:+ fmt_d (Z.of_nat maxIntegerDigits) +:+ " digits before the decimal point"))
    else if decide (maxFractionDigits < String.length fraction)%nat then
      Some (invalid "quantity" ("must have at most " +:+ fmt_d (Z.of_nat maxFractionDigits) +:+ " digits after the decimal point"))
    else None.

(** [int(maxBackfillAge.Hours()/24)] *)
Definition backfill_days : Z := maxBackfillAge / 3600000000000 / 24.

Definition validateOccurredAt (occurredAt now : Time) : option rejection :=
  if IsZero occurredAt then Some (invalid "occurred_at" "is required")
  else if After occurredAt (now + maxClockSkew) then Some (invalid "occurred_at" "must not be in the future")
  else if Before occurredAt (now - maxBackfillAge) then
    Some (mkRejection 422 codeTooOld
      ("occurred_at is more than " +:+ fmt_d backfill_days +:+ " days old; use the backfill path"))
  else None.

(** The first check that fails decides. *)
Definition validate (req : eventRequest) (now : Time) : option rejection :=
  match validateString "tenant_id" (req_TenantID req) with
  | Some err => Some err
  | None =>
  match validateString "meter" (req_Meter req) with
  | Some err => Some err
  | None =>
  match validateString "idempotency_key" (req_IdempotencyKey req) with
  | Some err => Some err
  | None =>
  match validateQuantity (req_Quantity req) with
  | Some err => Some err
  | None => validateOccurredAt (req_OccurredAt req) now
  end end end end.

(** ** Lemmas *)

Lemma cut_prefix_spec p s r : cut_prefix p s = Some r <-> s = p +:+ r.
Proof.
  revert s. induction p as [|a p IH]; intros s; cbn [cut_prefix].
  - change ("" +:+ r) with r. split; [by intros [= ->]|by intros ->].
  - change (String a p +:+ r) with (String a (p +:+ r)). destruct s as [|b s]; [done|].
    destruct (decide (a = b)) as [->|Hab]; [rewrite IH; split; [by intros ->|by intros [= ->]]|].
    split; [done|]. by intros [= -> _].
Qed.

Lemma cut_any_spec ps s : cut_any ps s = None <-> forall p r, p ∈ ps -> s <> p +:+ r.
Proof.
  induction ps as [|p ps IH]; cbn [cut_any].
  - split; [|done]. intros _ p r H. by apply elem_of_nil in H.
  - destruct (cut_prefix p s) as [r|] eqn:E.
    + split; [done|]. intros H. apply cut_prefix_spec in E. destruct (H p r); [left|done].
    + rewrite IH. split; intros H q r; [|by intros Hq; apply H; right].
      intros [->|Hq]%elem_of_cons; [|by apply H]. intros E'%cut_prefix_spec. congruence.
Qed.

Lemma cut_any_shrinks ps s r : (forall p, p ∈ ps -> p <> ""%string) -> cut_any ps s = Some r ->
  (String.length r < String.length s)%nat.
Proof.
  intros Hne. induction ps as [|p ps IH]; cbn [cut_any]; [done|].
  destruct (cut_prefix p s) as [t|] eqn:E.
  - intros [= ->]. apply cut_prefix_spec in E as ->. rewrite str_length_app.
    assert (p <> ""%string) by (apply Hne; left). destruct p; [done|]. cbn. lia.
  - apply IH. intros q Hq. apply Hne. by right.
Qed.

Lemma trim_prefixes_length n ps s : (forall p, p ∈ ps -> p <> ""%string) ->
  (String.length (trim_prefixes n ps s) <= String.length s)%nat.
Proof.
  intros Hne. revert s. induction n as [|n IH]; intros s; cbn [trim_prefixes]; [lia|].
  destruct (cut_any ps s) as [r|] eqn:E; [|lia]. apply cut_any_shrinks in E; [|done]. specialize (IH r). lia.
Qed.

(** Nothing is trimmed exactly when no prefix matches. *)
Lemma trim_prefixes_id ps s : (forall p, p ∈ ps -> p <> ""%string) ->
  trim_prefixes (String.length s) ps s = s <-> cut_any ps s = None.
Proof.
  intros Hne. destruct s as [|c s]; cbn [String.length trim_prefixes].
  - split; [|done]. intros _. apply cut_any_spec. intros p r Hp. apply Hne in Hp. by destruct p.
  - destruct (cut_any ps (String c s)) as [r|] eqn:E; [|done]. split; [|done]. intros H.
    apply cut_any_shrinks in E; [|done]. pose proof (trim_prefixes_length (String.length s) ps r Hne) as L. rewrite H in L. lia.
Qed.

Lemma rev_app_spec s t : String.rev_app s t = rev_str s +:+ t.
Proof.
  unfold rev_str, String.rev. revert t. induction s as [|c s IH]; intros t; cbn [String.rev_app]; [done|].
  rewrite (IH (String c t)), (IH (String c "")), <- str_app_assoc. done.
Qed.

Lemma rev_str_app s t : rev_str (s +:+ t) = rev_str t +:+ rev_str s.
Proof.
  induction s as [|c s IH]; [by rewrite str_app_nil_r|]. change (String c s +:+ t) with (String c (s +:+ t)).
  unfold rev_str at 1 3, String.rev. cbn [String.rev_app]. by rewrite !rev_app_spec, IH, str_app_assoc.
Qed.

Lemma rev_str_involutive s : rev_str (rev_str s) = s.
Proof.
  induction s as [|c s IH]; [done|]. unfold rev_str at 2, String.rev. cbn [String.rev_app].
  by rewrite rev_app_spec, rev_str_app, IH.
Qed.

Lemma rev_str_length s : String.length (rev_str s) = String.length s.
Proof.
  induction s as [|c s IH]; [done|]. unfold rev_str, String.rev. cbn [String.rev_app String.length].
  rewrite rev_app_spec, str_length_app, IH. cbn. lia.
Qed.

Lemma white_space_nonempty p : p ∈ white_space -> p <> ""%string.
Proof.
  intros H ->. assert (N : bool_decide (""%string ∈ white_space) = false) by (vm_compute; reflexivity).
  by apply bool_decide_eq_false in N.
Qed.

(** A value with no white space at either end. *)
Definition trimmed (s : string) : Prop :=
  forall w, w ∈ white_space -> forall r, s <> w +:+ r /\ s <> r +:+ w.

Lemma TrimSpace_id s : TrimSpace s = s <-> trimmed s.
Proof.
  assert (Hne : forall p, p ∈ map rev_str white_space -> p <> ""%string).
  { intros p (w & -> & Hw)%list_elem_of_fmap E. apply (f_equal rev_str) in E. rewrite rev_str_involutive in E.
    by apply (white_space_nonempty w Hw). }
  assert (Hright : TrimRightSpace s = s <-> cut_any (map rev_str white_space) (rev_str s) = None).
  { unfold TrimRightSpace. rewrite <- trim_prefixes_id, rev_str_length by done.
    split; [intros E; apply (f_equal rev_str) in E; by rewrite rev_str_involutive in E|].
    intros ->. apply rev_str_involutive. }
  assert (Hl : TrimSpace s = s <-> TrimLeftSpace s = s /\ TrimRightSpace s = s).
  { unfold TrimSpace. split; [|by intros [-> ->]]. intros E. cut (TrimLeftSpace s = s); [intros El; by rewrite El in E|].
    apply trim_prefixes_id; [apply white_space_nonempty|]. destruct (cut_any white_space s) as [r|] eqn:C; [|done].
    pose proof (cut_any_shrinks _ _ _ white_space_nonempty C) as Lr. destruct s as [|c s]; [cbn in Lr; lia|].
    apply (f_equal String.length) in E. unfold TrimRightSpace, TrimLeftSpace in E. cbn [trim_prefixes String.length] in E.
    rewrite C in E. set (t := trim_prefixes (String.length s) white_space r) in E.
    rewrite rev_str_length in E. pose proof (trim_prefixes_length (String.length t) _ (rev_str t) Hne) as Lt.
    pose proof (trim_prefixes_length (String.length s) white_space r white_space_nonempty) as Lu. fold t in Lu.
    rewrite rev_str_length in Lt. cbn [String.length] in *. lia. }
  rewrite Hl, Hright. unfold TrimLeftSpace. rewrite trim_prefixes_id, !cut_any_spec by apply white_space_nonempty. split.
  - intros [H1 H2] w Hw r. split; [by apply H1|]. intros E. apply (H2 (rev_str w) (rev_str r)); [by apply list_elem_of_fmap_2|].
    by rewrite E, rev_str_app.
  - intros H. split; [intros p r Hp; exact (proj1 (H p Hp r))|]. intros p r (w & -> & Hw)%list_elem_of_fmap E.
    apply (f_equal rev_str) in E. rewrite rev_str_app, !rev_str_involutive in E. exact (proj2 (H w Hw (rev_str r)) E).
Qed.

(** ** What is accepted *)

Definition good_field (s : string) : Prop :=
  s <> ""%string /\ (String.length s <= maxFieldLen)%nat /\ trimmed s.

(** A decimal with at most nine places whose integer part has at most 29
    significant digits. *)
Definition good_quantity (q : string) : Prop :=
  wf_quantity q /\ quantity_value q < 10 ^ Z.of_nat (maxIntegerDigits + QuantityScale).

Definition good_time (t now : Time) : Prop :=
  t <> 0 /\ now - maxBackfillAge <= t <= now + maxClockSkew.

Lemma validateString_None field s : validateString field s = None <-> good_field s.
Proof.
  unfold validateString, good_field. rewrite <- TrimSpace_id.
  destruct (decide (s = ""%string)); [split; [done|by intros []]|].
  destruct (decide (maxFieldLen < String.length s)%nat); [split; [done|intros (_ & ? & _); lia]|].
  destruct (decide (TrimSpace s <> s)) as [N|N]; [split; [done|by intros (_ & _ & ?)]|].
  apply dec_stable in N. split; [|done]. intros _. split_and!; [done|lia|done].
Qed.

Lemma validateOccurredAt_None t now : validateOccurredAt t now = None <-> good_time t now.
Proof. unfold validateOccurredAt, good_time, IsZero, After, Before, maxClockSkew, maxBackfillAge. cases_if; split; try done; lia. Qed.

Lemma validateQuantity_None q : validateQuantity q = None <-> good_quantity q.
Proof.
  unfold good_quantity, wf_quantity, quantity_value. split.
  - unfold validateQuantity. intros H. unfold decimal_spec. destruct (decide (q = ""%string)); [done|].
    destruct (ContainsAny q _); [done|]. destruct (has_prefix_char "-" q); [done|]. destruct (has_prefix_char "+" q); [done|].
    pose proof (Cut_tail "." q) as Ht. destruct (Cut "." q) as [[i f] p]. destruct (decide (i = ""%string)) as [|Hi]; [done|].
    destruct (p && bool_decide (f = ""%string)) eqn:Hf; [done|].
    destruct (negb (allDigits i) || (p && negb (allDigits f))) eqn:Hd; [done|].
    destruct (decide (maxIntegerDigits < _)%nat) as [|Hl]; [done|]. destruct (decide (maxFractionDigits < _)%nat) as [|Hm]; [done|].
    apply orb_false_iff in Hd as [Di Df]. apply negb_false_iff, andb_true_iff in Di as [Di _].
    assert (str_all is_digit f = true) as Ds.
    { destruct p; [by apply negb_false_iff, andb_true_iff in Df as [? _]|by rewrite Ht]. }
    rewrite bool_decide_true, Di, Ds, (proj2 (Nat.leb_le _ _)) by (done || (unfold QuantityScale, maxFractionDigits in *; lia)).
    replace (negb p || bool_decide (f <> ""%string)) with true
      by (destruct p; [|done]; cbn in *; apply bool_decide_eq_false in Hf; by rewrite bool_decide_true).
    cbn [andb]. split; [by eexists|]. cbn [default from_option id].
    apply Nat.nlt_ge, significant_digits in Hl; [|done]. apply Nat.nlt_ge in Hm.
    pose proof (fraction_bound QuantityScale f Ds Hm). by rewrite Nat2Z.inj_add, Z.pow_add_r, radix_lt by lia.
  - intros [[v Hv] Hb]. rewrite Hv in Hb. cbn [default from_option id] in Hb. destruct (decimal_spec_guards _ _ _ Hv) as (Hne & Hminus & Hany).
    assert (Hplus : has_prefix_char "+" q = false).
    { destruct q as [|c q]; [done|]. cbn [ContainsAny has_prefix_char] in *. apply orb_false_iff in Hany as [Hc _].
      apply bool_decide_eq_false. intros ->. by vm_compute in Hc. }
    assert (Hexp : ContainsAny q ["e"; "E"]%char = false).
    { apply (ContainsAny_mono _ _ not_plain); [|done]. intros c Hc. unfold not_plain.
      repeat (apply elem_of_cons in Hc as [->|Hc]; [rewrite !elem_of_cons; tauto|]). by apply elem_of_nil in Hc. }
    unfold validateQuantity. rewrite decide_False, Hexp, Hminus, Hplus by done.
    unfold decimal_spec in Hv. destruct (Cut "." q) as [[i f] p]. destruct (_ && _) eqn:Hc in Hv; [|done].
    rewrite !andb_true_iff in Hc. destruct Hc as ((((H1 & H2) & H3) & H4) & H5). apply bool_decide_eq_true in H1. apply Nat.leb_le in H5.
    pose proof (fraction_bound QuantityScale f H3 H5) as B. injection Hv as <-.
    rewrite decide_False by done. unfold allDigits. rewrite H2, H3.
    replace (p && bool_decide (f = ""%string)) with false
      by (destruct p; [|done]; cbn in *; apply bool_decide_eq_true in H4; by rewrite bool_decide_false).
    replace (negb (true && (0 <? String.length i)%nat) || _) with false; cycle 1.
    { destruct i; [done|]. cbn. destruct p; [|done]. cbn in *. apply bool_decide_eq_true in H4. by destruct f. }
    rewrite decide_False, decide_False; [done|unfold maxFractionDigits, QuantityScale in *; lia|].
    apply Nat.nlt_ge, significant_digits; [done|]. by rewrite Nat2Z.inj_add, Z.pow_add_r, radix_lt in Hb by lia.
Qed.

Lemma validate_None req now :
  validate req now = None <->
  good_field (req_TenantID req) /\ good_field (req_Meter req) /\ good_field (req_IdempotencyKey req) /\
  good_quantity (req_Quantity req) /\ good_time (req_OccurredAt req) now.
Proof.
  rewrite <- (validateString_None "tenant_id"), <- (validateString_None "meter"), <- (validateString_None "idempotency_key"),
    <- validateQuantity_None, <- validateOccurredAt_None. unfold validate. repeat case_match; naive_solver.
Qed.

Lemma validateString_code field s r : validateString field s = Some r -> rej_status r = 400 /\ rej_code r = codeInvalid.
Proof. unfold validateString. intros H. repeat case_decide; simplify_eq; done. Qed.

Lemma validateQuantity_code q r : validateQuantity q = Some r -> rej_status r = 400 /\ rej_code r = codeInvalid.
Proof.
  unfold validateQuantity. destruct (Cut "." q) as [[i f] p]. intros H.
  repeat (case_decide || match type of H with context [if ?b then _ else _] => destruct b end); by simplify_eq.
Qed.

(** ** Theorems *)

(** C30: validation accepts exactly the events billing can take: three non-empty
    fields of at most 255 bytes without white space at their ends, a plain decimal
    of at most nine places below [10^29], and an instant from 35 days before the
    clock to five minutes after it. *)
Theorem validate_accepts req now :
  validate req now = None <->
  good_field (req_TenantID req) /\ good_field (req_Meter req) /\ good_field (req_IdempotencyKey req) /\
  good_quantity (req_Quantity req) /\ good_time (req_OccurredAt req) now.
Proof. apply validate_None. Qed.

(** The backfill code is kept for backfills: a rejection carries status 422
    and the code [event_too_old] exactly when everything else about the request is
    in order and the event is older than 35 days; every other rejection is 400
    [invalid_field]. *)
Theorem validate_codes req now r :
  validate req now = Some r ->
  (rej_status r = 422 /\ rej_code r = codeTooOld /\
   good_field (req_TenantID req) /\ good_field (req_Meter req) /\ good_field (req_IdempotencyKey req) /\
   good_quantity (req_Quantity req) /\ instant (req_OccurredAt req) <> 0 /\ req_OccurredAt req < now - maxBackfillAge) \/
  (rej_status r = 400 /\ rej_code r = codeInvalid /\
   ~ (good_field (req_TenantID req) /\ good_field (req_Meter req) /\ good_field (req_IdempotencyKey req) /\
      good_quantity (req_Quantity req) /\ instant (req_OccurredAt req) <> 0 /\ req_OccurredAt req <= now + maxClockSkew)).
Proof.
  rewrite <- (validateString_None "tenant_id"), <- (validateString_None "meter"), <- (validateString_None "idempotency_key"),
    <- validateQuantity_None. unfold validate. intros H.
  destruct (validateString "tenant_id" _) eqn:E1; [simplify_eq; right; apply validateString_code in E1; naive_solver|].
  destruct (validateString "meter" _) eqn:E2; [simplify_eq; right; apply validateString_code in E2; naive_solver|].
  destruct (validateString "idempotency_key" _) eqn:E3; [simplify_eq; right; apply validateString_code in E3; naive_solver|].
  destruct (validateQuantity _) eqn:E4; [simplify_eq; right; apply validateQuantity_code in E4; naive_solver|].
  unfold validateOccurredAt, IsZero, After, Before in H.
  destruct (instant (req_OccurredAt req) =? 0) eqn:Ez; [simplify_eq; right; split_and!; [done|done|lia]|].
  destruct (now + maxClockSkew <? _) eqn:Ea; [simplify_eq; right; split_and!; [done|done|lia]|].
  destruct (_ <? now - maxBackfillAge) eqn:Eb; [|done]. simplify_eq. left. split_and!; done || lia.
Qed.

Definition request_example (quantity : string) (t : Time) : eventRequest :=
  mkRequest "acme" "api_calls" quantity (UTC t) "key-1".

Lemma validate_codes_witness :
  exists r, validate (request_example "1.5" 63900000000000000000) 63910000000000000000 = Some r /\
    rej_code r = codeTooOld.
Proof.
  eexists. split; [vm_compute; reflexivity|].
  destruct (validate_codes (request_example "1.5" 63900000000000000000) 63910000000000000000 _ ltac:(vm_compute; reflexivity))
    as [(_ & H & _)|(_ & _ & H)]; [exact H|vm_compute; reflexivity].
Defined.

(** C39: not every accepted quantity can be priced: [validateQuantity] allows 29
    integer digits while [ParseQuantity] holds the amount in an [int64] of
    nano-units, so an event of [9223372037] units is acknowledged and then fails
    when its period is priced. *)
Theorem accepted_quantity_overflows :
  validateQuantity "9223372037" = None /\ ParseQuantity "9223372037" = Err ErrQuantityOverflow /\
  (forall q, validateQuantity q = None -> is_ok (ParseQuantity q) = bool_decide (quantity_value q <= max_int64)).
Proof.
  split_and!; [vm_compute; reflexivity|vm_compute; reflexivity|]. intros q [[v Hv] _]%validateQuantity_None.
  unfold quantity_value. rewrite Hv. cbn [default from_option id]. case_bool_decide as Hb.
  - destruct (ParseQuantity_iff q v) as [_ H]. by rewrite H.
  - destruct (ParseQuantity q) as [w|] eqn:E; [|done]. apply ParseQuantity_iff in E as [E Hw]. rewrite E in Hv. injection Hv as ->. lia.
Qed.
