(* ===== verification/Instances.v ===== *)
(** * A small instance of the log's interface

    A log that is a list: an implementation of [LogStore] on which the theorems
    proved against the interface can be run. It is not declared as an
    instance. *)

From S2P Require Import Prelude Decimal Quantity Bytes Record LogSpec GoTime Event.

Definition list_LogStore : LogStore (list (list byte)).
Proof.
  refine {| ls_Append p s := (Ok (Z.of_nat (length s)), s ++ [p]);
            ls_Read off s := (match (if off <? 0 then None else s !! Z.to_nat off) with
                              | Some p => Ok p | None => Err ErrOffsetOutOfRange end, s);
            ls_NextOffset s := Ok (Z.of_nat (length s));
            ls_holds s rs := s = rs |}.
  - by intros s rs p r s' <- _ [= <- <-].
  - intros s rs off r s' <- [= <- <-]. split; [done|]. split.
    + intros Hoff. destruct (off <? 0) eqn:E; [done|]. by rewrite lookup_ge_None_2 by lia.
    + intros p Hoff. rewrite (proj2 (Z.ltb_ge off 0)) by lia. by destruct (s !! Z.to_nat off); intros [= ->].
  - by intros s rs <-.
Defined.
