(* ===== verification/Handler.v ===== *)
(** * The ingest endpoint: [billing/ingest/handler.go]

    [ServeHTTP] over a log that keeps the contract [LogStore], from the bytes of
    the request body to those of the log record. The clock is read twice; its
    readings are arguments. *)

From S2P Require Import Prelude Decimal Quantity Bytes Unicode Json Record LogSpec GoTime TimeText Event EventJson Validate Instances.

(** ** Data *)

Definition maxBodyBytes : Z := 65536.

(** The tags of [eventRequest]. *)
Definition set_req_TenantID (x : string) (r : eventRequest) : eventRequest :=
  mkRequest x (req_Meter r) (req_Quantity r) (req_OccurredAt r) (req_IdempotencyKey r).

Definition set_req_Meter (x : string) (r : eventRequest) : eventRequest :=
  mkRequest (req_TenantID r) x (req_Quantity r) (req_OccurredAt r) (req_IdempotencyKey r).

Definition set_req_Quantity (x : string) (r : eventRequest) : eventRequest :=
  mkRequest (req_TenantID r) (req_Meter r) x (req_OccurredAt r) (req_IdempotencyKey r).

Definition set_req_OccurredAt (x : ZonedTime) (r : eventRequest) : eventRequest :=
  mkRequest (req_TenantID r) (req_Meter r) (req_Quantity r) x (req_IdempotencyKey r).

Definition set_req_IdempotencyKey (x : string) (r : eventRequest) : eventRequest :=
  mkRequest (req_TenantID r) (req_Meter r) (req_Quantity r) (req_OccurredAt r) x.

Definition request_fields : list (list byte * setter eventRequest) :=
  [(bytes_of "tenant_id", store_string set_req_TenantID);
   (bytes_of "meter", store_string set_req_Meter);
   (bytes_of "quantity", store_string set_req_Quantity);
   (bytes_of "occurred_at", store_time req_OccurredAt set_req_OccurredAt);
   (bytes_of "idempotency_key", store_string set_req_IdempotencyKey)].

(** [var req eventRequest] *)
Definition zero_request : eventRequest := mkRequest "" "" "" (UTC 0) "".

Inductive response_body : Type :=
| acceptedResponse (Offset : Z)
| errorResponse (Code Detail : string).

Record response : Type := mkResponse {
  resp_status : Z;
  resp_body : response_body
}.

#[global] Instance response_body_eq_dec : EqDecision response_body.
Proof. solve_decision. Defined.

#[global] Instance response_eq_dec : EqDecision response.
Proof. solve_decision. Defined.

(** ** Operations *)

Definition internalError : rejection := mkRejection 500 "internal_error" "could not accept event".

Definition writeJSON (status : Z) (body : response_body) : response := mkResponse status body.

Definition writeError (rej : rejection) : response :=
  writeJSON (rej_status rej) (errorResponse (rej_code rej) (rej_detail rej)).

(** [dec.Decode(&req)] of the body behind its limit. *)
Definition decode_request (body : list byte) : res json_err eventRequest :=
  Decoder_Decode request_fields zero_request (Some maxBodyBytes) body.

Section Handler.
Context {S : Type} `{LogStore S}.

(** The message of a decoding error. *)
Variable err_text : list byte -> json_err -> string.

Definition Handler_decode (body : list byte) : res rejection eventRequest :=
  match decode_request body with
  | Ok req => Ok req
  | Err ErrTooLarge => Err (mkRejection 413 codeMalformed "request body too large")
  | Err err => Err (mkRejection 400 codeMalformed (err_text body err))
  end.

(** The event built from a request received at [receivedAt]. *)
Definition request_event (req : eventRequest) (receivedAt : Time) : UsageEvent :=
  let e := mkEvent (req_TenantID req) (req_Meter req) (req_Quantity req) (req_OccurredAt req)
             (UTC receivedAt) (req_IdempotencyKey req) None in
  mkEvent (ev_TenantID e) (ev_Meter e) (ev_Quantity e) (ev_OccurredAt e)
    (ev_ReceivedAt e) (ev_IdempotencyKey e) (Some (Fingerprint e)).

Definition ServeHTTP (body : list byte) (now1 now2 : Time) (log : S) : response * S :=
  match Handler_decode body with
  | Err rej => (writeError rej, log)
  | Ok req =>
  match validate req now1 with
  | Some rej => (writeError rej, log)
  | None =>
  match event_Encode (request_event req now2) with
  | None => (writeError internalError, log)
  | Some record =>
  match ls_Append record log with
  | (Err _, log') => (writeError internalError, log')
  | (Ok offset, log') => (writeJSON 202 (acceptedResponse offset), log')
  end end end end.

(** ** Lemmas *)

Lemma validate_not_202 req now r : validate req now = Some r -> rej_status r = 400 \/ rej_status r = 422.
Proof.
  unfold validate. intros Hv.
  destruct (validateString "tenant_id" _) eqn:E1; [simplify_eq; left; by apply validateString_code in E1 as []|].
  destruct (validateString "meter" _) eqn:E2; [simplify_eq; left; by apply validateString_code in E2 as []|].
  destruct (validateString "idempotency_key" _) eqn:E3; [simplify_eq; left; by apply validateString_code in E3 as []|].
  destruct (validateQuantity _) eqn:E4; [simplify_eq; left; by apply validateQuantity_code in E4 as []|].
  unfold validateOccurredAt in Hv. cases_if; simplify_eq; auto.
Qed.

(** An event built from a validated request is one the later stages rely on. *)
Definition billable (e : UsageEvent) : Prop :=
  good_field (ev_TenantID e) /\ good_field (ev_Meter e) /\ good_field (ev_IdempotencyKey e) /\
  good_quantity (ev_Quantity e) /\ ev_Fingerprint e = Some (Fingerprint e).

Lemma request_event_billable req now1 now2 : validate req now1 = None -> billable (request_event req now2).
Proof. intros (H1 & H2 & H3 & H4 & _)%validate_None. done. Qed.

Definition accepts (body : list byte) (now1 now2 : Time) (record : list byte) : Prop :=
  exists req, decode_request body = Ok req /\ validate req now1 = None /\
    event_Encode (request_event req now2) = Some record.

(** What a JSON decoder makes of any body: well-formed text, and a time whose
    offset is in minutes. *)
Definition request_text (req : eventRequest) : Prop :=
  text_utf8 (req_TenantID req) /\ text_utf8 (req_Meter req) /\ text_utf8 (req_Quantity req) /\
  text_utf8 (req_IdempotencyKey req) /\ zone (req_OccurredAt req) mod 60 = 0.

Lemma decode_request_text body req : decode_request body = Ok req -> request_text req.
Proof.
  apply Decoder_Decode_inv; [|split_and!; try apply utf8_nil; done].
  repeat (constructor; [intros v s s' e (H1 & H2 & H3 & H4 & H5) E; cbn [snd] in E;
    first [apply store_string_utf8 in E as [-> |(x & Hx & ->)] | apply store_time_zone in E as (x & -> & Hx); [|done]]; by split_and!|]). constructor.
Qed.

(** So an event that could be encoded can be decoded. *)
Lemma accepted_decodes body req now2 record : decode_request body = Ok req ->
  event_Encode (request_event req now2) = Some record -> event_Decode err_text record = Ok (request_event req now2).
Proof.
  intros (H1 & H2 & H3 & H4 & H5)%decode_request_text He.
  assert (Hok : event_ok (request_event req now2)).
  { unfold event_Encode in He. apply bind_Some in He as (t1 & T1 & He). apply bind_Some in He as (t2 & T2 & _).
    apply MarshalJSON_ok in T1; [|done]. apply MarshalJSON_ok in T2; [|done]. by split_and!. }
  destruct (event_roundtrip err_text _ Hok) as (record' & E & D). congruence.
Qed.

(** The one way a request reaches the log. *)
Lemma ServeHTTP_appends body now1 now2 log resp log' : ServeHTTP body now1 now2 log = (resp, log') ->
  (log' = log /\ exists code detail, resp_body resp = errorResponse code detail) \/
  (exists record r, accepts body now1 now2 record /\ ls_Append record log = (r, log') /\
     match r with
     | Ok offset => resp = mkResponse 202 (acceptedResponse offset)
     | Err _ => exists code detail, resp = mkResponse 500 (errorResponse code detail)
     end).
Proof.
  unfold ServeHTTP, Handler_decode, accepts. destruct (decode_request body) as [req|err] eqn:Ej.
  2:{ destruct err; intros [= <- <-]; left; cbn; eauto. }
  destruct (validate req now1) eqn:Ev; [intros [= <- <-]; left; cbn; eauto|].
  destruct (event_Encode (request_event req now2)) as [record|] eqn:Ee; [|intros [= <- <-]; left; cbn; eauto].
  destruct (ls_Append record log) as [[off|e] log1] eqn:Ea; intros [= <- <-]; right; exists record; eexists;
    (split; [by exists req|]); (split; [exact Ea|]); [reflexivity|by do 2 eexists].
Qed.

Lemma ServeHTTP_cases body now1 now2 log rs resp log' :
  ls_holds log rs -> Z.of_nat (length rs) + 1 < 18446744073709551616 ->
  ServeHTTP body now1 now2 log = (resp, log') ->
  (exists record, resp = mkResponse 202 (acceptedResponse (Z.of_nat (length rs))) /\
     accepts body now1 now2 record /\ ls_holds log' (rs ++ [record])) \/
  (exists record code detail, resp = mkResponse 500 (errorResponse code detail) /\
     accepts body now1 now2 record /\ (ls_holds log' rs \/ ls_holds log' (rs ++ [record]))) \/
  (exists code detail, resp_status resp ∈ [400; 413; 422; 500] /\ resp_body resp = errorResponse code detail /\
     log' = log /\ (forall record, ~ accepts body now1 now2 record)).
Proof.
  intros Hh Hlen. unfold ServeHTTP, Handler_decode, accepts. destruct (decode_request body) as [req|err] eqn:Ej.
  - destruct (validate req now1) as [rej|] eqn:Ev.
    { intros [= <- <-]. right. right. apply validate_not_202 in Ev as Es. do 2 eexists. cbn.
      split_and!; [rewrite !elem_of_cons; naive_solver|done|done|]. intros record (? & ? & ? & _). congruence. }
    destruct (event_Encode (request_event req now2)) as [record|] eqn:Ee; cycle 1.
    { intros [= <- <-]. right. right. do 2 eexists. cbn. split_and!; [rewrite !elem_of_cons; naive_solver|done|done|].
      intros record (? & ? & ? & ?). congruence. }
    destruct (ls_Append record log) as [[off|err] log1] eqn:Ea; intros [= <- <-];
      pose proof (ls_Append_law _ _ _ _ _ Hh Hlen Ea) as L.
    + left. destruct L as [-> L]. by exists record; eauto 6.
    + right. left. eexists record, _, _. split; [done|]. eauto.
  - assert (C : exists rej, rej_status rej ∈ [400; 413; 422; 500] /\
      match err with ErrTooLarge => Err (mkRejection 413 codeMalformed "request body too large")
      | _ => Err (mkRejection 400 codeMalformed (err_text body err)) end = @Err rejection eventRequest rej).
    { destruct err; eexists; (split; [|reflexivity]); cbn; rewrite !elem_of_cons; naive_solver. }
    destruct C as (rej & Hin & ->). intros [= <- <-]. right. right. do 2 eexists. split_and!; [exact Hin|done|done|].
    intros record (? & ? & _). congruence.
Qed.

(** The body a client writes for a request. *)
Definition request_body (req : eventRequest) : option (list byte) :=
  occurred_at ← time_MarshalJSON (req_OccurredAt req);
  Some (print_object
    [(bytes_of "tenant_id", print_string (bytes_of (req_TenantID req)));
     (bytes_of "meter", print_string (bytes_of (req_Meter req)));
     (bytes_of "quantity", print_string (bytes_of (req_Quantity req)));
     (bytes_of "occurred_at", occurred_at);
     (bytes_of "idempotency_key", print_string (bytes_of (req_IdempotencyKey req)))]).

Lemma decode_request_body req body rest : request_text req -> request_body req = Some body ->
  Z.of_nat (length body) <= maxBodyBytes -> decode_request (body ++ rest) = Ok req.
Proof.
  intros (U1 & U2 & U3 & U4 & Hz) Hb Hlen. unfold request_body in Hb. apply bind_Some in Hb as (text & T & Hb).
  apply MarshalJSON_ok in T as Tok; [|done]. destruct (time_roundtrip _ Tok) as (raw & T' & R & P). rewrite T in T'. injection T' as ->.
  injection Hb as <-. unfold decode_request.
  set (vs := [JString (escape (bytes_of (req_TenantID req))); JString (escape (bytes_of (req_Meter req))); JString (escape (bytes_of (req_Quantity req)));
              JString raw; JString (escape (bytes_of (req_IdempotencyKey req)))]).
  rewrite (Decoder_print _ _ _ _ vs); [|done| |done].
  - cbn [zip zip_with fmap list_fmap fst unmarshal vs].
    repeat (erewrite decode_members_cons; [|done|done|first [by apply store_string_escape|by apply store_time_ok]]).
    cbn [decode_members]. by destruct req.
  - unfold vs. repeat (constructor; [split; [done|]; first [by apply value_text_string|by apply value_text_quoted]|]). constructor.
Qed.

(** ** Theorems *)

(** C23: a 202 is a promise kept: it is sent only when the request was well
    formed, its event is in the log at the offset the response names, right after
    everything the log held before, and reads back from there as the event the
    client sent, with the fingerprint of its content. *)
Theorem ServeHTTP_accepted body now1 now2 log rs resp log' :
  ls_holds log rs -> Z.of_nat (length rs) + 1 < 18446744073709551616 ->
  ServeHTTP body now1 now2 log = (resp, log') -> resp_status resp = 202 ->
  exists req record, decode_request body = Ok req /\
    resp_body resp = acceptedResponse (Z.of_nat (length rs)) /\
    ls_holds log' (rs ++ [record]) /\
    event_Decode err_text record = Ok (request_event req now2) /\ billable (request_event req now2) /\
    good_time (req_OccurredAt req) now1.
Proof.
  intros Hh Hlen Hs H202. destruct (ServeHTTP_cases _ _ _ _ _ _ _ Hh Hlen Hs)
    as [(record & -> & (req & Hj & Hv & He) & Hl)|[(record & code & detail & -> & _)|(code & detail & Hin & _)]].
  - exists req, record. pose proof (request_event_billable _ _ now2 Hv) as Hb.
    split_and!; try done; [by eapply accepted_decodes|by apply validate_None in Hv as (_ & _ & _ & _ & ?)].
  - done.
  - rewrite H202 in Hin. repeat (apply elem_of_cons in Hin as [E|Hin]; [discriminate|]). by apply elem_of_nil in Hin.
Qed.

(** a refusal leaves no trace: a response other than 202 carries an error
    code and detail, and the log is exactly as before unless the request was well
    formed and the append itself failed, in which case it holds at most that one
    record more. *)
Theorem ServeHTTP_refused body now1 now2 log rs resp log' :
  ls_holds log rs -> Z.of_nat (length rs) + 1 < 18446744073709551616 ->
  ServeHTTP body now1 now2 log = (resp, log') -> resp_status resp <> 202 ->
  (exists code detail, resp_body resp = errorResponse code detail) /\
  ((log' = log /\ forall record, ~ accepts body now1 now2 record) \/
   (resp_status resp = 500 /\ exists record, accepts body now1 now2 record /\
      (ls_holds log' rs \/ ls_holds log' (rs ++ [record])))).
Proof.
  intros Hh Hlen Hs H202. destruct (ServeHTTP_cases _ _ _ _ _ _ _ Hh Hlen Hs)
    as [(record & -> & _)|[(record & code & detail & -> & Ha & Hl)|(code & detail & Hin & Hb & -> & Ha)]].
  - done.
  - split; [by do 2 eexists|]. right. split; [done|]. by exists record.
  - split; [by exists code, detail|]. by left.
Qed.

(** C24: every valid request is taken: a body that spells out a request which
    passes validation is decoded to that request, whatever bytes follow it in the
    body, its event is encoded, and the answer is decided by the append alone. *)
Theorem ServeHTTP_takes_valid req body rest now1 now2 log :
  request_text req -> request_body req = Some body -> Z.of_nat (length body) <= maxBodyBytes ->
  validate req now1 = None -> time_ok (UTC now2) ->
  exists record, event_Encode (request_event req now2) = Some record /\
    event_Decode err_text record = Ok (request_event req now2) /\
    ServeHTTP (body ++ rest) now1 now2 log =
      match ls_Append record log with
      | (Ok offset, log') => (mkResponse 202 (acceptedResponse offset), log')
      | (Err _, log') => (writeError internalError, log')
      end.
Proof.
  intros Ht Hb Hlen Hv Hnow. pose proof (decode_request_body _ _ rest Ht Hb Hlen) as Hd. destruct Ht as (U1 & U2 & U3 & U4 & Hz).
  apply bind_Some in Hb as (text & T & _). apply MarshalJSON_ok in T; [|done].
  destruct (event_roundtrip err_text (request_event req now2)) as (record & He & Hdec); [by split_and!|].
  exists record. split_and!; [done|done|]. unfold ServeHTTP, Handler_decode. rewrite Hd, Hv, He.
  by destruct (ls_Append record log) as [[off|e] log'].
Qed.

End Handler.

(** ** Witnesses and examples, over the log of [Instances.v] *)

Section Examples.
#[local] Existing Instance list_LogStore.

(** The bytes of a text written with [`] for the quote. *)
Definition json_text (s : string) : list byte :=
  map (fun b => if Byte.eqb b x60 then quote else b) (bytes_of s).

(** A request by a clock two hours ahead. *)
Definition body_example : list byte := json_text
  "{`tenant_id`:`acme`,`meter`:`api_calls`,`quantity`:`1.5`,`occurred_at`:`2026-08-03T13:00:00+02:00`,`idempotency_key`:`key-1`}".

Definition accepted_example : eventRequest :=
  mkRequest "acme" "api_calls" "1.5" (mkZoned 63921351600000000000 7200) "key-1".

Definition clock_example : Time := 63921351601000000000.

Lemma ServeHTTP_accepted_witness :
  exists record,
    ServeHTTP (S := list (list byte)) no_text body_example clock_example clock_example [[]] =
      (mkResponse 202 (acceptedResponse 1), [[]; record]) /\
    event_Decode no_text record = Ok (request_event accepted_example clock_example).
Proof.
  destruct (@ServeHTTP_accepted _ list_LogStore no_text body_example clock_example clock_example
    [[]] [[]] _ _ eq_refl ltac:(done) (surjective_pairing _) ltac:(vm_compute; reflexivity))
    as (req & record & Hj & Hb & Hl & Hd & _).
  assert (req = accepted_example) as -> by (vm_compute in Hj; injection Hj as <-; reflexivity). exists record. split; [|exact Hd].
  apply injective_projections; [vm_compute; reflexivity|exact Hl].
Defined.

Lemma ServeHTTP_refused_witness :
  (ServeHTTP (S := list (list byte)) no_text [] clock_example clock_example [[]]).2 = [[]].
Proof.
  destruct (@ServeHTTP_refused _ list_LogStore no_text [] clock_example clock_example
    [[]] [[]] _ _ eq_refl ltac:(done) (surjective_pairing _) ltac:(vm_compute; discriminate)) as [_ [[E _]|[E _]]];
    [exact E|vm_compute in E; discriminate].
Defined.

Lemma ServeHTTP_takes_valid_witness :
  request_body accepted_example = Some body_example /\
  (ServeHTTP (S := list (list byte)) no_text (body_example ++ body_example) clock_example clock_example []).1 =
    mkResponse 202 (acceptedResponse 0).
Proof.
  split; [vm_compute; reflexivity|].
  destruct (@ServeHTTP_takes_valid _ list_LogStore no_text accepted_example body_example body_example clock_example clock_example [])
    as (record & _ & _ & E); [|vm_compute; reflexivity|vm_compute; discriminate|vm_compute; reflexivity|by apply (bool_decide_unpack _); vm_compute|].
  - split; [by apply utf8_ascii|]. split; [by apply utf8_ascii|]. split; [by apply utf8_ascii|]. split; [by apply utf8_ascii|done].
  - rewrite E. reflexivity.
Defined.

(** An offset of a whole day is let in and cannot be let through: the decoder
    accepts [+24:00], the request passes validation, but the event cannot be
    encoded, and the client is told 500 for a request that can never succeed. *)
Theorem day_offset_is_500 :
  let body := json_text
    "{`tenant_id`:`acme`,`meter`:`api_calls`,`quantity`:`1.5`,`occurred_at`:`2026-08-04T11:00:00+24:00`,`idempotency_key`:`key-1`}" in
  exists req, decode_request body = Ok req /\ validate req clock_example = None /\
    forall now2 log, ServeHTTP (S := list (list byte)) no_text body clock_example now2 log = (writeError internalError, log).
Proof.
  cbv zeta. eexists. split; [vm_compute; reflexivity|]. split; [vm_compute; reflexivity|]. intros now2 log.
  unfold ServeHTTP, Handler_decode. set (body := json_text _).
  assert (D : decode_request body = Ok (mkRequest "acme" "api_calls" "1.5" (mkZoned 63921351600000000000 86400) "key-1")) by (vm_compute; reflexivity).
  assert (V : validate (mkRequest "acme" "api_calls" "1.5" (mkZoned 63921351600000000000 86400) "key-1") clock_example = None) by (vm_compute; reflexivity).
  rewrite D, V. unfold event_Encode. cbn [request_event ev_OccurredAt req_OccurredAt].
  assert (T : time_MarshalJSON (mkZoned 63921351600000000000 86400) = None) by (vm_compute; reflexivity). by rewrite T.
Qed.

End Examples.

