(* ===== verification/DB.v ===== *)
(** * The database

    The tables of [migrations/*.up.sql] and the transactions of [database/sql].
    The statements the Go code sends are translated, each beside its caller, to
    functions on the tables; the server itself is a parameter: which texts and
    numbers it stores is the class [Postgres], and when it fails is a schedule.

    Sessions run at READ COMMITTED: a statement sees its own transaction's
    changes and whatever the other sessions committed before it. *)

From S2P Require Import Prelude Decimal Quantity Bytes GoTime Event Validate Ledger.

(** ** The server *)

Definition printable (c : ascii) : bool := (32 <=? Z.of_nat (nat_of_ascii c)) && (Z.of_nat (nat_of_ascii c) <? 127).

Class Postgres : Type := {
  (** Whether a string can be a [TEXT] value. *)
  text_ok : string -> bool;
  (** A string cast to [NUMERIC(38,9)], in units of [10^-9]. *)
  numeric_of_text : string -> option Z;
  (** The text of a [NUMERIC(38,9)] or of a sum of them. *)
  numeric_text : Z -> string;
  (** What a [TIMESTAMPTZ] keeps of an instant. *)
  timestamptz : Time -> Time;
  (** [ORDER BY] a [TEXT] column, in the server's collation. *)
  order_text : list string -> list string;

  (** No text holds a zero byte. *)
  text_ok_nul s t : text_ok (s +:+ String "000" t) = false;
  (** Printable ASCII is a text in every encoding of a server. *)
  text_ok_ascii s : str_all printable s = true -> text_ok s = true;
  (** Plain decimals that fit are kept exactly. *)
  numeric_good q : good_quantity q -> numeric_of_text q = Some (quantity_value q);
  (** The text is a plain decimal with the value. *)
  numeric_text_value v : 0 <= v -> decimal_spec QuantityScale (numeric_text v) = Some v;
  (** Rounding keeps the order of instants. *)
  timestamptz_mono t u : t <= u -> timestamptz t <= timestamptz u;
  (** Whole microseconds are kept. *)
  timestamptz_exact t : t mod 1000 = 0 -> timestamptz t = t;
  (** Sorting loses and adds nothing. *)
  order_text_perm l : order_text l ≡ₚ l
}.

(** ** Tables *)

(** Rows in insertion order, and the next value of the identity column. *)
Record table (R : Type) : Type := mkTable {
  rows : list R;
  seq_next : Z
}.
Arguments mkTable {R} _ _.
Arguments rows {R} _.
Arguments seq_next {R} _.

Definition table_insert {R} (mk : Z -> R) (t : table R) : Z * table R :=
  (seq_next t, mkTable (rows t ++ [mk (seq_next t)]) (seq_next t + 1)).

(** An insert that ends in its conflict clause has still drawn an identity. *)
Definition table_skip {R} (t : table R) : table R := mkTable (rows t) (seq_next t + 1).

(** Identities are not given back by a rollback. *)
Definition table_rollback {R} (committed working : table R) : table R :=
  mkTable (rows committed) (Z.max (seq_next committed) (seq_next working)).

Record event_row : Type := mkEventRow {
  er_id : Z;
  er_tenant_id : string;
  er_meter : string;
  er_quantity : Z;
  er_occurred_at : Time;
  er_received_at : Time;
  er_idempotency_key : string;
  er_payload_fingerprint : option (list byte);
  er_invoice_id : option Z
}.

Record dead_letter_row : Type := mkDeadLetterRow {
  dl_id : Z;
  dl_consumer : string;
  dl_log_offset : Z;
  dl_reason : string;
  dl_detail : string;
  dl_tenant_id : option string;
  dl_idempotency_key : option string;
  dl_record : list byte;
  dl_created_at : Time;
  dl_resolved_at : option Time
}.

Record account_row : Type := mkAccountRow {
  ar_id : Z;
  ar_name : string;
  ar_kind : string;
  ar_created_at : Time
}.

Record transaction_row : Type := mkTransactionRow {
  tr_id : Z;
  tr_idempotency_key : string;
  tr_occurred_at : Time;
  tr_description : string;
  tr_created_at : Time
}.

Record posting_row : Type := mkPostingRow {
  pr_id : Z;
  pr_transaction_id : Z;
  pr_account_id : Z;
  pr_amount : Z
}.

Record period_row : Type := mkPeriodRow {
  bp_id : Z;
  bp_tenant_id : string;
  bp_label : string;
  bp_starts_at : Time;
  bp_ends_at : Time;
  bp_state : string;
  bp_closed_at : option Time;
  bp_created_at : Time
}.

Record invoice_row : Type := mkInvoiceRow {
  iv_id : Z;
  iv_period_id : Z;
  iv_tenant_id : string;
  iv_total : Z;
  iv_ledger_transaction_id : Z;
  iv_issued_at : Time
}.

Record line_item_row : Type := mkLineItemRow {
  li_id : Z;
  li_invoice_id : Z;
  li_meter : string;
  li_quantity : Z;
  li_amount : Z
}.

Record DB : Type := mkDB {
  events : table event_row;
  consumer_offsets : gmap string (Z * Time);
  dead_letters : table dead_letter_row;
  ledger_accounts : table account_row;
  ledger_transactions : table transaction_row;
  ledger_postings : table posting_row;
  billing_periods : table period_row;
  invoices : table invoice_row;
  invoice_line_items : table line_item_row
}.

Definition empty_table {R} : table R := mkTable [] 1.

Definition empty_db : DB :=
  mkDB empty_table ∅ empty_table empty_table empty_table empty_table empty_table empty_table empty_table.

Definition set_events t db := mkDB t (consumer_offsets db) (dead_letters db) (ledger_accounts db)
  (ledger_transactions db) (ledger_postings db) (billing_periods db) (invoices db) (invoice_line_items db).

Definition set_offsets m db := mkDB (events db) m (dead_letters db) (ledger_accounts db)
  (ledger_transactions db) (ledger_postings db) (billing_periods db) (invoices db) (invoice_line_items db).

Definition set_dead_letters t db := mkDB (events db) (consumer_offsets db) t (ledger_accounts db)
  (ledger_transactions db) (ledger_postings db) (billing_periods db) (invoices db) (invoice_line_items db).

Definition set_accounts t db := mkDB (events db) (consumer_offsets db) (dead_letters db) t
  (ledger_transactions db) (ledger_postings db) (billing_periods db) (invoices db) (invoice_line_items db).

Definition set_transactions t db := mkDB (events db) (consumer_offsets db) (dead_letters db) (ledger_accounts db)
  t (ledger_postings db) (billing_periods db) (invoices db) (invoice_line_items db).

Definition set_postings t db := mkDB (events db) (consumer_offsets db) (dead_letters db) (ledger_accounts db)
  (ledger_transactions db) t (billing_periods db) (invoices db) (invoice_line_items db).

Definition set_periods t db := mkDB (events db) (consumer_offsets db) (dead_letters db) (ledger_accounts db)
  (ledger_transactions db) (ledger_postings db) t (invoices db) (invoice_line_items db).

Definition set_invoices t db := mkDB (events db) (consumer_offsets db) (dead_letters db) (ledger_accounts db)
  (ledger_transactions db) (ledger_postings db) (billing_periods db) t (invoice_line_items db).

Definition set_line_items t db := mkDB (events db) (consumer_offsets db) (dead_letters db) (ledger_accounts db)
  (ledger_transactions db) (ledger_postings db) (billing_periods db) (invoices db) t.

Definition db_rollback (committed working : DB) : DB :=
  mkDB (table_rollback (events committed) (events working))
    (consumer_offsets committed)
    (table_rollback (dead_letters committed) (dead_letters working))
    (table_rollback (ledger_accounts committed) (ledger_accounts working))
    (table_rollback (ledger_transactions committed) (ledger_transactions working))
    (table_rollback (ledger_postings committed) (ledger_postings working))
    (table_rollback (billing_periods committed) (billing_periods working))
    (table_rollback (invoices committed) (invoices working))
    (table_rollback (invoice_line_items committed) (invoice_line_items working)).

(** ** Statements and sessions *)

(** Why a statement failed: the server or the connection did, or the row or the
    text was refused, or there was nothing to scan or it did not fit. *)
Inductive db_err : Type :=
| ErrServer
| ErrConstraint
| ErrInvalidText
| ErrNoRows
| ErrScan.

#[global] Instance db_err_eq_dec : EqDecision db_err.
Proof. solve_decision. Defined.

(** A statement reads and changes the tables, or is refused. *)
Definition stmt (A : Type) : Type := DB -> res db_err (A * DB).

(** How the server treats one statement: it runs it, it fails without running
    it, or it runs it and the answer is lost. *)
Inductive outcome : Type :=
| Run
| Fails
| Lost.

(** Before a statement, the other sessions commit. *)
Record tick : Type := mkTick {
  others : DB -> DB;
  treatment : outcome
}.

(** After the end of the schedule nobody interferes and nothing fails. *)
Definition next_tick (sched : list tick) : tick * list tick :=
  match sched with
  | [] => (mkTick (fun db => db) Run, [])
  | t :: sched => (t, sched)
  end.

Record server : Type := mkServer {
  srv_db : DB;
  srv_sched : list tick
}.

(** An open transaction: the committed tables, and the tables as it sees them. *)
Record txn : Type := mkTxn {
  tx_server : server;
  tx_db : DB
}.

#[global] Instance posting_row_eq_dec : EqDecision posting_row.
Proof. solve_decision. Defined.

(** The deferred trigger [ledger_postings_balanced]: for every posting the
    transaction inserted, its entry must sum to zero. *)
Definition transaction_sum (db : DB) (id : Z) : Z :=
  sumZ (map pr_amount (List.filter (fun p => pr_transaction_id p =? id) (rows (ledger_postings db)))).

Definition ledger_assert_balanced (committed working : DB) : bool :=
  forallb (fun p => bool_decide (p ∈ rows (ledger_postings committed)) || (transaction_sum working (pr_transaction_id p) =? 0))
    (rows (ledger_postings working)).

(** The trigger on an update of [events]: a billed event stays on its invoice. *)
Definition events_billed_once (old new : event_row) : bool :=
  match er_invoice_id old with
  | None => true
  | Some id => bool_decide (er_invoice_id new = Some id)
  end.

Definition BeginTx : ST server db_err txn := fun srv =>
  let '(t, sched) := next_tick (srv_sched srv) in
  let srv := mkServer (others t (srv_db srv)) sched in
  match treatment t with
  | Run => (Ok (mkTxn srv (srv_db srv)), srv)
  | _ => (Err ErrServer, srv)
  end.

(** [tx.QueryRowContext] and [tx.ExecContext] *)
Definition tx_exec {A} (q : stmt A) : ST txn db_err A := fun tx =>
  let '(t, sched) := next_tick (srv_sched (tx_server tx)) in
  let srv := mkServer (others t (srv_db (tx_server tx))) sched in
  let db := others t (tx_db tx) in
  match treatment t with
  | Run =>
      match q db with
      | Ok (a, db') => (Ok a, mkTxn srv db')
      | Err e => (Err e, mkTxn srv db)
      end
  | _ => (Err ErrServer, mkTxn srv db)
  end.

Definition tx_Rollback (tx : txn) : server :=
  mkServer (db_rollback (srv_db (tx_server tx)) (tx_db tx)) (srv_sched (tx_server tx)).

Definition tx_Commit (tx : txn) : res db_err unit * server :=
  let '(t, sched) := next_tick (srv_sched (tx_server tx)) in
  let srv := mkServer (others t (srv_db (tx_server tx))) sched in
  let db := others t (tx_db tx) in
  if ledger_assert_balanced (srv_db srv) db then
    match treatment t with
    | Run => (Ok tt, mkServer db sched)
    | Fails => (Err ErrServer, tx_Rollback (mkTxn srv db))
    | Lost => (Err ErrServer, mkServer db sched)
    end
  else (Err ErrConstraint, tx_Rollback (mkTxn srv db)).

(** A statement on [*sql.DB] is a transaction of its own. *)
Definition db_exec {A} (q : stmt A) : ST server db_err A := fun srv =>
  let '(t, sched) := next_tick (srv_sched srv) in
  let db := others t (srv_db srv) in
  match treatment t with
  | Fails => (Err ErrServer, mkServer db sched)
  | tr =>
      match q db with
      | Ok (a, db') => ((match tr with Run => Ok a | _ => Err ErrServer end), mkServer db' sched)
      | Err e => (Err e, mkServer db sched)
      end
  end.

(** ** Lemmas on sessions

    [keep] is what a client relies on the others to leave alone. *)
Section Sessions.
Variable keep : DB -> DB -> Prop.
Hypothesis keep_refl : forall db, keep db db.
Hypothesis keep_rollback : forall db1 db2 db', keep db1 db2 -> keep db1 (db_rollback db2 db').

Definition quiet_for (t : tick) : Prop := forall db, keep db (others t db).

Lemma next_tick_calm sched t sched' : next_tick sched = (t, sched') -> sched = [] ->
  t = mkTick (fun db => db) Run /\ sched' = [].
Proof. intros E ->. by injection E as <- <-. Qed.

Lemma next_tick_quiet sched t sched' :
  Forall quiet_for sched -> next_tick sched = (t, sched') -> quiet_for t /\ Forall quiet_for sched'.
Proof. destruct sched as [|t0 sched]; intros Hq [= <- <-]; [by split; [intros db; apply keep_refl|]|]. by apply Forall_cons in Hq. Qed.

Lemma tx_exec_inv {A} (q : stmt A) tx r tx' :
  Forall quiet_for (srv_sched (tx_server tx)) -> tx_exec q tx = (r, tx') ->
  Forall quiet_for (srv_sched (tx_server tx')) /\ keep (srv_db (tx_server tx)) (srv_db (tx_server tx')) /\
  (exists db1, keep (tx_db tx) db1 /\ match r with Ok a => q db1 = Ok (a, tx_db tx') | Err _ => tx_db tx' = db1 end) /\
  (srv_sched (tx_server tx) = [] -> srv_sched (tx_server tx') = [] /\ srv_db (tx_server tx') = srv_db (tx_server tx) /\
     match r with Ok a => q (tx_db tx) = Ok (a, tx_db tx') | Err e => q (tx_db tx) = Err e end).
Proof.
  intros Hq. unfold tx_exec. destruct (next_tick _) as [t sched] eqn:Et.
  destruct (next_tick_quiet _ _ _ Hq Et) as [Ht Hs]. pose proof (next_tick_calm _ _ _ Et) as Hcalm.
  destruct (treatment t) eqn:Tt.
  - destruct (q (others t (tx_db tx))) as [[a db']|e] eqn:Eq; intros [= <- <-]; cbn [tx_server srv_sched srv_db tx_db];
      (split_and!; [done|apply Ht|exists (others t (tx_db tx)); split; [apply Ht|done]|]);
      intros [-> ->]%Hcalm; done.
  - intros [= <- <-]. cbn [tx_server srv_sched srv_db tx_db].
    split_and!; [done|apply Ht|by exists (others t (tx_db tx))|]. intros [-> _]%Hcalm. done.
  - intros [= <- <-]. cbn [tx_server srv_sched srv_db tx_db].
    split_and!; [done|apply Ht|by exists (others t (tx_db tx))|]. intros [-> _]%Hcalm. done.
Qed.

(** What a computation in a transaction keeps of the committed tables: what the
    others keep, and all of them when there are no others. *)
Definition tx_kept (tx tx' : txn) : Prop :=
  Forall quiet_for (srv_sched (tx_server tx')) /\ keep (srv_db (tx_server tx)) (srv_db (tx_server tx')) /\
  (srv_sched (tx_server tx) = [] -> srv_sched (tx_server tx') = [] /\ srv_db (tx_server tx') = srv_db (tx_server tx)).

Lemma tx_exec_kept {A} (q : stmt A) tx r tx' :
  Forall quiet_for (srv_sched (tx_server tx)) -> tx_exec q tx = (r, tx') -> tx_kept tx tx'.
Proof.
  intros Hq E. destruct (tx_exec_inv q tx r tx' Hq E) as (Q & K & _ & Calm). split_and!; [done|done|].
  intros E1. by destruct (Calm E1) as (? & ? & _).
Qed.

Lemma tx_kept_refl tx : Forall quiet_for (srv_sched (tx_server tx)) -> tx_kept tx tx.
Proof. intros. by split_and!. Qed.

Lemma tx_kept_trans tx1 tx2 tx3 : (forall a b c, keep a b -> keep b c -> keep a c) ->
  tx_kept tx1 tx2 -> tx_kept tx2 tx3 -> tx_kept tx1 tx3.
Proof.
  intros T (_ & V1 & C1) (Q & V2 & C2). split_and!; [done|by eapply T|].
  intros [E1 D1]%C1. destruct (C2 E1). split; congruence.
Qed.

Lemma BeginTx_spec srv r srv' : Forall quiet_for (srv_sched srv) -> BeginTx srv = (r, srv') ->
  Forall quiet_for (srv_sched srv') /\ keep (srv_db srv) (srv_db srv') /\
  match r with Ok tx => tx = mkTxn srv' (srv_db srv') | Err _ => srv_sched srv <> [] end /\
  (srv_sched srv = [] -> srv' = srv).
Proof.
  intros Hq. unfold BeginTx. destruct (next_tick _) as [t sched] eqn:Et. destruct (next_tick_quiet _ _ _ Hq Et) as [Ht Hs].
  pose proof (next_tick_calm _ _ _ Et) as Hcalm.
  destruct (treatment t) eqn:Tt; intros [= <- <-]; (split_and!; [done|apply Ht|try done|]).
  all: intros E; destruct (Hcalm E) as [-> ->]; try done; destruct srv; cbn in *; by subst.
Qed.

(** A commit makes the transaction's tables the committed ones or drops them;
    when it fails, the client does not know which. *)
Lemma tx_Commit_spec tx r srv' : Forall quiet_for (srv_sched (tx_server tx)) -> tx_Commit tx = (r, srv') ->
  Forall quiet_for (srv_sched srv') /\
  match r with
  | Ok _ => keep (tx_db tx) (srv_db srv')
  | Err _ => keep (tx_db tx) (srv_db srv') \/ keep (srv_db (tx_server tx)) (srv_db srv')
  end /\
  (srv_sched (tx_server tx) = [] -> srv_sched srv' = [] /\
     (ledger_assert_balanced (srv_db (tx_server tx)) (tx_db tx) = true -> r = Ok tt /\ srv_db srv' = tx_db tx)).
Proof.
  intros Hq. unfold tx_Commit. destruct (next_tick _) as [t sched] eqn:Et. destruct (next_tick_quiet _ _ _ Hq Et) as [Ht Hs].
  pose proof (next_tick_calm _ _ _ Et) as Hcalm.
  assert (Hbal : srv_sched (tx_server tx) = [] -> ledger_assert_balanced (srv_db (tx_server tx)) (tx_db tx) = true ->
    ledger_assert_balanced (others t (srv_db (tx_server tx))) (others t (tx_db tx)) = true).
  { intros E Hp. by destruct (Hcalm E) as [-> _]. }
  cbn [srv_db]. destruct (ledger_assert_balanced (others _ _) _).
  - destruct (treatment t) eqn:Tt; intros [= <- <-];
      (split_and!; [done|first [by apply Ht|by left; apply Ht|by right; apply keep_rollback, Ht]|]).
    all: intros E; destruct (Hcalm E) as [-> ->]; done.
  - intros [= <- <-]. split_and!; [done|right; apply keep_rollback, Ht|]. intros E. split; [by destruct (Hcalm E)|].
    intros Hp. by specialize (Hbal E Hp).
Qed.

Lemma db_exec_inv {A} (q : stmt A) srv r srv' :
  Forall quiet_for (srv_sched srv) -> db_exec q srv = (r, srv') ->
  Forall quiet_for (srv_sched srv') /\
  (exists db1, keep (srv_db srv) db1 /\
     match r with
     | Ok a => q db1 = Ok (a, srv_db srv')
     | Err _ => srv_db srv' = db1 \/ exists a, q db1 = Ok (a, srv_db srv')
     end) /\
  (srv_sched srv = [] -> srv_sched srv' = [] /\
     match r with Ok a => q (srv_db srv) = Ok (a, srv_db srv') | Err e => q (srv_db srv) = Err e end).
Proof.
  intros Hq. unfold db_exec. destruct (next_tick _) as [t sched] eqn:Et.
  destruct (next_tick_quiet _ _ _ Hq Et) as [Ht Hs]. pose proof (next_tick_calm _ _ _ Et) as Hcalm.
  destruct (treatment t) eqn:Tt; [| |]; try (destruct (q (others t (srv_db srv))) as [[a db']|e] eqn:Eq);
    intros [= <- <-]; cbn [srv_sched srv_db];
    (split_and!; [done|exists (others t (srv_db srv)); split; [apply Ht|eauto]|]); intros E; destruct (Hcalm E) as [-> ->]; done.
Qed.

End Sessions.

(** The rows are the same; identities may have been drawn. *)
Definition same_table {R} (t t' : table R) : Prop := rows t' = rows t /\ seq_next t <= seq_next t'.

Definition same_ledger (db db' : DB) : Prop :=
  same_table (ledger_accounts db) (ledger_accounts db') /\ same_table (ledger_transactions db) (ledger_transactions db') /\
  same_table (ledger_postings db) (ledger_postings db').

Definition same_billing (db db' : DB) : Prop :=
  same_table (events db) (events db') /\ consumer_offsets db' = consumer_offsets db /\
  same_table (dead_letters db) (dead_letters db') /\ same_table (billing_periods db) (billing_periods db') /\
  same_table (invoices db) (invoices db') /\ same_table (invoice_line_items db) (invoice_line_items db').

Definition same_rows (db db' : DB) : Prop := same_ledger db db' /\ same_billing db db'.

#[global] Instance same_table_preorder {R} : PreOrder (@same_table R).
Proof. split; [intros t; by split|]. intros t u v [] []. split; [congruence|lia]. Qed.

#[global] Instance same_ledger_preorder : PreOrder same_ledger.
Proof.
  split; [intros db; split_and!; reflexivity|]. intros a b c (? & ? & ?) (? & ? & ?). split_and!; by etrans.
Qed.

#[global] Instance same_billing_preorder : PreOrder same_billing.
Proof.
  split; [intros db; split_and!; reflexivity|].
  intros a b c (? & ? & ? & ? & ? & ?) (? & ? & ? & ? & ? & ?). split_and!; by etrans.
Qed.

#[global] Instance same_rows_preorder : PreOrder same_rows.
Proof. split; [intros db; split; reflexivity|]. intros a b c [] []. split; by etrans. Qed.

Lemma same_table_rollback {R} (t u v : table R) : same_table t u -> same_table t (table_rollback u v).
Proof. intros []. split; [done|cbn; lia]. Qed.

Lemma same_rows_rollback db1 db2 db' : same_rows db1 db2 -> same_rows db1 (db_rollback db2 db').
Proof.
  intros [(? & ? & ?) (? & ? & ? & ? & ? & ?)]. split; split_and!; first [by apply same_table_rollback|done].
Qed.

(** Nothing to check when no posting is new. *)
Lemma balanced_unchanged db db' : ledger_postings db' = ledger_postings db -> ledger_assert_balanced db db' = true.
Proof.
  intros Hp. apply forallb_forall. intros p Hin%list_elem_of_In. rewrite Hp in Hin. by rewrite bool_decide_true.
Qed.

(** ** A small server

    An implementation of [Postgres] on which the theorems can be run: it stores
    plain decimals below [10^29], every text without a zero byte, and
    microseconds. It is not declared as an instance. *)
Definition not_nul (c : ascii) : bool := bool_decide (c <> "000"%char).

Definition small_Postgres : Postgres.
Proof.
  refine {|
    text_ok := str_all not_nul;
    numeric_of_text q :=
      match decimal_spec QuantityScale q with
      | Some v => if v <? 10 ^ Z.of_nat (maxIntegerDigits + QuantityScale) then Some v else None
      | None => None
      end;
    numeric_text v :=
      fmt_digits (S (Z.to_nat (Z.log2 (v / 1000000000)))) (v / 1000000000) "" +:+ String "." (fmt_pad 9 (v mod 1000000000));
    timestamptz t := t / 1000 * 1000;
    order_text l := l |}.
  - intros s t. rewrite str_all_app. cbn [str_all]. change (not_nul "000") with false. by rewrite andb_false_r.
  - intros s. apply str_all_impl. intros c Hc. unfold not_nul. apply bool_decide_eq_true_2. by intros ->.
  - intros q [[v Hv] Hb]. unfold quantity_value in *. rewrite Hv in *. cbn [default from_option id] in *.
    by rewrite (proj2 (Z.ltb_lt _ _)) by done.
  - intros v Hv. set (n := v / 1000000000). assert (0 <= n) by (unfold n; lia).
    assert (Hn : 0 <= n < 10 ^ Z.of_nat (S (Z.to_nat (Z.log2 n)))).
    { split; [done|]. destruct (Z.eq_dec n 0) as [->|]; [done|]. pose proof (Z.log2_spec n ltac:(lia)). pose proof (Z.log2_nonneg n).
      replace (Z.of_nat (S (Z.to_nat (Z.log2 n)))) with (Z.succ (Z.log2 n)) by lia.
      assert (2 ^ Z.succ (Z.log2 n) <= 10 ^ Z.succ (Z.log2 n)) by (apply Z.pow_le_mono_l; lia). lia. }
    destruct (fmt_digits_spec _ n "" Hn ltac:(lia)) as (d & -> & Hd & Hdv & Hdl & _). rewrite str_app_nil_r.
    rewrite (decimal_spec_digits 9), Hdv; [f_equal; unfold n; change (Z.of_nat 9) with 9; lia|lia|done| |change (10 ^ Z.of_nat 9) with 1000000000; lia].
    intros ->. cbn in Hdl. lia.
  - intros t u Htu. lia.
  - intros t Ht. lia.
  - done.
Defined.
