(* ===== verification/Consumer.v ===== *)
(** * The consumer: [billing/consumer/consumer.go]

    [Drain] moves records from a log that keeps [LogStore] into the tables of
    [DB.v], a batch per transaction. The abstract description of what it is to
    have consumed a prefix of the log is [consume]; the theorems show that every
    committed state is one, whatever the server does. *)

From S2P Require Import Prelude Decimal Quantity Bytes Record LogSpec GoTime Event EventJson Validate DB Instances.

(** ** Data *)

Definition DefaultBatchSize : Z := 100.

Definition ReasonUndecodable : string := "undecodable_record".

Definition ReasonKeyReuse : string := "idempotency_key_reuse".

Record Consumer : Type := mkConsumer {
  c_name : string;
  c_BatchSize : Z
}.

Record Stats : Type := mkStats {
  st_Read : Z;
  st_Inserted : Z;
  st_Duplicates : Z;
  st_Conflicts : Z;
  st_DeadLettered : Z
}.

Definition zero_stats : Stats := mkStats 0 0 0 0 0.

Inductive applyResult : Type :=
| appliedInserted
| appliedDuplicate
| appliedConflict.

(** The wrapped errors, by the message that wraps them. *)
Inductive consumer_err : Type :=
| ErrReadConsumerOffset (e : db_err)
| ErrLogEnd (e : log_err)
| ErrBeginBatch (e : db_err)
| ErrReadOffset (offset : Z) (e : log_err)
| ErrDeadLetter (offset : Z) (e : db_err)
| ErrApply (offset : Z) (e : db_err)
| ErrCommitOffset (e : db_err)
| ErrCommitBatch (e : db_err).

Record DeadLetter : Type := mkDeadLetter {
  dead_Offset : Z;
  dead_Reason : string;
  dead_Detail : string;
  dead_TenantID : string;
  dead_IdempotencyKey : string;
  dead_Record : list byte;
  dead_CreatedAt : Time
}.

(** ** Operations on the statistics *)

Definition Stats_add (s batch : Stats) : Stats :=
  mkStats (st_Read s + st_Read batch) (st_Inserted s + st_Inserted batch) (st_Duplicates s + st_Duplicates batch)
    (st_Conflicts s + st_Conflicts batch) (st_DeadLettered s + st_DeadLettered batch).

Definition Stats_Accounted (s : Stats) : bool :=
  st_Inserted s + st_Duplicates s + st_Conflicts s =? st_Read s.

(** [stats.Read++] and the branches of the switch. *)
Definition count_read (s : Stats) : Stats :=
  mkStats (st_Read s + 1) (st_Inserted s) (st_Duplicates s) (st_Conflicts s) (st_DeadLettered s).

Definition count_inserted (s : Stats) : Stats :=
  mkStats (st_Read s) (st_Inserted s + 1) (st_Duplicates s) (st_Conflicts s) (st_DeadLettered s).

Definition count_duplicate (s : Stats) : Stats :=
  mkStats (st_Read s) (st_Inserted s) (st_Duplicates s + 1) (st_Conflicts s) (st_DeadLettered s).

Definition count_conflict (written : bool) (s : Stats) : Stats :=
  mkStats (st_Read s) (st_Inserted s) (st_Duplicates s) (st_Conflicts s + 1)
    (if written then st_DeadLettered s + 1 else st_DeadLettered s).

(** [New] *)
Definition Consumer_New (name : string) (BatchSize : Z) : Consumer :=
  mkConsumer name (if BatchSize <=? 0 then DefaultBatchSize else BatchSize).

(** ** Statements *)

Section Statements.
Context `{Postgres}.

Definition same_key (tenant key : string) (r : event_row) : bool :=
  bool_decide (er_tenant_id r = tenant) && bool_decide (er_idempotency_key r = key).

Definition insertEvent (e : UsageEvent) : stmt (bool * option (list byte)) := fun db =>
  if negb (text_ok (ev_TenantID e) && text_ok (ev_Meter e) && text_ok (ev_IdempotencyKey e)) then Err ErrInvalidText
  else
    match numeric_of_text (ev_Quantity e) with
    | None => Err ErrInvalidText
    | Some quantity =>
        match List.find (same_key (ev_TenantID e) (ev_IdempotencyKey e)) (rows (events db)) with
        | Some r => Ok ((false, er_payload_fingerprint r), set_events (table_skip (events db)) db)
        | None =>
            let '(_, t) := table_insert (fun id => mkEventRow id (ev_TenantID e) (ev_Meter e) quantity
              (timestamptz (ev_OccurredAt e)) (timestamptz (ev_ReceivedAt e)) (ev_IdempotencyKey e)
              (ev_Fingerprint e) None) (events db) in
            Ok ((true, ev_Fingerprint e), set_events t db)
        end
    end.

Definition commitOffset (consumer : string) (next_offset : Z) (updated_at : Time) : stmt unit := fun db =>
  if negb (text_ok consumer) then Err ErrInvalidText
  else if next_offset <? 0 then Err ErrConstraint
  else Ok (tt, set_offsets (<[consumer := (next_offset, timestamptz updated_at)]> (consumer_offsets db)) db).

Definition readOffset (consumer : string) : stmt (option Z) := fun db =>
  if negb (text_ok consumer) then Err ErrInvalidText
  else Ok (fst <$> consumer_offsets db !! consumer, db).

Definition same_offset (consumer : string) (offset : Z) (r : dead_letter_row) : bool :=
  bool_decide (dl_consumer r = consumer) && (dl_log_offset r =? offset).

Definition null_text_ok (s : option string) : bool :=
  match s with Some s => text_ok s | None => true end.

(** The number of rows written. *)
Definition insertDeadLetter (consumer : string) (offset : Z) (reason detail : string)
  (tenantID idempotencyKey : option string) (record : list byte) (created_at : Time) : stmt Z := fun db =>
  if negb (text_ok consumer && text_ok reason && text_ok detail && null_text_ok tenantID && null_text_ok idempotencyKey)
  then Err ErrInvalidText
  else if negb (bool_decide (reason ∈ [ReasonUndecodable; ReasonKeyReuse])) then Err ErrConstraint
  else if existsb (same_offset consumer offset) (rows (dead_letters db)) then
    Ok (0, set_dead_letters (table_skip (dead_letters db)) db)
  else
    let '(_, t) := table_insert (fun id => mkDeadLetterRow id consumer offset reason detail tenantID idempotencyKey
      record (timestamptz created_at) None) (dead_letters db) in
    Ok (1, set_dead_letters t db).

(** The rows in order of offset, at most [limit] of them. *)
Fixpoint insert_by_offset (r : dead_letter_row) (l : list dead_letter_row) : list dead_letter_row :=
  match l with
  | [] => [r]
  | r' :: l => if dl_log_offset r <? dl_log_offset r' then r :: r' :: l else r' :: insert_by_offset r l
  end.

Definition selectUnresolvedDeadLetters (consumer : string) (limit : Z) : stmt (list dead_letter_row) := fun db =>
  if negb (text_ok consumer) then Err ErrInvalidText
  else if limit <? 0 then Err ErrConstraint
  else
    let found := List.filter (fun r => bool_decide (dl_consumer r = consumer) && bool_decide (dl_resolved_at r = None))
      (rows (dead_letters db)) in
    Ok (take (Z.to_nat limit) (foldr insert_by_offset [] found), db).

End Statements.

(** ** The consumer *)

Section Consumer.
Context {L : Type} `{LogStore L} `{EventCodec} `{Postgres}.

(** The consumer, and the clock's reading when it is consulted for an offset. *)
Variable c : Consumer.
Variable clock : Z -> Time.

Definition Consumer_NextOffset : ST server consumer_err Z := fun srv =>
  match db_exec (readOffset (c_name c)) srv with
  | (Err e, srv) => (Err (ErrReadConsumerOffset e), srv)
  | (Ok None, srv) => (Ok 0, srv)
  | (Ok (Some next), srv) => (Ok (uint64 next), srv)
  end.

Definition Consumer_apply (e : UsageEvent) : ST txn db_err applyResult :=
  '(inserted, stored) ← tx_exec (insertEvent e);
  mret (if (inserted : bool) then appliedInserted
        else match stored with
             | Some fp => if decide (fp = default [] (ev_Fingerprint e)) then appliedDuplicate else appliedConflict
             | None => appliedDuplicate
             end).

Definition deadLetter (offset : Z) (reason detail : string) (e : option UsageEvent) (record : list byte) : ST txn db_err bool :=
  affected ← tx_exec (insertDeadLetter (c_name c) (wrap64 offset) reason detail
    (ev_TenantID <$> e) (ev_IdempotencyKey <$> e) record (clock offset));
  mret (0 <? affected).

Definition key_reuse_detail : string := "idempotency key already used for an event with different content".

(** The body of the loop: it continues ([None]) or returns an error, with the
    statistics so far. *)
Definition batch_step (offset : Z) (stats : Stats) (log : L) (tx : txn) : Stats * option consumer_err * (L * txn) :=
  match ls_Read offset log with
  | (Err e, log) => (stats, Some (ErrReadOffset offset e), (log, tx))
  | (Ok record, log) =>
      let stats := count_read stats in
      match Decode record with
      | Err text =>
          match deadLetter offset ReasonUndecodable text None record tx with
          | (Err e, tx) => (stats, Some (ErrDeadLetter offset e), (log, tx))
          | (Ok written, tx) => (count_conflict written stats, None, (log, tx))
          end
      | Ok e =>
          match Consumer_apply e tx with
          | (Err err, tx) => (stats, Some (ErrApply offset err), (log, tx))
          | (Ok appliedInserted, tx) => (count_inserted stats, None, (log, tx))
          | (Ok appliedDuplicate, tx) => (count_duplicate stats, None, (log, tx))
          | (Ok appliedConflict, tx) =>
              match deadLetter offset ReasonKeyReuse key_reuse_detail (Some e) record tx with
              | (Err e, tx) => (stats, Some (ErrDeadLetter offset e), (log, tx))
              | (Ok written, tx) => (count_conflict written stats, None, (log, tx))
              end
          end
      end
  end.

(** The loop over [n] offsets. *)
Fixpoint batch_loop (n : nat) (offset : Z) (stats : Stats) (log : L) (tx : txn) : Stats * option consumer_err * (L * txn) :=
  match n with
  | O => (stats, None, (log, tx))
  | S n =>
      match batch_step offset stats log tx with
      | (stats, Some err, st) => (stats, Some err, st)
      | (stats, None, (log, tx)) => batch_loop n (offset + 1) stats log tx
      end
  end.

(** The end of [processBatch]: the offset, then the commit. *)
Definition commit_batch (to : Z) (tx : txn) : option consumer_err * server :=
  match tx_exec (commitOffset (c_name c) (wrap64 to) (clock to)) tx with
  | (Err e, tx) => (Some (ErrCommitOffset e), tx_Rollback tx)
  | (Ok _, tx) =>
      match tx_Commit tx with
      | (Err e, srv) => (Some (ErrCommitBatch e), srv)
      | (Ok _, srv) => (None, srv)
      end
  end.

Definition processBatch (from to : Z) (log : L) (srv : server) : Stats * option consumer_err * (L * server) :=
  match BeginTx srv with
  | (Err e, srv) => (zero_stats, Some (ErrBeginBatch e), (log, srv))
  | (Ok tx, _) =>
      match batch_loop (Z.to_nat (to - from)) from zero_stats log tx with
      | (stats, Some err, (log, tx)) => (stats, Some err, (log, tx_Rollback tx))
      | (stats, None, (log, tx)) =>
          let '(err, srv) := commit_batch to tx in (stats, err, (log, srv))
      end
  end.

(** One turn of [Drain]'s loop: [inl] is a return. *)
Definition drain_turn (total : Stats) (log : L) (srv : server)
  : (Stats * option consumer_err + Stats) * (L * server) :=
  match Consumer_NextOffset srv with
  | (Err e, srv) => (inl (total, Some e), (log, srv))
  | (Ok next, srv) =>
      match ls_NextOffset log with
      | Err e => (inl (total, Some (ErrLogEnd e)), (log, srv))
      | Ok end_ =>
          if end_ <=? next then (inl (total, None), (log, srv))
          else
            let batchEnd := uint64 (next + uint64 (c_BatchSize c)) in
            let batchEnd := if end_ <? batchEnd then end_ else batchEnd in
            match processBatch next batchEnd log srv with
            | (stats, Some e, st) => (inl (Stats_add total stats, Some e), st)
            | (stats, None, st) => (inr (Stats_add total stats), st)
            end
      end
  end.

(** [None] when [fuel] turns did not reach a return. *)
Fixpoint drain_loop (fuel : nat) (total : Stats) (log : L) (srv : server)
  : option (Stats * option consumer_err) * (L * server) :=
  match fuel with
  | O => (None, (log, srv))
  | S fuel =>
      match drain_turn total log srv with
      | (inl result, st) => (Some result, st)
      | (inr total, (log, srv)) => drain_loop fuel total log srv
      end
  end.

Definition Drain (fuel : nat) (log : L) (srv : server) : option (Stats * option consumer_err) * (L * server) :=
  drain_loop fuel zero_stats log srv.

Definition scan_dead_letter (r : dead_letter_row) : DeadLetter :=
  mkDeadLetter (uint64 (dl_log_offset r)) (dl_reason r) (dl_detail r) (default ""%string (dl_tenant_id r))
    (default ""%string (dl_idempotency_key r)) (dl_record r) (dl_created_at r).

Definition UnresolvedDeadLetters (limit : Z) : ST server db_err (list DeadLetter) :=
  found ← db_exec (selectUnresolvedDeadLetters (c_name c) limit);
  mret (map scan_dead_letter found).

End Consumer.

(** ** What it is to have consumed a prefix of a log *)

(** Rows without what does not depend on the log: identities, billing, the time
    of writing. *)
Definition event_content (r : event_row) : event_row :=
  mkEventRow 0 (er_tenant_id r) (er_meter r) (er_quantity r) (er_occurred_at r) (er_received_at r)
    (er_idempotency_key r) (er_payload_fingerprint r) None.

Definition dead_content (r : dead_letter_row) : dead_letter_row :=
  mkDeadLetterRow 0 (dl_consumer r) (dl_log_offset r) (dl_reason r) (dl_detail r) (dl_tenant_id r)
    (dl_idempotency_key r) (dl_record r) 0 None.

Section Spec.
Context `{EventCodec} `{Postgres}.
Variable name : string.

(** What a consumer can see of the tables. *)
Definition view (db : DB) : list event_row * list dead_letter_row :=
  (map event_content (rows (events db)),
   map dead_content (List.filter (fun r => bool_decide (dl_consumer r = name)) (rows (dead_letters db)))).

Definition position (db : DB) : Z := default 0 (fst <$> consumer_offsets db !! name).

Definition spec_dead (offset : Z) (reason detail : string) (e : option UsageEvent) (record : list byte)
  (v : list event_row * list dead_letter_row) : option (list event_row * list dead_letter_row) :=
  if negb (text_ok name && text_ok reason && text_ok detail && null_text_ok (ev_TenantID <$> e)
           && null_text_ok (ev_IdempotencyKey <$> e)) then None
  else if existsb (fun r => dl_log_offset r =? offset) v.2 then Some v
  else Some (v.1, v.2 ++ [mkDeadLetterRow 0 name offset reason detail (ev_TenantID <$> e) (ev_IdempotencyKey <$> e) record 0 None]).

(** The effect of the record at [offset]; [None] when it cannot be stored. *)
Definition consume1 (offset : Z) (record : list byte) (v : list event_row * list dead_letter_row)
  : option (list event_row * list dead_letter_row) :=
  match Decode record with
  | Err text => spec_dead offset ReasonUndecodable text None record v
  | Ok e =>
      if negb (text_ok (ev_TenantID e) && text_ok (ev_Meter e) && text_ok (ev_IdempotencyKey e)) then None
      else
        quantity ← numeric_of_text (ev_Quantity e);
        match List.find (same_key (ev_TenantID e) (ev_IdempotencyKey e)) v.1 with
        | None => Some (v.1 ++ [mkEventRow 0 (ev_TenantID e) (ev_Meter e) quantity (timestamptz (ev_OccurredAt e))
            (timestamptz (ev_ReceivedAt e)) (ev_IdempotencyKey e) (ev_Fingerprint e) None], v.2)
        | Some r =>
            match er_payload_fingerprint r with
            | Some fp => if decide (fp = default [] (ev_Fingerprint e)) then Some v
                         else spec_dead offset ReasonKeyReuse key_reuse_detail (Some e) record v
            | None => Some v
            end
        end
  end.

(** The first [n] records, in order. *)
Fixpoint consume (n : nat) (rs : list (list byte)) : option (list event_row * list dead_letter_row) :=
  match n with
  | O => Some ([], [])
  | S n => v ← consume n rs; record ← rs !! n; consume1 (Z.of_nat n) record v
  end.

(** The tables hold exactly the effect of the first [n] records, and the stored
    offset is not past them: it is [n] unless it was moved back. *)
Definition consumed (rs : list (list byte)) (n : nat) (db : DB) : Prop :=
  0 <= position db <= Z.of_nat n /\ (n <= length rs)%nat /\ consume n rs = Some (view db).

(** How much of the log has been consumed after the offset moved to that of [db]. *)
Definition reached (n : nat) (db : DB) : nat := Nat.max n (Z.to_nat (position db)).

(** The consumer sees no difference. *)
Definition same_view (db db' : DB) : Prop := view db' = view db /\ position db' = position db.

(** Another session's commit that leaves this consumer's rows alone. *)
Definition quiet (t : tick) : Prop := quiet_for same_view t.

Lemma same_view_refl db : same_view db db.
Proof. done. Qed.

Lemma same_view_rollback db1 db2 db' : same_view db1 db2 -> same_view db1 (db_rollback db2 db').
Proof. done. Qed.

End Spec.

(** ** Lemmas: statements against the view *)

Lemma find_content t k l :
  List.find (same_key t k) (map event_content l) = event_content <$> List.find (same_key t k) l.
Proof. induction l as [|r l IH]; [done|]. cbn. unfold same_key at 1 3. cbn. by destruct (_ && _). Qed.

Lemma filter_app {A} (f : A -> bool) l k : List.filter f (l ++ k) = List.filter f l ++ List.filter f k.
Proof. induction l as [|x l IH]; [done|]. cbn. destruct (f x); by rewrite IH. Qed.

Section Lemmas.
Context `{EventCodec} `{Postgres}.
Variable name : string.

Lemma dead_offsets offset db :
  existsb (same_offset name offset) (rows (dead_letters db)) =
  existsb (fun r => dl_log_offset r =? offset) (view name db).2.
Proof.
  cbn. induction (rows (dead_letters db)) as [|r l IH]; [done|]. cbn. unfold same_offset at 1.
  destruct (bool_decide (dl_consumer r = name)); cbn; by rewrite IH.
Qed.

Lemma insertDeadLetter_spec offset reason detail e record now db :
  reason ∈ [ReasonUndecodable; ReasonKeyReuse] ->
  match insertDeadLetter name offset reason detail (ev_TenantID <$> e) (ev_IdempotencyKey <$> e) record now db with
  | Ok (_, db') => spec_dead name offset reason detail e record (view name db) = Some (view name db') /\
      position name db' = position name db /\ ledger_postings db' = ledger_postings db
  | Err _ => spec_dead name offset reason detail e record (view name db) = None
  end.
Proof.
  intros Hr. unfold insertDeadLetter, spec_dead. destruct (negb _); [done|].
  rewrite bool_decide_true by done. cbn [negb]. rewrite dead_offsets.
  destruct (existsb _ (view name db).2); [done|]. split; [|done]. f_equal. unfold view. cbn.
  rewrite filter_app, map_app. cbn. by rewrite bool_decide_true.
Qed.

Lemma insertEvent_spec e offset record db :
  Decode record = Ok e ->
  match insertEvent e db with
  | Ok (true, _, db') => consume1 name offset record (view name db) = Some (view name db') /\
      position name db' = position name db /\ ledger_postings db' = ledger_postings db
  | Ok (false, stored, db') => view name db' = view name db /\
      position name db' = position name db /\ ledger_postings db' = ledger_postings db /\
      consume1 name offset record (view name db) =
        match stored with
        | Some fp => if decide (fp = default [] (ev_Fingerprint e)) then Some (view name db)
                     else spec_dead name offset ReasonKeyReuse key_reuse_detail (Some e) record (view name db)
        | None => Some (view name db)
        end
  | Err _ => consume1 name offset record (view name db) = None
  end.
Proof.
  intros Hd. unfold insertEvent, consume1. rewrite Hd. destruct (negb _); [done|].
  destruct (numeric_of_text (ev_Quantity e)) as [q|]; [|done]. cbn [mbind option_bind].
  change (view name db).1 with (map event_content (rows (events db))). rewrite find_content.
  destruct (List.find _ (rows (events db))) as [r|]; cbn [fmap option_fmap option_map]; [done|].
  cbn [table_insert]. split; [|done]. f_equal. unfold view. cbn. by rewrite map_app.
Qed.

End Lemmas.

(** ** Lemmas: consuming a record again *)

Section Replay.
Context `{EventCodec} `{Postgres}.
Variable name : string.

(** Rows are only added, at the end. *)
Definition extends (v w : list event_row * list dead_letter_row) : Prop :=
  exists E D, w = (v.1 ++ E, v.2 ++ D).

#[global] Instance extends_preorder : PreOrder extends.
Proof.
  split; [intros v; exists [], []; rewrite !app_nil_r; by destruct v|].
  intros u v w (E & D & ->) (E' & D' & ->). exists (E ++ E'), (D ++ D'). cbn. by rewrite !app_assoc.
Qed.

Lemma spec_dead_extends offset reason detail e record v v' :
  spec_dead name offset reason detail e record v = Some v' ->
  extends v v' /\ forall w, extends v' w -> spec_dead name offset reason detail e record w = Some w.
Proof.
  unfold spec_dead. destruct (negb _) eqn:En; [done|].
  assert (In' : existsb (fun r => dl_log_offset r =? offset) v'.2 = true ->
    forall w, extends v' w -> (if existsb (fun r => dl_log_offset r =? offset) w.2 then Some w else
      Some (w.1, w.2 ++ [mkDeadLetterRow 0 name offset reason detail (ev_TenantID <$> e) (ev_IdempotencyKey <$> e) record 0 None])) = Some w).
  { intros Hx w (E & D & ->). cbn [snd]. rewrite existsb_app, Hx. done. }
  destruct (existsb _ v.2) eqn:Ex; intros [= <-]; (split; [|auto]); [reflexivity|eexists [], _; cbn; by rewrite app_nil_r|].
  apply In'. cbn [snd]. rewrite existsb_app. cbn. by rewrite Z.eqb_refl, orb_true_r.
Qed.

Lemma find_app {A} (f : A -> bool) l k :
  List.find f (l ++ k) = match List.find f l with Some x => Some x | None => List.find f k end.
Proof. induction l as [|x l IH]; [done|]. cbn. by destruct (f x). Qed.

(** Once consumed, a record has no further effect. *)
Lemma consume1_extends offset record v v' :
  consume1 name offset record v = Some v' ->
  extends v v' /\ forall w, extends v' w -> consume1 name offset record w = Some w.
Proof.
  unfold consume1. destruct (Decode record) as [e|text]; [|apply spec_dead_extends].
  destruct (negb _); [done|]. destruct (numeric_of_text (ev_Quantity e)) as [q|]; [|done]. cbn [mbind option_bind].
  destruct (List.find _ v.1) as [r|] eqn:Ef.
  - intros Hv. assert (Hfind : forall w, extends v w -> List.find (same_key (ev_TenantID e) (ev_IdempotencyKey e)) w.1 = Some r).
    { intros w (E & D & ->). cbn [fst]. by rewrite find_app, Ef. }
    destruct (er_payload_fingerprint r) as [fp|] eqn:Efp; [destruct (decide (fp = default [] (ev_Fingerprint e))) as [Hd|Hd]|].
    + injection Hv as <-. split; [reflexivity|]. intros w Hw. rewrite (Hfind w Hw), Efp. by destruct (decide _).
    + apply spec_dead_extends in Hv as [He Hrep]. split; [done|]. intros w Hw. rewrite (Hfind w) by (by etrans). rewrite Efp, decide_False by done. auto.
    + injection Hv as <-. split; [reflexivity|]. intros w Hw. by rewrite (Hfind w Hw), Efp.
  - intros [= <-]. split; [eexists _, []; by rewrite (app_nil_r v.2)|]. intros w (E & D & ->). cbn [fst snd].
    rewrite <- app_assoc, find_app, Ef. cbn [app List.find]. unfold same_key at 1. cbn. rewrite !bool_decide_true by done. cbn.
    destruct (ev_Fingerprint e) as [fp|]; [cbn; by destruct (decide _)|done].
Qed.

Lemma consume_extends rs k n v w : (k <= n)%nat -> consume name k rs = Some v -> consume name n rs = Some w -> extends v w.
Proof.
  intros Hkn Hv. revert w. induction Hkn as [|n Hkn IH]; intros w Hw; [by simplify_eq|].
  cbn [consume] in Hw. destruct (consume name n rs) as [u|]; [|done]. cbn [mbind option_bind] in Hw.
  destruct (rs !! n) as [record|]; [|done]. cbn [mbind option_bind] in Hw. apply consume1_extends in Hw as [Hw _]. etrans; [by apply IH|done].
Qed.

(** The record at [k] is consumed, for the first time or again. *)
Lemma consume_advance rs k n record v v' :
  (k <= n)%nat -> rs !! k = Some record -> consume name n rs = Some v -> consume1 name (Z.of_nat k) record v = Some v' ->
  consume name (Nat.max n (S k)) rs = Some v'.
Proof.
  intros Hk Hr Hv H1. destruct (decide (k = n)) as [->|].
  { rewrite Nat.max_r by lia. cbn [consume]. rewrite Hv, Hr. exact H1. }
  rewrite Nat.max_l by lia. rewrite Hv. rewrite <- H1. symmetry.
  assert (Hs : exists u, consume name (S k) rs = Some u).
  { clear H1 v'. revert v Hv. assert (Hlt : (S k <= n)%nat) by lia. clear n0 Hk. induction Hlt as [|n Hlt IH]; intros v Hv; [eauto|].
    cbn [consume] in Hv. destruct (consume name n rs) as [u|]; [|done]. by eapply IH. }
  destruct Hs as [u Hu]. pose proof (consume_extends rs (S k) n u v ltac:(lia) Hu Hv) as He.
  cbn [consume] in Hu. destruct (consume name k rs) as [u0|]; [|done]. cbn [mbind option_bind] in Hu. rewrite Hr in Hu. cbn [mbind option_bind] in Hu.
  by apply consume1_extends in Hu as [_ Hu]; apply Hu.
Qed.

End Replay.

(** ** Lemmas: the loop *)

Section Loop.
Context {L : Type} `{LogStore L} `{EventCodec} `{Postgres}.
Variable c : Consumer.
Variable clock : Z -> Time.
Variable rs : list (list byte).
Hypothesis rs_bound : Z.of_nat (length rs) <= max_int64.

Definition tx_keeps (tx tx' : txn) : Prop := tx_kept (same_view (c_name c)) tx tx'.

Lemma same_view_trans db1 db2 db3 : same_view (c_name c) db1 db2 -> same_view (c_name c) db2 db3 -> same_view (c_name c) db1 db3.
Proof. intros [? ?] [? ?]. split; congruence. Qed.

Lemma tx_keeps_trans tx1 tx2 tx3 : tx_keeps tx1 tx2 -> tx_keeps tx2 tx3 -> tx_keeps tx1 tx3.
Proof. apply tx_kept_trans. apply same_view_trans. Qed.

(** A dead letter is written as the specification has it. *)
Lemma deadLetter_spec offset reason detail e record tx r tx' :
  0 <= offset <= max_int64 -> reason ∈ [ReasonUndecodable; ReasonKeyReuse] ->
  Forall (quiet (c_name c)) (srv_sched (tx_server tx)) ->
  deadLetter c clock offset reason detail e record tx = (r, tx') ->
  tx_keeps tx tx' /\
  match r with
  | Ok _ => spec_dead (c_name c) offset reason detail e record (view (c_name c) (tx_db tx)) = Some (view (c_name c) (tx_db tx')) /\
      position (c_name c) (tx_db tx') = position (c_name c) (tx_db tx) /\
      (srv_sched (tx_server tx) = [] -> ledger_postings (tx_db tx') = ledger_postings (tx_db tx))
  | Err _ => srv_sched (tx_server tx) = [] ->
      spec_dead (c_name c) offset reason detail e record (view (c_name c) (tx_db tx)) = None
  end.
Proof.
  intros Ho Hr Hq. unfold deadLetter, mbind, ST_bind, mret, ST_ret. rewrite wrap64_id by int_lia.
  set (q := insertDeadLetter _ _ _ _ _ _ _ _). destruct (tx_exec q tx) as [r0 tx0] eqn:Ex.
  destruct (tx_exec_inv (same_view (c_name c)) (same_view_refl _) q tx r0 tx0 Hq Ex) as (Q & V & (db1 & [W1 W2] & Hdb) & Calm).
  pose proof (tx_exec_kept (same_view (c_name c)) (same_view_refl _) _ _ _ _ Hq Ex) as K.
  destruct r0 as [n|err]; intros [= <- <-]; (split; [done|]).
  - pose proof (insertDeadLetter_spec (c_name c) offset reason detail e record (clock offset) db1 Hr) as S1.
    fold q in S1. rewrite Hdb, W1 in S1. destruct S1 as (S1 & S2 & _). split_and!; [done|congruence|].
    intros E. destruct (Calm E) as (_ & _ & Hc).
    pose proof (insertDeadLetter_spec (c_name c) offset reason detail e record (clock offset) (tx_db tx) Hr) as S3.
    fold q in S3. rewrite Hc in S3. apply S3.
  - intros E. destruct (Calm E) as (_ & _ & Hc).
    pose proof (insertDeadLetter_spec (c_name c) offset reason detail e record (clock offset) (tx_db tx) Hr) as S3.
    fold q in S3. by rewrite Hc in S3.
Qed.

Definition unaccounted (s : Stats) : Z := st_Inserted s + st_Duplicates s + st_Conflicts s - st_Read s.

(** One record is consumed as the specification has it. *)
Definition step_post (k : nat) (stats : Stats) (tx : txn) (stats' : Stats) (tx' : txn) (record : list byte) : Prop :=
  consume1 (c_name c) (Z.of_nat k) record (view (c_name c) (tx_db tx)) = Some (view (c_name c) (tx_db tx')) /\
  position (c_name c) (tx_db tx') = position (c_name c) (tx_db tx) /\
  st_Read stats' = st_Read stats + 1 /\ unaccounted stats' = unaccounted stats /\
  (srv_sched (tx_server tx) = [] -> ledger_postings (tx_db tx') = ledger_postings (tx_db tx)).

(** Every record can be read back. *)
Definition readable : Prop :=
  forall log k, ls_holds log rs -> (k < length rs)%nat -> is_ok (ls_Read (Z.of_nat k) log).1 = true.

Lemma batch_step_spec k stats log tx stats' err log' tx' :
  ls_holds log rs -> (k < length rs)%nat -> Forall (quiet (c_name c)) (srv_sched (tx_server tx)) ->
  batch_step c clock (Z.of_nat k) stats log tx = (stats', err, (log', tx')) ->
  ls_holds log' rs /\ tx_keeps tx tx' /\
  exists record, rs !! k = Some record /\
    match err with
    | None => step_post k stats tx stats' tx' record
    | Some _ => readable -> srv_sched (tx_server tx) = [] ->
        consume1 (c_name c) (Z.of_nat k) record (view (c_name c) (tx_db tx)) = None
    end.
Proof.
  intros Hh Hk Hq. unfold batch_step. destruct (ls_Read (Z.of_nat k) log) as [rr log1] eqn:Er.
  destruct (ls_Read_law _ _ _ _ _ Hh Er) as (Hh1 & _ & Hrec). destruct (lookup_lt_is_Some_2 rs k Hk) as [rec Hrec'].
  destruct rr as [record|e]; cycle 1.
  { intros [= <- <- <- <-]. split_and!; [done|by split_and!|]. exists rec. split; [done|]. intros Hrd.
    specialize (Hrd log k Hh Hk). by rewrite Er in Hrd. }
  specialize (Hrec record ltac:(lia) eq_refl). rewrite Nat2Z.id in Hrec. assert (rec = record) as -> by congruence. clear Hrec'.
  destruct (Decode record) as [e|text] eqn:Ed; cycle 1.
  { destruct (deadLetter c clock _ ReasonUndecodable text None record tx) as [r1 tx1] eqn:Edl.
    destruct (deadLetter_spec (Z.of_nat k) ReasonUndecodable text None record tx r1 tx1 ltac:(lia) ltac:(left) Hq Edl) as [K P].
    destruct r1 as [w|err1]; intros [= <- <- <- <-]; (split_and!; [done|done|]); exists record; (split; [done|]).
    - unfold step_post, consume1. rewrite Ed. destruct P as (P1 & P2 & P3). split_and!; [done|done|done|unfold unaccounted; cbn; lia|done].
    - intros _ E. unfold consume1. rewrite Ed. auto. }
  unfold Consumer_apply, mbind, ST_bind, mret, ST_ret. destruct (tx_exec (insertEvent e) tx) as [r0 tx0] eqn:Ex.
  destruct (tx_exec_inv (same_view (c_name c)) (same_view_refl _) _ tx r0 tx0 Hq Ex) as (Q & V & (db1 & [W1 W2] & Hdb) & Calm).
  pose proof (tx_exec_kept (same_view (c_name c)) (same_view_refl _) _ _ _ _ Hq Ex) as K.
  pose proof (insertEvent_spec (c_name c) e (Z.of_nat k) record db1 Ed) as S1.
  pose proof (insertEvent_spec (c_name c) e (Z.of_nat k) record (tx_db tx) Ed) as S2.
  destruct r0 as [[ins stored]|err0]; cycle 1.
  { intros [= <- <- <- <-]. split_and!; [done|done|]. exists record. split; [done|]. intros _ E.
    destruct (Calm E) as (_ & _ & Hc). by rewrite Hc in S2. }
  rewrite Hdb in S1. destruct ins.
  { intros [= <- <- <- <-]. split_and!; [done|done|]. exists record. split; [done|]. destruct S1 as (S1 & S3 & _).
    split_and!; [by rewrite <- W1|congruence|done|unfold unaccounted; cbn; lia|].
    intros E. destruct (Calm E) as (_ & _ & Hc). rewrite Hc in S2. apply S2. }
  destruct S1 as (S1 & S3 & _ & S4). rewrite W1 in S1, S4.
  assert (Hpost : srv_sched (tx_server tx) = [] -> ledger_postings (tx_db tx0) = ledger_postings (tx_db tx)).
  { intros E. destruct (Calm E) as (_ & _ & Hc). rewrite Hc in S2. by destruct S2 as (_ & _ & ? & _). }
  assert (Hdup : match stored with Some fp => if decide (fp = default [] (ev_Fingerprint e)) then True else False | None => True end ->
    consume1 (c_name c) (Z.of_nat k) record (view (c_name c) (tx_db tx)) = Some (view (c_name c) (tx_db tx0))).
  { rewrite S4, S1. destruct stored; [|done]. by case_decide. }
  destruct stored as [fp|]; [destruct (decide (fp = default [] (ev_Fingerprint e))) as [Hfp|Hfp]|].
  1, 3: intros [= <- <- <- <-]; (split_and!; [done|done|]); exists record; (split; [done|]);
    (split_and!; [by apply Hdup|congruence|done|unfold unaccounted; cbn; lia|done]).
  destruct (deadLetter c clock _ ReasonKeyReuse key_reuse_detail (Some e) record tx0) as [r1 tx1] eqn:Edl.
  destruct (deadLetter_spec (Z.of_nat k) ReasonKeyReuse key_reuse_detail (Some e) record tx0 r1 tx1 ltac:(lia) ltac:(right; left) Q Edl) as [K1 P]. rewrite S1 in P.
  pose proof (tx_keeps_trans _ _ _ K K1) as K2.
  destruct r1 as [w|err1]; intros [= <- <- <- <-]; (split_and!; [done|done|]); exists record; (split; [done|]).
  - destruct P as (P1 & P2 & P3). split_and!; [by rewrite S4|congruence|done|unfold unaccounted; cbn; lia|].
    intros E. rewrite P3; [auto|]. by apply K.
  - intros _ E. rewrite S4. apply P. by apply K.
Qed.

Lemma consume_step k record : rs !! k = Some record ->
  consume (c_name c) (S k) rs = consume (c_name c) k rs ≫= consume1 (c_name c) (Z.of_nat k) record.
Proof. intros Hr. cbn [consume]. by rewrite Hr. Qed.

(** The prefix that can be consumed is closed downwards. *)
Lemma consume_mono k n v : consume (c_name c) (k + n) rs = Some v -> is_Some (consume (c_name c) k rs).
Proof.
  revert v. induction n as [|n IH]; intros v; [rewrite Nat.add_0_r; by eexists|].
  rewrite Nat.add_succ_r. cbn [consume]. destruct (consume (c_name c) (k + n) rs) as [w|]; [|done]. intros _. by eapply IH.
Qed.

Lemma batch_loop_spec n k done_ stats log tx stats' err log' tx' :
  ls_holds log rs -> (k <= done_)%nat -> (k + n <= length rs)%nat -> Forall (quiet (c_name c)) (srv_sched (tx_server tx)) ->
  consume (c_name c) done_ rs = Some (view (c_name c) (tx_db tx)) ->
  batch_loop c clock n (Z.of_nat k) stats log tx = (stats', err, (log', tx')) ->
  ls_holds log' rs /\ tx_keeps tx tx' /\
  match err with
  | None => consume (c_name c) (Nat.max done_ (k + n)) rs = Some (view (c_name c) (tx_db tx')) /\
      position (c_name c) (tx_db tx') = position (c_name c) (tx_db tx) /\
      st_Read stats' = st_Read stats + Z.of_nat n /\ unaccounted stats' = unaccounted stats /\
      (srv_sched (tx_server tx) = [] -> ledger_postings (tx_db tx') = ledger_postings (tx_db tx))
  | Some _ => readable -> srv_sched (tx_server tx) = [] -> consume (c_name c) (k + n) rs = None
  end.
Proof.
  revert k done_ stats log tx. induction n as [|n IH]; intros k done_ stats log tx Hh Hd Hk Hq Hc; cbn [batch_loop].
  - intros [= <- <- <- <-]. rewrite Nat.add_0_r, Nat.max_l by lia. by split_and!; try lia.
  - destruct (batch_step c clock (Z.of_nat k) stats log tx) as [[stats1 err1] [log1 tx1]] eqn:Eb.
    destruct (batch_step_spec k stats log tx stats1 err1 log1 tx1 Hh ltac:(lia) Hq Eb) as (Hh1 & K1 & record & Hr & P).
    replace (k + S n)%nat with (S k + n)%nat by lia.
    destruct err1 as [err1|].
    + intros [= <- <- <- <-]. split_and!; [done|done|]. intros Hrd E. specialize (P Hrd E).
      destruct (consume (c_name c) (S k + n) rs) as [v|] eqn:Ev; [|done]. apply consume_mono in Ev as [u Hu].
      destruct (decide (k = done_)) as [->|]; [rewrite (consume_step _ _ Hr), Hc in Hu; cbn [mbind option_bind] in Hu; congruence|].
      pose proof (consume_extends (c_name c) rs (S k) done_ _ _ ltac:(lia) Hu Hc) as He. rewrite (consume_step _ _ Hr) in Hu.
      destruct (consume (c_name c) k rs) as [w|]; [|done]. apply consume1_extends in Hu as [_ Hu]. rewrite Hu in P by done. done.
    + replace (Z.of_nat k + 1) with (Z.of_nat (S k)) by lia. intros El. destruct P as (P1 & P2 & P3 & P4 & P5).
      pose proof (consume_advance (c_name c) rs k done_ record _ _ Hd Hr Hc P1) as Hs.
      destruct (IH (S k) (Nat.max done_ (S k)) stats1 log1 tx1 Hh1 ltac:(lia) ltac:(lia) ltac:(apply K1) Hs El) as (Hh2 & K2 & R).
      split_and!; [done|by eapply tx_keeps_trans|].
      assert (Calm : srv_sched (tx_server tx) = [] -> srv_sched (tx_server tx1) = []) by (intros E; by apply K1).
      destruct err as [err|]; [by auto|]. destruct R as (R1 & R2 & R3 & R4 & R5).
      replace (Nat.max (Nat.max done_ (S k)) (S k + n)) with (Nat.max done_ (S k + n)) in R1 by lia.
      split_and!; [done|congruence|lia|lia|]. intros E. by rewrite R5, P5 by auto.
Qed.

Lemma commitOffset_spec next now db :
  0 <= next ->
  match commitOffset (c_name c) next now db with
  | Ok (_, db') => view (c_name c) db' = view (c_name c) db /\ position (c_name c) db' = next /\
      ledger_postings db' = ledger_postings db
  | Err _ => text_ok (c_name c) = false
  end.
Proof.
  intros Hn. unfold commitOffset. destruct (text_ok (c_name c)); [|done]. cbn [negb].
  rewrite (proj2 (Z.ltb_ge next 0)) by lia. split_and!; [done| |done].
  unfold position. cbn. by rewrite lookup_insert_eq.
Qed.

Lemma consumed_keep n db db' : same_view (c_name c) db db' -> consumed (c_name c) rs n db -> consumed (c_name c) rs n db'.
Proof. intros [V P]. unfold consumed. by rewrite V, P. Qed.

Lemma consumed_at n m db : (n <= length rs)%nat -> (m <= length rs)%nat ->
  consume (c_name c) (Nat.max n m) rs = Some (view (c_name c) db) ->
  position (c_name c) db = Z.of_nat m -> consumed (c_name c) rs (reached (c_name c) n db) db.
Proof. intros Hn Hm V P. unfold consumed, reached. rewrite P, Nat2Z.id. split_and!; [lia|lia|lia|done]. Qed.

Lemma reached_same n db : consumed (c_name c) rs n db -> reached (c_name c) n db = n.
Proof. intros (Hp & _). unfold reached. lia. Qed.

Lemma reached_trans n db db' : position (c_name c) db <= position (c_name c) db' ->
  reached (c_name c) (reached (c_name c) n db) db' = reached (c_name c) n db'.
Proof. unfold reached. lia. Qed.

(** The commit moves the position with the rows, or neither. *)
Lemma commit_batch_spec m tx err srv' :
  0 <= m <= max_int64 -> Forall (quiet (c_name c)) (srv_sched (tx_server tx)) -> commit_batch c clock m tx = (err, srv') ->
  let committed := view (c_name c) (srv_db srv') = view (c_name c) (tx_db tx) /\ position (c_name c) (srv_db srv') = m in
  Forall (quiet (c_name c)) (srv_sched srv') /\
  match err with
  | None => committed
  | Some _ => committed \/ same_view (c_name c) (srv_db (tx_server tx)) (srv_db srv')
  end /\
  (srv_sched (tx_server tx) = [] -> srv_sched srv' = [] /\
     (ledger_postings (tx_db tx) = ledger_postings (srv_db (tx_server tx)) -> text_ok (c_name c) = true -> err = None)).
Proof.
  intros Hm Hq. unfold commit_batch. rewrite wrap64_id by int_lia. set (q := commitOffset _ _ _).
  destruct (tx_exec q tx) as [rc tx3] eqn:Ec. cbv zeta.
  destruct (tx_exec_inv (same_view (c_name c)) (same_view_refl _) q tx rc tx3 Hq Ec) as (Q3 & V3 & (db1 & [W1 W2] & Hdb) & Calm3).
  assert (Q : forall db, match q db with
    | Ok (_, db') => view (c_name c) db' = view (c_name c) db /\ position (c_name c) db' = m /\ ledger_postings db' = ledger_postings db
    | Err _ => text_ok (c_name c) = false end) by (intros db; apply commitOffset_spec; lia).
  destruct rc as [[]|e]; cycle 1.
  { intros [= <- <-]. split_and!; [done|by right|]. intros E. destruct (Calm3 E) as (E3 & _ & Hc3). split; [done|].
    intros _ Ht. specialize (Q (tx_db tx)). rewrite Hc3 in Q. congruence. }
  pose proof (Q db1) as S1. rewrite Hdb in S1. destruct S1 as (S1 & S2 & _).
  destruct (tx_Commit tx3) as [rcm srv4] eqn:Ecm. destruct (tx_Commit_spec (same_view (c_name c)) (same_view_refl _) (same_view_rollback _) _ _ _ Q3 Ecm) as (Q4 & V4 & Calm4).
  assert (Calm : srv_sched (tx_server tx) = [] -> srv_sched srv4 = []).
  { intros E. destruct (Calm3 E) as (E3 & _ & _). by apply Calm4. }
  destruct rcm as [[]|e]; intros [= <- <-].
  - destruct V4. split_and!; [done|congruence|congruence|by auto].
  - split_and!; [done| |].
    + destruct V4 as [[? ?]|V4]; [left; split; congruence|right; by eapply same_view_trans].
    + intros E. split; [auto|]. intros Hp _. destruct (Calm3 E) as (E3 & D3 & Hc3). pose proof (Q (tx_db tx)) as S3.
      rewrite Hc3 in S3. destruct S3 as (_ & _ & S3). destruct (Calm4 E3) as [_ X].
      destruct X as [X _]; [apply balanced_unchanged; by rewrite S3, D3|done].
Qed.

(** A batch is all or nothing. *)
Lemma processBatch_spec n k m log srv stats err log' srv' :
  ls_holds log rs -> (k < m <= length rs)%nat -> Forall (quiet (c_name c)) (srv_sched srv) ->
  consumed (c_name c) rs n (srv_db srv) -> position (c_name c) (srv_db srv) = Z.of_nat k ->
  processBatch c clock (Z.of_nat k) (Z.of_nat m) log srv = (stats, err, (log', srv')) ->
  ls_holds log' rs /\ Forall (quiet (c_name c)) (srv_sched srv') /\
  consumed (c_name c) rs (reached (c_name c) n (srv_db srv')) (srv_db srv') /\
  match err with
  | None => position (c_name c) (srv_db srv') = Z.of_nat m /\ st_Read stats = Z.of_nat (m - k) /\ unaccounted stats = 0
  | Some _ => position (c_name c) (srv_db srv') ∈ [Z.of_nat k; Z.of_nat m]
  end /\
  (srv_sched srv = [] -> srv_sched srv' = [] /\
     (readable -> text_ok (c_name c) = true -> is_Some (consume (c_name c) m rs) -> err = None)).
Proof.
  intros Hh Hkm Hq Hc Hp. unfold processBatch.
  assert (Keep : forall db, same_view (c_name c) (srv_db srv) db ->
    consumed (c_name c) rs (reached (c_name c) n db) db /\ position (c_name c) db ∈ [Z.of_nat k; Z.of_nat m]).
  { intros db V. pose proof (consumed_keep _ _ _ V Hc) as Hc'. split; [by rewrite reached_same|]. destruct V as [_ ->]. rewrite Hp. left. }
  pose proof Hc as (Hpn & Hnl & Hv).
  destruct (BeginTx srv) as [rb srv1] eqn:Eb. destruct (BeginTx_spec (same_view (c_name c)) (same_view_refl _) _ _ _ Hq Eb) as (Q1 & V1 & Hbegin & Calm1).
  destruct rb as [tx|e]; [|intros [= <- <- <- <-]; destruct (Keep _ V1); by split_and!].
  subst tx. replace (Z.to_nat (Z.of_nat m - Z.of_nat k)) with (m - k)%nat by lia.
  destruct (batch_loop c clock (m - k) (Z.of_nat k) zero_stats log _) as [[stats2 err2] [log2 tx2]] eqn:El.
  destruct (batch_loop_spec (m - k) k n zero_stats log (mkTxn srv1 (srv_db srv1)) stats2 err2 log2 tx2 Hh ltac:(lia) ltac:(lia) Q1
    ltac:(cbn; by rewrite (proj1 V1)) El) as (Hh2 & (Q2 & V2 & Calm2) & R).
  cbn [tx_server tx_db] in *. replace (k + (m - k))%nat with m in R by lia.
  assert (V12 : same_view (c_name c) (srv_db srv) (srv_db (tx_server tx2))) by (by eapply same_view_trans).
  destruct err2 as [err2|].
  { intros [= <- <- <- <-]. destruct (Keep (db_rollback (srv_db (tx_server tx2)) (tx_db tx2)) V12).
    split_and!; try done. intros E. rewrite (Calm1 E) in *. destruct (Calm2 E) as [E2 _]. split; [done|]. intros Hrd _ [v Hv'].
    by rewrite (R Hrd E) in Hv'. }
  destruct R as (R1 & R2 & R3 & R4 & R5). destruct (commit_batch c clock (Z.of_nat m) tx2) as [err3 srv3] eqn:Ec.
  destruct (commit_batch_spec (Z.of_nat m) tx2 err3 srv3 ltac:(lia) Q2 Ec) as (Q3 & V3 & Calm3). intros [= <- <- <- <-].
  assert (Calm : srv_sched srv = [] -> srv_sched srv3 = [] /\ (text_ok (c_name c) = true -> err3 = None)).
  { intros E. rewrite (Calm1 E) in *. destruct (Calm2 E) as [E2 D2]. destruct (Calm3 E2) as [E3 N]. split; [done|].
    intros Ht. apply N; [|done]. by rewrite R5, D2 by done. }
  assert (Calm' : srv_sched srv = [] -> srv_sched srv3 = [] /\
     (readable -> text_ok (c_name c) = true -> is_Some (consume (c_name c) m rs) -> err3 = None))
    by (intros E; destruct (Calm E); by auto).
  destruct err3 as [err3|].
  - destruct V3 as [[V3 P3]|V3].
    + split_and!; [done|done|by apply (consumed_at n m); [lia|lia|congruence|]|rewrite P3; right; left|done].
    + destruct (Keep (srv_db srv3)); [by eapply same_view_trans|]. by split_and!.
  - destruct V3 as [V3 P3]. split_and!; [done|done|by apply (consumed_at n m); [lia|lia|congruence|]|done|cbn in R3; lia|done|done].
Qed.

Lemma Consumer_NextOffset_spec srv r srv' :
  Forall (quiet (c_name c)) (srv_sched srv) -> 0 <= position (c_name c) (srv_db srv) <= max_int64 ->
  Consumer_NextOffset c srv = (r, srv') ->
  Forall (quiet (c_name c)) (srv_sched srv') /\ same_view (c_name c) (srv_db srv) (srv_db srv') /\
  match r with Ok next => next = position (c_name c) (srv_db srv) | Err _ => True end /\
  (srv_sched srv = [] -> srv_sched srv' = [] /\ (text_ok (c_name c) = true -> is_ok r = true)).
Proof.
  intros Hq Hb. unfold Consumer_NextOffset, db_exec. destruct (next_tick _) as [t sched] eqn:Et.
  destruct (next_tick_quiet (same_view (c_name c)) (same_view_refl _) _ _ _ Hq Et) as [Ht Hs].
  assert (Hcalm : srv_sched srv = [] -> t = mkTick (fun db => db) Run /\ sched = []).
  { intros E. rewrite E in Et. by injection Et as <- <-. }
  assert (Hpos : default 0 (uint64 <$> (fst <$> consumer_offsets (others t (srv_db srv)) !! c_name c)) = position (c_name c) (srv_db srv)).
  { destruct (Ht (srv_db srv)) as [_ Hp]. rewrite <- Hp in *. unfold position in *.
    destruct (consumer_offsets _ !! _) as [[next now]|]; cbn in *; [|done]. apply uint64_id. int_lia. }
  unfold readOffset. destruct (text_ok (c_name c)) eqn:Etx; cbn [negb].
  - destruct (treatment t) eqn:Tt; [destruct (fst <$> _) as [next|] eqn:En| |];
      intros [= <- <-]; (split_and!; [done|apply Ht|try done|]); try (intros E; by destruct (Hcalm E) as [-> ->]).
  - destruct (treatment t) eqn:Tt; intros [= <- <-]; (split_and!; [done|apply Ht|done|]); intros E; by destruct (Hcalm E) as [-> ->].
Qed.

Hypothesis batch_bound : 0 < c_BatchSize c <= max_int64.

Lemma drain_turn_spec n total log srv r log' srv' :
  ls_holds log rs -> Forall (quiet (c_name c)) (srv_sched srv) -> consumed (c_name c) rs n (srv_db srv) ->
  drain_turn c clock total log srv = (r, (log', srv')) ->
  let p := position (c_name c) (srv_db srv) in let p' := position (c_name c) (srv_db srv') in
  ls_holds log' rs /\ Forall (quiet (c_name c)) (srv_sched srv') /\
  consumed (c_name c) rs (reached (c_name c) n (srv_db srv')) (srv_db srv') /\ p <= p' /\
  match r with
  | inl (stats, None) => p = Z.of_nat (length rs) /\ p' = p /\ stats = total
  | inl (_, Some _) => True
  | inr stats => p < p' /\ st_Read stats = st_Read total + (p' - p) /\ unaccounted stats = unaccounted total
  end /\
  (srv_sched srv = [] -> srv_sched srv' = [] /\
     (readable -> text_ok (c_name c) = true -> is_Some (consume (c_name c) (length rs) rs) ->
      match r with inl (_, Some _) => False | _ => True end)).
Proof.
  intros Hh Hq Hc. cbv zeta. unfold drain_turn. pose proof Hc as (Hb & Hbn & _).
  destruct (Consumer_NextOffset c srv) as [rn srv1] eqn:En.
  destruct (Consumer_NextOffset_spec srv rn srv1 Hq ltac:(lia) En) as (Q1 & V1 & Hn & Calm1).
  pose proof (consumed_keep _ _ _ V1 Hc) as Hc1. pose proof (proj2 V1) as P1.
  pose proof (reached_same _ _ Hc1) as Hr1. rewrite <- Hr1 in Hc1.
  destruct rn as [next|e]; cycle 1.
  { intros [= <- <- <-]. split_and!; [done|done|done|lia|done|]. intros E. destruct (Calm1 E) as [E1 N]. split; [done|].
    intros _ Ht. by specialize (N Ht). }
  subst next. rewrite (ls_NextOffset_law log rs Hh). destruct (Z.leb_spec (Z.of_nat (length rs)) (position (c_name c) (srv_db srv))).
  { intros [= <- <- <-]. split_and!; [done|done|done|lia|lia|lia|done|]. intros E. by destruct (Calm1 E). }
  set (p := position (c_name c) (srv_db srv)) in *. rewrite (uint64_id (c_BatchSize c)) by int_lia.
  rewrite (uint64_id (p + c_BatchSize c)) by int_lia. set (m := if _ <? _ then _ else _).
  assert (Hm : p < m <= Z.of_nat (length rs)) by (unfold m; destruct (Z.ltb_spec (Z.of_nat (length rs)) (p + c_BatchSize c)); lia).
  clearbody m. replace p with (Z.of_nat (Z.to_nat p)) at 1 by lia. replace m with (Z.of_nat (Z.to_nat m)) at 1 by lia.
  destruct (processBatch _ _ _ _ _ _) as [[stats err] [log2 srv2]] eqn:Ep.
  destruct (processBatch_spec (reached (c_name c) n (srv_db srv1)) (Z.to_nat p) (Z.to_nat m) log srv1 stats err log2 srv2 Hh ltac:(lia) Q1 Hc1 ltac:(lia) Ep)
    as (Hh2 & Q2 & Hc2 & R & Calm2). rewrite Hr1 in Hc2.
  assert (Calm : srv_sched srv = [] -> srv_sched srv2 = [] /\
     (readable -> text_ok (c_name c) = true -> is_Some (consume (c_name c) (length rs) rs) -> err = None)).
  { intros E. destruct (Calm1 E) as [E1 _]. destruct (Calm2 E1) as [E2 N]. split; [done|]. intros Hr Ht [v Hv]. apply N; [done|done|].
    replace (length rs) with (Z.to_nat m + (length rs - Z.to_nat m))%nat in Hv by lia. by apply consume_mono in Hv. }
  destruct err as [err|]; intros [= <- <- <-].
  - split_and!; [done|done|done| |done|].
    + apply elem_of_cons in R as [->|[->|R]%elem_of_cons]; [lia|lia|by apply elem_of_nil in R].
    + intros E. destruct (Calm E) as [? N]. split; [done|]. intros Hr Ht Hs. by specialize (N Hr Ht Hs).
  - destruct R as (R1 & R2 & R3). split_and!; [done|done|done|lia|lia|cbn; lia|unfold unaccounted in *; cbn; lia|].
    intros E. by destruct (Calm E).
Qed.

Lemma drain_loop_spec n fuel total log srv r log' srv' :
  ls_holds log rs -> Forall (quiet (c_name c)) (srv_sched srv) -> consumed (c_name c) rs n (srv_db srv) ->
  drain_loop c clock fuel total log srv = (r, (log', srv')) ->
  let p := position (c_name c) (srv_db srv) in let p' := position (c_name c) (srv_db srv') in
  ls_holds log' rs /\ Forall (quiet (c_name c)) (srv_sched srv') /\
  consumed (c_name c) rs (reached (c_name c) n (srv_db srv')) (srv_db srv') /\ p <= p' /\
  (Z.of_nat (length rs) - p < Z.of_nat fuel -> is_Some r) /\
  match r with
  | Some (stats, None) => p' = Z.of_nat (length rs) /\ st_Read stats = st_Read total + (p' - p) /\ unaccounted stats = unaccounted total
  | _ => True
  end /\
  (srv_sched srv = [] -> readable -> text_ok (c_name c) = true -> is_Some (consume (c_name c) (length rs) rs) ->
   match r with Some (_, Some _) => False | _ => True end).
Proof.
  revert n total log srv. induction fuel as [|fuel IH]; intros n total log srv Hh Hq Hc; cbn [drain_loop]; cbv zeta.
  - intros [= <- <- <-]. pose proof Hc as (Hb & Hbn & _). split_and!; [done|done|by rewrite reached_same|lia|lia|done|done].
  - destruct (drain_turn c clock total log srv) as [r1 [log1 srv1]] eqn:Et.
    destruct (drain_turn_spec _ _ _ _ _ _ _ Hh Hq Hc Et) as (Hh1 & Q1 & Hc1 & Hle & R & Calm).
    destruct r1 as [[stats err]|stats].
    + intros [= <- <- <-]. split_and!; [done|done|done|done|by eexists| |].
      * destruct err; [done|]. destruct R as (R1 & R2 & ->). split_and!; lia.
      * intros E Hr Ht Hs. destruct (Calm E) as [_ N]. by specialize (N Hr Ht Hs).
    + intros El. destruct R as (R1 & R2 & R3). rewrite <- (reached_trans n (srv_db srv1)) by (destruct (IH _ stats log1 srv1 Hh1 Q1 Hc1 El) as (_ & _ & _ & ? & _); done).
      destruct (IH _ stats log1 srv1 Hh1 Q1 Hc1 El) as (Hh2 & Q2 & Hc2 & Hle2 & F & R' & Calm').
      split_and!; [done|done|done|lia|intros; apply F; lia| |].
      * destruct r as [[stats' [err|]]|]; [done| |done]. destruct R' as (S1 & S2 & S3). split_and!; lia.
      * intros E. destruct (Calm E) as [E1 _]. by apply Calm'.
Qed.

End Loop.

(** ** Lemmas: what the consumed prefix holds *)

Section Meaning.
Context `{EventCodec} `{Postgres}.
Variable name : string.
Variable rs : list (list byte).

(** The row an event becomes. *)
Definition row_of (e : UsageEvent) (r : event_row) : Prop :=
  numeric_of_text (ev_Quantity e) = Some (er_quantity r) /\
  er_tenant_id r = ev_TenantID e /\ er_meter r = ev_Meter e /\ er_idempotency_key r = ev_IdempotencyKey e /\
  er_occurred_at r = timestamptz (ev_OccurredAt e) /\ er_received_at r = timestamptz (ev_ReceivedAt e) /\
  er_payload_fingerprint r = ev_Fingerprint e.

(** Why a record was dead-lettered: it cannot be decoded, or its key is taken by
    other content. *)
Definition dead_cause (record : list byte) (d : dead_letter_row) (v : list event_row * list dead_letter_row) : Prop :=
  match Decode record with
  | Ok e => dl_idempotency_key d = Some (ev_IdempotencyKey e) /\
      exists r fp, r ∈ v.1 /\ er_tenant_id r = ev_TenantID e /\ er_idempotency_key r = ev_IdempotencyKey e /\
        er_payload_fingerprint r = Some fp /\ fp <> default [] (ev_Fingerprint e)
  | Err _ => dl_idempotency_key d = None
  end.

(** A record is stored under its key with matching content, or dead-lettered
    whole, with cause. *)
Definition accounted (i : nat) (record : list byte) (v : list event_row * list dead_letter_row) : Prop :=
  (exists e r, Decode record = Ok e /\ r ∈ v.1 /\ er_tenant_id r = ev_TenantID e /\ er_idempotency_key r = ev_IdempotencyKey e /\
     (er_payload_fingerprint r = None \/ er_payload_fingerprint r = Some (default [] (ev_Fingerprint e)))) \/
  (exists d, d ∈ v.2 /\ dl_log_offset d = Z.of_nat i /\ dl_record d = record /\ dead_cause record d v).

Record prefix_inv (n : nat) (v : list event_row * list dead_letter_row) : Prop := {
  pi_keys : NoDup (map (fun r => (er_tenant_id r, er_idempotency_key r)) v.1);
  pi_dead : Forall (fun d => 0 <= dl_log_offset d < Z.of_nat n) v.2;
  pi_accounted i record : (i < n)%nat -> rs !! i = Some record -> accounted i record v;
  pi_rows r : r ∈ v.1 -> exists i record e, (i < n)%nat /\ rs !! i = Some record /\ Decode record = Ok e /\ row_of e r
}.

Lemma accounted_mono i record v E D :
  accounted i record v -> accounted i record (v.1 ++ E, v.2 ++ D).
Proof.
  intros [(e & r & ? & Hr & ?)|(d & Hd & Ho & Hrec & Hc)].
  - left. exists e, r. cbn. rewrite elem_of_app. naive_solver.
  - right. exists d. cbn. rewrite elem_of_app. split_and!; [by left|done|done|]. unfold dead_cause in *.
    destruct (Decode record); [|done]. destruct Hc as (Hk & r & fp & Hr & Hc). split; [done|]. exists r, fp. cbn. rewrite elem_of_app. naive_solver.
Qed.

(** How one record extends the prefix: nothing, a row or a dead letter. *)
Lemma consume1_cases n record v v' :
  prefix_inv n v -> consume1 name (Z.of_nat n) record v = Some v' ->
  (v' = v /\ accounted n record v) \/
  (exists e r, Decode record = Ok e /\ row_of e r /\ List.find (same_key (ev_TenantID e) (ev_IdempotencyKey e)) v.1 = None /\
     v' = (v.1 ++ [r], v.2)) \/
  (exists d, dl_log_offset d = Z.of_nat n /\ dl_record d = record /\ dead_cause record d v /\ v' = (v.1, v.2 ++ [d])).
Proof.
  intros I. assert (Hdead : forall reason detail e, spec_dead name (Z.of_nat n) reason detail e record v = Some v' ->
    exists d, dl_log_offset d = Z.of_nat n /\ dl_record d = record /\ dl_idempotency_key d = (ev_IdempotencyKey <$> e) /\ v' = (v.1, v.2 ++ [d])).
  { intros reason detail e. unfold spec_dead. destruct (negb _); [done|]. destruct (existsb _ v.2) eqn:Ex.
    - apply existsb_exists in Ex as (d & Hd%list_elem_of_In & Eo). pose proof (pi_dead _ _ I) as F.
      rewrite Forall_forall in F. specialize (F d Hd). lia.
    - intros [= <-]. by exists (mkDeadLetterRow 0 name (Z.of_nat n) reason detail (ev_TenantID <$> e) (ev_IdempotencyKey <$> e) record 0 None). }
  unfold consume1, dead_cause. destruct (Decode record) as [e|text] eqn:Ed.
  2: { intros (d & ? & ? & ? & ?)%Hdead. right. right. by exists d. }
  destruct (negb _); [done|]. destruct (numeric_of_text (ev_Quantity e)) as [q|] eqn:Eq; [|done]. cbn [mbind option_bind].
  destruct (List.find _ v.1) as [r|] eqn:Ef.
  - apply List.find_some in Ef as [Hr%list_elem_of_In Hk]. unfold same_key in Hk. apply andb_true_iff in Hk as [Hk1 Hk2].
    apply bool_decide_eq_true in Hk1, Hk2.
    assert (A : er_payload_fingerprint r = None \/ er_payload_fingerprint r = Some (default [] (ev_Fingerprint e)) -> accounted n record v)
      by (intros Hf; left; by exists e, r).
    destruct (er_payload_fingerprint r) as [fp|] eqn:Efp; [destruct (decide (fp = default [] (ev_Fingerprint e))) as [->|]|].
    + intros [= <-]. auto.
    + intros (d & ? & ? & ? & ?)%Hdead. right. right. exists d. split_and!; [done|done|done| |done]. by exists r, fp.
    + intros [= <-]. auto.
  - intros [= <-]. right. left. eexists e, _. split_and!; [done| |done|reflexivity]. done.
Qed.

Lemma consume_prefix n v : consume name n rs = Some v -> prefix_inv n v.
Proof.
  revert v. induction n as [|n IH]; intros v; cbn [consume].
  { intros [= <-]. split; [constructor|constructor|lia|]. intros r Hr. by apply elem_of_nil in Hr. }
  destruct (consume name n rs) as [w|]; [|done]. specialize (IH w eq_refl). cbn [mbind option_bind].
  destruct (rs !! n) as [record|] eqn:Er; [|done]. intros Hc.
  assert (Old : forall E D, v = (w.1 ++ E, w.2 ++ D) -> accounted n record v ->
    forall i rec, (i < S n)%nat -> rs !! i = Some rec -> accounted i rec v).
  { intros E D -> Hn i rec Hi Hr. destruct (decide (i = n)) as [->|]; [by assert (rec = record) as -> by congruence|].
    apply accounted_mono. apply (pi_accounted _ _ IH); [lia|done]. }
  assert (Rows : forall r, r ∈ w.1 -> exists i record e, (i < S n)%nat /\ rs !! i = Some record /\ Decode record = Ok e /\ row_of e r).
  { intros r (i & rec & e & Hi & H')%(pi_rows _ _ IH). exists i, rec, e. split; [lia|done]. }
  assert (Dead : Forall (fun d => 0 <= dl_log_offset d < Z.of_nat (S n)) w.2).
  { eapply Forall_impl; [apply (pi_dead _ _ IH)|]. cbn. intros d. lia. }
  destruct (consume1_cases _ _ _ _ IH Hc) as [[-> Ha]|[(e & r & Hd & Hrow & Hf & ->)|(d & Ho & Hrec & Hcause & ->)]].
  - split; [apply IH|done| |done]. apply (Old [] []); [by rewrite !app_nil_r; destruct w|done].
  - destruct Hrow as (R1 & R2 & R3 & R4 & R5). split.
    + cbn. rewrite map_app. cbn. apply NoDup_app. split_and!; [apply IH| |apply NoDup_singleton].
      intros x (r' & -> & Hr')%list_elem_of_fmap [= E1 E2]%list_elem_of_singleton.
      eapply List.find_none in Hf; [|by apply list_elem_of_In]. unfold same_key in Hf.
      by rewrite !bool_decide_true in Hf by congruence.
    + done.
    + apply (Old [r] []); [by rewrite app_nil_r|]. left. exists e, r. split_and!; [done|apply elem_of_app; right; left|done|done|].
      destruct R5 as (_ & _ & ->). destruct (ev_Fingerprint e); auto.
    + intros r' [Hr'| ->%list_elem_of_singleton]%elem_of_app; [auto|]. by exists n, record, e; split_and!; [lia|..].
  - split; [apply IH| | |done].
    + apply Forall_app. split; [done|]. constructor; [lia|constructor].
    + apply (Old [] [d]); [by rewrite app_nil_r|]. right. exists d. split_and!; [apply elem_of_app; right; left|done|done|done].
Qed.

(** An empty database has consumed nothing. *)
Lemma consumed_empty : consumed name rs 0 empty_db.
Proof.
  assert (P : position name empty_db = 0) by (unfold position; cbn [consumer_offsets empty_db]; by rewrite lookup_empty).
  unfold consumed. rewrite P. split_and!; [lia|lia|lia|done].
Qed.

End Meaning.

(** ** Theorems *)

Section Theorems.
Context {L : Type} `{LogStore L} `{EventCodec} `{Postgres}.
Variable c : Consumer.
Variable clock : Z -> Time.
Variable rs : list (list byte).

(** C3: [Drain] is exactly-once: whatever statements the server fails, wherever
    it stops, even when a commit's answer is lost, and even when the stored offset
    was moved back and records are read again, the tables keep holding exactly the
    effect of a prefix of the log: the one consumed before, or up to the offset
    where that is further. The offset never moves back; the loop ends within one
    turn per record; and when [Drain] reports no error it has caught up and
    accounted for every record it read. *)
Theorem Drain_exactly_once n fuel log srv r log' srv' :
  Z.of_nat (length rs) <= max_int64 -> 0 < c_BatchSize c <= max_int64 ->
  ls_holds log rs -> Forall (quiet (c_name c)) (srv_sched srv) -> consumed (c_name c) rs n (srv_db srv) ->
  Drain c clock fuel log srv = (r, (log', srv')) ->
  consumed (c_name c) rs (reached (c_name c) n (srv_db srv')) (srv_db srv') /\
  position (c_name c) (srv_db srv) <= position (c_name c) (srv_db srv') /\
  (Z.of_nat (length rs) - position (c_name c) (srv_db srv) < Z.of_nat fuel -> is_Some r) /\
  (forall stats, r = Some (stats, None) ->
     position (c_name c) (srv_db srv') = Z.of_nat (length rs) /\
     st_Read stats = Z.of_nat (length rs) - position (c_name c) (srv_db srv) /\ Stats_Accounted stats = true).
Proof.
  intros Hrs Hb Hh Hq Hc Hd.
  destruct (drain_loop_spec c clock rs Hrs Hb n fuel zero_stats log srv r log' srv' Hh Hq Hc Hd) as (_ & _ & C & P & F & R & _).
  split_and!; [done|done|done|]. intros stats ->. destruct R as (R1 & R2 & R3). unfold unaccounted, Stats_Accounted in *.
  cbn in R2, R3. split_and!; lia.
Qed.

(** [Drain] catches up: when the server works, the log can be read and its
    events can be stored, it returns without error with every record consumed. *)
Theorem Drain_completes n log db :
  Z.of_nat (length rs) <= max_int64 -> 0 < c_BatchSize c <= max_int64 ->
  ls_holds log rs -> readable rs -> text_ok (c_name c) = true ->
  is_Some (consume (c_name c) (length rs) rs) -> consumed (c_name c) rs n db ->
  exists stats log' srv', Drain c clock (S (length rs)) log (mkServer db []) = (Some (stats, None), (log', srv')) /\
    consumed (c_name c) rs (length rs) (srv_db srv') /\ position (c_name c) (srv_db srv') = Z.of_nat (length rs).
Proof.
  intros Hrs Hb Hh Hr Ht Hs Hc. destruct (Drain c clock (S (length rs)) log (mkServer db [])) as [r [log' srv']] eqn:Hd.
  destruct (drain_loop_spec c clock rs Hrs Hb n _ _ log (mkServer db []) r log' srv' Hh (Forall_nil_2 _) Hc Hd)
    as (_ & _ & C & P & F & R & N). specialize (N eq_refl Hr Ht Hs). pose proof Hc as (Hp & Hn & _).
  destruct F as [[stats err] ->]; [cbn [srv_db]; lia|]. destruct err; [done|]. exists stats, log', srv'. destruct R as [R _].
  unfold reached in C. rewrite R, Nat2Z.id, Nat.max_r in C by done. done.
Qed.

End Theorems.

Section Consequences.
Context `{EventCodec} `{Postgres}.
Variable rs : list (list byte).

(** Nothing accepted is lost or billed twice: in a state in which [n] records
    were consumed each of them is either stored under its tenant and key with the
    same fingerprint or dead-lettered with its bytes, each tenant and key has one
    row, and each row is the first such event of the log. *)
Theorem consumed_no_loss name n db :
  consumed name rs n db ->
  NoDup (map (fun r => (er_tenant_id r, er_idempotency_key r)) (rows (events db))) /\
  (forall i record, (i < n)%nat -> rs !! i = Some record -> accounted i record (view name db)) /\
  (forall r, r ∈ rows (events db) -> exists i record e, (i < n)%nat /\ rs !! i = Some record /\
     Decode record = Ok e /\ row_of e r).
Proof.
  intros (Hp & Hn & Hc). apply consume_prefix in Hc as [K _ A R]. split_and!.
  - unfold view in K. cbn in K. by rewrite map_map in K.
  - exact A.
  - intros r Hr. destruct (R (event_content r)) as (i & record & e & Hi & Hrec & Hd & Hrow); [by apply list_elem_of_fmap_2|].
    exists i, record, e. split_and!; [done|done|done|exact Hrow].
Qed.


End Consequences.

(** ** Witnesses, over the codec of [EventJson.v] and the instances of [Instances.v]
    and [DB.v] *)

Section Examples.
#[local] Existing Instance list_LogStore.
#[local] Instance codec_example : EventCodec := json_EventCodec no_text.
#[local] Existing Instance small_Postgres.

Definition stored_example (key quantity : string) (fp : byte) : list byte :=
  default [] (Encode (mkEvent "acme" "api_calls" quantity (UTC 63900000000000000000) (UTC 63900000001000000000) key (Some [fp]))).

(** An event, its retry, the key again with other content, and another event. *)
Definition log_example : list (list byte) :=
  [stored_example "k1" "1.5" Byte.x01; stored_example "k1" "1.50" Byte.x01;
   stored_example "k1" "7" Byte.x02; stored_example "k2" "2" Byte.x03].

Definition consumer_example : Consumer := Consumer_New "billing" 2.

Definition no_clock (_ : Z) : Time := 0.

(** The first commit's answer is lost. *)
Definition lossy_schedule : list tick :=
  map (mkTick (fun db => db)) [Run; Run; Run; Run; Run; Lost].

Lemma lossy_quiet name : Forall (quiet name) lossy_schedule.
Proof. unfold lossy_schedule. cbn. repeat constructor. Qed.

Lemma Drain_exactly_once_witness :
  consumed "billing" log_example 2
    (srv_db (Drain consumer_example no_clock 5 log_example (mkServer empty_db lossy_schedule)).2.2) /\
  position "billing" (srv_db (Drain consumer_example no_clock 5 log_example (mkServer empty_db lossy_schedule)).2.2) = 2.
Proof.
  split; [|vm_compute; reflexivity].
  destruct (Drain_exactly_once consumer_example no_clock log_example 0 5 log_example (mkServer empty_db lossy_schedule) _ _ _
    ltac:(vm_compute; discriminate) ltac:(vm_compute; split; [reflexivity|discriminate]) eq_refl (lossy_quiet _)
    (consumed_empty _ _) (eq_trans (surjective_pairing _) (f_equal _ (surjective_pairing _)))) as [C _]. exact C.
Defined.

Lemma Drain_completes_witness :
  exists stats log' srv', Drain consumer_example no_clock 5 log_example (mkServer empty_db []) = (Some (stats, None), (log', srv')) /\
    length (rows (events (srv_db srv'))) = 2%nat /\ length (rows (dead_letters (srv_db srv'))) = 1%nat.
Proof.
  destruct (Drain_completes consumer_example no_clock log_example 0 log_example empty_db) as (stats & log' & srv' & Hd & _).
  - vm_compute. discriminate.
  - vm_compute. split; [reflexivity|discriminate].
  - reflexivity.
  - intros log k -> Hk. do 4 (destruct k as [|k]; [vm_compute; reflexivity|]). cbn in Hk. lia.
  - vm_compute. reflexivity.
  - vm_compute. eexists. reflexivity.
  - apply consumed_empty.
  - exists stats, log', srv'. split; [exact Hd|].
    apply (f_equal (fun x => srv_db x.2.2)) in Hd. cbn [snd] in Hd. rewrite <- Hd. split; vm_compute; reflexivity.
Defined.

Lemma consumed_no_loss_witness :
  NoDup (map (fun r => (er_tenant_id r, er_idempotency_key r)) (rows (events (srv_db
    (Drain consumer_example no_clock 5 log_example (mkServer empty_db [])).2.2)))).
Proof.
  refine (proj1 (consumed_no_loss log_example "billing" 4 _ _)).
  split; [vm_compute; split; discriminate|]. split; [reflexivity|vm_compute; reflexivity].
Defined.

Definition nul_example : list byte :=
  default [] (Encode (mkEvent (String "a" (String "000" "b")) "m" "1" (UTC 1) (UTC 1) "k" None)).


(** A failed batch returns statistics that do not add up, although its records
    were rolled back and will be read again. *)
Example failed_batch_unaccounted :
  exists stats err st, Drain consumer_example no_clock 5 log_example
    (mkServer empty_db (map (mkTick (fun db => db)) [Run; Run; Fails])) = (Some (stats, Some err), st) /\
    Stats_Accounted stats = false /\ position "billing" (srv_db st.2) = 0.
Proof. do 3 eexists. split; [vm_compute; reflexivity|]. split; vm_compute; reflexivity. Qed.

End Examples.
