(* ===== verification/Store.v ===== *)
(** * The ledger store: [billing/ledger/store.go]

    Accounts, entries and postings in the tables of [DB.v], the statements that
    touch them and the operations of [Store]. *)

From S2P Require Import Prelude Decimal Amount Ledger Bytes GoTime Event DB.

(** ** Data *)

Inductive store_err : Type :=
| ErrNameRequired
| ErrNotAKind (kind : AccountKind)
| ErrKindMismatch (existing kind : AccountKind)
| ErrAccountNotFound
| ErrLedger (e : ledger_err)
| ErrStore (e : db_err).

(** ** Statements *)

Section Statements.
Context `{Postgres}.

Definition kind_check (kind : string) : bool :=
  bool_decide (kind ∈ ["asset"; "liability"; "revenue"; "expense"; "equity"]%string).

Definition account_named (name : string) (r : account_row) : bool := bool_decide (ar_name r = name).

Definition insertAccount (name kind : string) (created_at : Time) : stmt Z := fun db =>
  if negb (text_ok name && text_ok kind) then Err ErrInvalidText
  else if negb (kind_check kind) then Err ErrConstraint
  else if existsb (account_named name) (rows (ledger_accounts db)) then Err ErrConstraint
  else
    let '(id, t) := table_insert (fun id => mkAccountRow id name kind (timestamptz created_at)) (ledger_accounts db) in
    Ok (id, set_accounts t db).

Definition selectAccountByName (name : string) : stmt (option account_row) := fun db =>
  if negb (text_ok name) then Err ErrInvalidText
  else Ok (List.find (account_named name) (rows (ledger_accounts db)), db).

Definition ensureAccountSQL (name kind : string) (created_at : Time) : stmt (Z * string) := fun db =>
  if negb (text_ok name && text_ok kind) then Err ErrInvalidText
  else if negb (kind_check kind) then Err ErrConstraint
  else
    match List.find (account_named name) (rows (ledger_accounts db)) with
    | Some r => Ok ((ar_id r, ar_kind r), set_accounts (table_skip (ledger_accounts db)) db)
    | None =>
        let '(id, t) := table_insert (fun id => mkAccountRow id name kind (timestamptz created_at)) (ledger_accounts db) in
        Ok ((id, kind), set_accounts t db)
    end.

Definition entry_keyed (key : string) (r : transaction_row) : bool := bool_decide (tr_idempotency_key r = key).

(** No row comes back on a conflict. *)
Definition insertTransaction (key : string) (occurred_at : Time) (description : string) (created_at : Time)
  : stmt (option Z) := fun db =>
  if negb (text_ok key && text_ok description) then Err ErrInvalidText
  else if existsb (entry_keyed key) (rows (ledger_transactions db)) then
    Ok (None, set_transactions (table_skip (ledger_transactions db)) db)
  else
    let '(id, t) := table_insert (fun id => mkTransactionRow id key (timestamptz occurred_at) description
      (timestamptz created_at)) (ledger_transactions db) in
    Ok (Some id, set_transactions t db).

Definition selectTransactionByKey (key : string) : stmt (option Z) := fun db =>
  if negb (text_ok key) then Err ErrInvalidText
  else Ok (tr_id <$> List.find (entry_keyed key) (rows (ledger_transactions db)), db).

Definition insertPosting (transaction_id account_id amount : Z) : stmt unit := fun db =>
  if amount =? 0 then Err ErrConstraint
  else if negb (existsb (fun r => tr_id r =? transaction_id) (rows (ledger_transactions db))) then Err ErrConstraint
  else if negb (existsb (fun r => ar_id r =? account_id) (rows (ledger_accounts db))) then Err ErrConstraint
  else
    let '(_, t) := table_insert (fun id => mkPostingRow id transaction_id account_id amount) (ledger_postings db) in
    Ok (tt, set_postings t db).

(** A sum that no [int64] holds does not scan. *)
Definition scan_int64 (z : Z) : res db_err Z := if in_int64b z then Ok z else Err ErrScan.

Definition account_sum (account_id : Z) (db : DB) : Z :=
  sumZ (map pr_amount (List.filter (fun p => pr_account_id p =? account_id) (rows (ledger_postings db)))).

Definition trial_sum (db : DB) : Z := sumZ (map pr_amount (rows (ledger_postings db))).

Definition selectAccountBalance (account_id : Z) : stmt Z := fun db =>
  total ← scan_int64 (account_sum account_id db); Ok (total, db).

Definition selectTrialBalance : stmt Z := fun db =>
  total ← scan_int64 (trial_sum db); Ok (total, db).

End Statements.

(** ** Operations *)

Section Store.
Context `{Postgres}.

(** The clock's reading. *)
Variable now : Time.

(** An error of the database, wrapped. *)
Definition in_store {T A} (m : ST T db_err A) : ST T store_err A := fun s =>
  match m s with
  | (Ok a, s) => (Ok a, s)
  | (Err e, s) => (Err (ErrStore e), s)
  end.

Definition CreateAccount (name : string) (kind : AccountKind) : ST server store_err AccountID :=
  if decide (name = ""%string) then st_fail ErrNameRequired
  else if negb (AccountKind_Valid kind) then st_fail (ErrNotAKind kind)
  else in_store (db_exec (insertAccount name kind now)).

(** [querier]: the same code serves a transaction and the database. *)
Definition ensureAccount {T} (q : forall A, stmt A -> ST T db_err A) (name : string) (kind : AccountKind)
  : ST T store_err AccountID :=
  if decide (name = ""%string) then st_fail ErrNameRequired
  else if negb (AccountKind_Valid kind) then st_fail (ErrNotAKind kind)
  else
    '(id, existingKind) ← in_store (q _ (ensureAccountSQL name kind now));
    if decide (existingKind <> kind) then st_fail (ErrKindMismatch existingKind kind)
    else mret id.

Definition EnsureAccount (name : string) (kind : AccountKind) : ST server store_err AccountID :=
  ensureAccount (@db_exec) name kind.

Definition EnsureAccountTx (name : string) (kind : AccountKind) : ST txn store_err AccountID :=
  ensureAccount (@tx_exec) name kind.

Definition AccountByName (name : string) : ST server store_err Account :=
  row ← in_store (db_exec (selectAccountByName name));
  match row with
  | Some r => mret (mkAccount (ar_id r) (ar_name r) (ar_kind r))
  | None => st_fail ErrAccountNotFound
  end.

(** The postings, in order. *)
Fixpoint insert_postings (id : Z) (ps : list Posting) : ST txn store_err unit :=
  match ps with
  | [] => mret tt
  | p :: ps =>
      _ ← in_store (tx_exec (insertPosting id (po_Account p) (po_Amount p)));
      insert_postings id ps
  end.

(** The entry's id, and whether it was already posted. *)
Definition PostTx (t : Transaction) : ST txn store_err (Z * bool) :=
  total ← st_lift (match Transaction_Balance t with Ok total => Ok total | Err e => Err (ErrLedger e) end);
  if decide (total <> 0) then st_fail (ErrLedger ErrUnbalanced)
  else
    row ← in_store (tx_exec (insertTransaction (tx_IdempotencyKey t) (tx_OccurredAt t) (tx_Description t) now));
    match row with
    | None =>
        found ← in_store (tx_exec (selectTransactionByKey (tx_IdempotencyKey t)));
        match found with
        | Some id => mret (id, true)
        | None => st_fail (ErrStore ErrNoRows)
        end
    | Some id =>
        _ ← insert_postings id (tx_postings t);
        mret (id, false)
    end.

Definition Post (t : Transaction) (srv : server) : res store_err (Z * bool) * server :=
  match BeginTx srv with
  | (Err e, srv) => (Err (ErrStore e), srv)
  | (Ok tx, _) =>
      match PostTx t tx with
      | (Err e, tx) => (Err e, tx_Rollback tx)
      | (Ok r, tx) =>
          match tx_Commit tx with
          | (Err e, srv) => (Err (ErrStore e), srv)
          | (Ok _, srv) => (Ok r, srv)
          end
      end
  end.

Definition Store_Balance (account : AccountID) : ST server store_err Amount :=
  in_store (db_exec (selectAccountBalance account)).

Definition NormalBalance (account : Account) : ST server store_err Amount :=
  signed ← Store_Balance (acc_ID account);
  if AccountKind_IsDebitNormal (acc_Kind account) then mret signed
  else st_lift (match Amount_Neg signed with Ok a => Ok a | Err e => Err (ErrLedger (EAmount e)) end).

Definition TrialBalance : ST server store_err Amount := in_store (db_exec selectTrialBalance).

End Store.

(** ** The state of a ledger *)

(** Keys, names and identities are unique, identities are below the next one,
    those of accounts count from one, and postings refer to rows. *)
Record ledger_shape (db : DB) : Prop := {
  sh_keys : NoDup (map tr_idempotency_key (rows (ledger_transactions db)));
  sh_ids : NoDup (map tr_id (rows (ledger_transactions db)));
  sh_ids_seq : Forall (fun r => tr_id r < seq_next (ledger_transactions db)) (rows (ledger_transactions db));
  sh_names : NoDup (map ar_name (rows (ledger_accounts db)));
  sh_accounts : NoDup (map ar_id (rows (ledger_accounts db)));
  sh_accounts_seq : Forall (fun r => ar_id r < seq_next (ledger_accounts db)) (rows (ledger_accounts db));
  sh_numbered : 0 < seq_next (ledger_accounts db) /\ Forall (fun r => 0 < ar_id r) (rows (ledger_accounts db));
  sh_refs : Forall (fun p => pr_transaction_id p ∈ map tr_id (rows (ledger_transactions db)) /\
                             pr_account_id p ∈ map ar_id (rows (ledger_accounts db))) (rows (ledger_postings db))
}.

(** Every entry sums to zero. *)
Definition balanced (db : DB) : Prop := forall id, transaction_sum db id = 0.

Definition ledger_inv (db : DB) : Prop := ledger_shape db /\ balanced db.

(** A row that records a posting of entry [id]. *)
Definition posting_of (id : Z) (p : Posting) (r : posting_row) : Prop :=
  pr_transaction_id r = id /\ pr_account_id r = po_Account p /\ pr_amount r = po_Amount p.

(** The tables after entry [t] was posted as [id]: one entry and its postings
    more. *)
Definition posted (t : Transaction) (id : Z) (db db' : DB) : Prop :=
  same_billing db db' /\ same_table (ledger_accounts db) (ledger_accounts db') /\
  (exists row, rows (ledger_transactions db') = rows (ledger_transactions db) ++ [row] /\
     tr_id row = id /\ tr_idempotency_key row = tx_IdempotencyKey t /\ tr_description row = tx_Description t) /\
  (exists new, rows (ledger_postings db') = rows (ledger_postings db) ++ new /\ Forall2 (posting_of id) (tx_postings t) new) /\
  (tx_IdempotencyKey t ∉ map tr_idempotency_key (rows (ledger_transactions db))) /\
  (id ∉ map tr_id (rows (ledger_transactions db))).

(** The key was posted before, as [id]. *)
Definition already_posted (t : Transaction) (id : Z) (db : DB) : Prop :=
  exists row, row ∈ rows (ledger_transactions db) /\ tr_idempotency_key row = tx_IdempotencyKey t /\ tr_id row = id.

(** ** Lemmas on sums *)

Definition group_sum (id : Z) (l : list posting_row) : Z :=
  sumZ (map pr_amount (List.filter (fun p => pr_transaction_id p =? id) l)).

Lemma group_sum_app id l k : group_sum id (l ++ k) = group_sum id l + group_sum id k.
Proof. unfold group_sum. by rewrite List.filter_app, map_app, sumZ_app. Qed.

Lemma partition_sum (f : posting_row -> bool) l :
  sumZ (map pr_amount l) =
  sumZ (map pr_amount (List.filter f l)) + sumZ (map pr_amount (List.filter (fun p => negb (f p)) l)).
Proof. induction l as [|p l IH]; [done|]. cbn [map List.filter]. destruct (f p); cbn [negb map]; rewrite ?sumZ_cons; lia. Qed.

Lemma filter_filter (f g : posting_row -> bool) l :
  List.filter f (List.filter g l) = List.filter (fun p => g p && f p) l.
Proof. induction l as [|p l IH]; [done|]. cbn. destruct (g p); cbn; [destruct (f p)|]; by rewrite IH. Qed.

(** When every group sums to zero, so does the whole. *)
Lemma groups_zero l : (forall id, group_sum id l = 0) -> sumZ (map pr_amount l) = 0.
Proof.
  induction l as [l IH] using (induction_ltof1 _ (@length _)). unfold ltof in IH. intros Hz.
  destruct l as [|p l]; [done|]. rewrite (partition_sum (fun q => pr_transaction_id q =? pr_transaction_id p)).
  pose proof (Hz (pr_transaction_id p)) as Hp. unfold group_sum in Hp. rewrite Hp.
  rewrite IH; [lia| |].
  - cbn [List.filter]. rewrite Z.eqb_refl. cbn [negb length]. rewrite <- Nat.le_succ_l. apply le_n_S, List.filter_length_le.
  - intros id. unfold group_sum. rewrite filter_filter. destruct (Z.eqb_spec id (pr_transaction_id p)) as [->|Hne].
    + rewrite (List.filter_ext _ (fun _ => false)) by (intros q; destruct (pr_transaction_id q =? _); done).
      clear. induction (p :: l); [done|]. done.
    + rewrite (List.filter_ext _ (fun q => pr_transaction_id q =? id)); [apply Hz|]. intros q.
      destruct (Z.eqb_spec (pr_transaction_id q) id) as [->|]; [|by rewrite andb_false_r].
      by destruct (Z.eqb_spec id (pr_transaction_id p)).
Qed.

Lemma trial_zero db : balanced db -> trial_sum db = 0.
Proof. apply groups_zero. Qed.

(** The postings of an entry sum to what its [Balance] says. *)
Lemma posting_rows_sum id ps new : Forall2 (posting_of id) ps new -> sumZ (map pr_amount new) = posting_total ps.
Proof.
  unfold posting_total. induction 1 as [|p r ps new (_ & _ & Ha) _ IH]; [done|]. cbn [map fmap list_fmap].
  rewrite !sumZ_cons, IH, Ha. done.
Qed.

Lemma group_sum_other id id' ps new : Forall2 (posting_of id) ps new -> id' <> id -> group_sum id' new = 0.
Proof.
  intros F Hne. unfold group_sum. induction F as [|p r ps new (Ht & _) _ IH]; [done|]. cbn [List.filter].
  by rewrite (proj2 (Z.eqb_neq _ _)) by congruence.
Qed.

Lemma group_sum_own id ps new : Forall2 (posting_of id) ps new -> group_sum id new = sumZ (map pr_amount new).
Proof.
  unfold group_sum. induction 1 as [|p r ps new (Ht & _) _ IH]; [done|]. cbn [List.filter].
  rewrite (proj2 (Z.eqb_eq _ _)) by done. cbn [map]. by rewrite !sumZ_cons, IH.
Qed.

(** ** Lemmas on statements *)

Abbreviation kept := (tx_kept same_rows).

Abbreviation undisturbed tx := (Forall (quiet_for same_rows) (srv_sched (tx_server tx))).

Lemma kept_trans tx1 tx2 tx3 : kept tx1 tx2 -> kept tx2 tx3 -> kept tx1 tx3.
Proof. apply tx_kept_trans. intros a b c. apply transitivity. Qed.

(** One wrapped statement in a transaction. *)
Lemma store_exec {A} (q : stmt A) tx r tx' :
  undisturbed tx -> in_store (tx_exec q) tx = (r, tx') ->
  kept tx tx' /\
  (exists db1, same_rows (tx_db tx) db1 /\ match r with Ok a => q db1 = Ok (a, tx_db tx') | Err _ => True end) /\
  (srv_sched (tx_server tx) = [] -> match r with Ok _ => True | Err _ => exists e, q (tx_db tx) = Err e end).
Proof.
  intros Hq. unfold in_store. destruct (tx_exec q tx) as [r0 tx0] eqn:E.
  pose proof (tx_exec_kept same_rows ltac:(reflexivity) q tx r0 tx0 Hq E) as K.
  destruct (tx_exec_inv same_rows ltac:(reflexivity) q tx r0 tx0 Hq E) as (_ & _ & (db1 & V & D) & Calm).
  destruct r0 as [a|e]; intros [= <- <-]; (split_and!; [done|by exists db1|]); intros E1; [done|].
  destruct (Calm E1) as (_ & _ & ?). by exists e.
Qed.

Lemma find_In {A} (f : A -> bool) l x : List.find f l = Some x -> x ∈ l /\ f x = true.
Proof. intros [H1 H2]%List.find_some. split; [by apply list_elem_of_In|done]. Qed.

Lemma existsb_false {A} (f : A -> bool) l x : existsb f l = false -> x ∈ l -> f x = false.
Proof.
  intros H Hx. destruct (f x) eqn:E; [|done]. assert (existsb f l = true) by (apply existsb_exists; exists x; by split; [apply list_elem_of_In|]).
  congruence.
Qed.

(** [db'] is [db] with postings of [id] appended. *)
Definition appended (id : Z) (ps : list Posting) (db db' : DB) : Prop :=
  same_billing db db' /\ same_table (ledger_accounts db) (ledger_accounts db') /\
  same_table (ledger_transactions db) (ledger_transactions db') /\
  exists new, rows (ledger_postings db') = rows (ledger_postings db) ++ new /\ Forall2 (posting_of id) ps new /\
    Forall (fun p => pr_transaction_id p ∈ map tr_id (rows (ledger_transactions db)) /\
                     pr_account_id p ∈ map ar_id (rows (ledger_accounts db))) new.

Lemma insertPosting_spec id account amount db db' :
  insertPosting id account amount db = Ok (tt, db') -> appended id [mkPosting account amount] db db'.
Proof.
  unfold insertPosting. destruct (amount =? 0); [done|].
  destruct (existsb (fun r => tr_id r =? id) _) eqn:Et; [|done]. destruct (existsb (fun r => ar_id r =? account) _) eqn:Ea; [|done].
  cbn [negb]. intros [= <-]. split_and!; cbn; try reflexivity; [split_and!; reflexivity|].
  eexists. split_and!; [reflexivity|by repeat constructor|]. constructor; [|constructor]. cbn.
  apply existsb_exists in Et as (r & Hr%list_elem_of_In & <-%Z.eqb_eq).
  apply existsb_exists in Ea as (a & Ha%list_elem_of_In & <-%Z.eqb_eq). split; by apply list_elem_of_fmap_2.
Qed.

Lemma appended_same id ps db0 db db' : same_rows db0 db -> appended id ps db db' -> appended id ps db0 db'.
Proof.
  intros [(A1 & A2 & A3) B] (C1 & C2 & C3 & new & N1 & N2 & N3). split_and!; [by etrans|by etrans|by etrans|].
  exists new. destruct A1 as [R1 _], A2 as [R2 _], A3 as [R3 _]. rewrite R1, R2 in N3. rewrite R3 in N1. done.
Qed.

Lemma appended_app id ps qs db0 db db' : appended id ps db0 db -> appended id qs db db' -> appended id (ps ++ qs) db0 db'.
Proof.
  intros (B1 & A1 & A2 & n1 & N1 & F1 & R1) (C1 & C2 & C3 & n2 & N2 & F2 & R2). split_and!; [by etrans|by etrans|by etrans|].
  exists (n1 ++ n2). rewrite N2, N1, app_assoc. destruct A1 as [E1 _], A2 as [E2 _]. rewrite E1, E2 in R2.
  split_and!; [done|by apply Forall2_app|by apply Forall_app].
Qed.

Lemma insert_postings_spec id ps tx r tx' :
  undisturbed tx -> insert_postings id ps tx = (r, tx') ->
  kept tx tx' /\ (is_ok r = true -> appended id ps (tx_db tx) (tx_db tx')) /\
  (srv_sched (tx_server tx) = [] -> id ∈ map tr_id (rows (ledger_transactions (tx_db tx))) ->
   Forall (fun p => po_Amount p <> 0 /\ po_Account p ∈ map ar_id (rows (ledger_accounts (tx_db tx)))) ps -> is_ok r = true).
Proof.
  revert tx. induction ps as [|p ps IH]; intros tx Hq; cbn [insert_postings].
  - intros [= <- <-]. split_and!; [by apply tx_kept_refl| |done]. intros _.
    split_and!; try reflexivity. exists []. by rewrite app_nil_r.
  - unfold mbind, ST_bind. destruct (in_store _ tx) as [r1 tx1] eqn:E1.
    destruct (store_exec _ _ _ _ Hq E1) as (K1 & (db1 & V1 & D1) & Calm1). destruct r1 as [[]|e].
    + intros E2. apply insertPosting_spec, (appended_same _ _ _ _ _ V1) in D1.
      destruct (IH tx1 (proj1 K1) E2) as (K2 & A2 & Calm2). split_and!; [by eapply kept_trans| |].
      * intros Hr. specialize (A2 Hr). destruct p as [acc amt]. exact (appended_app id [_] ps _ _ _ D1 A2).
      * destruct D1 as (_ & [Ea _] & [Et _] & _). rewrite <- Ea, <- Et. intros E Hid [_ F]%Forall_cons. apply Calm2; [by apply K1|done|done].
    + intros [= <- <-]. split_and!; [done|done|]. intros E Hid [[Hz Ha] _]%Forall_cons. destruct (Calm1 E) as [e' Hc].
      unfold insertPosting in Hc. rewrite (proj2 (Z.eqb_neq _ _)) in Hc by done.
      apply list_elem_of_fmap in Hid as (tr & -> & Hid), Ha as (ar & Ha' & Ha).
      rewrite (proj2 (existsb_exists _ _)) in Hc by (exists tr; split; [by apply list_elem_of_In|apply Z.eqb_refl]).
      rewrite (proj2 (existsb_exists _ _)) in Hc by (exists ar; split; [by apply list_elem_of_In|by apply Z.eqb_eq]). done.
Qed.

(** ** Lemmas on entries *)

Lemma existsb_keyed key l : existsb (entry_keyed key) l = bool_decide (key ∈ map tr_idempotency_key l).
Proof.
  apply Bool.eq_iff_eq_true. rewrite existsb_exists, bool_decide_eq_true, list_elem_of_fmap. unfold entry_keyed. split.
  - intros (r & Hr%list_elem_of_In & <-%bool_decide_eq_true). by exists r.
  - intros (r & -> & Hr). exists r. split; [by apply list_elem_of_In|by apply bool_decide_eq_true].
Qed.

(** The new row of an entry, and what it leaves. *)
Definition entered (t : Transaction) (id : Z) (db db' : DB) : Prop :=
  same_billing db db' /\ same_table (ledger_accounts db) (ledger_accounts db') /\ same_table (ledger_postings db) (ledger_postings db') /\
  (exists row, rows (ledger_transactions db') = rows (ledger_transactions db) ++ [row] /\
     tr_id row = id /\ tr_idempotency_key row = tx_IdempotencyKey t /\ tr_description row = tx_Description t) /\
  (tx_IdempotencyKey t ∉ map tr_idempotency_key (rows (ledger_transactions db))) /\
  seq_next (ledger_transactions db) <= id < seq_next (ledger_transactions db').

Section Posting.
Context `{Postgres}.
Variable now : Time.
Variable t : Transaction.

Lemma insertTransaction_spec db :
  match insertTransaction (tx_IdempotencyKey t) (tx_OccurredAt t) (tx_Description t) now db with
  | Ok (Some id, db') => entered t id db db'
  | Ok (None, db') => same_rows db db' /\ tx_IdempotencyKey t ∈ map tr_idempotency_key (rows (ledger_transactions db))
  | Err _ => text_ok (tx_IdempotencyKey t) && text_ok (tx_Description t) = false
  end.
Proof.
  unfold insertTransaction. destruct (text_ok _ && text_ok _); [|done]. cbn [negb]. rewrite existsb_keyed.
  case_bool_decide as Hk.
  - split; [|done]. split; split_and!; cbn; try reflexivity. split; cbn; [done|lia].
  - cbn [table_insert]. split_and!; try reflexivity; [split_and!; reflexivity| |done|cbn; lia].
    eexists. by split_and!.
Qed.

Lemma entered_same id db0 db db' : same_rows db0 db -> entered t id db db' -> entered t id db0 db'.
Proof.
  intros [(A1 & [R S] & A3) B] (C1 & C2 & C3 & C4 & C5 & C6). rewrite R in C4, C5.
  split_and!; [by etrans|by etrans|by etrans|done|done|lia|lia].
Qed.

(** The entry and its postings together. *)
Lemma entered_posted id db db1 db' : ledger_shape db ->
  entered t id db db1 -> appended id (tx_postings t) db1 db' -> posted t id db db'.
Proof.
  intros Hs (B1 & A1 & [P1 _] & T1 & K & Hid) (B2 & A2 & [T2 _] & new & N & F & _).
  split_and!; [by etrans|by etrans|by rewrite T2| |done|].
  - exists new. by rewrite <- P1.
  - intros (row & -> & Hr)%list_elem_of_fmap. pose proof (sh_ids_seq _ Hs) as Hlt. rewrite Forall_forall in Hlt. specialize (Hlt _ Hr). lia.
Qed.

Lemma entered_shape id db db1 db' : ledger_shape db ->
  entered t id db db1 -> appended id (tx_postings t) db1 db' -> ledger_shape db'.
Proof.
  intros [S1 S2 S3 S4 S5 S6 [S8 S9] S7] (_ & [A1 Q1] & [P1 _] & (row & T1 & Hid & Hkey & _) & K & Hseq) (_ & [A2 Q2] & [T2 Q3] & new & N & _ & R).
  assert (T : rows (ledger_transactions db') = rows (ledger_transactions db) ++ [row]) by congruence.
  assert (A : rows (ledger_accounts db') = rows (ledger_accounts db)) by congruence. split.
  - rewrite T, map_app. apply NoDup_app. split_and!; [done| |apply NoDup_singleton].
    intros k Hk ->%list_elem_of_singleton. by rewrite Hkey in Hk.
  - rewrite T, map_app. apply NoDup_app. split_and!; [done| |apply NoDup_singleton].
    intros k (r & -> & Hr)%list_elem_of_fmap E%list_elem_of_singleton. rewrite Forall_forall in S3. specialize (S3 r Hr). lia.
  - rewrite T. apply Forall_app. split; [|constructor; [lia|constructor]]. eapply Forall_impl; [exact S3|]. cbn. intros r. lia.
  - by rewrite A.
  - by rewrite A.
  - rewrite A. eapply Forall_impl; [exact S6|]. cbn. intros r. lia.
  - rewrite A. split; [lia|done].
  - rewrite N, P1, T, A. apply Forall_app. rewrite T1, A1 in R. split; [|done]. eapply Forall_impl; [exact S7|]. cbn.
    intros p [? ?]. split; [|done]. rewrite map_app, elem_of_app. by left.
Qed.

Lemma posted_balanced id db db' : ledger_inv db -> posted t id db db' -> posting_total (tx_postings t) = 0 -> balanced db'.
Proof.
  intros [Hs Hb] (_ & _ & _ & (new & N & F) & _ & Hid) Hz i. unfold transaction_sum. rewrite N.
  change (group_sum i (rows (ledger_postings db) ++ new) = 0). rewrite group_sum_app.
  pose proof (Hb i) as Hi. change (group_sum i (rows (ledger_postings db)) = 0) in Hi. rewrite Hi.
  destruct (decide (i = id)) as [->|]; [|by rewrite (group_sum_other id i _ _ F)].
  by rewrite (group_sum_own _ _ _ F), (posting_rows_sum _ _ _ F), Hz.
Qed.

(** An entry the store will take: it balances, its texts can be stored and its
    postings are non-zero and name accounts. *)
Definition postable (db : DB) : Prop :=
  Transaction_Balance t = Ok 0 /\ text_ok (tx_IdempotencyKey t) && text_ok (tx_Description t) = true /\
  Forall (fun p => po_Amount p <> 0 /\ po_Account p ∈ map ar_id (rows (ledger_accounts db))) (tx_postings t).

Lemma PostTx_spec tx r tx' :
  undisturbed tx -> ledger_inv (tx_db tx) -> Forall (fun p => in_int64 (po_Amount p)) (tx_postings t) ->
  PostTx now t tx = (r, tx') ->
  kept tx tx' /\
  match r with
  | Ok (id, false) => posted t id (tx_db tx) (tx_db tx') /\ ledger_inv (tx_db tx')
  | Ok (id, true) => same_rows (tx_db tx) (tx_db tx') /\ already_posted t id (tx_db tx)
  | Err _ => True
  end /\
  (srv_sched (tx_server tx) = [] -> postable (tx_db tx) -> is_ok r = true).
Proof.
  intros Hq [Hs Hb] Hr. unfold PostTx, mbind at 1, ST_bind at 1, st_lift. destruct (Transaction_Balance t) as [total|e] eqn:Eb; cycle 1.
  { intros [= <- <-]. split_and!; [by apply tx_kept_refl|done|]. intros _ (? & _). congruence. }
  apply sum_postings_ok in Eb as Etot; [|int_lia|done]. destruct (decide (total <> 0)) as [Hne|Hz%dec_stable].
  { intros [= <- <-]. split_and!; [by apply tx_kept_refl|done|]. intros _ (? & _). congruence. }
  unfold mbind at 1, ST_bind at 1. destruct (in_store _ tx) as [r1 tx1] eqn:E1.
  destruct (store_exec _ _ _ _ Hq E1) as (K1 & (db1 & V1 & D1) & Calm1).
  pose proof (insertTransaction_spec db1) as I1. pose proof (insertTransaction_spec (tx_db tx)) as I0.
  destruct r1 as [[id|]|e].
  - rewrite D1 in I1. apply (entered_same _ _ _ _ V1) in I1. unfold mbind, ST_bind.
    destruct (insert_postings id (tx_postings t) tx1) as [r2 tx2] eqn:E2.
    destruct (insert_postings_spec _ _ _ _ _ (proj1 K1) E2) as (K2 & A2 & Calm2).
    assert (Live : srv_sched (tx_server tx) = [] -> postable (tx_db tx) -> is_ok r2 = true).
    { intros E (_ & _ & F). destruct I1 as (_ & [A _] & _ & (row & T & Hid & _) & _). apply Calm2; [by apply K1| |by rewrite A].
      rewrite T, map_app, elem_of_app. right. cbn. rewrite Hid. left. }
    destruct r2 as [[]|e]; intros [= <- <-]; (split; [by eapply kept_trans|split; [|done]]); [|done].
    specialize (A2 eq_refl). pose proof (entered_posted _ _ _ _ Hs I1 A2) as P.
    split; [done|]. split; [by eapply entered_shape|]. eapply posted_balanced; [by split|exact P|lia].
  - rewrite D1 in I1. destruct I1 as [V2 Hk]. unfold mbind, ST_bind.
    destruct (in_store (tx_exec (selectTransactionByKey _)) tx1) as [r2 tx2] eqn:E2.
    destruct (store_exec _ _ _ _ (proj1 K1) E2) as (K2 & (db2 & V3 & D2) & Calm2).
    assert (V : same_rows (tx_db tx) db2) by (etrans; [exact V1|etrans; [exact V2|exact V3]]).
    destruct V as [(A & [T S] & P) B].
    assert (Hk2 : tx_IdempotencyKey t ∈ map tr_idempotency_key (rows (ledger_transactions db2))).
    { rewrite T. destruct V1 as [(_ & [<- _] & _) _]. done. }
    destruct r2 as [found|e].
    + unfold selectTransactionByKey in D2. destruct (text_ok _); [|done]. cbn [negb] in D2. injection D2 as <- Hdb2.
      destruct (List.find _ _) as [row|] eqn:Ef.
      * apply find_In in Ef as [Hin Hkey%bool_decide_eq_true]. intros [= <- <-]. split; [by eapply kept_trans|split; [|done]].
        split; [rewrite <- Hdb2; split; [by split_and!|done]|]. exists row. by rewrite <- T.
      * exfalso. rewrite <- bool_decide_eq_true, <- existsb_keyed in Hk2. apply existsb_exists in Hk2 as (row & Hin & Hf).
        eapply List.find_none in Ef; [|exact Hin]. congruence.
    + intros [= <- <-]. split_and!; [by eapply kept_trans|done|]. intros E (_ & Ht & _). destruct (Calm2 ltac:(by apply K1)) as [e' Hc].
      unfold selectTransactionByKey in Hc. apply andb_true_iff in Ht as [Ht _]. by rewrite Ht in Hc.
  - intros [= <- <-]. split_and!; [done|done|]. intros E (_ & Ht & _). destruct (Calm1 E) as [e' Hc]. rewrite Hc in I0. congruence.
Qed.

End Posting.

(** ** Lemmas on accounts *)

(** The tables after accounts were added. *)
Definition more_accounts (db db' : DB) : Prop :=
  same_billing db db' /\ same_table (ledger_transactions db) (ledger_transactions db') /\
  same_table (ledger_postings db) (ledger_postings db') /\
  (exists new, rows (ledger_accounts db') = rows (ledger_accounts db) ++ new) /\
  seq_next (ledger_accounts db) <= seq_next (ledger_accounts db').

#[global] Instance more_accounts_preorder : PreOrder more_accounts.
Proof.
  split.
  - intros db. split_and!; try reflexivity. exists []. by rewrite app_nil_r.
  - intros a b c (B1 & T1 & P1 & (n1 & N1) & Q1) (B2 & T2 & P2 & (n2 & N2) & Q2). split_and!; [by etrans|by etrans|by etrans| |lia].
    exists (n1 ++ n2). by rewrite N2, N1, app_assoc.
Qed.

Lemma same_more db db' : same_rows db db' -> more_accounts db db'.
Proof. intros [([A Q] & T & P) B]. split_and!; try done. exists []. by rewrite app_nil_r. Qed.

(** The account [name] has kind [kind] and identity [id]. *)
Definition has_account (name : string) (kind : AccountKind) (id : Z) (db : DB) : Prop :=
  exists row, row ∈ rows (ledger_accounts db) /\ ar_name row = name /\ ar_kind row = kind /\ ar_id row = id.

Lemma has_account_more name kind id db db' : more_accounts db db' -> has_account name kind id db -> has_account name kind id db'.
Proof. intros (_ & _ & _ & (new & N) & _) (row & Hin & Hrow). exists row. rewrite N, elem_of_app. auto. Qed.

Lemma has_account_inj n k n' k' id db : ledger_inv db -> has_account n k id db -> has_account n' k' id db -> n = n'.
Proof.
  intros [S _] (r & Hr & <- & _ & E) (r' & Hr' & <- & _ & E'). f_equal. apply (NoDup_map_inj ar_id _ (sh_accounts _ S)); congruence.
Qed.

Lemma account_id_inj name k k' id id' db : ledger_inv db -> has_account name k id db -> has_account name k' id' db -> id = id'.
Proof.
  intros [S _] (r & Hr & E & _ & <-) (r' & Hr' & E' & _ & <-). f_equal. apply (NoDup_map_inj ar_name _ (sh_names _ S)); congruence.
Qed.

Lemma ledger_inv_ledger db db' : same_ledger db db' -> ledger_inv db -> ledger_inv db'.
Proof.
  intros ([A Qa] & [T Qt] & [P _]) [[S1 S2 S3 S4 S5 S6 [S8 S9] S7] Hb]. split.
  - split; rewrite ?A, ?T, ?P; try done; [eapply Forall_impl; [exact S3|]; cbn; lia|eapply Forall_impl; [exact S6|]; cbn; lia|split; [lia|done]].
  - intros id. unfold transaction_sum. rewrite P. apply Hb.
Qed.

(** A ledger nothing was written to. *)
Lemma ledger_inv_fresh db : ledger_accounts db = empty_table -> ledger_transactions db = empty_table -> ledger_postings db = empty_table -> ledger_inv db.
Proof.
  intros A T P. split; [split; rewrite ?A, ?T, ?P; try constructor; [reflexivity|constructor]|]. intros id. unfold transaction_sum. by rewrite P.
Qed.

Lemma ledger_inv_same db db' : same_rows db db' -> ledger_inv db -> ledger_inv db'.
Proof. intros [L _]. by apply ledger_inv_ledger. Qed.

Section Accounts.
Context `{Postgres}.
Variable now : Time.

Lemma ensureAccountSQL_spec name kind db :
  ledger_inv db ->
  match ensureAccountSQL name kind now db with
  | Ok ((id, k), db') => more_accounts db db' /\ ledger_inv db' /\ has_account name k id db' /\
      (k <> kind -> has_account name k id db)
  | Err _ => text_ok name && text_ok kind = false \/ kind_check kind = false
  end.
Proof.
  intros [[S1 S2 S3 S4 S5 S6 [S8 S9] S7] Hb]. unfold ensureAccountSQL. destruct (text_ok name && text_ok kind); [|by left].
  destruct (kind_check kind); [|by right]. cbn [negb]. destruct (List.find _ _) as [row|] eqn:Ef.
  - apply find_In in Ef as [Hin Hn%bool_decide_eq_true].
    assert (Hs : same_rows db (set_accounts (table_skip (ledger_accounts db)) db)).
    { split; split_and!; try reflexivity. split; cbn; [done|lia]. }
    split_and!; [by apply same_more|eapply ledger_inv_same; [exact Hs|by split]|by exists row|by exists row].
  - cbn [table_insert]. assert (Hnew : name ∉ map ar_name (rows (ledger_accounts db))).
    { intros (row & -> & Hin)%list_elem_of_fmap. eapply List.find_none in Ef; [|by apply list_elem_of_In].
      unfold account_named in Ef. by rewrite bool_decide_true in Ef. }
    split_and!; [split_and!; try reflexivity; [split_and!; reflexivity|by eexists|cbn; lia]| | |done].
    + split; [|exact Hb]. split; cbn; try done.
      * rewrite map_app. apply NoDup_app. split_and!; [done| |apply NoDup_singleton]. intros n Hn ->%list_elem_of_singleton. done.
      * rewrite map_app. apply NoDup_app. split_and!; [done| |apply NoDup_singleton].
        intros n (r & -> & Hr)%list_elem_of_fmap E%list_elem_of_singleton. rewrite Forall_forall in S6. specialize (S6 r Hr). cbn in E. lia.
      * apply Forall_app. split; [|constructor; [cbn; lia|constructor]]. eapply Forall_impl; [exact S6|]. cbn. intros. lia.
      * split; [lia|]. apply Forall_app. split; [done|]. by apply Forall_singleton.
      * eapply Forall_impl; [exact S7|]. cbn. intros p [? ?]. split; [done|]. rewrite map_app, elem_of_app. by left.
    + eexists. cbn. split_and!; [apply elem_of_app; right; left|done|done|done].
Qed.

Lemma EnsureAccountTx_spec name kind tx r tx' :
  undisturbed tx -> ledger_inv (tx_db tx) -> EnsureAccountTx now name kind tx = (r, tx') ->
  kept tx tx' /\
  match r with
  | Ok id => more_accounts (tx_db tx) (tx_db tx') /\ ledger_inv (tx_db tx') /\ has_account name kind id (tx_db tx')
  | Err _ => True
  end /\
  (srv_sched (tx_server tx) = [] -> name <> ""%string -> AccountKind_Valid kind = true -> text_ok name && text_ok kind = true ->
   (forall k id, has_account name k id (tx_db tx) -> k = kind) -> is_ok r = true).
Proof.
  intros Hq Hi. unfold EnsureAccountTx, ensureAccount. destruct (decide (name = ""%string)).
  { intros [= <- <-]. split_and!; [by apply tx_kept_refl|done|done]. }
  destruct (AccountKind_Valid kind) eqn:Ek; cycle 1.
  { intros [= <- <-]. split_and!; [by apply tx_kept_refl|done|done]. }
  cbn [negb]. unfold mbind, ST_bind. destruct (in_store _ tx) as [r1 tx1] eqn:E1.
  destruct (store_exec _ _ _ _ Hq E1) as (K1 & (db1 & V1 & D1) & Calm1).
  pose proof (ensureAccountSQL_spec name kind db1 (ledger_inv_same _ _ V1 Hi)) as I1.
  pose proof (ensureAccountSQL_spec name kind (tx_db tx) Hi) as I0.
  destruct r1 as [[id k]|e]; cycle 1.
  { intros [= <- <-]. split_and!; [done|done|]. intros E _ _ Ht _. destruct (Calm1 E) as [e' Hc]. rewrite Hc in I0.
    destruct I0 as [I0|I0]; [congruence|]. unfold AccountKind_Valid in Ek. change (kind_check kind = true) in Ek. congruence. }
  rewrite D1 in I1. destruct I1 as (M & Hi1 & Ha & Hold). destruct (decide (k <> kind)) as [Hne|Hk%dec_stable]; intros [= <- <-].
  - split_and!; [done|done|]. intros _ _ _ _ Hu. exfalso. apply Hne. eapply Hu. destruct (Hold Hne) as (row & Hin & Hrow).
    exists row. split; [|done]. destruct V1 as [([<- _] & _) _]. done.
  - subst k. split; [done|]. split; [|done]. split_and!; [|done|done]. etrans; [by apply same_more|done].
Qed.

End Accounts.

(** ** Theorems *)

Lemma posted_same t id db0 db db' db1 : same_rows db0 db -> posted t id db db' -> same_rows db' db1 -> posted t id db0 db1.
Proof.
  intros [(A1 & [T1 _] & [P1 _]) B1] (B & A & T & P & K & I) [(A2 & [T2 _] & [P2 _]) B2].
  split_and!; [by etrans; [|etrans]|by etrans; [|etrans]|by rewrite T2, <- T1|by rewrite P2, <- P1|by rewrite <- T1|by rewrite <- T1].
Qed.

Lemma balanced_asserted db db' : balanced db' -> ledger_assert_balanced db db' = true.
Proof. intros Hb. apply forallb_forall. intros p _. rewrite (Hb (pr_transaction_id p)). by rewrite orb_true_r. Qed.

Section Theorems.
Context `{Postgres}.
Variable now : Time.

Lemma Post_spec t srv r srv' :
  Forall (quiet_for same_rows) (srv_sched srv) -> ledger_inv (srv_db srv) ->
  Forall (fun p => in_int64 (po_Amount p)) (tx_postings t) ->
  Post now t srv = (r, srv') ->
  ledger_inv (srv_db srv') /\
  match r with
  | Ok (id, false) => posted t id (srv_db srv) (srv_db srv')
  | Ok (id, true) => same_rows (srv_db srv) (srv_db srv') /\ already_posted t id (srv_db srv)
  | Err _ => same_rows (srv_db srv) (srv_db srv') \/ exists id, posted t id (srv_db srv) (srv_db srv')
  end /\
  (srv_sched srv = [] -> postable t (srv_db srv) -> is_ok r = true).
Proof.
  intros Hq Hi Hr. unfold Post. destruct (BeginTx srv) as [rb srv1] eqn:Eb.
  destruct (BeginTx_spec same_rows ltac:(reflexivity) _ _ _ Hq Eb) as (Q1 & V1 & Hb & Calm1).
  pose proof (ledger_inv_same _ _ V1 Hi) as Hi1.
  destruct rb as [tx|e]; [|intros [= <- <-]; split_and!; [done|by left|done]]. subst tx.
  destruct (PostTx now t _) as [r2 tx2] eqn:Ep.
  destruct (PostTx_spec now t (mkTxn srv1 (srv_db srv1)) r2 tx2 Q1 Hi1 Hr Ep) as ((Q2 & V2 & Calm2) & P & Live). cbn [tx_server tx_db] in *.
  assert (V12 : same_rows (srv_db srv) (srv_db (tx_server tx2))) by (by etrans).
  destruct r2 as [[id dup]|e]; cycle 1.
  { pose proof (same_rows_rollback _ _ (tx_db tx2) V12) as V. intros [= <- <-].
    split_and!; [by eapply ledger_inv_same|by left|]. intros E Hp. rewrite (Calm1 E) in *. by specialize (Live E Hp). }
  assert (Hi2 : ledger_inv (tx_db tx2)) by (destruct dup; [destruct P; by eapply ledger_inv_same|by destruct P]).
  destruct (tx_Commit tx2) as [r3 srv3] eqn:Ec.
  destruct (tx_Commit_spec same_rows ltac:(reflexivity) same_rows_rollback _ _ _ Q2 Ec) as (Q3 & V3 & Calm3).
  assert (Done : same_rows (tx_db tx2) (srv_db srv3) ->
    if dup then same_rows (srv_db srv) (srv_db srv3) /\ already_posted t id (srv_db srv) else posted t id (srv_db srv) (srv_db srv3)).
  { intros V. destruct dup; [|by eapply posted_same; [| apply P|]]. destruct P as [P (row & Hin & Hrow)].
    split; [etrans; [exact V1|by etrans]|]. exists row. destruct V1 as [(_ & [<- _] & _) _]. done. }
  destruct r3 as [[]|e]; intros [= <- <-].
  - split_and!; [by eapply ledger_inv_same|by destruct dup; apply Done|done].
  - split_and!.
    + destruct V3 as [V3|V3]; [by eapply ledger_inv_same|]. eapply ledger_inv_same; [|exact Hi]. by etrans.
    + destruct V3 as [V3|V3]; [|left; by etrans]. specialize (Done V3). destruct dup; [by left; destruct Done|right; eauto].
    + intros E _. rewrite (Calm1 E) in *. destruct (Calm2 E) as [E2 _]. destruct (Calm3 E2) as [_ N].
      destruct N as [N _]; [apply balanced_asserted, Hi2|done].
Qed.

(** C22: [Post] is all or nothing and posts once per key, whatever statements
    fail and even when a commit's answer is lost: the ledger stays well formed
    and every entry in it sums to zero; a new entry adds exactly its postings
    under an identity of its own; a key posted before changes no row and reports
    the first entry; an error leaves the rows as they were or the whole entry
    posted; and an entry that balances is posted when nothing fails. *)
Theorem Post_correct t srv r srv' :
  Forall (quiet_for same_rows) (srv_sched srv) -> ledger_inv (srv_db srv) ->
  Forall (fun p => in_int64 (po_Amount p)) (tx_postings t) ->
  Post now t srv = (r, srv') ->
  ledger_inv (srv_db srv') /\
  match r with
  | Ok (id, false) => posted t id (srv_db srv) (srv_db srv')
  | Ok (id, true) => same_rows (srv_db srv) (srv_db srv') /\ already_posted t id (srv_db srv)
  | Err _ => same_rows (srv_db srv) (srv_db srv') \/ exists id, posted t id (srv_db srv) (srv_db srv')
  end /\
  (srv_sched srv = [] -> postable t (srv_db srv) -> is_ok r = true).
Proof. by apply Post_spec. Qed.

(** The books always balance: on a well-formed ledger [TrialBalance] can
    only answer zero, and answers it when the server does. *)
Theorem TrialBalance_zero srv r srv' :
  Forall (quiet_for same_rows) (srv_sched srv) -> ledger_inv (srv_db srv) ->
  TrialBalance srv = (r, srv') ->
  (forall total, r = Ok total -> total = 0) /\ (srv_sched srv = [] -> r = Ok 0).
Proof.
  intros Hq Hi. unfold TrialBalance, in_store. destruct (db_exec selectTrialBalance srv) as [r1 srv1] eqn:E.
  destruct (db_exec_inv same_rows ltac:(reflexivity) _ _ _ _ Hq E) as (_ & (db1 & V & D) & Calm).
  assert (Hz : forall db, ledger_inv db -> selectTrialBalance db = Ok (0, db)).
  { intros db [_ Hb]. unfold selectTrialBalance. by rewrite (trial_zero db Hb). }
  rewrite (Hz (srv_db srv) Hi) in Calm. destruct r1 as [total|e]; intros [= <- <-].
  - rewrite Hz in D by (by eapply ledger_inv_same). injection D as <- _. split; [by intros ? [= <-]|done].
  - split; [done|]. intros E1. by destruct (Calm E1).
Qed.

End Theorems.

(** An account keeps its kind: [EnsureAccountTx] finds or adds the account
    of that name with that kind and touches nothing else; it never adopts an
    account of another kind, and succeeds whenever the name can be stored and no
    account of another kind has it. *)
Theorem EnsureAccountTx_correct `{Postgres} now name kind tx r tx' :
  undisturbed tx -> ledger_inv (tx_db tx) -> EnsureAccountTx now name kind tx = (r, tx') ->
  match r with
  | Ok id => more_accounts (tx_db tx) (tx_db tx') /\ ledger_inv (tx_db tx') /\ has_account name kind id (tx_db tx')
  | Err _ => True
  end /\
  (srv_sched (tx_server tx) = [] -> name <> ""%string -> AccountKind_Valid kind = true -> text_ok name && text_ok kind = true ->
   (forall k id, has_account name k id (tx_db tx) -> k = kind) -> is_ok r = true).
Proof. intros Hq Hi E. by destruct (EnsureAccountTx_spec now name kind tx r tx' Hq Hi E) as (_ & ? & ?). Qed.

(** ** Witnesses *)

Section Examples.
#[local] Existing Instance small_Postgres.

Definition books_example : DB :=
  set_accounts (mkTable [mkAccountRow 1 "receivable:acme" Asset 0; mkAccountRow 2 "revenue:api_calls" Revenue 0] 3) empty_db.

Lemma books_example_inv : ledger_inv books_example.
Proof.
  split; [|done]. split; cbn; try constructor; try decide_now.
Qed.

Definition entry_example : Transaction :=
  mkTransaction "usage:acme:2026-08" 63900000000000000000 "usage" [mkPosting 1 500; mkPosting 2 (-500)].

(** The answer to the commit is lost: the entry is there, and posting it again
    says so. *)
Lemma Post_correct_witness :
  exists srv1 r1, Post 0 entry_example (mkServer books_example (map (mkTick (fun db => db)) [Run; Run; Run; Run; Lost])) = (r1, srv1) /\
    ledger_inv (srv_db srv1) /\ Post 0 entry_example srv1 = (Ok (1, true), mkServer (set_transactions (table_skip (ledger_transactions (srv_db srv1))) (srv_db srv1)) []).
Proof.
  do 2 eexists. split; [vm_compute; reflexivity|]. split; [|vm_compute; reflexivity].
  refine (proj1 (Post_correct 0 entry_example
    (mkServer books_example (map (mkTick (fun db => db)) [Run; Run; Run; Run; Lost])) _ _ _ books_example_inv _ _)).
  - repeat constructor; cbn; try reflexivity; lia.
  - decide_now.
  - vm_compute. reflexivity.
Defined.

Lemma TrialBalance_zero_witness : (TrialBalance (mkServer books_example [])).1 = Ok 0.
Proof.
  exact (proj2 (TrialBalance_zero (mkServer books_example []) _ _ ltac:(constructor) books_example_inv (surjective_pairing _)) eq_refl).
Defined.

Lemma EnsureAccountTx_correct_witness :
  EnsureAccountTx 0 "revenue:api_calls" Asset (mkTxn (mkServer books_example []) books_example) =
    (Err (ErrKindMismatch Revenue Asset),
     mkTxn (mkServer books_example []) (set_accounts (table_skip (ledger_accounts books_example)) books_example)) /\
  is_ok (EnsureAccountTx 0 "receivable:globex" Asset (mkTxn (mkServer books_example []) books_example)).1 = true.
Proof.
  split; [vm_compute; reflexivity|].
  refine (proj2 (EnsureAccountTx_correct 0 "receivable:globex" Asset (mkTxn (mkServer books_example []) books_example) _ _
    ltac:(constructor) books_example_inv (surjective_pairing _)) eq_refl _ _ _ _); try (vm_compute; reflexivity); [discriminate|].
  intros k id (row & Hin & Hn & _). cbn in Hin. repeat (apply elem_of_cons in Hin as [->|Hin]; [discriminate Hn|]). by apply elem_of_nil in Hin.
Defined.

End Examples.
