(* ===== verification/Invoicing.v ===== *)
(** * Billing periods and invoices: [billing/invoicing]

    [EnsurePeriod], [Close] and [InvoiceForPeriod] over the tables of [DB.v], the
    ledger store and pricing. *)

From S2P Require Import Prelude Decimal Amount Quantity Ledger Pricing Bytes GoTime Event Validate DB Store.

(** ** Data *)

(** The strings of [State]. *)
Definition Open : string := "open".

Definition Closed : string := "closed".

Record Period : Type := mkPeriod {
  pe_ID : Z;
  pe_TenantID : string;
  pe_Label : string;
  pe_Start : Time;
  pe_End : Time;
  pe_State : string;
  pe_ClosedAt : Time
}.

(** [invoicing.LineItem]; [pricing.LineItem] is [LineItem]. *)
Record InvoiceLine : Type := mkInvoiceLine {
  il_Meter : string;
  il_Quantity : Quantity;
  il_Amount : Amount;
  il_Late : bool
}.

Record Invoice : Type := mkInvoice {
  in_ID : Z;
  in_PeriodID : Z;
  in_TenantID : string;
  in_Total : Amount;
  in_LedgerTransactionID : Z;
  in_IssuedAt : Time;
  in_LineItems : list InvoiceLine
}.

Inductive invoicing_err : Type :=
| ErrNothingToBill
| ErrPeriodNotFound
| ErrInvalidPeriod
| EInvDB (e : db_err)
| EInvQuantity (e : quantity_err)
| EInvPricing (e : pricing_err)
| EInvAmount (e : amount_err)
| EInvLedger (e : ledger_err)
| EInvStore (e : store_err).

(** What [Close] returns: an invoice and no error, the existing invoice with
    [ErrPeriodClosed], or another error. *)
Inductive close_result : Type :=
| Issued (invoice : Invoice)
| ErrPeriodClosed (invoice : Invoice)
| CloseFailed (e : invoicing_err).

(** ** Accounts: [billing/invoicing/accounts.go] *)

Definition receivablePrefix : string := "receivable:".

Definition revenuePrefix : string := "revenue:".

Definition ReceivableAccount (tenantID : string) : string := receivablePrefix +:+ tenantID.

Definition RevenueAccount (meter : string) : string := revenuePrefix +:+ meter.

Definition TransactionKey (tenantID periodLabel : string) : string :=
  "usage:" +:+ tenantID +:+ ":" +:+ periodLabel.

(** ** Statements *)

Section Statements.
Context `{Postgres}.

(** ['epoch'::timestamptz] *)
Definition epoch : Time := 62135596800000000000.

Definition period_keyed (tenantID label : string) (r : period_row) : bool :=
  bool_decide (bp_tenant_id r = tenantID) && bool_decide (bp_label r = label).

Definition ensurePeriod (tenantID label : string) (start end_ created_at : Time) : stmt period_row := fun db =>
  if negb (text_ok tenantID && text_ok label) then Err ErrInvalidText
  else if timestamptz end_ <=? timestamptz start then Err ErrConstraint
  else
    match List.find (period_keyed tenantID label) (rows (billing_periods db)) with
    | Some r => Ok (r, set_periods (table_skip (billing_periods db)) db)
    | None =>
        let mk := fun id => mkPeriodRow id tenantID label (timestamptz start) (timestamptz end_) Open None (timestamptz created_at) in
        let '(id, t) := table_insert mk (billing_periods db) in
        Ok (mk id, set_periods t db)
    end.

Definition lockPeriod (id : Z) : stmt (option period_row) := fun db =>
  Ok (List.find (fun r => bp_id r =? id) (rows (billing_periods db)), db).

(** [WHERE tenant_id = $1 AND invoice_id IS NULL AND occurred_at < $2] *)
Definition unbilled (tenantID : string) (end_ : Time) (r : event_row) : bool :=
  bool_decide (er_tenant_id r = tenantID) && bool_decide (er_invoice_id r = None) && (er_occurred_at r <? timestamptz end_).

(** [MIN], of a group that is never empty. *)
Definition minimum (l : list Z) : Z :=
  match l with [] => 0 | x :: l => foldr Z.min x l end.

(** A group's [meter], [SUM(quantity)::text] and [MIN(occurred_at)]. *)
Definition usage_row (found : list event_row) (meter : string) : string * string * Time :=
  let group := List.filter (fun r => bool_decide (er_meter r = meter)) found in
  (meter, numeric_text (sumZ (map er_quantity group)), minimum (map er_occurred_at group)).

Definition unbilledUsage (tenantID : string) (end_ : Time) : stmt (list (string * string * Time)) := fun db =>
  let found := List.filter (unbilled tenantID end_) (rows (events db)) in
  Ok (map (usage_row found) (order_text (remove_dups (map er_meter found))), db).

Definition bill_event (invoiceID : Z) (r : event_row) : event_row :=
  mkEventRow (er_id r) (er_tenant_id r) (er_meter r) (er_quantity r) (er_occurred_at r) (er_received_at r)
    (er_idempotency_key r) (er_payload_fingerprint r) (Some invoiceID).

(** The trigger [events_billed_once] sees every row updated, the foreign key of
    [events.invoice_id] the result. *)
Definition markBilled (invoiceID : Z) (tenantID : string) (end_ : Time) : stmt unit := fun db =>
  let touched := existsb (unbilled tenantID end_) (rows (events db)) in
  let update r := if unbilled tenantID end_ r then bill_event invoiceID r else r in
  if negb (forallb (fun r => events_billed_once r (update r)) (rows (events db))) then Err ErrConstraint
  else if touched && negb (existsb (fun r => iv_id r =? invoiceID) (rows (invoices db))) then Err ErrConstraint
  else Ok (tt, set_events (mkTable (map update (rows (events db))) (seq_next (events db))) db).

Definition insertInvoice (periodID : Z) (tenantID : string) (total ledgerID : Z) (issued_at : Time) : stmt Z := fun db =>
  if negb (text_ok tenantID) then Err ErrInvalidText
  else if existsb (fun r => iv_period_id r =? periodID) (rows (invoices db)) then Err ErrConstraint
  else if negb (existsb (fun r => bp_id r =? periodID) (rows (billing_periods db))) then Err ErrConstraint
  else if negb (existsb (fun r => tr_id r =? ledgerID) (rows (ledger_transactions db))) then Err ErrConstraint
  else
    let '(id, t) := table_insert (fun id => mkInvoiceRow id periodID tenantID total ledgerID (timestamptz issued_at)) (invoices db) in
    Ok (id, set_invoices t db).

Definition insertLineItem (invoiceID : Z) (meter quantity : string) (amount : Z) : stmt unit := fun db =>
  if negb (text_ok meter) then Err ErrInvalidText
  else
    match numeric_of_text quantity with
    | None => Err ErrInvalidText
    | Some q =>
        if existsb (fun r => (li_invoice_id r =? invoiceID) && bool_decide (li_meter r = meter)) (rows (invoice_line_items db))
        then Err ErrConstraint
        else if negb (existsb (fun r => iv_id r =? invoiceID) (rows (invoices db))) then Err ErrConstraint
        else
          let '(_, t) := table_insert (fun id => mkLineItemRow id invoiceID meter q amount) (invoice_line_items db) in
          Ok (tt, set_line_items t db)
    end.

Definition close_row (closed_at : Time) (r : period_row) : period_row :=
  mkPeriodRow (bp_id r) (bp_tenant_id r) (bp_label r) (bp_starts_at r) (bp_ends_at r) Closed
    (Some (timestamptz closed_at)) (bp_created_at r).

Definition closePeriod (id : Z) (closed_at : Time) : stmt unit := fun db =>
  Ok (tt, set_periods (mkTable (map (fun r => if bp_id r =? id then close_row closed_at r else r) (rows (billing_periods db)))
                         (seq_next (billing_periods db))) db).

Definition selectInvoiceByPeriod (periodID : Z) : stmt (option invoice_row) := fun db =>
  Ok (List.find (fun r => iv_period_id r =? periodID) (rows (invoices db)), db).

(** The invoice's lines; each meter has one. *)
Definition selectLineItems (invoiceID : Z) : stmt (list line_item_row) := fun db =>
  let found := List.filter (fun r => li_invoice_id r =? invoiceID) (rows (invoice_line_items db)) in
  Ok (mbind (fun m => List.filter (fun r => bool_decide (li_meter r = m)) found) (order_text (remove_dups (map li_meter found))), db).

End Statements.

(** ** Operations *)

Section Service.
Context `{Postgres}.
Variable registry : Registry.

(** The clock's readings. *)
Variable now : Time.

Definition in_inv {T A} (m : ST T db_err A) : ST T invoicing_err A := fun s =>
  match m s with
  | (Ok a, s) => (Ok a, s)
  | (Err e, s) => (Err (EInvDB e), s)
  end.

Definition in_inv_store {T A} (m : ST T store_err A) : ST T invoicing_err A := fun s =>
  match m s with
  | (Ok a, s) => (Ok a, s)
  | (Err e, s) => (Err (EInvStore e), s)
  end.

Definition scanPeriod (r : option period_row) : res invoicing_err Period :=
  match r with
  | Some r => Ok (mkPeriod (bp_id r) (bp_tenant_id r) (bp_label r) (bp_starts_at r) (bp_ends_at r) (bp_state r)
                    (default epoch (bp_closed_at r)))
  | None => Err ErrPeriodNotFound
  end.

Definition EnsurePeriod (tenantID label : string) (start end_ : Time) : ST server invoicing_err Period :=
  if negb (After end_ start) then st_fail ErrInvalidPeriod
  else if decide (tenantID = ""%string \/ label = ""%string) then st_fail ErrInvalidPeriod
  else
    row ← in_inv (db_exec (ensurePeriod tenantID label start end_ now));
    st_lift (scanPeriod (Some row)).

(** The loop of [gatherUsage]: the usages, and the map of first occurrences. *)
Fixpoint gather_rows (found : list (string * string * Time)) (usages : list Usage) (earliest : gmap string Time)
  : res invoicing_err (list Usage * gmap string Time) :=
  match found with
  | [] => Ok (usages, earliest)
  | (meter, total, first) :: found =>
      match ParseQuantity total with
      | Err e => Err (EInvQuantity e)
      | Ok quantity => gather_rows found (usages ++ [mkUsage meter quantity]) (<[meter := first]> earliest)
      end
  end.

Definition gatherUsage (period : Period) : ST txn invoicing_err (list Usage * gmap string Time) :=
  found ← in_inv (tx_exec (unbilledUsage (pe_TenantID period) (pe_End period)));
  st_lift (gather_rows found [] ∅).

(** A missing entry of the map is the zero time. *)
Definition late (earliest : gmap string Time) (period : Period) (meter : string) : bool :=
  Before (default 0 (earliest !! meter)) (pe_Start period).

(** The loop of [buildEntry]. *)
Fixpoint build_lines (receivable : AccountID) (period : Period) (earliest : gmap string Time) (items : list LineItem)
  (transfers : list Transfer) (total : Amount) (lines : list InvoiceLine)
  : ST txn invoicing_err (list Transfer * Amount * list InvoiceLine) :=
  match items with
  | [] => mret (transfers, total, lines)
  | item :: items =>
      let lines := lines ++ [mkInvoiceLine (li_Meter item) (li_Quantity item) (li_Amount item) (late earliest period (li_Meter item))] in
      if li_Amount item =? 0 then build_lines receivable period earliest items transfers total lines
      else
        revenue ← in_inv_store (EnsureAccountTx now (RevenueAccount (li_Meter item)) Revenue);
        let transfers := transfers ++ [mkTransfer receivable revenue (li_Amount item)] in
        total ← st_lift (match Amount_Add total (li_Amount item) with Ok n => Ok n | Err e => Err (EInvAmount e) end);
        build_lines receivable period earliest items transfers total lines
  end.

Definition buildEntry (period : Period) (items : list LineItem) (earliest : gmap string Time)
  : ST txn invoicing_err (list Transfer * Amount * list InvoiceLine) :=
  receivable ← in_inv_store (EnsureAccountTx now (ReceivableAccount (pe_TenantID period)) Asset);
  build_lines receivable period earliest items [] 0 [].

Fixpoint insert_lines (invoiceID : Z) (lines : list InvoiceLine) : ST txn invoicing_err unit :=
  match lines with
  | [] => mret tt
  | line :: lines =>
      _ ← in_inv (tx_exec (insertLineItem invoiceID (il_Meter line) (Quantity_String (il_Quantity line)) (il_Amount line)));
      insert_lines invoiceID lines
  end.

(** The loop of [invoiceForPeriod]; what is not stored stays at its zero value. *)
Fixpoint scan_lines (found : list line_item_row) (lines : list InvoiceLine) : res invoicing_err (list InvoiceLine) :=
  match found with
  | [] => Ok lines
  | r :: found =>
      match ParseQuantity (numeric_text (li_quantity r)) with
      | Err e => Err (EInvQuantity e)
      | Ok q => scan_lines found (lines ++ [mkInvoiceLine (li_meter r) q (li_amount r) false])
      end
  end.

Definition invoiceForPeriod {T} (q : forall A, stmt A -> ST T db_err A) (periodID : Z) : ST T invoicing_err Invoice :=
  row ← in_inv (q _ (selectInvoiceByPeriod periodID));
  match row with
  | None => st_fail ErrPeriodNotFound
  | Some r =>
      found ← in_inv (q _ (selectLineItems (iv_id r)));
      lines ← st_lift (scan_lines found []);
      mret (mkInvoice (iv_id r) (iv_period_id r) (iv_tenant_id r) (iv_total r) (iv_ledger_transaction_id r) (iv_issued_at r) lines)
  end.

Definition InvoiceForPeriod (periodID : Z) : ST server invoicing_err Invoice :=
  invoiceForPeriod (@db_exec) periodID.

(** The part of [Close] after the entry is built, up to the commit. *)
Definition issue (period : Period) (transfers : list Transfer) (total : Amount) (lineItems : list InvoiceLine)
  : ST txn invoicing_err Invoice :=
  ledgerTx ← st_lift (match NewTransaction (TransactionKey (pe_TenantID period) (pe_Label period)) (pe_Start period)
                              ("usage for " +:+ pe_TenantID period +:+ " in " +:+ pe_Label period) transfers with
                      | Ok t => Ok t
                      | Err e => Err (EInvLedger e)
                      end);
  '(ledgerID, _) ← in_inv_store (PostTx now ledgerTx);
  let issuedAt := now in
  invoiceID ← in_inv (tx_exec (insertInvoice (pe_ID period) (pe_TenantID period) total ledgerID issuedAt));
  _ ← insert_lines invoiceID lineItems;
  _ ← in_inv (tx_exec (markBilled invoiceID (pe_TenantID period) (pe_End period)));
  _ ← in_inv (tx_exec (closePeriod (pe_ID period) issuedAt));
  mret (mkInvoice invoiceID (pe_ID period) (pe_TenantID period) total ledgerID issuedAt lineItems).

(** [Close] of an open period, up to the commit. *)
Definition bill (period : Period) (plan : Plan) : ST txn invoicing_err Invoice :=
  '(usages, lateBefore) ← gatherUsage period;
  if decide (length usages = 0)%nat then st_fail ErrNothingToBill
  else
    items ← st_lift (match Rate usages plan registry with Ok items => Ok items | Err e => Err (EInvPricing e) end);
    '(transfers, total, lineItems) ← buildEntry period items lateBefore;
    if decide (length transfers = 0)%nat then st_fail ErrNothingToBill
    else issue period transfers total lineItems.

(** [Close] inside its transaction: [inl] for a period that was closed. *)
Definition close_tx (periodID : Z) (plan : Plan) : ST txn invoicing_err (Invoice + Invoice) :=
  row ← in_inv (tx_exec (lockPeriod periodID));
  period ← st_lift (scanPeriod row);
  if decide (pe_State period = Closed) then
    invoice ← invoiceForPeriod (@tx_exec) (pe_ID period);
    mret (inl invoice)
  else
    invoice ← bill period plan;
    mret (inr invoice).

Definition Close (periodID : Z) (plan : Plan) (srv : server) : close_result * server :=
  match BeginTx srv with
  | (Err e, srv) => (CloseFailed (EInvDB e), srv)
  | (Ok tx, _) =>
      match close_tx periodID plan tx with
      | (Err e, tx) => (CloseFailed e, tx_Rollback tx)
      | (Ok invoice, tx) =>
          match tx_Commit tx with
          | (Err e, srv) => (CloseFailed (EInvDB e), srv)
          | (Ok _, srv) => (match invoice with inl invoice => ErrPeriodClosed invoice | inr invoice => Issued invoice end, srv)
          end
      end
  end.

End Service.

(** ** Lemmas: what the transaction's steps keep *)

(** The computation leaves the committed tables to the others. *)
Definition keeps {E A} (m : ST txn E A) : Prop :=
  forall tx r tx', undisturbed tx -> m tx = (r, tx') -> kept tx tx'.

Create HintDb keeps.

Lemma keeps_exec {A} (q : stmt A) : keeps (tx_exec q).
Proof. intros tx r tx' Hq E. by eapply tx_exec_kept; [reflexivity|..]. Qed.

Lemma keeps_ret {E A} (a : A) : keeps (mret a : ST txn E A).
Proof. intros tx r tx' Hq [= <- <-]. by apply tx_kept_refl. Qed.

Lemma keeps_fail {E A} (e : E) : keeps (st_fail e : ST txn E A).
Proof. intros tx r tx' Hq [= <- <-]. by apply tx_kept_refl. Qed.

Lemma keeps_lift {E A} (r : res E A) : keeps (st_lift r : ST txn E A).
Proof. intros tx r' tx' Hq [= <- <-]. by apply tx_kept_refl. Qed.

Lemma keeps_bind {E A B} (m : ST txn E A) (f : A -> ST txn E B) : keeps m -> (forall a, keeps (f a)) -> keeps (m ≫= f).
Proof.
  intros Hm Hf tx r tx' Hq. unfold mbind, ST_bind. destruct (m tx) as [[a|e] tx1] eqn:E1; intros E2.
  - pose proof (Hm _ _ _ Hq E1) as K1. eapply kept_trans; [exact K1|]. eapply Hf; [apply K1|exact E2].
  - injection E2 as <- <-. by eapply Hm.
Qed.

Lemma keeps_in_store {A} (m : ST txn db_err A) : keeps m -> keeps (in_store m).
Proof. intros Hm tx r tx' Hq. unfold in_store. destruct (m tx) as [[a|e] tx1] eqn:E; intros [= <- <-]; by eapply Hm. Qed.

Lemma keeps_in_inv {A} (m : ST txn db_err A) : keeps m -> keeps (in_inv m).
Proof. intros Hm tx r tx' Hq. unfold in_inv. destruct (m tx) as [[a|e] tx1] eqn:E; intros [= <- <-]; by eapply Hm. Qed.

Lemma keeps_in_inv_store {A} (m : ST txn store_err A) : keeps m -> keeps (in_inv_store m).
Proof. intros Hm tx r tx' Hq. unfold in_inv_store. destruct (m tx) as [[a|e] tx1] eqn:E; intros [= <- <-]; by eapply Hm. Qed.

#[local] Hint Resolve keeps_exec keeps_ret keeps_fail keeps_lift keeps_bind keeps_in_store keeps_in_inv keeps_in_inv_store : keeps.

(** [keeps_tac] follows the structure of a computation. *)
Ltac keeps_tac :=
  repeat first
    [ progress intros
    | apply keeps_bind
    | match goal with |- keeps (match ?x with _ => _ end) => destruct x end
    | solve [auto with keeps] ].

Section Keeps.
Context `{Postgres}.
Variable registry : Registry.
Variable now : Time.

Lemma EnsureAccountTx_keeps name kind : keeps (EnsureAccountTx now name kind).
Proof. unfold EnsureAccountTx, ensureAccount. keeps_tac. Qed.

Lemma insert_postings_keeps id ps : keeps (insert_postings id ps).
Proof. induction ps as [|p ps IH]; cbn [insert_postings]; keeps_tac. Qed.

#[local] Hint Resolve EnsureAccountTx_keeps insert_postings_keeps : keeps.

Lemma PostTx_keeps t : keeps (PostTx now t).
Proof. unfold PostTx. keeps_tac. Qed.

Lemma build_lines_keeps rec period earliest items transfers total lines :
  keeps (build_lines now rec period earliest items transfers total lines).
Proof. revert transfers total lines. induction items as [|i items IH]; intros; cbn [build_lines]; keeps_tac. Qed.

Lemma insert_lines_keeps id lines : keeps (insert_lines id lines).
Proof. induction lines as [|l lines IH]; cbn [insert_lines]; keeps_tac. Qed.

#[local] Hint Resolve PostTx_keeps build_lines_keeps insert_lines_keeps : keeps.

Lemma close_tx_keeps periodID plan : keeps (close_tx registry now periodID plan).
Proof. unfold close_tx, bill, issue, buildEntry, gatherUsage, invoiceForPeriod. keeps_tac. Qed.

End Keeps.

(** ** Lemmas: the rows *)

Definition norm {R} (t : table R) : table R := mkTable (rows t) 0.

(** The rows of every table, identities aside. *)
Definition snap (db : DB) : DB :=
  mkDB (norm (events db)) (consumer_offsets db) (norm (dead_letters db)) (norm (ledger_accounts db)) (norm (ledger_transactions db))
    (norm (ledger_postings db)) (norm (billing_periods db)) (norm (invoices db)) (norm (invoice_line_items db)).

Lemma same_rows_snap db db' : same_rows db db' -> snap db' = snap db.
Proof.
  intros [([A _] & [T _] & [P _]) ([E _] & O & [D _] & [B _] & [I _] & [L _])].
  unfold snap, norm. by rewrite A, T, P, E, O, D, B, I, L.
Qed.

(** The rows read off a snapshot. *)
Lemma snap_fields db db' : snap db = db' ->
  (rows (events db) = rows (events db') /\ consumer_offsets db = consumer_offsets db' /\
   rows (dead_letters db) = rows (dead_letters db')) /\
  (rows (ledger_accounts db) = rows (ledger_accounts db') /\ rows (ledger_transactions db) = rows (ledger_transactions db') /\
   rows (ledger_postings db) = rows (ledger_postings db')) /\
  (rows (billing_periods db) = rows (billing_periods db') /\ rows (invoices db) = rows (invoices db') /\
   rows (invoice_line_items db) = rows (invoice_line_items db')).
Proof. by intros <-. Qed.

Lemma inv_exec_ok {A} (q : stmt A) tx a tx' :
  undisturbed tx -> in_inv (tx_exec q) tx = (Ok a, tx') ->
  kept tx tx' /\ exists db1, same_rows (tx_db tx) db1 /\ snap db1 = snap (tx_db tx) /\ q db1 = Ok (a, tx_db tx').
Proof.
  intros Hq H. pose proof (keeps_in_inv _ (keeps_exec q) _ _ _ Hq H) as K. split; [done|].
  unfold in_inv in H. destruct (tx_exec q tx) as [[b|e] tx1] eqn:E; [|done]. injection H as <- <-.
  destruct (tx_exec_inv same_rows ltac:(reflexivity) q tx _ _ Hq E) as (_ & _ & (db1 & V & D) & _).
  exists db1. split_and!; [done|by apply same_rows_snap|done].
Qed.

Lemma inv_store_ok {A} (m : ST txn store_err A) tx a tx' :
  in_inv_store m tx = (Ok a, tx') -> m tx = (Ok a, tx').
Proof. unfold in_inv_store. destruct (m tx) as [[b|e] tx1]; [|done]. by intros [= <- <-]. Qed.

Section Steps.
Context `{Postgres}.
Variable now : Time.

(** ** Lemmas: gathering *)

Definition meter_sum (found : list event_row) (m : string) : Z :=
  sumZ (map er_quantity (List.filter (fun r => bool_decide (er_meter r = m)) found)).

Definition meter_first (found : list event_row) (m : string) : Time :=
  minimum (map er_occurred_at (List.filter (fun r => bool_decide (er_meter r = m)) found)).

Lemma meter_sum_nonneg found m : Forall (fun r => 0 <= er_quantity r) found -> 0 <= meter_sum found m.
Proof.
  intros F. unfold meter_sum. apply sumZ_nonneg. apply Forall_map, Forall_forall. intros r Hr.
  apply list_elem_of_In, List.filter_In in Hr as [Hr _]. rewrite Forall_forall in F. by apply F, list_elem_of_In.
Qed.

Lemma gather_rows_ok found ms us ea us' ea' :
  Forall (fun r => 0 <= er_quantity r) found -> NoDup ms ->
  gather_rows (map (usage_row found) ms) us ea = Ok (us', ea') ->
  us' = us ++ map (fun m => mkUsage m (meter_sum found m)) ms /\
  Forall (fun m => 0 <= meter_sum found m <= max_int64) ms /\
  (forall m, m ∈ ms -> ea' !! m = Some (meter_first found m)) /\ (forall m, m ∉ ms -> ea' !! m = ea !! m).
Proof.
  intros F. revert us ea. induction ms as [|m ms IH]; intros us ea Nd; cbn [map gather_rows].
  - intros [= <- <-]. split_and!; [by rewrite app_nil_r|constructor| |done]. intros m Hm. by apply elem_of_nil in Hm.
  - apply NoDup_cons in Nd as [Hn Nd]. cbn [usage_row]. fold (meter_sum found m) (meter_first found m).
    destruct (ParseQuantity _) as [q|] eqn:Eq; [|done]. pose proof (meter_sum_nonneg found m F) as Hp.
    apply ParseQuantity_iff in Eq as [Eq Hmax]. rewrite numeric_text_value in Eq by done. injection Eq as <-.
    intros E. destruct (IH _ _ Nd E) as (-> & Hs & Hf & Hk). split_and!.
    + by rewrite <- app_assoc.
    + constructor; [done|done].
    + intros m' [->|Hm]%elem_of_cons; [|by apply Hf]. rewrite Hk by done. apply lookup_insert_eq.
    + intros m' [Hne Hm]%not_elem_of_cons. rewrite Hk, lookup_insert_ne by done. done.
Qed.

(** The tenant's usage that [Close] takes: what is unbilled before the end. *)
Definition due (period : Period) (db : DB) : list event_row :=
  List.filter (unbilled (pe_TenantID period) (pe_End period)) (rows (events db)).

Definition due_meters (period : Period) (db : DB) : list string := order_text (remove_dups (map er_meter (due period db))).

Definition due_usage (period : Period) (db : DB) : list Usage :=
  map (fun m => mkUsage m (meter_sum (due period db) m)) (due_meters period db).

Lemma gatherUsage_ok period tx us ea tx' :
  undisturbed tx -> Forall (fun r => 0 <= er_quantity r) (rows (events (tx_db tx))) ->
  gatherUsage period tx = (Ok (us, ea), tx') ->
  kept tx tx' /\ same_rows (tx_db tx) (tx_db tx') /\ us = due_usage period (tx_db tx) /\
  Forall (fun u => in_int64 (us_Quantity u)) us /\
  (forall m, m ∈ due_meters period (tx_db tx) -> ea !! m = Some (meter_first (due period (tx_db tx)) m)).
Proof.
  intros Hq F. unfold gatherUsage. intros E. st_inv E. destruct (inv_exec_ok _ _ _ _ Hq Hv) as (K & db1 & V & S1 & D).
  apply st_lift_ok in E as [E ->]. unfold unbilledUsage in D. injection D as Dv Ddb.
  apply snap_fields in S1 as ((Ev & _) & _). cbn in Ev. assert (Edue : due period db1 = due period (tx_db tx)) by (unfold due; by rewrite Ev).
  assert (Fd : Forall (fun r => 0 <= er_quantity r) (due period db1)).
  { apply Forall_forall. intros r Hr. apply list_elem_of_In, List.filter_In in Hr as [Hr _]. rewrite Forall_forall in F. apply F.
    rewrite <- Ev. by apply list_elem_of_In. }
  rewrite <- Dv in E. change (gather_rows (map (usage_row (due period db1)) (due_meters period db1)) [] ∅ = Ok (us, ea)) in E.
  apply gather_rows_ok in E as (-> & Hs & Hf & _); [|done|]; cycle 1.
  { unfold due_meters. rewrite order_text_perm. apply NoDup_remove_dups. }
  unfold due_meters, due_usage in *. rewrite Edue in *. split_and!; [done|by rewrite <- Ddb|done| |].
  - apply Forall_map. eapply Forall_impl; [exact Hs|]. cbn. intros m. int_lia.
  - intros m Hm. by apply Hf.
Qed.

(** ** Lemmas: the entry *)

Definition item_line (earliest : gmap string Time) (period : Period) (i : LineItem) : InvoiceLine :=
  mkInvoiceLine (li_Meter i) (li_Quantity i) (li_Amount i) (late earliest period (li_Meter i)).

(** The transfer an item becomes: the receivable is debited and the revenue
    account of its meter credited. *)
Definition item_transfer (receivable : AccountID) (db : DB) (i : LineItem) (t : Transfer) : Prop :=
  tr_Debit t = receivable /\ tr_Amount t = li_Amount i /\ has_account (RevenueAccount (li_Meter i)) Revenue (tr_Credit t) db.

Definition charged (items : list LineItem) : list LineItem := List.filter (fun i => negb (li_Amount i =? 0)) items.

Definition items_total (items : list LineItem) : Z := sumZ (map li_Amount items).

Lemma build_lines_ok rec period earliest items transfers total lines tx tr' tot' ln' tx' :
  undisturbed tx -> ledger_inv (tx_db tx) -> in_int64 total -> Forall (fun i => in_int64 (li_Amount i)) items ->
  build_lines now rec period earliest items transfers total lines tx = (Ok (tr', tot', ln'), tx') ->
  kept tx tx' /\ more_accounts (tx_db tx) (tx_db tx') /\ ledger_inv (tx_db tx') /\ in_int64 tot' /\
  tot' = total + items_total items /\ ln' = lines ++ map (item_line earliest period) items /\
  exists new, tr' = transfers ++ new /\ Forall2 (item_transfer rec (tx_db tx')) (charged items) new.
Proof.
  intros Hq Hi. revert transfers total lines tx Hq Hi.
  induction items as [|i items IH]; intros transfers total lines tx Hq Hi Ht Hr; cbn [build_lines].
  - intros [= <- <- <- <-]. split_and!; [by apply tx_kept_refl|reflexivity|done|apply Ht..|cbn; lia|by rewrite app_nil_r|].
    exists []. by rewrite app_nil_r.
  - apply Forall_cons in Hr as [Hr Hrs]. unfold items_total. cbn [charged List.filter map]. rewrite sumZ_cons.
    destruct (Z.eqb_spec (li_Amount i) 0) as [Hz|Hz]; cbn [negb].
    + intros E. destruct (IH _ _ _ _ Hq Hi Ht Hrs E) as (K & M & L & R1 & R2 & R3 & new & N1 & N2).
      split_and!; [done|done|done|apply R1..|unfold items_total in R2; lia|by rewrite R3, <- app_assoc|by exists new].
    + intros E. st_inv E. apply inv_store_ok in Hv. destruct (EnsureAccountTx_spec now _ _ _ _ _ Hq Hi Hv) as (K1 & (M1 & L1 & A1) & _).
      st_inv E. apply st_lift_ok in Hv0 as [Ha ->]. destruct (Amount_Add total (li_Amount i)) as [n|] eqn:Ea; [|done]. injection Ha as <-.
      apply Amount_Add_ok in Ea as [-> Hn]; [|done..].
      destruct (IH _ _ _ _ (proj1 K1) L1 Hn Hrs E) as (K & M & L & R1 & R2 & R3 & new & N1 & N2).
      split_and!; [by eapply kept_trans|by etrans|done|apply R1..|unfold items_total in R2; lia|by rewrite R3, <- app_assoc|].
      exists (mkTransfer rec v (li_Amount i) :: new). split; [by rewrite N1, <- app_assoc|]. constructor; [|done].
      split_and!; [done|done|]. by eapply has_account_more.
Qed.

Lemma buildEntry_ok period items earliest tx transfers total lines tx' :
  undisturbed tx -> ledger_inv (tx_db tx) -> Forall (fun i => in_int64 (li_Amount i)) items ->
  buildEntry now period items earliest tx = (Ok (transfers, total, lines), tx') ->
  kept tx tx' /\ more_accounts (tx_db tx) (tx_db tx') /\ ledger_inv (tx_db tx') /\
  total = items_total items /\ lines = map (item_line earliest period) items /\
  exists receivable, has_account (ReceivableAccount (pe_TenantID period)) Asset receivable (tx_db tx') /\
    Forall2 (item_transfer receivable (tx_db tx')) (charged items) transfers.
Proof.
  intros Hq Hi Hr E. unfold buildEntry in E. st_inv E. apply inv_store_ok in Hv.
  destruct (EnsureAccountTx_spec now _ _ _ _ _ Hq Hi Hv) as (K1 & (M1 & L1 & A1) & _).
  destruct (build_lines_ok v period earliest items [] 0 [] _ _ _ _ _ (proj1 K1) L1 ltac:(int_lia) Hr E) as (K & M & L & _ & R2 & R3 & new & N1 & N2).
  split_and!; [by eapply kept_trans|by etrans|done|lia|done|]. exists v. subst transfers. split; [by eapply has_account_more|done].
Qed.

(** ** Lemmas: writing the invoice *)

(** The row of a line. *)
Definition line_row (invoiceID : Z) (l : InvoiceLine) (r : line_item_row) : Prop :=
  li_invoice_id r = invoiceID /\ li_meter r = il_Meter l /\ li_quantity r = il_Quantity l /\ li_amount r = il_Amount l.

Lemma Quantity_String_stored q : 0 <= q <= max_int64 -> numeric_of_text (Quantity_String q) = Some q.
Proof.
  intros Hq. pose proof (Quantity_String_spec q Hq) as Hs. rewrite numeric_good; [unfold quantity_value; by rewrite Hs|].
  split; [by exists q|]. unfold quantity_value. rewrite Hs. cbn [default from_option id].
  assert (max_int64 < 10 ^ Z.of_nat (maxIntegerDigits + QuantityScale)) by (vm_compute; reflexivity). lia.
Qed.

Lemma insert_lines_ok id lines tx tx' :
  undisturbed tx -> Forall (fun l => 0 <= il_Quantity l <= max_int64) lines ->
  insert_lines id lines tx = (Ok tt, tx') ->
  kept tx tx' /\ same_ledger (tx_db tx) (tx_db tx') /\
  (seq_next (invoices (tx_db tx)) <= seq_next (invoices (tx_db tx')) /\
   seq_next (billing_periods (tx_db tx)) <= seq_next (billing_periods (tx_db tx'))) /\
  exists new, Forall2 (line_row id) lines new /\
    snap (tx_db tx') = set_line_items (mkTable (rows (invoice_line_items (tx_db tx)) ++ new) 0) (snap (tx_db tx)).
Proof.
  revert tx. induction lines as [|l lines IH]; intros tx Hq Hr; cbn [insert_lines].
  - intros [= <-]. split; [by apply tx_kept_refl|split; [reflexivity|split; [lia|]]]. exists []. rewrite app_nil_r. by split.
  - apply Forall_cons in Hr as [Hr Hrs]. intros E. st_inv E. destruct (inv_exec_ok _ _ _ _ Hq Hv) as (K1 & db1 & V & S1 & D).
    unfold insertLineItem in D. destruct (text_ok (il_Meter l)); [|done]. rewrite (Quantity_String_stored _ Hr) in D. cbn [negb] in D.
    destruct (existsb _ (rows (invoice_line_items db1))); [done|]. destruct (existsb _ (rows (invoices db1))); [|done].
    cbn [negb table_insert] in D. injection D as <- D.
    destruct (IH _ (proj1 K1) Hrs E) as (K & G & Q & new & N & S2).
    split; [by eapply kept_trans|split; [etrans; [apply V|]; etrans; [|exact G]; rewrite <- D; change (same_ledger db1 db1); reflexivity|]].
    split; [destruct V as [_ (_ & _ & _ & [_ V'] & [_ V] & _)]; rewrite <- D in Q; cbn in Q; lia|].
    pose proof (snap_fields _ _ S1) as (_ & _ & _ & _ & R).
    exists (mkLineItemRow (seq_next (invoice_line_items db1)) id (il_Meter l) (il_Quantity l) (il_Amount l) :: new).
    split; [by constructor|]. rewrite S2, <- D. cbn [invoice_line_items set_line_items rows]. cbn in R. rewrite R, <- app_assoc.
    rewrite <- S1. reflexivity.
Qed.

(** The entry is in the ledger: posted now, or posted before under its key. *)
Definition entry_recorded (t : Transaction) (id : Z) (db db' : DB) : Prop :=
  (exists row new, rows (ledger_transactions db') = rows (ledger_transactions db) ++ [row] /\
     tr_id row = id /\ tr_idempotency_key row = tx_IdempotencyKey t /\
     rows (ledger_postings db') = rows (ledger_postings db) ++ new /\ Forall2 (posting_of id) (tx_postings t) new /\
     id ∉ map tr_id (rows (ledger_transactions db))) \/
  (rows (ledger_transactions db') = rows (ledger_transactions db) /\ rows (ledger_postings db') = rows (ledger_postings db) /\
   already_posted t id db).

(** What issuing [inv] for [period] does to the tables other than accounts. *)
Record issued_as (period : Period) (t : Transaction) (inv : Invoice) (db db' : DB) : Prop := {
  ia_period : in_PeriodID inv = pe_ID period /\ in_TenantID inv = pe_TenantID period;
  ia_events : rows (events db') =
    map (fun r => if unbilled (pe_TenantID period) (pe_End period) r then bill_event (in_ID inv) r else r) (rows (events db));
  ia_periods : rows (billing_periods db') =
    map (fun r => if bp_id r =? pe_ID period then close_row (in_IssuedAt inv) r else r) (rows (billing_periods db));
  ia_invoices : rows (invoices db') = rows (invoices db) ++
    [mkInvoiceRow (in_ID inv) (pe_ID period) (pe_TenantID period) (in_Total inv) (in_LedgerTransactionID inv) (timestamptz (in_IssuedAt inv))];
  ia_lines : exists new, Forall2 (line_row (in_ID inv)) (in_LineItems inv) new /\
    rows (invoice_line_items db') = rows (invoice_line_items db) ++ new;
  ia_entry : entry_recorded t (in_LedgerTransactionID inv) db db';
  ia_ids : seq_next (invoices db) <= in_ID inv < seq_next (invoices db') /\
    seq_next (billing_periods db) <= seq_next (billing_periods db');
  ia_consumer : consumer_offsets db' = consumer_offsets db /\ rows (dead_letters db') = rows (dead_letters db)
}.

Lemma PostTx_recorded t id dup tx tx' :
  undisturbed tx -> ledger_inv (tx_db tx) -> Forall (fun p => in_int64 (po_Amount p)) (tx_postings t) ->
  PostTx now t tx = (Ok (id, dup), tx') ->
  kept tx tx' /\ ledger_inv (tx_db tx') /\ entry_recorded t id (tx_db tx) (tx_db tx') /\
  same_billing (tx_db tx) (tx_db tx') /\ rows (ledger_accounts (tx_db tx')) = rows (ledger_accounts (tx_db tx)).
Proof.
  intros Hq Hi Hr E. destruct (PostTx_spec now t tx _ tx' Hq Hi Hr E) as (K & P & _). destruct dup.
  - destruct P as [[L B] A]. pose proof L as ([Ra _] & [Rt _] & [Rp _]).
    split; [done|split; [by eapply ledger_inv_ledger|split; [by right|by split]]].
  - destruct P as [(B & [Ra _] & (row & T1 & T2 & T3 & _) & (new & N1 & N2) & _ & Hf) L].
    split; [done|split; [done|split; [|by split]]]. left. by exists row, new.
Qed.

(** The entry of a billing run. *)
Definition billing_entry (period : Period) (transfers : list Transfer) : res ledger_err Transaction :=
  NewTransaction (TransactionKey (pe_TenantID period) (pe_Label period)) (pe_Start period)
    ("usage for " +:+ pe_TenantID period +:+ " in " +:+ pe_Label period) transfers.

Lemma insertInvoice_ok periodID tenantID total ledgerID issued db id db' :
  insertInvoice periodID tenantID total ledgerID issued db = Ok (id, db') ->
  same_ledger db db' /\ (id = seq_next (invoices db) /\ seq_next (billing_periods db') = seq_next (billing_periods db)) /\
  seq_next (invoices db') = id + 1 /\
  snap db' = set_invoices (mkTable (rows (invoices db) ++ [mkInvoiceRow id periodID tenantID total ledgerID (timestamptz issued)]) 0) (snap db).
Proof.
  unfold insertInvoice. destruct (text_ok tenantID); [|done]. cbn [negb]. destruct (existsb _ (rows (invoices db))); [done|].
  destruct (existsb _ (rows (billing_periods db))); [|done]. destruct (existsb _ (rows (ledger_transactions db))); [|done].
  cbn [negb table_insert]. intros [= <- <-]. split; [change (same_ledger db db); reflexivity|done].
Qed.

Lemma markBilled_ok id tenantID end_ db db' :
  markBilled id tenantID end_ db = Ok (tt, db') ->
  same_ledger db db' /\
  (seq_next (invoices db') = seq_next (invoices db) /\ seq_next (billing_periods db') = seq_next (billing_periods db)) /\
  snap db' = set_events (mkTable (map (fun r => if unbilled tenantID end_ r then bill_event id r else r) (rows (events db))) 0) (snap db).
Proof.
  unfold markBilled. cbv zeta. destruct (negb _); [done|]. destruct (_ && _); [done|]. intros [= <-]. split; [change (same_ledger db db); reflexivity|done].
Qed.

(** The trigger has nothing to refuse. *)
Lemma markBilled_once id tenantID end_ r :
  events_billed_once r (if unbilled tenantID end_ r then bill_event id r else r) = true.
Proof.
  unfold events_billed_once, unbilled. destruct (er_invoice_id r) as [i|] eqn:E; [|done].
  rewrite (bool_decide_false (Some i = None)), andb_false_r, andb_false_l by done. by apply bool_decide_eq_true.
Qed.

Lemma issue_ok period transfers total lines tx inv tx' :
  undisturbed tx -> ledger_inv (tx_db tx) -> Forall (fun t => in_int64 (tr_Amount t)) transfers ->
  Forall (fun l => 0 <= il_Quantity l <= max_int64) lines ->
  issue now period transfers total lines tx = (Ok inv, tx') ->
  kept tx tx' /\ ledger_inv (tx_db tx') /\ rows (ledger_accounts (tx_db tx')) = rows (ledger_accounts (tx_db tx)) /\
  in_Total inv = total /\ in_LineItems inv = lines /\
  exists t, billing_entry period transfers = Ok t /\ issued_as period t inv (tx_db tx) (tx_db tx').
Proof.
  intros Hq Hi Hr Hl E. unfold issue in E. st_inv E. apply st_lift_ok in Hv as [Hv ->].
  destruct (NewTransaction _ _ _ _) as [t|] eqn:Et; [|done]. injection Hv as <-.
  destruct (NewTransaction_ok _ _ _ _ _ Hr Et) as (_ & _ & Hp).
  st_inv E. destruct v as [ledgerID dup]. apply inv_store_ok in Hv.
  destruct (PostTx_recorded t ledgerID dup _ _ Hq Hi ltac:(eapply Forall_impl; [exact Hp|]; by intros ? []) Hv) as (K1 & L1 & Ent & B1 & A1).
  st_inv E. destruct (inv_exec_ok _ _ _ _ (proj1 K1) Hv0) as (K2 & db2 & V2 & S2 & D2). apply insertInvoice_ok in D2 as (G2 & Q2 & Q2' & D2).
  st_inv E. destruct v0. destruct (insert_lines_ok _ _ _ _ (proj1 K2) Hl Hv1) as (K3 & G3 & Q3 & new & N & D3).
  st_inv E. destruct v0. destruct (inv_exec_ok _ _ _ _ (proj1 K3) Hv2) as (K4 & db4 & V4 & S4 & D4). apply markBilled_ok in D4 as (G4 & Q4 & D4).
  st_inv E. destruct v0. destruct (inv_exec_ok _ _ _ _ (proj1 K4) Hv3) as (K5 & db5 & V5 & S5 & D5).
  unfold closePeriod in D5. injection D5 as D5. injection E as <- <-.
  assert (K : kept tx tx4) by (eapply kept_trans; [exact K1|eapply kept_trans; [exact K2|eapply kept_trans; [exact K3|eapply kept_trans; [exact K4|exact K5]]]]).
  assert (G : same_ledger (tx_db tx0) (tx_db tx4)).
  { etrans; [apply V2|]. etrans; [exact G2|]. etrans; [exact G3|]. etrans; [apply V4|]. etrans; [exact G4|]. etrans; [apply V5|].
    rewrite <- D5. change (same_ledger db5 db5). reflexivity. }
  destruct (snap_fields _ _ S2) as ((E2 & O2 & X2) & (A2 & T2 & P2) & (B2 & I2 & L2)).
  destruct (snap_fields _ _ D2) as ((E2' & O2' & X2') & (A2' & T2' & P2') & (B2' & I2' & L2')).
  destruct (snap_fields _ _ D3) as ((E3 & O3 & X3) & (A3 & T3 & P3) & (B3 & I3 & L3)).
  destruct (snap_fields _ _ S4) as ((E4 & O4 & X4) & (A4 & T4 & P4) & (B4 & I4 & L4)).
  destruct (snap_fields _ _ D4) as ((E4' & O4' & X4') & (A4' & T4' & P4') & (B4' & I4' & L4')).
  destruct (snap_fields _ _ S5) as ((E5 & O5 & X5) & (A5 & T5 & P5) & (B5 & I5 & L5)).
  cbn [snap norm set_invoices set_events set_line_items rows events consumer_offsets dead_letters ledger_accounts
    ledger_transactions ledger_postings billing_periods invoices invoice_line_items] in *.
  assert (Q : (seq_next (invoices (tx_db tx)) <= seq_next (invoices db2) /\ seq_next (invoices (tx_db tx2)) <= seq_next (invoices db4) /\
    seq_next (invoices (tx_db tx3)) <= seq_next (invoices db5)) /\
    (seq_next (billing_periods (tx_db tx)) <= seq_next (billing_periods db2) /\
     seq_next (billing_periods (tx_db tx2)) <= seq_next (billing_periods db4) /\
     seq_next (billing_periods (tx_db tx3)) <= seq_next (billing_periods db5))).
  { destruct B1 as (_ & _ & _ & [_ Q0'] & [_ Q0] & _), V2 as [_ (_ & _ & _ & [_ V2'] & [_ V2] & _)],
      V4 as [_ (_ & _ & _ & [_ V4'] & [_ V4] & _)], V5 as [_ (_ & _ & _ & [_ V5'] & [_ V5] & _)]. lia. }
  destruct B1 as ([Be _] & Bo & [Bx _] & [Bb _] & [Bi _] & [Bl _]). pose proof G as ([Ga _] & [Gt _] & [Gp _]).
  split; [exact K|split; [by eapply ledger_inv_ledger|split; [congruence|split; [done|split; [done|]]]]].
  exists t. split; [exact Et|]. rewrite <- D5. split; cbn [in_PeriodID in_TenantID in_ID in_Total in_LedgerTransactionID in_IssuedAt in_LineItems
    set_periods rows events consumer_offsets dead_letters ledger_accounts ledger_transactions ledger_postings billing_periods invoices invoice_line_items].
  - done.
  - rewrite E5, E4', E4, E3, E2', E2, Be. done.
  - rewrite B5, B4', B4, B3, B2', B2, Bb. done.
  - rewrite I5, I4', I4, I3, I2', I2, Bi. done.
  - exists new. split; [done|]. rewrite L5, L4', L4, L3, L2', L2, Bl. done.
  - assert (Gt' : rows (ledger_transactions db5) = rows (ledger_transactions (tx_db tx0))) by (rewrite <- D5 in Gt; exact Gt).
    assert (Gp' : rows (ledger_postings db5) = rows (ledger_postings (tx_db tx0))) by (rewrite <- D5 in Gp; exact Gp).
    unfold entry_recorded. cbn. rewrite Gt', Gp'. exact Ent.
  - cbn [seq_next]. lia.
  - split; congruence.
Qed.

(** The line of a rated item: late when the meter has usage from before the
    period. *)
Definition due_line (period : Period) (db : DB) (i : LineItem) : InvoiceLine :=
  mkInvoiceLine (li_Meter i) (li_Quantity i) (li_Amount i) (Before (meter_first (due period db) (li_Meter i)) (pe_Start period)).

(** The rated items of a period: one per meter with usage due, each with the
    exact total of that usage and the amount its price gives for it. *)
Definition rated (plan : Plan) (period : Period) (db : DB) (items : list LineItem) : Prop :=
  NoDup (map li_Meter items) /\ (forall m, m ∈ map li_Meter items <-> m ∈ map er_meter (due period db)) /\
  Forall (fun i => li_Quantity i = meter_sum (due period db) (li_Meter i) /\
    exists price, priceFor plan (li_Meter i) = Some price /\ applyPrice price (li_Quantity i) = Ok (li_Amount i)) items.

(** What billing [period] does to the tables. *)
Definition billed (plan : Plan) (period : Period) (inv : Invoice) (db db' : DB) : Prop :=
  exists items transfers t receivable,
    rated plan period db items /\ in_Total inv = items_total items /\ in_LineItems inv = map (due_line period db) items /\
    has_account (ReceivableAccount (pe_TenantID period)) Asset receivable db' /\
    Forall2 (item_transfer receivable db') (charged items) transfers /\ transfers <> [] /\
    billing_entry period transfers = Ok t /\ issued_as period t inv db db' /\
    exists new, rows (ledger_accounts db') = rows (ledger_accounts db) ++ new.

Lemma due_rated plan registry period db items :
  Forall (fun u => in_int64 (us_Quantity u)) (due_usage period db) -> Rate (due_usage period db) plan registry = Ok items ->
  rated plan period db items.
Proof.
  intros Hr H1. destruct (Rate_spec _ _ _ _ Hr H1) as (_ & Nd & Hm & F).
  assert (Ndm : NoDup (due_meters period db)) by (unfold due_meters; rewrite order_text_perm; apply NoDup_remove_dups).
  assert (Hdue : forall m, m ∈ us_Meter <$> due_usage period db <-> m ∈ due_meters period db).
  { intros m. unfold due_usage. change (us_Meter <$> map ?f ?l) with (map us_Meter (map f l)). rewrite map_map. cbn. by rewrite map_id. }
  split_and!; [done| |].
  - intros m. change (map li_Meter items) with (li_Meter <$> items). rewrite Hm, Hdue. unfold due_meters. rewrite order_text_perm.
    apply elem_of_remove_dups.
  - rewrite Forall_forall in *. intros i Hi. destruct (F i Hi) as [Hq Hp]. split; [|done]. rewrite Hq. apply usage_total_map; [done|].
    apply Hdue, Hm. by apply list_elem_of_fmap_2.
Qed.

Lemma due_same period db db' : rows (events db') = rows (events db) -> due period db' = due period db.
Proof. intros E. unfold due. by rewrite E. Qed.

Lemma issued_as_accounts period t inv db0 db db' : more_accounts db0 db -> issued_as period t inv db db' -> issued_as period t inv db0 db'.
Proof.
  intros (([E _] & O & [X _] & [B Qb] & [I Q] & [L _]) & [T _] & [P _] & _) [I1 I2 I3 I4 I5 I6 I7 I8].
  rewrite E in I2. rewrite B in I3. rewrite I in I4. rewrite L in I5. rewrite O, X in I8. split; try done; [|lia].
  unfold entry_recorded, already_posted in *. by rewrite T, P in I6.
Qed.

Lemma bill_ok registry period plan tx inv tx' :
  undisturbed tx -> ledger_inv (tx_db tx) -> Forall (fun r => 0 <= er_quantity r) (rows (events (tx_db tx))) ->
  bill registry now period plan tx = (Ok inv, tx') ->
  ledger_inv (tx_db tx') /\ billed plan period inv (tx_db tx) (tx_db tx').
Proof.
  intros Hq Hi F E. unfold bill in E. st_inv E. destruct v as [usages ea].
  destruct (gatherUsage_ok _ _ _ _ _ Hq F Hv) as (K1 & V1 & -> & Hr & Hea). destruct (decide _) as [|Hne]; [done|].
  st_inv E. apply st_lift_ok in Hv0 as [Hrate ->]. destruct (Rate _ _ _) as [items|] eqn:Er; [|done]. injection Hrate as <-.
  pose proof (Rate_range _ _ _ _ Hr Er) as Hrange. pose proof (due_rated _ _ _ _ _ Hr Er) as Hrated.
  st_inv E. destruct v as [[transfers total] lines].
  destruct (buildEntry_ok _ _ _ _ _ _ _ _ (proj1 K1) (ledger_inv_same _ _ V1 Hi)
    ltac:(eapply Forall_impl; [exact Hrange|]; by intros ? []) Hv0) as (K2 & M2 & L2 & Ht & Hl & rec & Ha & Htr).
  destruct (decide _) as [|Hn]; [done|].
  assert (Hlines : lines = map (due_line period (tx_db tx)) items).
  { rewrite Hl. apply map_ext_in. intros i Hin%list_elem_of_In. unfold item_line, due_line, late. rewrite Hea; [done|].
    unfold due_meters. rewrite order_text_perm, elem_of_remove_dups. destruct Hrated as (_ & Hm & _). apply Hm. by apply list_elem_of_fmap_2. }
  assert (Ht64 : Forall (fun t => in_int64 (tr_Amount t)) transfers).
  { eapply Forall2_Forall_r; [exact Htr|]. apply Forall_forall. intros i Hin t (_ & -> & _). rewrite Forall_forall in Hrange.
    apply list_elem_of_In, List.filter_In in Hin as [Hin%list_elem_of_In _]. by apply Hrange. }
  assert (Hl64 : Forall (fun l => 0 <= il_Quantity l <= max_int64) lines).
  { rewrite Hlines. apply Forall_map. eapply Forall_impl; [exact Hrange|]. by intros i []. }
  destruct (issue_ok period transfers total lines _ _ _ (proj1 K2) L2 Ht64 Hl64 E) as (K3 & L3 & A3 & R1 & R2 & t & Et & Hia).
  pose proof (transitivity (same_more _ _ V1) M2) as M12.
  split; [done|]. exists items, transfers, t, rec. split; [done|]. split; [congruence|]. split; [congruence|].
  assert (Hacc : forall name kind id, has_account name kind id (tx_db tx1) -> has_account name kind id (tx_db tx')).
  { intros name kind id (row & Hin & Hrow). exists row. by rewrite A3. }
  split; [by apply Hacc|]. split; [|split; [|split; [done|split; [by eapply issued_as_accounts|]]]].
  - eapply Forall2_impl; [exact Htr|]. intros i tr (? & ? & ?). split_and!; auto.
  - intros ->. done.
  - destruct M12 as (_ & _ & _ & (new & N) & _). exists new. by rewrite A3.
Qed.

(** ** Lemmas: reading an invoice back *)

(** [inv] is what the tables hold for the period: the row, and its lines in some
    order. *)
Definition stored_invoice (periodID : Z) (inv : Invoice) (db : DB) : Prop :=
  exists row, row ∈ rows (invoices db) /\ iv_period_id row = periodID /\
    in_ID inv = iv_id row /\ in_PeriodID inv = periodID /\ in_TenantID inv = iv_tenant_id row /\ in_Total inv = iv_total row /\
    in_LedgerTransactionID inv = iv_ledger_transaction_id row /\ in_IssuedAt inv = iv_issued_at row /\
    exists found, found ≡ₚ List.filter (fun r => li_invoice_id r =? iv_id row) (rows (invoice_line_items db)) /\
      Forall2 (fun r l => line_row (iv_id row) l r /\ il_Late l = false) found (in_LineItems inv).

Lemma scan_lines_ok found lines lines' :
  Forall (fun r => 0 <= li_quantity r) found -> scan_lines found lines = Ok lines' ->
  lines' = lines ++ map (fun r => mkInvoiceLine (li_meter r) (li_quantity r) (li_amount r) false) found.
Proof.
  intros F. revert lines. induction F as [|r found Hr _ IH]; intros lines; cbn [scan_lines map]; [intros [= <-]; by rewrite app_nil_r|].
  destruct (ParseQuantity _) as [q|] eqn:Eq; [|done]. apply ParseQuantity_iff in Eq as [Eq _]. rewrite numeric_text_value in Eq by done.
  injection Eq as <-. intros ->%IH. by rewrite <- app_assoc.
Qed.

(** Rows gathered by distinct values of a column are all the rows. *)
Lemma regroup_perm (l : list line_item_row) ms :
  NoDup ms -> (forall r, r ∈ l -> li_meter r ∈ ms) ->
  mbind (fun m => List.filter (fun r => bool_decide (li_meter r = m)) l) ms ≡ₚ l.
Proof.
  revert l. induction ms as [|m ms IH]; intros l Nd Hin.
  - destruct l as [|r l]; [done|]. specialize (Hin r ltac:(left)). by apply elem_of_nil in Hin.
  - apply NoDup_cons in Nd as [Hm Nd]. change (mbind ?f (m :: ms)) with (f m ++ mbind f ms). cbn beta.
    assert (Hsplit : List.filter (fun r => bool_decide (li_meter r = m)) l ++ List.filter (fun r => negb (bool_decide (li_meter r = m))) l ≡ₚ l).
    { clear. induction l as [|r l IH]; [done|]. cbn [List.filter]. destruct (bool_decide (li_meter r = m)); cbn [negb].
      - cbn. by rewrite IH.
      - rewrite <- Permutation_middle. by rewrite IH. }
    etrans; [|exact Hsplit]. apply Permutation_app_head.
    etrans; [|apply (IH (List.filter (fun r => negb (bool_decide (li_meter r = m))) l) Nd)]; cycle 1.
    { intros r Hr. apply list_elem_of_In, List.filter_In in Hr as [Hr%list_elem_of_In Hne]. apply Hin, elem_of_cons in Hr as [Er|]; [|done].
      by rewrite bool_decide_true in Hne by done. }
    match goal with |- ?a ≡ₚ ?b => enough (a = b) as -> by done end. clear -Hm. induction ms as [|m' ms IH]; [done|]. apply not_elem_of_cons in Hm as [Hne Hm].
    change (mbind ?f (m' :: ms)) with (f m' ++ mbind f ms). cbn beta. rewrite (IH Hm). f_equal.
    clear -Hne. induction l as [|r l IH]; [done|]. cbn [List.filter].
    destruct (bool_decide_reflect (li_meter r = m)) as [->|]; cbn [negb List.filter].
    + rewrite (bool_decide_false (m = m')) by done. exact IH.
    + destruct (bool_decide (li_meter r = m')); by rewrite IH.
Qed.

Lemma invoiceForPeriod_ok periodID tx inv tx' :
  undisturbed tx -> Forall (fun r => 0 <= li_quantity r) (rows (invoice_line_items (tx_db tx))) ->
  invoiceForPeriod (@tx_exec) periodID tx = (Ok inv, tx') ->
  same_rows (tx_db tx) (tx_db tx') /\ stored_invoice periodID inv (tx_db tx).
Proof.
  intros Hq F E. unfold invoiceForPeriod in E. st_inv E. destruct (inv_exec_ok _ _ _ _ Hq Hv) as (K1 & db1 & V1 & S1 & D1).
  unfold selectInvoiceByPeriod in D1. injection D1 as D1 Db1. destruct v as [row|]; [|done].
  st_inv E. destruct (inv_exec_ok _ _ _ _ (proj1 K1) Hv0) as (K2 & db2 & V2 & S2 & D2). unfold selectLineItems in D2. injection D2 as D2 Db2.
  st_inv E. apply st_lift_ok in Hv1 as [Hs ->]. injection E as <- <-. rewrite <- Db1 in V2, S2. rewrite <- Db2.
  destruct (snap_fields _ _ S1) as (_ & _ & _ & I1 & L1). destruct (snap_fields _ _ S2) as (_ & _ & _ & _ & L2). cbn in I1, L1, L2.
  apply find_In in D1 as [Hin Hp%Z.eqb_eq]. split; [by etrans|]. exists row. rewrite I1 in Hin. cbn.
  set (all := List.filter _ (rows (invoice_line_items db2))) in D2.
  assert (Hperm : v ≡ₚ all).
  { rewrite <- D2. apply regroup_perm; [rewrite order_text_perm; apply NoDup_remove_dups|].
    intros r Hr. rewrite order_text_perm, elem_of_remove_dups. by apply list_elem_of_fmap_2. }
  assert (Hall : all = List.filter (fun r => li_invoice_id r =? iv_id row) (rows (invoice_line_items (tx_db tx)))) by (unfold all; by rewrite L2, L1).
  assert (Hin' : Forall (fun r => 0 <= li_quantity r /\ li_invoice_id r = iv_id row) v).
  { rewrite Hperm, Hall. apply Forall_forall. intros r Hr. apply list_elem_of_In, List.filter_In in Hr as [Hr Hi%Z.eqb_eq].
    rewrite Forall_forall in F. split; [by apply F, list_elem_of_In|done]. }
  apply scan_lines_ok in Hs; [|eapply Forall_impl; [exact Hin'|]; by intros ? []]. split_and!; try done.
  exists v. split; [by rewrite Hperm, Hall|]. rewrite Hs. cbn [app]. clear -Hin'. induction Hin' as [|r l [_ Hi] _ IH]; [constructor|].
  cbn [map]. by constructor.
Qed.

End Steps.

(** ** Lemmas: closing *)

Section Closing.
Context `{Postgres}.
Variable registry : Registry.
Variable now : Time.

(** The period of a row. *)
Definition period_of (r : period_row) : Period :=
  mkPeriod (bp_id r) (bp_tenant_id r) (bp_label r) (bp_starts_at r) (bp_ends_at r) (bp_state r) (default epoch (bp_closed_at r)).

Definition has_period (periodID : Z) (period : Period) (db : DB) : Prop :=
  exists r, r ∈ rows (billing_periods db) /\ bp_id r = periodID /\ period = period_of r.

(** What [Close] relies on: a ledger in order, and no negative quantity. *)
Definition billing_ok (db : DB) : Prop :=
  ledger_inv db /\ Forall (fun r => 0 <= er_quantity r) (rows (events db)) /\
  Forall (fun r => 0 <= li_quantity r) (rows (invoice_line_items db)).

Lemma billing_ok_same db db' : same_rows db db' -> billing_ok db -> billing_ok db'.
Proof.
  intros V (L & E & I). pose proof V as [_ ([Re _] & _ & _ & _ & _ & [Rl _])]. split_and!; [by eapply ledger_inv_same|by rewrite Re|by rewrite Rl].
Qed.

Lemma billed_same plan period inv db0 db db' db1 :
  same_rows db0 db -> billed plan period inv db db' -> same_rows db' db1 -> billed plan period inv db0 db1.
Proof.
  intros V (items & trs & t & rec & H1 & H2 & H3 & H4 & H5 & H6 & H7 & H8 & new & H9) V'.
  pose proof V as [_ ([Re _] & _)]. pose proof V' as [([Ra _] & [Rt _] & [Rp _]) ([Re' _] & Ro & [Rx _] & [Rb Rqb] & [Ri Rq] & [Rl _])].
  pose proof (issued_as_accounts _ _ _ _ _ _ (same_more _ _ V) H8) as [I1 I2 I3 I4 I5 I6 I7 I8].
  assert (Hacc : forall name kind id, has_account name kind id db' -> has_account name kind id db1) by (intros ???; unfold has_account; by rewrite Ra).
  assert (Hdue : due period db = due period db0) by (by apply due_same).
  exists items, trs, t, rec. unfold rated, due_line in *. rewrite Hdue in *. split; [done|]. split; [done|]. split; [done|].
  split; [by apply Hacc|]. split; [|split; [done|split; [done|split]]].
  - eapply Forall2_impl; [exact H5|]. intros i tr (? & ? & ?). split_and!; auto.
  - split; rewrite ?Re', ?Rb, ?Ri, ?Rl, ?Ro, ?Rx; try done; [|lia]. unfold entry_recorded in *. by rewrite Rt, Rp.
  - exists new. rewrite Ra, H9. destruct V as [([-> _] & _) _]. done.
Qed.

Lemma close_tx_ok periodID plan tx r tx' :
  undisturbed tx -> billing_ok (tx_db tx) -> close_tx registry now periodID plan tx = (Ok r, tx') ->
  exists period, has_period periodID period (tx_db tx) /\
  match r with
  | inl inv => pe_State period = Closed /\ same_rows (tx_db tx) (tx_db tx') /\ stored_invoice periodID inv (tx_db tx)
  | inr inv => pe_State period <> Closed /\ ledger_inv (tx_db tx') /\ billed plan period inv (tx_db tx) (tx_db tx')
  end.
Proof.
  intros Hq Hok E. unfold close_tx in E. st_inv E. destruct (inv_exec_ok _ _ _ _ Hq Hv) as (K1 & db1 & V1 & S1 & D1).
  unfold lockPeriod in D1. injection D1 as D1 Db1. st_inv E. apply st_lift_ok in Hv0 as [Hp ->]. destruct v as [row|]; [|done].
  injection Hp as <-. apply find_In in D1 as [Hin Hid%Z.eqb_eq]. destruct (snap_fields _ _ S1) as (_ & _ & B1 & _). cbn in B1.
  rewrite Db1 in V1. pose proof (billing_ok_same _ _ V1 Hok) as (L & F & I). exists (period_of row).
  split; [exists row; by rewrite <- B1|]. fold (period_of row) in E. destruct (decide _) as [Hc|Hc]; st_inv E; injection E as <- <-.
  - change (pe_ID (period_of row)) with (bp_id row) in Hv0. rewrite Hid in Hv0.
    destruct (invoiceForPeriod_ok _ _ _ _ (proj1 K1) I Hv0) as [V2 Hst]. split; [done|]. split; [by etrans|].
    unfold stored_invoice in *. destruct V1 as [_ (_ & _ & _ & _ & [Ri _] & [Rl _])]. by rewrite Ri, Rl in Hst.
  - destruct (bill_ok _ _ _ _ _ _ _ (proj1 K1) L F Hv0) as [L2 Hb]. split; [done|]. split; [done|].
    eapply billed_same; [exact V1|exact Hb|reflexivity].
Qed.

Lemma billed_clears plan period inv db db' : billed plan period inv db db' -> due period db' = [].
Proof.
  intros (items & trs & t & rec & _ & _ & _ & _ & _ & _ & _ & [_ I2 _ _ _ _ _ _] & _). unfold due. rewrite I2. clear.
  induction (rows (events db)) as [|r l IH]; [done|]. cbn [map List.filter]. destruct (unbilled _ _ r) eqn:E; [|by rewrite E].
  unfold unbilled in *. cbn. rewrite andb_false_r. exact IH.
Qed.

End Closing.

(** Every outcome of [Close]. *)
Lemma Close_spec `{Postgres} registry now periodID plan srv r srv' :
  Forall (quiet_for same_rows) (srv_sched srv) -> billing_ok (srv_db srv) ->
  Close registry now periodID plan srv = (r, srv') ->
  Forall (quiet_for same_rows) (srv_sched srv') /\ ledger_inv (srv_db srv') /\
  match r with
  | Issued inv => exists period, has_period periodID period (srv_db srv) /\ pe_State period <> Closed /\
      billed plan period inv (srv_db srv) (srv_db srv') /\ due period (srv_db srv') = []
  | ErrPeriodClosed inv => same_rows (srv_db srv) (srv_db srv') /\ stored_invoice periodID inv (srv_db srv)
  | CloseFailed _ => same_rows (srv_db srv) (srv_db srv') \/
      exists period inv, has_period periodID period (srv_db srv) /\ pe_State period <> Closed /\
        billed plan period inv (srv_db srv) (srv_db srv')
  end.
Proof.
  intros Hq Hok. unfold Close. destruct (BeginTx srv) as [rb srv1] eqn:Eb.
  destruct (BeginTx_spec same_rows ltac:(reflexivity) _ _ _ Hq Eb) as (Q1 & V1 & Hb & _).
  pose proof (billing_ok_same _ _ V1 Hok) as Hok1. pose proof Hok1 as (L1 & _).
  destruct rb as [tx|e]; [|intros [= <- <-]; split; [done|split; [done|by left]]]. subst tx.
  destruct (close_tx registry now periodID plan _) as [r2 tx2] eqn:Ec.
  destruct (close_tx_keeps registry now periodID plan (mkTxn srv1 (srv_db srv1)) _ _ Q1 Ec) as (Q2 & V2 & _). cbn [tx_server tx_db] in *.
  assert (V12 : same_rows (srv_db srv) (srv_db (tx_server tx2))) by (by etrans).
  destruct r2 as [res|e]; cycle 1.
  { intros [= <- <-]. pose proof (same_rows_rollback _ _ (tx_db tx2) V12) as V. split; [done|split; [by eapply ledger_inv_same; [|apply Hok]|by left]]. }
  destruct (close_tx_ok registry now periodID plan (mkTxn srv1 (srv_db srv1)) res tx2 Q1 Hok1 Ec) as (period & Hp & R). cbn [tx_db] in *.
  assert (Hp' : has_period periodID period (srv_db srv)).
  { destruct Hp as (row & Hin & Hrow). exists row. destruct V1 as [_ (_ & _ & _ & [Rb _] & _)]. by rewrite <- Rb. }
  destruct (tx_Commit tx2) as [r3 srv3] eqn:Ecm.
  destruct (tx_Commit_spec same_rows ltac:(reflexivity) same_rows_rollback _ _ _ Q2 Ecm) as (Q3 & V3 & _).
  destruct res as [inv|inv].
  - destruct R as (_ & V23 & Hst). assert (V : same_rows (srv_db srv) (srv_db srv3)).
    { destruct r3; [|destruct V3 as [V3|V3]]; by (etrans; [exact V1|etrans; [exact V23|exact V3]]) || (etrans; [exact V12|exact V3]). }
    assert (L : ledger_inv (srv_db srv3)) by (eapply ledger_inv_same; [exact V|apply Hok]).
    destruct r3; intros [= <- <-]; (split; [done|split; [done|]]); [|by left]. split; [done|].
    unfold stored_invoice in *. destruct V1 as [_ (_ & _ & _ & _ & [Ri _] & [Rl _])]. by rewrite Ri, Rl in Hst.
  - destruct R as (Hst & L2 & Hbill).
    assert (Done : same_rows (tx_db tx2) (srv_db srv3) -> ledger_inv (srv_db srv3) /\ billed plan period inv (srv_db srv) (srv_db srv3)).
    { intros V. split; [by eapply ledger_inv_same|]. eapply billed_same; [exact V1|exact Hbill|exact V]. }
    destruct r3; intros [= <- <-].
    + destruct (Done V3) as [L B]. split; [done|split; [done|]]. exists period. split_and!; try done. by eapply billed_clears.
    + destruct V3 as [V3|V3]; [destruct (Done V3) as [L B]; split; [done|split; [done|right; by exists period, inv]]|].
      split; [done|split; [eapply ledger_inv_same; [|apply Hok]; by etrans|left; by etrans]].
Qed.

(** ** Theorems *)


(** ** Witnesses and what the isolation level allows *)

Section Examples.
#[local] Existing Instance small_Postgres.

Definition registry_example : Registry := mkRegistry {[ "api_calls"%string := mkMeter "api_calls" "call" ]}.

Definition plan_example : Plan := mkPlan "basic" [mkPrice "api_calls" Flat 100 []].

Definition event_row_example (id quantity : Z) (tenant key : string) : event_row :=
  mkEventRow id tenant "api_calls" (quantity * 1000000000) 63900000000000000000 63900000000000000000 key None None.

Definition period_row_example (id : Z) (tenant label : string) : period_row :=
  mkPeriodRow id tenant label 63890000000000000000 63910000000000000000 Open None 63890000000000000000.

Definition billing_example : DB :=
  set_periods (mkTable [period_row_example 1 "acme" "2026-08"] 2)
    (set_events (mkTable [event_row_example 1 5 "acme" "k1"; event_row_example 2 7 "acme" "k2"] 3) empty_db).

Lemma billing_example_ok : billing_ok billing_example.
Proof. split_and!; [by apply ledger_inv_fresh|decide_now|constructor]. Qed.

(** Twelve statements, then a commit whose answer is lost: the invoice is there, and
    closing again returns it. *)
Definition lost_commit : list tick := replicate 12 (mkTick (fun db => db) Run) ++ [mkTick (fun db => db) Lost].


(** Another session inserts an event. *)
Definition late_insert (db : DB) : DB :=
  set_events (table_insert (fun id => event_row_example id 1000 "acme" "k3") (events db)).2 db.


(** Two tenants whose keys coincide. *)
Definition collision_example : DB :=
  set_periods (mkTable [period_row_example 1 "a:b" "c"; period_row_example 2 "a" "b:c"] 3)
    (set_events (mkTable [event_row_example 1 5 "a:b" "k1"; event_row_example 2 7 "a" "k2"] 3) empty_db).


End Examples.
