(* ===== verification/Process.v ===== *)
(** * The life of the process: [cmd/ingest/main.go] over the log on disk

    [System.v] runs the service against any log that keeps its contract. Here it
    runs over the segmented log itself, and may be stopped and started again: the
    process dies at any moment, in the middle of a request too, or the machine loses
    power, and what it finds when it starts is what is left in the directory. *)

From S2P Require Import Prelude Decimal Bytes Json Record LogSpec FileSys Index Segment Recovery GroupCommit BrokerLog Frame LogRecovery PowerLoss Event EventJson Validate Instances Handler DB Consumer System.

(** ** Operations *)

(** [brokerlog.Options{Sync: brokerlog.SyncGroup}] *)
Definition main_options : Options := mkOptions 0 SyncGroup 0.

(** [main] until it serves: the log has to open, and a database that does not
    answer is only warned about. *)
Definition start (disk : World) : res log_err (World * Log) :=
  match OpenDurable main_options (with_faults disk []) with
  | (Ok l, w) => Ok (w, l)
  | (Err e, _) => Err e
  end.

(** [brokerLog.Close()], deferred by [main]: what it reports is dropped. *)
Definition shutdown (log : World * Log) : World :=
  let '(_, (w, _)) := Log_Close log in w.

Section Process.
Context `{Postgres}.
Variable err_text : list byte -> json_err -> string.

#[local] Instance codec : EventCodec := json_EventCodec err_text.

(** ** The process as a state machine *)

Inductive process : Type :=
| Running (w : World) (l : Log) (db : DB) (acks : list (Z * UsageEvent))
| Stopped (disk : World) (db : DB) (acks : list (Z * UsageEvent)).

(** What is in the directory. *)
Definition disk_of (s : process) : World :=
  match s with Running w _ _ _ => w | Stopped disk _ _ => disk end.

Definition db_of (s : process) : DB :=
  match s with Running _ _ db _ | Stopped _ db _ => db end.

Definition acks_of (s : process) : list (Z * UsageEvent) :=
  match s with Running _ _ _ acks | Stopped _ _ acks => acks end.

(** The consumer has not read further than the log that will be found. *)
Definition not_ahead (db : DB) (disk : World) : Prop :=
  forall w l n, start disk = Ok (w, l) -> NextOffset l = Ok n -> position "billing" db <= n.

(** A request is answered with 202, or without touching the log ([pr_request]); or
    it is cut off, or its append is refused by the disk, and the process stops
    before it serves another one ([pr_dies]); the one thing excluded is a crash
    inside the header of a new segment, see [torn_header_is_permanent], and
    [failed_append_resurfaces] shows why a process should not go on after a failed
    append. The last drain after the signal is a [pr_drain] like the others, since
    requests in flight may still be answered after it; the log is closed when both
    are done ([pr_shutdown]). Power may be lost between requests and during one; the
    consumer must not have read a record that is lost then, see
    [consumer_overtakes_flush]. [pr_disk]: from now on the disk fails the calls that
    [faults] says. *)
Inductive pstep : process -> process -> Prop :=
| pr_start disk db acks w l :
    start disk = Ok (w, l) -> pstep (Stopped disk db acks) (Running w l db acks)
| pr_disk w l db acks faults :
    pstep (Running w l db acks) (Running (with_faults w faults) l db acks)
| pr_request w l db acks body now1 now2 resp w' l' n :
    NextOffset l = Ok n -> n < max_int64 ->
    ServeHTTP err_text body now1 now2 (w, l) = (resp, (w', l')) -> resp_status resp = 202 \/ (w', l') = (w, l) ->
    pstep (Running w l db acks) (Running w' l' db (acknowledge body now2 resp acks))
| pr_dies w l db acks body now1 now2 resp w' l' n :
    NextOffset l = Ok n -> n < max_int64 ->
    ServeHTTP err_text body now1 now2 (w, l) = (resp, (w', l')) ->
    (forall c, fs w' !! segmentName n = Some c -> (16 <= length c)%nat) ->
    pstep (Running w l db acks) (Stopped w' db acks)
| pr_dies_power w l db acks body now1 now2 resp w' l' n disk :
    NextOffset l = Ok n -> n < max_int64 ->
    ServeHTTP err_text body now1 now2 (w, l) = (resp, (w', l')) ->
    (forall c, fs w' !! segmentName n = Some c -> (16 <= length c)%nat) ->
    power_lost w' disk -> not_ahead db disk ->
    pstep (Running w l db acks) (Stopped disk db acks)
| pr_power w l db acks disk :
    power_lost w disk -> not_ahead db disk -> pstep (Running w l db acks) (Stopped disk db acks)
| pr_drain w l db acks clock fuel sched w' l' db' :
    Forall (quiet "billing") sched -> consumer_turn clock fuel sched (w, l) db = ((w', l'), db') ->
    pstep (Running w l db acks) (Running w' l' db' acks)
| pr_others w l db acks db' :
    same_view "billing" db db' -> pstep (Running w l db acks) (Running w l db' acks)
| pr_crash w l db acks :
    pstep (Running w l db acks) (Stopped w db acks)
| pr_shutdown w l db acks :
    pstep (Running w l db acks) (Stopped (shutdown (w, l)) db acks).

(** ** Lemmas *)

Definition works (s : World * Log) : Prop := faults s.1 = [].

(** Files and medium are the same. *)
Definition same_disk (w w' : World) : Prop := fs w' = fs w /\ durable w' = durable w.

#[global] Instance same_disk_preorder : PreOrder same_disk.
Proof. split; [done|]. intros a b c [] []. split; congruence. Qed.

Lemma same_disk_fault w f w' : next_fault w = (f, w') -> same_disk w w'.
Proof.
  intros E. pose proof (next_fault_durable w) as D. rewrite E in D. apply next_fault_eq in E as [E _]. by split.
Qed.

Lemma flush_inv_same w w' b bs rs m : same_disk w w' -> flush_inv w b bs rs m -> flush_inv w' b bs rs m.
Proof.
  intros [Ef Ed] [H1 H2 H3]. split; [|unfold flushed; rewrite Ed; exact H2|done].
  intros x Hx Hn. unfold flushed. rewrite Ed, (seg_len_fs w w') by done. by apply H1.
Qed.

Lemma durable_log_same w w' l b rs m : same_disk w w' -> durable_log w l b rs m -> durable_log w' l b rs m.
Proof.
  intros Hs [Hr Hf H3 H4 H5 H6 H7]. split; try done; [|by apply (flush_inv_same w)].
  apply (log_ready_same w w' l l); [apply Hs|done|apply Hr|done].
Qed.

(** Reading changes no file, and meets no fault when there is none. *)
Lemma ready_read w l rs m off r w' : durable_log w l 0 rs m -> Read l off w = (r, w') ->
  durable_log w' l 0 rs m /\ (works (w, l) -> works (w', l)) /\
  (forall i p, off = Z.of_nat i -> rs !! i = Some p -> works (w, l) -> r = Ok p).
Proof.
  intros Hr E. pose proof (Read_spec w l 0 rs off r w' (lr_inv _ _ _ _ (dl_ready _ _ _ _ _ Hr)) E) as (_ & Hout & Hin).
  split; [eapply durable_log_same; [|done]; eapply (resp_Read same_disk); [apply same_disk_fault|exact E]|]. split.
  - intros Hw. destruct (decide (0 <= off < Z.of_nat (length rs))) as [Ho|Ho]; [|by rewrite (proj2 (Hout ltac:(lia)))].
    destruct (lookup_lt_is_Some_2 rs (Z.to_nat off)) as [p Hp]; [lia|]. by apply (Hin (Z.to_nat off) p); [lia|..].
  - intros i p Hi Hp Hw. by apply (Hin i p); [lia|..].
Qed.

(** The consumer only reads. Seen through a log that refuses every append, the
    contract a drain keeps is the one that survives a restart, and, if the drain is
    to be given a disk that works ([strict]), that it still does. *)
Program Definition reader_LogStore (m : nat) (strict : bool) : LogStore (World * Log) := {|
  ls_Append := fun _ s => (Err ErrIO, s);
  ls_Read := fun off '(w, l) => let '(r, w) := Read l off w in (r, (w, l));
  ls_NextOffset := fun '(_, l) => NextOffset l;
  ls_holds := fun s rs => durable_log s.1 s.2 0 rs m /\ (strict = true -> works s)
|}.
Next Obligation. intros m strict s rs p r s' Hh _ [= <- <-]. by left. Qed.
Next Obligation.
  intros m strict [w l] rs off r [w' l'] [Hr Hw] E. cbn in Hr.
  destruct (@ls_Read_law _ broker_LogStore (w, l) rs off r (w', l') (lr_inv _ _ _ _ (dl_ready _ _ _ _ _ Hr)) E) as [_ P]. split; [|exact P].
  cbn in E. destruct (Read l off w) as [r1 w1] eqn:Er. injection E as <- <- <-.
  destruct (ready_read _ _ _ _ _ _ _ Hr Er) as (Hr' & Hw' & _). split; [done|]. intros Es. by apply Hw', Hw.
Qed.
Next Obligation.
  intros m strict [w l] rs [Hr _]. exact (@ls_NextOffset_law _ broker_LogStore (w, l) rs (lr_inv _ _ _ _ (dl_ready _ _ _ _ _ Hr))).
Qed.

(** The tables hold the effect of the log before the stored offset. *)
Definition in_step (rs : list (list byte)) (db : DB) : Prop := exists n, consumed "billing" rs n db /\ Z.of_nat n = position "billing" db.

Lemma ready_drain rs m clock fuel sched w l db w' l' db' :
  Z.of_nat (length rs) <= max_int64 -> durable_log w l 0 rs m -> Forall (quiet "billing") sched -> in_step rs db ->
  consumer_turn clock fuel sched (w, l) db = ((w', l'), db') -> durable_log w' l' 0 rs m /\ in_step rs db'.
Proof.
  intros Hlen Hr Hq (n & Hc & Hn) E. assert (Hr0 : @ls_holds _ (reader_LogStore m false) (w, l) rs) by (by split).
  destruct (@consumer_turn_spec _ (reader_LogStore m false) _ _ rs n clock fuel sched (w, l) db (w', l') db' Hlen Hr0 Hq Hc E)
    as ([Hr' _] & (n' & Hc' & Hn') & _). split; [done|]. exists n'. split; [done|by apply Hn'].
Qed.

(** With a working disk and server a drain leaves nothing behind. *)
Lemma ready_catches_up rs m clock fuel w l db log' db' :
  Z.of_nat (length rs) <= max_int64 -> durable_log w l 0 rs m -> works (w, l) -> in_step rs db ->
  is_Some (consume "billing" (length rs) rs) -> (length rs < fuel)%nat ->
  consumer_turn clock fuel [] (w, l) db = (log', db') -> in_step rs db' /\ position "billing" db' = Z.of_nat (length rs).
Proof.
  intros Hlen Hr Hw (n & Hc & Hn) Hs Hf E. assert (Hr0 : @ls_holds _ (reader_LogStore m true) (w, l) rs) by (by split).
  destruct (@consumer_turn_spec _ (reader_LogStore m true) _ _ rs n clock fuel [] (w, l) db log' db' Hlen Hr0 ltac:(constructor) Hc E)
    as (_ & (n' & Hc' & Hn') & P). split; [exists n'; split; [done|by apply Hn']|]. apply P; [done| |by apply text_ok_ascii|done|done].
  intros [w1 l1] k [Hr1 Hw1] Hk. cbn. destruct (Read l1 (Z.of_nat k) w1) as [r1 w2] eqn:Er. cbn.
  destruct (lookup_lt_is_Some_2 rs k Hk) as [p Hp]. destruct (ready_read _ _ _ _ _ _ _ Hr1 Er) as (_ & _ & R).
  by rewrite (R k p eq_refl Hp (Hw1 eq_refl)).
Qed.

(** The records a directory has, between two lives of the process, the first [m]
    of them on the medium. *)
Definition disk_holds (disk : World) (rs : list (list byte)) (m : nat) : Prop :=
  exists bs, dir_holds seg_disk disk 0 bs rs /\ flush_inv disk 0 bs rs m.

Lemma disk_holds_same w w' rs m : same_disk w w' -> disk_holds w rs m -> disk_holds w' rs m.
Proof. intros Hs (bs & Hd & Hf). exists bs. split; [apply (dir_holds_fs _ w); [apply Hs|done]|by apply (flush_inv_same w)]. Qed.

Lemma ready_disk w l rs m : durable_log w l 0 rs m -> disk_holds w rs m.
Proof. intros [Hr Hf _ _ _ _ _]. exists (bases l). split; [by apply dir_tidy_disk, ready_tidy|done]. Qed.

Lemma shutdown_disk w l rs m : durable_log w l 0 rs m -> disk_holds (shutdown (w, l)) rs m.
Proof.
  intros Hr. unfold shutdown. destruct (Log_Close (w, l)) as [r [w' l']] eqn:E. apply (disk_holds_same w); [|by eapply ready_disk].
  eapply (resp_Log_Close same_disk); [apply same_disk_fault|exact E].
Qed.

(** After a power loss. *)
Lemma power_disk w disk bs rs m : dir_holds seg_tidy w 0 bs rs -> flush_inv w 0 bs rs m -> power_lost w disk ->
  exists rs', disk_holds disk rs' (length rs') /\ rs' `prefix_of` rs /\ (m <= length rs')%nat.
Proof.
  intros Hd Hf Hpl. destruct (power_lost_dir _ _ _ _ _ Hd Hf Hpl) as (bs' & rs' & Hd' & Hpre & Hm). exists rs'. split; [|done].
  exists bs'. split; [done|]. apply flush_inv_all; [by apply (pl_durable w)|done].
Qed.

(** The process always starts again, with the records of the directory. *)
Lemma start_spec disk rs m : disk_holds disk rs m -> exists w l, start disk = Ok (w, l) /\ durable_log w l 0 rs m /\ works (w, l).
Proof.
  unfold start. change (OpenDurable main_options) with (BrokerLog.Open main_options). intros (bs & Hd & Hf).
  destruct (Open_durable_log (with_faults disk []) bs rs m main_options eq_refl) as (l & w & -> & Hl & Hw); [by apply (dir_holds_fs _ disk)|
    by apply (flush_inv_same disk)|done|done|]. by exists w, l.
Qed.

Lemma ready_next w l rs m n : durable_log w l 0 rs m -> NextOffset l = Ok n -> n = Z.of_nat (length rs).
Proof. intros [Hr _ _ _ _ _ _] E. rewrite (NextOffset_spec w l 0 rs (lr_inv _ _ _ _ Hr)) in E. injection E as <-. lia. Qed.

Lemma not_ahead_le db disk rs m : disk_holds disk rs m -> not_ahead db disk -> position "billing" db <= Z.of_nat (length rs).
Proof.
  intros Hd Hn. destruct (start_spec disk rs m Hd) as (w & l & Hs & Hl & _). apply (Hn w l); [done|].
  by rewrite (NextOffset_spec w l 0 rs (lr_inv _ _ _ _ (dl_ready _ _ _ _ _ Hl))).
Qed.

(** ** The invariant *)

(** In memory or on disk, the process has the records [rs], the first [m] flushed. *)
Definition state_holds (s : process) (rs : list (list byte)) (m : nat) : Prop :=
  match s with
  | Running w l _ _ => durable_log w l 0 rs m
  | Stopped disk _ _ => disk_holds disk rs m
  end.

(** Every promise is among the flushed records. *)
Definition kept (rs : list (list byte)) (m : nat) (acks : list (Z * UsageEvent)) : Prop :=
  promised err_text rs acks /\ forall k e, (k, e) ∈ acks -> k < Z.of_nat m.

Definition process_inv (s : process) : Prop :=
  exists rs m, state_holds s rs m /\ Z.of_nat (length rs) <= max_int64 /\ in_step rs (db_of s) /\ kept rs m (acks_of s).

Lemma state_disk s rs m : state_holds s rs m -> disk_holds (disk_of s) rs m.
Proof. destruct s as [w l db acks|disk db acks]; [apply ready_disk|done]. Qed.

Lemma in_step_app rs x db : in_step rs db -> in_step (rs ++ x) db.
Proof. intros (n & Hc & Hn). exists n. split; [by apply consumed_app|done]. Qed.

Lemma in_step_prefix rs rs' db : rs' `prefix_of` rs -> in_step rs db -> position "billing" db <= Z.of_nat (length rs') -> in_step rs' db.
Proof.
  intros [x ->] (n & (H1 & H2 & H3) & Hn) Hp. exists n. split; [|done]. split_and!; [lia|lia|lia|].
  rewrite <- H3. symmetry. apply consume_app. lia.
Qed.

Lemma kept_app rs x m m' acks : kept rs m acks -> (m <= m')%nat -> kept (rs ++ x) m' acks.
Proof. intros [H1 H2] Hm. split; [by apply promised_app|]. intros k e Hk. specialize (H2 k e Hk). lia. Qed.

Lemma kept_prefix rs rs' m acks : kept rs m acks -> rs' `prefix_of` rs -> (m <= length rs')%nat -> kept rs' (length rs') acks.
Proof.
  intros [H1 H2] [x ->] Hm. split; [|intros k e Hk; specialize (H2 k e Hk); lia]. intros k e Hk. specialize (H2 k e Hk).
  destruct (H1 k e Hk) as (Hk0 & record & Hr & Hd). split; [done|]. exists record. split; [|done]. rewrite lookup_app_l in Hr by lia. done.
Qed.

(** An append that succeeds leaves the log ready; any other leaves a directory
    that opens, with at most the one record more. *)
Lemma ready_append w l rs m p r w' l' : durable_log w l 0 rs m -> Z.of_nat (length rs) < max_int64 -> Append p (w, l) = (r, (w', l')) ->
  (forall off, r = Ok off -> (forall c, fs w' !! segmentName (Z.of_nat (length rs)) = Some c -> (16 <= length c)%nat) /\
     off = Z.of_nat (length rs)) /\
  ((forall c, fs w' !! segmentName (Z.of_nat (length rs)) = Some c -> (16 <= length c)%nat) ->
   (is_ok r = true -> durable_log w' l' 0 (rs ++ [p]) (S (length rs))) /\
   exists bs rs' m', dir_holds seg_tidy w' 0 bs rs' /\ flush_inv w' 0 bs rs' m' /\ (m <= m')%nat /\ (rs' = rs \/ rs' = rs ++ [p])).
Proof.
  intros Hr Hlen E. split.
  - intros off ->. pose proof Hr as [Hready _ _ Hmax _ _ _].
    destruct (Append_spec w l 0 rs p _ w' l' (lr_inv _ _ _ _ Hready) ltac:(lia) ltac:(int_lia) E) as (_ & (-> & _) & _). split; [|done].
    pose proof (Append_ready w l 0 rs p _ w' l' Hready ltac:(lia) ltac:(int_lia) Hmax E) as Hready'. intros c. by apply (ready_header w' l' 0 (rs ++ [p])).
  - intros Htorn. destruct (Append_durable w l 0 rs p r w' l' m Hr ltac:(lia) ltac:(int_lia) Htorn E) as [(bs & rs' & m' & Hd & Hf & Hm & Hor & _) Hok].
    split; [exact Hok|]. by exists bs, rs', m'.
Qed.

Lemma kept_accepted body now1 now2 record rs m acks : accepts body now1 now2 record -> kept rs m acks -> (m <= length rs)%nat ->
  kept (rs ++ [record]) (S (length rs)) (acknowledge body now2 (mkResponse 202 (acceptedResponse (Z.of_nat (length rs)))) acks).
Proof.
  intros Hacc [H1 H2] Hm. split; [by apply (acknowledge_accepted err_text body now1)|].
  unfold acknowledge. destruct (decode_request body) as [req|e]; [|intros k e' Hk; specialize (H2 k e' Hk); lia]. cbn [resp_body].
  intros k e [Hk|Hk%list_elem_of_singleton]%elem_of_app; [specialize (H2 k e Hk); lia|]. injection Hk as -> _. lia.
Qed.

Lemma pr_request_inv w l db acks body now1 now2 resp w' l' n :
  process_inv (Running w l db acks) -> NextOffset l = Ok n -> n < max_int64 ->
  ServeHTTP err_text body now1 now2 (w, l) = (resp, (w', l')) -> resp_status resp = 202 \/ (w', l') = (w, l) ->
  process_inv (Running w' l' db (acknowledge body now2 resp acks)).
Proof.
  intros (rs & m & Hr & Hlen & Hc & Ha) Hn Hmax Hs Hor. cbn in Hr, Hc, Ha. rewrite (ready_next _ _ _ _ _ Hr Hn) in Hmax.
  apply ServeHTTP_appends in Hs as [[E (code & detail & Hb)]|(record & r & Hacc & Hap & Hresp)].
  { injection E as -> ->. rewrite (acknowledge_refused _ _ _ _ code detail Hb). by exists rs, m. }
  destruct (ready_append _ _ _ _ _ _ _ _ Hr Hmax Hap) as [Hok Hdie]. destruct r as [off|e].
  - subst resp. destruct (Hok off eq_refl) as [Htorn ->]. exists (rs ++ [record]), (S (length rs)). split; [by apply (proj1 (Hdie Htorn))|].
    split; [rewrite length_app; cbn; lia|]. split; [by apply in_step_app|].
    apply (kept_accepted body now1 now2 record rs m); [done|done|apply (fi_len _ _ _ _ _ (dl_flush _ _ _ _ _ Hr))].
  - destruct Hresp as (code & detail & ->). destruct Hor as [Hst|E]; [done|]. injection E as -> ->.
    erewrite acknowledge_refused by reflexivity. by exists rs, m.
Qed.

(** The directory a request leaves, however it ended. *)
Lemma request_leaves w l db acks body now1 now2 resp w' l' n :
  process_inv (Running w l db acks) -> NextOffset l = Ok n -> n < max_int64 ->
  ServeHTTP err_text body now1 now2 (w, l) = (resp, (w', l')) ->
  (forall c, fs w' !! segmentName n = Some c -> (16 <= length c)%nat) ->
  exists bs rs m, dir_holds seg_tidy w' 0 bs rs /\ flush_inv w' 0 bs rs m /\ Z.of_nat (length rs) <= max_int64 /\ in_step rs db /\ kept rs m acks.
Proof.
  intros (rs & m & Hr & Hlen & Hc & Ha) Hn Hmax Hs Htorn. cbn in Hr, Hc, Ha.
  rewrite (ready_next _ _ _ _ _ Hr Hn) in Hmax, Htorn.
  apply ServeHTTP_appends in Hs as [[E _]|(record & r & _ & Hap & _)].
  { injection E as -> ->. exists (bases l), rs, m. pose proof Hr as [Hready Hf _ _ _ _ _]. by split_and!; [apply ready_tidy|..]. }
  destruct (ready_append _ _ _ _ _ _ _ _ Hr Hmax Hap) as [_ Hdie]. destruct (Hdie Htorn) as (_ & bs & rs' & m' & Hd & Hf & Hm & Hor).
  exists bs, rs', m'. split; [done|]. split; [done|]. destruct Hor as [-> | ->].
  - split_and!; [done|done|]. rewrite <- (app_nil_r rs). by apply (kept_app rs [] m).
  - split_and!; [rewrite length_app; cbn; lia|by apply in_step_app|by apply (kept_app rs _ m)].
Qed.

Lemma power_inv w disk bs rs m db acks :
  dir_holds seg_tidy w 0 bs rs -> flush_inv w 0 bs rs m -> Z.of_nat (length rs) <= max_int64 -> in_step rs db -> kept rs m acks ->
  power_lost w disk -> not_ahead db disk -> process_inv (Stopped disk db acks).
Proof.
  intros Hd Hf Hlen Hc Ha Hpl Hna. destruct (power_disk w disk bs rs m Hd Hf Hpl) as (rs' & Hd' & Hpre & Hm).
  exists rs', (length rs'). split; [done|]. split; [apply prefix_length in Hpre; lia|].
  split; [by apply (in_step_prefix rs); [..|by apply (not_ahead_le db disk rs' (length rs'))]|by apply (kept_prefix rs rs' m)].
Qed.

Lemma process_reachable_inv s0 s : process_inv s0 -> rtc pstep s0 s -> process_inv s.
Proof.
  intros I Hr. induction Hr as [s|s1 s2 s3 Hs _ IH]; [done|]. apply IH. clear IH s3.
  destruct Hs as [disk db acks w l E|w l db acks faults| |w l db acks body now1 now2 resp w' l' n Hn Hmax Hs Ht
    |w l db acks body now1 now2 resp w' l' n disk Hn Hmax Hs Ht Hpl Hna|w l db acks disk Hpl Hna
    |w l db acks clock fuel sched w' l' db' Hq E|w l db acks db' Hv|w l db acks|w l db acks]; [| |by eapply pr_request_inv|..].
  3: destruct (request_leaves _ _ _ _ _ _ _ _ _ _ _ I Hn Hmax Hs Ht) as (bs & rs & m & Hd & Hf & Hlen & Hc & Ha);
    exists rs, m; split_and!; [by exists bs; split; [apply dir_tidy_disk|]|done..].
  3: destruct (request_leaves _ _ _ _ _ _ _ _ _ _ _ I Hn Hmax Hs Ht) as (bs & rs & m & Hd & Hf & Hlen & Hc & Ha); by apply (power_inv w' disk bs rs m).
  all: destruct I as (rs & m & Hh & Hlen & Hc & Ha).
  - destruct (start_spec disk rs m Hh) as (w1 & l1 & E1 & Hr1 & _). rewrite E1 in E. injection E as -> ->. by exists rs, m.
  - exists rs, m. split; [by apply (durable_log_same w)|done].
  - pose proof Hh as [Hready Hf _ _ _ _ _]. by apply (power_inv w disk (bases l) rs m); [apply ready_tidy|..].
  - destruct (ready_drain rs m _ _ _ _ _ _ _ _ _ Hlen Hh Hq Hc E) as [Hr' Hc']. by exists rs, m.
  - exists rs, m. split; [done|]. split; [done|]. split; [|done]. destruct Hv as [V P]. destruct Hc as (n & Hc & Hn). exists n.
    unfold consumed in *. cbn in *. by rewrite V, P.
  - exists rs, m. split; [by eapply ready_disk|done].
  - exists rs, m. split; [by eapply shutdown_disk|done].
Qed.

Lemma empty_disk_holds : disk_holds (mkWorld ∅ []) [] 0.
Proof.
  assert (D : dir_holds seg_disk (mkWorld ∅ []) 0 [] []) by (split; [constructor|done|by intros n [? ?]|done]).
  exists []. split; [done|by apply (flush_inv_all _ 0 [] [])].
Qed.

(** ** Theorem *)


End Process.

(** ** Witness *)

Section Examples.
#[local] Existing Instance small_Postgres.
#[local] Instance codec_process : EventCodec := json_EventCodec no_text.

Definition no_log : Log := mkLog main_options [] 0 0 newSyncCoordinator.

Definition life (disk : World) : World * Log := from_ok (mkWorld ∅ [], no_log) (start disk).

Definition started : World * Log := life (mkWorld ∅ []).

(** The first request is answered, the second one is cut off by the disk. *)
Definition served : World * Log := (ServeHTTP no_text body_example clock_example clock_example started).2.

Definition cut_off : World * Log :=
  (ServeHTTP no_text body_example clock_example clock_example (with_faults served.1 [Fault 20], served.2)).2.

Definition dead : process := Stopped cut_off.1 empty_db [(0, sent)].

Lemma dead_reachable : rtc (pstep no_text) (Stopped (mkWorld ∅ []) empty_db []) dead.
Proof.
  apply (rtc_l _ _ (Running started.1 started.2 empty_db [])).
  { apply pr_start. vm_compute. reflexivity. }
  apply (rtc_l _ _ (Running served.1 served.2 empty_db [(0, sent)])).
  { refine (pr_request no_text started.1 started.2 empty_db [] body_example clock_example clock_example (mkResponse 202 (acceptedResponse 0))
      served.1 served.2 0 ltac:(vm_compute; reflexivity) ltac:(vm_compute; reflexivity) ltac:(vm_compute; reflexivity) ltac:(left; reflexivity)). }
  apply (rtc_l _ _ (Running (with_faults served.1 [Fault 20]) served.2 empty_db [(0, sent)])); [apply pr_disk|].
  apply rtc_once. refine (pr_dies no_text _ served.2 empty_db _ body_example clock_example clock_example _ cut_off.1 cut_off.2 1 ltac:(vm_compute; reflexivity) ltac:(vm_compute; reflexivity) _ _).
  - unfold cut_off. rewrite <- surjective_pairing. apply surjective_pairing.
  - intros c. vm_compute. discriminate.
Qed.

Definition restarted : World * Log := life (disk_of dead).

Definition first : list byte := default [] (event_Encode sent).

Lemma first_record : (Read restarted.2 0 restarted.1).1 = Ok first.
Proof. vm_compute. reflexivity. Qed.

Lemma first_storable : is_Some (consume "billing" (length [first]) [first]).
Proof. vm_compute. by eexists. Qed.


(** ** The consumer against the flush *)

Definition body_second : list byte := json_text
  "{`tenant_id`:`acme`,`meter`:`api_calls`,`quantity`:`2`,`occurred_at`:`2026-08-03T13:00:00+02:00`,`idempotency_key`:`key-2`}".

Definition body_third : list byte := json_text
  "{`tenant_id`:`acme`,`meter`:`api_calls`,`quantity`:`3`,`occurred_at`:`2026-08-03T13:00:00+02:00`,`idempotency_key`:`key-3`}".

(** The write of the second record succeeds, its flush does not. *)
Definition unflushed : response * (World * Log) :=
  ServeHTTP no_text body_second clock_example clock_example (with_faults served.1 [NoFault; Fault 0], served.2).

Definition ahead : (World * Log) * DB := consumer_turn no_clock 5 [] unflushed.2 empty_db.

Definition after_power : World := mkWorld (durable ahead.1.1) [].

Definition reborn : World * Log := life after_power.

Definition third : response * (World * Log) := ServeHTTP no_text body_third clock_example clock_example reborn.

Definition skipped : (World * Log) * DB := consumer_turn no_clock 5 [] third.2 ahead.2.

Lemma after_power_lost : power_lost ahead.1.1 after_power.
Proof. apply only_flushed. vm_compute. reflexivity. Qed.

Lemma overtaken :
  (unflushed.1, position "billing" ahead.2, is_ok (start after_power), NextOffset reborn.2, third.1, NextOffset skipped.1.2,
    position "billing" skipped.2, map er_idempotency_key (rows (events skipped.2)), rows (dead_letters skipped.2)) =
  (writeError internalError, 2, true, Ok 1, mkResponse 202 (acceptedResponse 1), Ok 2, 2, ["key-1"; "key-2"], []).
Proof. vm_compute. reflexivity. Qed.


End Examples.
