(* ===== verification/Chaos.v ===== *)
(** * The chaos suite: [chaos/harness.go] and [chaos/invariants.go]

    A whole LedgerLine with the levers that break it, and the checks of its
    invariants. A harness is the tables, the log and the keys that were answered
    with 202; an operation runs its statements under a schedule of the server's
    behaviour, as everywhere. [ChaosChecks.v] shows what the checks find. *)

From S2P Require Import Prelude Decimal Amount Quantity Ledger Pricing Bytes Unicode Json Record LogSpec GoTime TimeText Event EventJson Validate Instances Handler DB Consumer Store Invoicing System.

(** ** Constants *)

Definition UnitPrice : string := "0.01".

Definition EventQuantity : string := "1".

Definition Tenant : string := "acme".

Definition MeterName : string := "api_calls".

Definition PeriodLabel : string := "2026-08".

Definition periodStart : Time := days 2026 8 1 * ns_per_day.

Definition periodEnd : Time := days 2026 9 1 * ns_per_day.

Definition occurredAt : Time := days 2026 8 3 * ns_per_day + 11 * 3600000000000.

(** ** Formatting *)

(** [Format(time.RFC3339)]: no fraction. *)
Definition RFC3339 (t : Time) : string := fmt_clock (t / 1000000000 * 1000000000) "Z".

Section Quote.
(** [strconv.IsPrint] beyond ASCII. *)
Variable IsPrint : Z -> bool.

Fixpoint hex_digits (n : nat) (v : Z) : list byte :=
  match n with
  | O => []
  | S n => hex_digits n (v / 16) ++ [hex_char (v mod 16)]
  end.

Definition is_print (r : Z) : bool := if r <? 128 then (32 <=? r) && (r <? 127) else IsPrint r.

Definition quote_rune (r : Z) : list byte :=
  if r =? 34 then [backslash; quote]
  else if r =? 92 then [backslash; backslash]
  else if is_print r then EncodeRune r
  else if r =? 7 then [backslash; "a"%byte]
  else if r =? 8 then [backslash; "b"%byte]
  else if r =? 12 then [backslash; "f"%byte]
  else if r =? 10 then [backslash; "n"%byte]
  else if r =? 13 then [backslash; "r"%byte]
  else if r =? 9 then [backslash; "t"%byte]
  else if r =? 11 then [backslash; "v"%byte]
  else if (r <? 32) || (r =? 127) then backslash :: "x"%byte :: hex_digits 2 r
  else if r <? 65536 then backslash :: "u"%byte :: hex_digits 4 r
  else backslash :: "U"%byte :: hex_digits 8 r.

Fixpoint quote_loop (fuel : nat) (s : list byte) : list byte :=
  match fuel, s with
  | S fuel, b :: _ =>
      let '(r, size) := DecodeRune s in
      if (r =? RuneError) && (size =? 1)%nat then backslash :: "x"%byte :: hex_digits 2 (byte_val b) ++ quote_loop fuel (drop 1 s)
      else quote_rune r ++ quote_loop fuel (drop size s)
  | _, _ => []
  end.

(** [%q] of a string. *)
Definition Quote (s : string) : list byte := quote :: quote_loop (String.length s) (bytes_of s) ++ [quote].

(** The body [Post] sends. *)
Definition post_body (key : string) : list byte :=
  print_object [(bytes_of "tenant_id", Quote Tenant); (bytes_of "meter", Quote MeterName); (bytes_of "quantity", Quote EventQuantity);
                (bytes_of "occurred_at", Quote (RFC3339 occurredAt)); (bytes_of "idempotency_key", Quote key)].
End Quote.

(** ** Data *)

Record Violation : Type := mkViolation {
  vi_Invariant : string;
  vi_Detail : string
}.

Definition Violation_Error (v : Violation) : string := vi_Invariant v +:+ " violated: " +:+ vi_Detail v.

Record Harness (L : Type) : Type := mkHarness {
  h_DB : DB;
  h_Log : L;
  h_Registry : Registry;
  h_Plan : Plan;
  h_accepted : gset string
}.
Arguments mkHarness {L} _ _ _ _ _.
Arguments h_DB {L} _.
Arguments h_Log {L} _.
Arguments h_Registry {L} _.
Arguments h_Plan {L} _.
Arguments h_accepted {L} _.

Definition with_DB {L} (h : Harness L) (db : DB) : Harness L :=
  mkHarness db (h_Log h) (h_Registry h) (h_Plan h) (h_accepted h).

Definition with_Log {L} (h : Harness L) (log : L) : Harness L :=
  mkHarness (h_DB h) log (h_Registry h) (h_Plan h) (h_accepted h).

(** What becomes of a request: it is answered, its answer is lost, or it never
    arrives. *)
Inductive delivery : Type :=
| Delivered
| ReplyLost
| NotSent.

(** [consumer.New("billing", l.Log, db, consumer.Options{BatchSize: 7})] *)
Definition chaos_consumer : Consumer := Consumer_New "billing" 7.

(** ** Statements *)

Section Statements.
Context `{Postgres}.

(** [LEAST]: the offset moves back or stays. *)
Definition rewindOffset (to : Z) : stmt unit := fun db =>
  if max_int64 <? to then Err ErrInvalidText
  else Ok (tt, set_offsets (alter (fun '(next, at_) => (Z.min next to, at_)) "billing"%string (consumer_offsets db)) db).

Definition terminateBackends : stmt unit := fun db => Ok (tt, db).

Definition countEvents : stmt Z := fun db => Ok (Z.of_nat (length (rows (events db))), db).

Definition countBilled : stmt Z := fun db =>
  Ok (Z.of_nat (length (List.filter (fun r => bool_decide (is_Some (er_invoice_id r))) (rows (events db)))), db).

Definition countDeadLetters : stmt Z := fun db => Ok (Z.of_nat (length (rows (dead_letters db))), db).

(** The rows of either table that hold the key. *)
Definition countKey (key : string) : stmt Z := fun db =>
  if negb (text_ok key) then Err ErrInvalidText
  else
    Ok (Z.of_nat (length (List.filter (fun r => bool_decide (er_idempotency_key r = key)) (rows (events db)))) +
        Z.of_nat (length (List.filter (fun r => bool_decide (dl_idempotency_key r = Some key)) (rows (dead_letters db)))), db).

(** Events that point at an invoice that does not exist. *)
Definition countOrphaned : stmt Z := fun db =>
  Ok (Z.of_nat (length (List.filter (fun e =>
        match er_invoice_id e with
        | Some id => negb (existsb (fun i => iv_id i =? id) (rows (invoices db)))
        | None => false
        end) (rows (events db)))), db).

Definition line_sum (db : DB) (invoiceID : Z) : Z :=
  sumZ (map li_amount (List.filter (fun l => li_invoice_id l =? invoiceID) (rows (invoice_line_items db)))).

(** Invoices that disagree with their lines. *)
Definition countMismatched : stmt Z := fun db =>
  Ok (Z.of_nat (length (List.filter (fun i => negb (iv_total i =? line_sum db (iv_id i))) (rows (invoices db)))), db).

Definition selectInvoices : stmt (list (Z * Z)) := fun db =>
  Ok (map (fun i => (iv_id i, iv_total i)) (rows (invoices db)), db).

End Statements.

(** ** Operations *)

Section Harness.
Context {L : Type} `{LogStore L} `{Postgres}.

(** The texts of wrapped errors, and which runes [%q] prints as they are. *)
Variable err_text : list byte -> json_err -> string.
Variable db_text : db_err -> string.
Variable store_text : store_err -> string.
Variable consumer_text : consumer_err -> string.
Variable IsPrint : Z -> bool.

#[local] Instance chaos_codec : EventCodec := json_EventCodec err_text.

(** [None] is [t.Fatalf]. *)
Definition NewHarness (db : DB) (l : L) : option (Harness L) :=
  match NewRegistry [mkMeter MeterName "call"], ParseAmount UnitPrice with
  | Ok registry, Ok unitPrice =>
      Some (mkHarness db l registry (mkPlan "chaos" [mkPrice MeterName Flat unitPrice []]) ∅)
  | _, _ => None
  end.

(** The status, or an error. *)
Definition Harness_Post (key : string) (now1 now2 : Time) (d : delivery) (h : Harness L) : option Z * Harness L :=
  match d with
  | NotSent => (None, h)
  | _ =>
      let '(resp, log) := ServeHTTP err_text (post_body IsPrint key) now1 now2 (h_Log h) in
      let h := with_Log h log in
      match d with
      | Delivered =>
          (Some (resp_status resp),
           if resp_status resp =? 202
           then mkHarness (h_DB h) (h_Log h) (h_Registry h) (h_Plan h) ({[key]} ∪ h_accepted h)
           else h)
      | _ => (None, h)
      end
  end.

Definition AcceptedCount (h : Harness L) : Z := Z.of_nat (size (h_accepted h)).

Definition AcceptedKeys (h : Harness L) : list string := elements (h_accepted h).

Definition ExpectedTotal (h : Harness L) : option Amount :=
  match ParseAmount UnitPrice with
  | Ok unit => Some (wrap64 (unit * AcceptedCount h))
  | Err _ => None
  end.

Definition caught_up (log : L) : ST server consumer_err bool := fun srv =>
  match Consumer_NextOffset chaos_consumer srv with
  | (Err e, srv) => (Err e, srv)
  | (Ok next, srv) =>
      match ls_NextOffset log with
      | Ok end_ => (Ok (end_ <=? next), srv)
      | Err e => (Err (ErrLogEnd e), srv)
      end
  end.

Definition CaughtUp (h : Harness L) : ST server consumer_err bool := caught_up (h_Log h).

(** Up to [attempts] drains; whether one of them caught up. *)
Fixpoint drain_attempts (attempts fuel : nat) (clock : Z -> Time) (log : L) (srv : server) : bool * (L * server) :=
  match attempts with
  | O => (false, (log, srv))
  | S attempts =>
      match Drain chaos_consumer clock fuel log srv with
      | (Some (_, None), (log, srv)) =>
          match caught_up log srv with
          | (Ok true, srv) => (true, (log, srv))
          | (_, srv) => drain_attempts attempts fuel clock log srv
          end
      | (_, (log, srv)) => drain_attempts attempts fuel clock log srv
      end
  end.

(** [false] is [t.Fatal]. *)
Definition DrainFully (fuel : nat) (clock : Z -> Time) (sched : list tick) (h : Harness L) : bool * Harness L :=
  let '(ok, (log, srv)) := drain_attempts 60 fuel clock (h_Log h) (mkServer (h_DB h) sched) in
  (ok, with_DB (with_Log h log) (srv_db srv)).

(** Errors are logged. *)
Definition KillDatabaseConnections (sched : list tick) (h : Harness L) : Harness L :=
  with_DB h (srv_db (db_exec terminateBackends (mkServer (h_DB h) sched)).2).

Definition RewindConsumer (to : Z) (sched : list tick) (h : Harness L) : Harness L :=
  with_DB h (srv_db (db_exec (rewindOffset to) (mkServer (h_DB h) sched)).2).

Definition AppendDuplicate (offset : Z) (h : Harness L) : Harness L :=
  match ls_Read offset (h_Log h) with
  | (Err _, log) => with_Log h log
  | (Ok record, log) => with_Log h (ls_Append record log).2
  end.

(** [None] is [t.Fatalf]. *)
Definition Harness_EnsurePeriod (now : Time) (sched : list tick) (h : Harness L) : option Period * Harness L :=
  match EnsurePeriod now Tenant PeriodLabel periodStart periodEnd (mkServer (h_DB h) sched) with
  | (Ok period, srv) => (Some period, with_DB h (srv_db srv))
  | (Err _, srv) => (None, with_DB h (srv_db srv))
  end.

Fixpoint close_attempts (attempts : nat) (now : Time) (periodID : Z) (registry : Registry) (plan : Plan) (srv : server)
  : option Invoice * server :=
  match attempts with
  | O => (None, srv)
  | S attempts =>
      match Close registry now periodID plan srv with
      | (Issued invoice, srv) | (ErrPeriodClosed invoice, srv) => (Some invoice, srv)
      | (CloseFailed _, srv) => close_attempts attempts now periodID registry plan srv
      end
  end.

Definition CloseWithRetries (now : Time) (periodID : Z) (sched : list tick) (h : Harness L) : option Invoice * Harness L :=
  let '(invoice, srv) := close_attempts 60 now periodID (h_Registry h) (h_Plan h) (mkServer (h_DB h) sched) in
  (invoice, with_DB h (srv_db srv)).

(** A count, zero when it cannot be read. *)
Definition count_or_zero (q : stmt Z) (srv : server) : Z * server :=
  match db_exec q srv with
  | (Ok n, srv) => (n, srv)
  | (Err _, srv) => (0, srv)
  end.

Definition Diagnose (h : Harness L) (srv : server) : string * server :=
  let '(evs, srv) := count_or_zero countEvents srv in
  let '(billed, srv) := count_or_zero countBilled srv in
  let '(dead, srv) := count_or_zero countDeadLetters srv in
  let '(consumerOffset, srv) :=
    match Consumer_NextOffset chaos_consumer srv with (Ok n, srv) => (n, srv) | (Err _, srv) => (0, srv) end in
  let records := match ls_NextOffset (h_Log h) with Ok n => n | Err _ => 0 end in
  ("  acknowledged: " +:+ fmt_d (AcceptedCount h) +:+ String "010" ("  log records:  " +:+ fmt_d records +:+ String "010" (
   "  consumer at:  " +:+ fmt_d consumerOffset +:+ String "010" ("  event rows:   " +:+ fmt_d evs +:+ String "010" (
   "  billed rows:  " +:+ fmt_d billed +:+ String "010" ("  dead letters: " +:+ fmt_d dead))))), srv).

(** ** The checks *)

Definition CheckMoneyConserved (srv : server) : option Violation * server :=
  match TrialBalance srv with
  | (Err e, srv) => (Some (mkViolation "I1" ("could not read trial balance: " +:+ store_text e)), srv)
  | (Ok total, srv) =>
      (if total =? 0 then None else Some (mkViolation "I1" ("trial balance is " +:+ Amount_String total +:+ ", want 0")), srv)
  end.

Definition CheckNoDoubleBilling (h : Harness L) (srv : server) : option Violation * server :=
  match db_exec countEvents srv with
  | (Err e, srv) => (Some (mkViolation "I2" ("could not count events: " +:+ db_text e)), srv)
  | (Ok rows, srv) =>
      let accepted := AcceptedCount h in
      (if accepted <? rows
       then Some (mkViolation "I2" (fmt_d rows +:+ " event rows for " +:+ fmt_d accepted +:+ " accepted keys"))
       else None, srv)
  end.

Fixpoint look_up_keys (keys : list string) (srv : server) : option Violation * server :=
  match keys with
  | [] => (None, srv)
  | key :: keys =>
      let shown := String.string_of_list_byte (Quote IsPrint key) in
      match db_exec (countKey key) srv with
      | (Err e, srv) => (Some (mkViolation "I3" ("could not look up " +:+ shown +:+ ": " +:+ db_text e)), srv)
      | (Ok found, srv) =>
          if found =? 0
          then (Some (mkViolation "I3" ("key " +:+ shown +:+ " was acknowledged with 202 but is in neither events nor dead_letters")), srv)
          else look_up_keys keys srv
      end
  end.

Definition CheckNothingSilentlyLost (h : Harness L) (srv : server) : option Violation * server :=
  match CaughtUp h srv with
  | (Err e, srv) => (Some (mkViolation "I3" ("could not read consumer offset: " +:+ consumer_text e)), srv)
  | (Ok false, srv) => (None, srv)
  | (Ok true, srv) => look_up_keys (AcceptedKeys h) srv
  end.

Definition CheckEventsBilledAtMostOnce (srv : server) : option Violation * server :=
  match db_exec countOrphaned srv with
  | (Err e, srv) => (Some (mkViolation "I2" ("could not check event billing: " +:+ db_text e)), srv)
  | (Ok orphaned, srv) =>
      if negb (orphaned =? 0)
      then (Some (mkViolation "I2" (fmt_d orphaned +:+ " events point at an invoice that does not exist")), srv)
      else
        match db_exec countMismatched srv with
        | (Err e, srv) => (Some (mkViolation "I1" ("could not check invoice totals: " +:+ db_text e)), srv)
        | (Ok mismatched, srv) =>
            (if negb (mismatched =? 0)
             then Some (mkViolation "I1" (fmt_d mismatched +:+ " invoices disagree with their own line items"))
             else None, srv)
        end
  end.

(** Each check in turn. *)
Fixpoint run_checks (checks : list (server -> option Violation * server)) (srv : server) : list Violation * server :=
  match checks with
  | [] => ([], srv)
  | check :: checks =>
      let '(v, srv) := check srv in
      let '(vs, srv) := run_checks checks srv in
      (match v with Some v => v :: vs | None => vs end, srv)
  end.

Definition CheckAll (h : Harness L) (srv : server) : list Violation * server :=
  run_checks [CheckMoneyConserved; CheckNoDoubleBilling h; CheckNothingSilentlyLost h; CheckEventsBilledAtMostOnce] srv.

Definition InvoiceSnapshot : Type := gmap Z Amount.

Definition SnapshotInvoices : ST server db_err InvoiceSnapshot :=
  found ← db_exec selectInvoices;
  mret (fold_left (fun m '(id, total) => <[id := total]> m) found ∅).

(** The loop over [before], in some order. *)
Fixpoint compare_invoices (before : list (Z * Amount)) (after : InvoiceSnapshot) : option Violation :=
  match before with
  | [] => None
  | (id, total) :: before =>
      match after !! id with
      | None => Some (mkViolation "I4" ("invoice " +:+ fmt_int id +:+ " has disappeared"))
      | Some nowTotal =>
          if negb (nowTotal =? total)
          then Some (mkViolation "I4" ("invoice " +:+ fmt_int id +:+ " was " +:+ Amount_String total +:+ " and is now " +:+ Amount_String nowTotal))
          else compare_invoices before after
      end
  end.

Definition CheckInvoicesUnchanged (before : InvoiceSnapshot) (srv : server) : option Violation * server :=
  match SnapshotInvoices srv with
  | (Err e, srv) => (Some (mkViolation "I4" (db_text e)), srv)
  | (Ok after, srv) => (compare_invoices (map_to_list before) after, srv)
  end.

End Harness.
