(* ===== verification/Books.v ===== *)
(** * The books

    What the operations of the service do to the tables of billing and of the
    ledger, taken together: what a drain leaves alone, what an invoice adds, and the
    invariant that all of them keep. [Runs.v] and [ChaosProof.v] draw on it. *)

From S2P Require Import Prelude Decimal Amount Quantity Ledger Pricing Bytes GoTime Event Validate LogSpec DB Consumer Store Invoicing Chaos.

(** ** What a drain leaves alone

    Events are added, unbilled; invoices, periods and the ledger stay. *)

Record ingested (db db' : DB) : Prop := {
  ing_ledger : same_ledger db db';
  ing_periods : same_table (billing_periods db) (billing_periods db');
  ing_invoices : same_table (invoices db) (invoices db');
  ing_lines : same_table (invoice_line_items db) (invoice_line_items db');
  ing_events : exists new, rows (events db') = rows (events db) ++ new /\ Forall (fun r => er_invoice_id r = None) new
}.

Lemma no_events (db db' : DB) : rows (events db') = rows (events db) ->
  exists new, rows (events db') = rows (events db) ++ new /\ Forall (fun r => er_invoice_id r = None) new.
Proof. intros ->. exists []. split; [by rewrite app_nil_r|constructor]. Qed.

#[global] Instance ingested_preorder : PreOrder ingested.
Proof.
  split.
  - intros db. split; try reflexivity. by apply no_events.
  - intros a b c [L P I T (new & E & F)] [L' P' I' T' (new' & E' & F')]. split; [by etrans..|].
    exists (new ++ new'). split; [by rewrite E', E, app_assoc|by apply Forall_app].
Qed.

Lemma same_rows_ingested db db' : same_rows db db' -> ingested db db'.
Proof. intros [L ([E _] & _ & _ & P & I & T)]. split; try done. by apply no_events. Qed.

Lemma ingested_rollback db db1 db2 : ingested db db1 -> ingested db (db_rollback db1 db2).
Proof.
  intros [(A & T & P) B I L E]. split; [|by apply same_table_rollback..|done]. split; [|split]; by apply same_table_rollback.
Qed.

Lemma next_tick_length sched : length (next_tick sched).2 = pred (length sched).
Proof. by destruct sched. Qed.

Section Frame.
Context {L : Type} `{LogStore L} `{EventCodec} `{Postgres}.
Variable c : Consumer.
Variable clock : Z -> Time.

Definition tx_grows (tx tx' : txn) : Prop :=
  kept tx tx' /\ ingested (tx_db tx) (tx_db tx') /\
  (length (srv_sched (tx_server tx')) <= length (srv_sched (tx_server tx)))%nat.

Definition srv_grows (srv srv' : server) : Prop :=
  Forall (quiet_for same_rows) (srv_sched srv') /\ ingested (srv_db srv) (srv_db srv') /\
  (length (srv_sched srv') <= length (srv_sched srv))%nat.

Lemma tx_grows_refl tx : undisturbed tx -> tx_grows tx tx.
Proof. intros Hq. split_and!; [by apply tx_kept_refl|reflexivity|done]. Qed.

Lemma tx_grows_trans tx1 tx2 tx3 : tx_grows tx1 tx2 -> tx_grows tx2 tx3 -> tx_grows tx1 tx3.
Proof. intros (K & I & N) (K' & I' & N'). split_and!; [by eapply kept_trans|by etrans|lia]. Qed.

Lemma tx_exec_grows {A} (q : stmt A) tx r tx' :
  (forall db a db', q db = Ok (a, db') -> ingested db db') -> undisturbed tx -> tx_exec q tx = (r, tx') -> tx_grows tx tx'.
Proof.
  intros Hg Hq E. split_and!; [by eapply tx_exec_kept; [reflexivity|..]| |].
  - destruct (tx_exec_inv same_rows ltac:(reflexivity) q tx r tx' Hq E) as (_ & _ & (db1 & V & D) & _).
    etrans; [by apply same_rows_ingested|]. destruct r; [by eapply Hg|by rewrite D].
  - unfold tx_exec in E. pose proof (next_tick_length (srv_sched (tx_server tx))) as Hn. destruct (next_tick _) as [t sched]. cbn in Hn.
    destruct (treatment t); [destruct (q _) as [[a db']|e]|..]; injection E as <- <-; cbn; lia.
Qed.

Lemma insertEvent_ingests e db a db' : insertEvent e db = Ok (a, db') -> ingested db db'.
Proof.
  unfold insertEvent. destruct (negb _); [done|]. destruct (numeric_of_text _) as [q|]; [|done]. destruct (List.find _ _) as [r|]; cbn [table_insert].
  - intros [= <- <-]. split; try (change (same_ledger db db)); try reflexivity. by apply no_events.
  - intros [= <- <-]. split; try (change (same_ledger db db)); try reflexivity. eexists. split; [reflexivity|]. by repeat constructor.
Qed.

Lemma insertDeadLetter_ingests name offset reason detail t k record now db a db' :
  insertDeadLetter name offset reason detail t k record now db = Ok (a, db') -> ingested db db'.
Proof.
  unfold insertDeadLetter. destruct (negb _); [done|]. destruct (negb _); [done|]. destruct (existsb _ _); cbn [table_insert];
    intros [= <- <-]; (split; try (change (same_ledger db db)); try reflexivity; by apply no_events).
Qed.

Lemma commitOffset_ingests name next now db a db' : commitOffset name next now db = Ok (a, db') -> ingested db db'.
Proof.
  unfold commitOffset. destruct (negb _); [done|]. destruct (_ <? _); [done|]. intros [= <- <-].
  split; try (change (same_ledger db db)); try reflexivity. by apply no_events.
Qed.

Lemma deadLetter_grows offset reason detail e record tx r tx' :
  undisturbed tx -> deadLetter c clock offset reason detail e record tx = (r, tx') -> tx_grows tx tx'.
Proof.
  intros Hq. unfold deadLetter, mbind, ST_bind. destruct (tx_exec _ tx) as [r1 tx1] eqn:E.
  apply tx_exec_grows in E; [|intros; by eapply insertDeadLetter_ingests|done]. by destruct r1; intros [= <- <-].
Qed.

Lemma batch_step_grows offset stats log tx stats' err log' tx' :
  undisturbed tx -> batch_step c clock offset stats log tx = (stats', err, (log', tx')) -> tx_grows tx tx'.
Proof.
  intros Hq. unfold batch_step. destruct (ls_Read offset log) as [[record|e] log1]; [|intros [= <- <- <- <-]; by apply tx_grows_refl].
  destruct (Decode record) as [e|text]; cycle 1.
  { destruct (deadLetter _ _ _ _ _ _ _ _) as [r1 tx1] eqn:E. apply deadLetter_grows in E; [|done]. by destruct r1; intros [= <- <- <- <-]. }
  unfold Consumer_apply, mbind, ST_bind, mret, ST_ret. destruct (tx_exec _ tx) as [r1 tx1] eqn:E1.
  apply tx_exec_grows in E1; [|intros; by eapply insertEvent_ingests|done].
  destruct r1 as [[[] stored]|e1]; [by intros [= <- <- <- <-]| |by intros [= <- <- <- <-]].
  assert (G : forall d, deadLetter c clock offset ReasonKeyReuse key_reuse_detail (Some e) record tx1 = d -> tx_grows tx d.2).
  { intros [r2 tx2] E2. eapply tx_grows_trans; [exact E1|]. eapply deadLetter_grows; [apply E1|exact E2]. }
  destruct stored as [fp|]; [destruct (decide _)|]; try by intros [= <- <- <- <-].
  destruct (deadLetter _ _ _ _ _ _ _ _) as [r2 tx2]. specialize (G _ eq_refl). by destruct r2; intros [= <- <- <- <-].
Qed.

Lemma batch_loop_grows n offset stats log tx stats' err log' tx' :
  undisturbed tx -> batch_loop c clock n offset stats log tx = (stats', err, (log', tx')) -> tx_grows tx tx'.
Proof.
  revert offset stats log tx. induction n as [|n IH]; intros offset stats log tx Hq; cbn [batch_loop];
    [intros [= <- <- <- <-]; by apply tx_grows_refl|].
  destruct (batch_step _ _ _ _ _ _) as [[stats1 err1] [log1 tx1]] eqn:E. apply batch_step_grows in E; [|done].
  destruct err1; [by intros [= <- <- <- <-]|]. intros E'. eapply tx_grows_trans; [exact E|]. eapply IH; [apply E|exact E'].
Qed.

Lemma tx_Commit_grows srv tx r srv' :
  same_rows (srv_db srv) (srv_db (tx_server tx)) -> ingested (srv_db srv) (tx_db tx) -> undisturbed tx ->
  (length (srv_sched (tx_server tx)) <= length (srv_sched srv))%nat -> tx_Commit tx = (r, srv') -> srv_grows srv srv'.
Proof.
  intros V I Hq N E. destruct (tx_Commit_spec same_rows ltac:(reflexivity) same_rows_rollback _ _ _ Hq E) as (Q & R & _). split_and!; [done| |].
  - destruct r; [|destruct R as [R|R]].
    1, 2: etrans; [exact I|by apply same_rows_ingested].
    apply same_rows_ingested. by etrans.
  - unfold tx_Commit in E. pose proof (next_tick_length (srv_sched (tx_server tx))) as Hn. destruct (next_tick _) as [t sched]. cbn in Hn.
    destruct (ledger_assert_balanced _ _); [destruct (treatment t)|]; injection E as <- <-; cbn; lia.
Qed.

Lemma processBatch_grows from to log srv stats err log' srv' :
  Forall (quiet_for same_rows) (srv_sched srv) -> processBatch c clock from to log srv = (stats, err, (log', srv')) -> srv_grows srv srv'.
Proof.
  intros Hq. unfold processBatch. destruct (BeginTx srv) as [rb srv1] eqn:Eb.
  assert (N1 : (length (srv_sched srv1) <= length (srv_sched srv))%nat).
  { unfold BeginTx in Eb. pose proof (next_tick_length (srv_sched srv)) as Hn. destruct (next_tick _) as [t sched]. cbn in Hn.
    destruct (treatment t); injection Eb as <- <-; cbn; lia. }
  destruct (BeginTx_spec same_rows ltac:(reflexivity) _ _ _ Hq Eb) as (Q1 & V1 & Hb & _).
  destruct rb as [tx|e]; [|intros [= <- <- <- <-]; split_and!; [done|by apply same_rows_ingested|done]]. subst tx.
  destruct (batch_loop _ _ _ _ _ _ _) as [[stats2 err2] [log2 tx2]] eqn:El.
  apply batch_loop_grows in El as ((Q2 & V2 & _) & I2 & N2); [|done]. cbn [tx_server tx_db] in *.
  assert (V12 : same_rows (srv_db srv) (srv_db (tx_server tx2))) by (by etrans).
  assert (I12 : ingested (srv_db srv) (tx_db tx2)) by (etrans; [exact (same_rows_ingested _ _ V1)|exact I2]).
  destruct err2 as [err2|].
  { intros [= <- <- <- <-]. split_and!; [done|by apply ingested_rollback, same_rows_ingested|cbn; lia]. }
  unfold commit_batch. destruct (tx_exec _ tx2) as [r3 tx3] eqn:E3.
  apply tx_exec_grows in E3 as ((Q3 & V3 & _) & I3 & N3); [|intros; by eapply commitOffset_ingests|done].
  assert (V13 : same_rows (srv_db srv) (srv_db (tx_server tx3))) by (by etrans).
  destruct r3 as [[]|e3]; cycle 1.
  { intros [= <- <- <- <-]. split_and!; [done|by apply ingested_rollback, same_rows_ingested|cbn; lia]. }
  destruct (tx_Commit tx3) as [r4 srv4] eqn:E4. apply (tx_Commit_grows srv) in E4; [|done|etrans; [exact I12|exact I3]|done|lia].
  by destruct r4; intros [= <- <- <- <-].
Qed.

(** A drain asks for the offset first, so it uses up a turn of the schedule. *)
Lemma NextOffset_grows srv r srv' : Forall (quiet_for same_rows) (srv_sched srv) -> Consumer_NextOffset c srv = (r, srv') ->
  srv_grows srv srv' /\ same_rows (srv_db srv) (srv_db srv') /\ length (srv_sched srv') = pred (length (srv_sched srv)).
Proof.
  clear clock.
  intros Hq. unfold Consumer_NextOffset. destruct (db_exec _ srv) as [r1 srv1] eqn:E.
  assert (G : Forall (quiet_for same_rows) (srv_sched srv1) /\ same_rows (srv_db srv) (srv_db srv1) /\
    length (srv_sched srv1) = pred (length (srv_sched srv))).
  { destruct (db_exec_inv same_rows ltac:(reflexivity) _ _ _ _ Hq E) as (Q & (db1 & V & D) & _). split; [done|]. split.
    - assert (R : forall a db', readOffset (c_name c) db1 = Ok (a, db') -> db' = db1).
      { intros a db'. unfold readOffset. destruct (negb _); [done|]. by intros [= _ <-]. }
      destruct r1; [by rewrite (R _ _ D)|]. destruct D as [->|[a D]]; [done|by rewrite (R _ _ D)].
    - unfold db_exec in E. pose proof (next_tick_length (srv_sched srv)) as Hn. destruct (next_tick _) as [t sched]. cbn in Hn.
      destruct (treatment t); [destruct (readOffset _ _) as [[]|]..|destruct (readOffset _ _) as [[]|]]; injection E as <- <-; done. }
  destruct G as (Q & V & N). assert (srv' = srv1 -> srv_grows srv srv' /\ same_rows (srv_db srv) (srv_db srv') /\
    length (srv_sched srv') = pred (length (srv_sched srv))).
  { intros ->. split; [split; [done|split; [by apply same_rows_ingested|lia]]|by split]. }
  destruct r1 as [[next|]|e]; intros [= <- <-]; auto.
Qed.

Lemma drain_turn_grows total log srv r log' srv' :
  Forall (quiet_for same_rows) (srv_sched srv) -> drain_turn c clock total log srv = (r, (log', srv')) ->
  srv_grows srv srv' /\ (length (srv_sched srv') <= pred (length (srv_sched srv)))%nat.
Proof.
  intros Hq. unfold drain_turn. destruct (Consumer_NextOffset c srv) as [rn srv1] eqn:En.
  apply NextOffset_grows in En as (G1 & V1 & N1); [|done]. destruct rn as [next|e]; [|intros [= <- <- <-]; split; [done|lia]].
  destruct (ls_NextOffset log) as [end_|e]; [|intros [= <- <- <-]; split; [done|lia]].
  destruct (end_ <=? next); [intros [= <- <- <-]; split; [done|lia]|].
  destruct (processBatch _ _ _ _ _ _) as [[stats err] [log2 srv2]] eqn:Ep.
  apply processBatch_grows in Ep as (Q2 & I2 & N2); [|apply G1].
  assert (G : srv_grows srv srv2) by (split_and!; [done|etrans; [apply G1|exact I2]|lia]).
  destruct err; intros [= <- <- <-]; (split; [done|lia]).
Qed.

Lemma drain_loop_grows fuel total log srv r log' srv' :
  Forall (quiet_for same_rows) (srv_sched srv) -> drain_loop c clock fuel total log srv = (r, (log', srv')) ->
  srv_grows srv srv' /\ ((0 < fuel)%nat -> (length (srv_sched srv') <= pred (length (srv_sched srv)))%nat).
Proof.
  revert total log srv. induction fuel as [|fuel IH]; intros total log srv Hq; cbn [drain_loop].
  { intros [= <- <- <-]. split; [split_and!; [done|reflexivity|done]|lia]. }
  destruct (drain_turn _ _ _ _ _) as [r1 [log1 srv1]] eqn:Et. apply drain_turn_grows in Et as ((Q1 & I1 & N1) & S1); [|done].
  destruct r1 as [result|total1]; [intros [= <- <- <-]; by split_and!|]. intros El. apply IH in El as [(Q2 & I2 & N2) _]; [|done].
  split; [split_and!; [done|by etrans|lia]|lia].
Qed.

End Frame.

(** ** The books

    What the tables of billing hold together. *)

(** The usage of a meter that events say an invoice has charged. *)
Definition charged_to (id : Z) (m : string) (r : event_row) : bool :=
  bool_decide (er_invoice_id r = Some id) && bool_decide (er_meter r = m).

Definition usage_on (id : Z) (m : string) (db : DB) : Z :=
  sumZ (map er_quantity (List.filter (charged_to id m) (rows (events db)))).

(** What tells one line from another. *)
Definition line_key (l : line_item_row) : Z * string := (li_invoice_id l, li_meter l).

Record books (db : DB) : Prop := {
  bk_billed : Forall (fun r => forall id, er_invoice_id r = Some id -> id ∈ map iv_id (rows (invoices db))) (rows (events db));
  bk_ids : NoDup (map iv_id (rows (invoices db)));
  bk_seq : Forall (fun i => iv_id i < seq_next (invoices db)) (rows (invoices db));
  bk_lines : Forall (fun l => li_invoice_id l < seq_next (invoices db)) (rows (invoice_line_items db));
  bk_totals : Forall (fun i => iv_total i = line_sum db (iv_id i)) (rows (invoices db));
  bk_quantities : Forall (fun l => li_quantity l = usage_on (li_invoice_id l) (li_meter l) db) (rows (invoice_line_items db));
  bk_keys : NoDup (map line_key (rows (invoice_line_items db)));
  bk_covered : Forall (fun r => forall id, er_invoice_id r = Some id -> (id, er_meter r) ∈ map line_key (rows (invoice_line_items db)) /\
    exists i, i ∈ rows (invoices db) /\ iv_id i = id /\ iv_tenant_id i = er_tenant_id r) (rows (events db))
}.

Lemma filter_none {A} (f : A -> bool) l : Forall (fun x => f x = false) l -> List.filter f l = [].
Proof. induction 1 as [|x l E _ IH]; [done|]. cbn. by rewrite E. Qed.

Lemma filter_all {A} (f : A -> bool) l : Forall (fun x => f x = true) l -> List.filter f l = l.
Proof. induction 1 as [|x l E _ IH]; [done|]. cbn. by rewrite E, IH. Qed.

Lemma usage_on_app id m db db' new : rows (events db') = rows (events db) ++ new -> Forall (fun r => er_invoice_id r = None) new ->
  usage_on id m db' = usage_on id m db.
Proof.
  intros E F. unfold usage_on. rewrite E, List.filter_app, (filter_none _ new), app_nil_r; [done|].
  eapply Forall_impl; [exact F|]. cbn. intros r Hr. unfold charged_to. by rewrite Hr.
Qed.

Lemma books_ingested db db' : ingested db db' -> books db -> books db'.
Proof.
  intros [_ _ [I S] [T _] (new & E & F)] [B1 B2 B3 B4 B5 B6 B7 B8]. split.
  - rewrite E, I. apply Forall_app. split; [done|]. eapply Forall_impl; [exact F|]. cbn. intros r ->. done.
  - by rewrite I.
  - rewrite I. eapply Forall_impl; [exact B3|]. cbn. lia.
  - rewrite T. eapply Forall_impl; [exact B4|]. cbn. lia.
  - rewrite I. eapply Forall_impl; [exact B5|]. cbn. unfold line_sum. by rewrite T.
  - rewrite T. eapply Forall_impl; [exact B6|]. cbn. intros l ->. symmetry. by eapply usage_on_app.
  - by rewrite T.
  - rewrite E, T, I. apply Forall_app. split; [done|]. eapply Forall_impl; [exact F|]. cbn. intros r -> id. done.
Qed.

Section Billing.
Context `{Postgres}.

Lemma line_rows_amounts id lines new : Forall2 (line_row id) lines new ->
  sumZ (map li_amount new) = sumZ (map il_Amount lines) /\ Forall (fun l => li_invoice_id l = id) new /\
  map li_quantity new = map il_Quantity lines.
Proof.
  induction 1 as [|l r lines new (E1 & E2 & E3 & E4) _ (IH1 & IH2 & IH3)]; [done|]. cbn [map]. rewrite !sumZ_cons, IH1, IH3, E3, E4. by repeat constructor.
Qed.

(** The lines of an invoice after new ones were written for [id]. *)
Lemma line_sum_app db db' new id :
  rows (invoice_line_items db') = rows (invoice_line_items db) ++ new -> Forall (fun l => li_invoice_id l = id) new ->
  line_sum db' id = line_sum db id + sumZ (map li_amount new) /\ forall id', id' <> id -> line_sum db' id' = line_sum db id'.
Proof.
  intros E F. unfold line_sum. rewrite E. split.
  - rewrite List.filter_app, map_app, sumZ_app. f_equal. rewrite filter_all; [done|]. eapply Forall_impl; [exact F|]. cbn. intros l ->. lia.
  - intros id' Hne. rewrite List.filter_app, map_app, sumZ_app, (filter_none _ new); [cbn; lia|].
    eapply Forall_impl; [exact F|]. cbn. intros l ->. lia.
Qed.

Lemma items_total_lines period db items : sumZ (map il_Amount (map (due_line period db) items)) = items_total items.
Proof. unfold items_total. by rewrite map_map. Qed.

(** Marking usage as billed adds to no other invoice, and to this one what was due. *)
Lemma usage_on_marked period id m db db' :
  rows (events db') = map (fun r => if unbilled (pe_TenantID period) (pe_End period) r then bill_event id r else r) (rows (events db)) ->
  (forall id', id' <> id -> usage_on id' m db' = usage_on id' m db) /\
  (Forall (fun r => er_invoice_id r <> Some id) (rows (events db)) -> usage_on id m db' = meter_sum (due period db) m).
Proof.
  intros E. unfold usage_on, meter_sum, due. rewrite E. clear E. induction (rows (events db)) as [|r l [IH1 IH2]]; [done|]. cbn [map List.filter]. split.
  - intros id' Hne. specialize (IH1 id' Hne). destruct (unbilled _ _ r) eqn:U; cycle 1.
    { destruct (charged_to id' m r); cbn [map]; rewrite ?sumZ_cons; congruence. }
    unfold charged_to at 1. cbn [bill_event er_invoice_id]. rewrite bool_decide_false by congruence. cbn [andb]. rewrite IH1.
    apply andb_true_iff in U as [[_ Hn%bool_decide_eq_true]%andb_true_iff _]. unfold charged_to at 2. by rewrite Hn.
  - intros [Hr F]%Forall_cons. specialize (IH2 F). destruct (unbilled _ _ r); cycle 1.
    { unfold charged_to at 1. rewrite bool_decide_false by done. exact IH2. }
    unfold charged_to at 1. cbn [bill_event er_invoice_id er_meter List.filter]. rewrite bool_decide_true by done. cbn [andb].
    destruct (bool_decide (er_meter r = m)); cbn [map]; rewrite ?sumZ_cons; cbn [bill_event er_quantity]; congruence.
Qed.

(** The lines of a new invoice have the usage it marks, and the usage it marks has
    lines. *)
Lemma usage_billed plan period inv db db' : billed plan period inv db db' -> books db ->
  Forall (fun l => li_quantity l = usage_on (li_invoice_id l) (li_meter l) db') (rows (invoice_line_items db')) /\
  NoDup (map line_key (rows (invoice_line_items db'))) /\
  Forall (fun r => forall id, er_invoice_id r = Some id -> (id, er_meter r) ∈ map line_key (rows (invoice_line_items db')) /\
    exists i, i ∈ rows (invoices db') /\ iv_id i = id /\ iv_tenant_id i = er_tenant_id r) (rows (events db')).
Proof.
  intros (items & trs & t & rec & (Nd & Hm & Hq) & _ & Hl & _ & _ & _ & _ & [_ I2 _ I4 (new & N & I5) _ I7 _] & _) [B1 _ B3 B4 _ B6 B7 B8].
  assert (Hold : Forall (fun r => er_invoice_id r <> Some (in_ID inv)) (rows (events db))).
  { rewrite Forall_forall in B1. rewrite Forall_forall in B3. apply Forall_forall. intros r Hr E.
    apply (B1 r Hr), list_elem_of_fmap in E as (i & E & Hi). specialize (B3 i Hi). lia. }
  assert (Hkeys : map line_key new = map (fun i => (in_ID inv, li_Meter i)) items /\
    Forall (fun l => exists i, i ∈ items /\ li_invoice_id l = in_ID inv /\ li_meter l = li_Meter i /\ li_quantity l = li_Quantity i) new).
  { rewrite Hl in N. clear -N. remember (map (due_line period db) items) as lines eqn:El. revert items El.
    induction N as [|l r lines new (E1 & E2 & E3 & _) _ IH]; intros [|i items] El; try done. injection El as -> El.
    destruct (IH _ El) as [K F]. cbn [map]. rewrite K. split; [f_equal; unfold line_key; by rewrite E1, E2|].
    constructor; [exists i; split; [left|by split_and!]|]. eapply Forall_impl; [exact F|]. intros l (j & ? & ?). exists j. split; [by right|done]. }
  destruct Hkeys as [Hkeys Hnew]. rewrite I5, map_app, Hkeys. split; [|split].
  - apply Forall_app. split.
    + rewrite Forall_forall in B6. rewrite Forall_forall in B4. apply Forall_forall. intros l Hin. rewrite (B6 l Hin). symmetry.
      apply (usage_on_marked period (in_ID inv) _ db db' I2). specialize (B4 l Hin). lia.
    + eapply Forall_impl; [exact Hnew|]. cbn. intros l (i & Hi & -> & -> & ->). rewrite Forall_forall in Hq. destruct (Hq i Hi) as [-> _].
      symmetry. by apply (usage_on_marked period (in_ID inv) _ db db' I2).
  - apply NoDup_app. split; [done|]. split.
    + intros k (l & -> & Hin)%list_elem_of_fmap (i & E & _)%list_elem_of_fmap. rewrite Forall_forall in B4. specialize (B4 l Hin).
      injection E as E _. lia.
    + rewrite <- (map_map li_Meter (pair (in_ID inv))). apply (NoDup_fmap_2 (pair (in_ID inv))). exact Nd.
  - rewrite I2, I4. apply Forall_map, Forall_forall. intros r Hr id. rewrite Forall_forall in B8. specialize (B8 r Hr).
    destruct (unbilled _ _ r) eqn:U; cbn [bill_event er_invoice_id er_meter er_tenant_id].
    + intros [= <-]. split.
      * apply elem_of_app. right. change (map (fun i => (in_ID inv, li_Meter i)) items) with ((fun i => (in_ID inv, li_Meter i)) <$> items).
        assert (Hd : er_meter r ∈ map li_Meter items).
        { apply Hm. apply list_elem_of_fmap_2. apply list_elem_of_In, List.filter_In. split; [by apply list_elem_of_In|done]. }
        apply list_elem_of_fmap in Hd as (i & -> & Hi). by apply (list_elem_of_fmap_2 (fun i => (in_ID inv, li_Meter i))).
      * eexists. split; [apply elem_of_app; right; left|]. split; [done|]. cbn.
        apply andb_true_iff in U as [[Ht%bool_decide_eq_true _]%andb_true_iff _]. done.
    + intros E. destruct (B8 id E) as [Hk (i & Hi & Hrow)]. split; [apply elem_of_app; by left|]. exists i. split; [apply elem_of_app; by left|done].
Qed.

(** An invoice keeps the books in order. *)
Lemma books_billed plan period inv db db' : billed plan period inv db db' -> books db -> books db'.
Proof.
  intros Hb Hbk. destruct (usage_billed _ _ _ _ _ Hb Hbk) as (U1 & U2 & U3). revert Hb Hbk.
  intros (items & trs & t & rec & _ & Ht & Hl & _ & _ & _ & _ & [_ I2 _ I4 (new & N & I5) _ I7 _] & _) [B1 B2 B3 B4 B5 _ _ _].
  apply line_rows_amounts in N as (Na & Ni & _). rewrite Hl, items_total_lines, <- Ht in Na.
  destruct (line_sum_app db db' new _ I5 Ni) as [S1 S2].
  assert (Hold : Forall (fun i => iv_id i <> in_ID inv) (rows (invoices db))) by (eapply Forall_impl; [exact B3|]; cbn; lia).
  split; [| | | | |done|done|done].
  - rewrite I2, I4, map_app. apply Forall_map. eapply Forall_impl; [exact B1|]. cbn. intros r Hr id. rewrite elem_of_app.
    destruct (unbilled _ _ r); [cbn; intros [= <-]; right; left|]. intros E. left. by apply Hr.
  - rewrite I4, map_app. apply NoDup_app. split; [done|]. split; [|apply NoDup_singleton]. cbn.
    intros id (i & -> & Hi)%list_elem_of_fmap E%list_elem_of_singleton. rewrite Forall_forall in Hold. by apply (Hold i).
  - rewrite I4. apply Forall_app. split; [|by repeat constructor; cbn; lia]. eapply Forall_impl; [exact B3|]. cbn. lia.
  - rewrite I5. apply Forall_app. split; [eapply Forall_impl; [exact B4|]; cbn; lia|]. eapply Forall_impl; [exact Ni|]. cbn. lia.
  - rewrite I4. apply Forall_app. split.
    + rewrite Forall_forall in *. intros i Hi. rewrite S2 by (by apply Hold). by apply B5.
    + repeat constructor. cbn. rewrite S1, Na. unfold line_sum. rewrite filter_none; [cbn; lia|].
      eapply Forall_impl; [exact B4|]. cbn. lia.
Qed.

Lemma billing_ok_billed plan period inv db db' : billed plan period inv db db' -> ledger_inv db' -> billing_ok db -> billing_ok db'.
Proof.
  intros (items & trs & t & rec & (_ & _ & Hr) & _ & Hl & _ & _ & _ & _ & [_ I2 _ _ (new & N & I5) _ _ _] & _) L (_ & E & Q). split; [done|]. split.
  - rewrite I2. apply Forall_map. eapply Forall_impl; [exact E|]. cbn. intros r. by destruct (unbilled _ _ r).
  - rewrite I5. apply Forall_app. split; [done|]. apply line_rows_amounts in N as (_ & _ & Nq). rewrite Hl in Nq.
    apply (Forall_map li_quantity (Z.le 0)). rewrite Nq, map_map. apply Forall_map. eapply Forall_impl; [exact Hr|]. cbn. intros i [-> _]. apply meter_sum_nonneg.
    apply Forall_forall. intros r Hin. apply list_elem_of_In, List.filter_In in Hin as [Hin _]. rewrite Forall_forall in E. by apply E, list_elem_of_In.
Qed.

Lemma view_billed name plan period inv db db' : billed plan period inv db db' -> same_view name db db'.
Proof.
  intros (items & trs & t & rec & _ & _ & _ & _ & _ & _ & _ & [_ I2 _ _ _ _ _ [I8 I9]] & _). unfold same_view, view, position.
  rewrite I8, I9, I2, map_map. split; [|done]. f_equal. apply map_ext. intros r. by destruct (unbilled _ _ r).
Qed.

End Billing.

Lemma same_rows_view name db db' : same_rows db db' -> same_view name db db'.
Proof.
  intros [_ ([E _] & O & [D _] & _)]. unfold same_view, view, position. by rewrite E, O, D.
Qed.

Lemma quiet_rows_view name sched : Forall (quiet_for same_rows) sched -> Forall (quiet name) sched.
Proof. intros F. eapply Forall_impl; [exact F|]. intros t Ht db. apply same_rows_view, Ht. Qed.


(** ** History is kept *)

(** Every element is still at its place, as [R] allows, and there may be more. *)
Definition grown {A} (R : relation A) (l l' : list A) : Prop := exists k, Forall2 R l k /\ k `prefix_of` l'.

#[global] Instance grown_preorder {A} (R : relation A) `{!PreOrder R} : PreOrder (grown R).
Proof.
  split; [intros l; exists l; split; reflexivity|].
  intros l1 l2 l3 (k1 & F1 & [x1 ->]) (k2 & F2 & [x2 ->]). apply Forall2_app_inv_l in F2 as (k & y & Fk & _ & ->).
  exists k. split; [by etrans|]. rewrite <- app_assoc. by apply prefix_app_r.
Qed.

Lemma grown_app {A} (R : relation A) `{!Reflexive R} l l' x : l' = l ++ x -> grown R l l'.
Proof. intros ->. exists l. split; [reflexivity|by apply prefix_app_r]. Qed.

Lemma grown_map {A} (R : relation A) f l : (forall x, x ∈ l -> R x (f x)) -> grown R l (map f l).
Proof.
  intros HR. exists (map f l). split; [|done]. induction l as [|x l IH]; [constructor|]. cbn [map].
  constructor; [apply HR; left|]. apply IH. intros y Hy. apply HR. by right.
Qed.

(** An event keeps its content, and its invoice once it has one. *)
Definition event_kept (r r' : event_row) : Prop :=
  er_id r' = er_id r /\ event_content r' = event_content r /\ events_billed_once r r' = true.

(** A period keeps its bounds, and everything once it is closed. *)
Definition period_kept (r r' : period_row) : Prop :=
  bp_id r' = bp_id r /\ bp_tenant_id r' = bp_tenant_id r /\ bp_label r' = bp_label r /\ bp_starts_at r' = bp_starts_at r /\
  bp_ends_at r' = bp_ends_at r /\ (bp_state r = Closed -> r' = r).

#[global] Instance event_kept_preorder : PreOrder event_kept.
Proof.
  unfold event_kept, events_billed_once. split.
  - intros r. split_and!; [done|done|]. destruct (er_invoice_id r); [by apply bool_decide_eq_true|done].
  - intros a b c (A1 & A2 & A3) (B1 & B2 & B3). split_and!; [congruence|congruence|]. destruct (er_invoice_id a) as [i|]; [|done].
    apply bool_decide_eq_true in A3. rewrite A3 in B3. exact B3.
Qed.

#[global] Instance period_kept_preorder : PreOrder period_kept.
Proof.
  unfold period_kept. split; [intros r; by split_and!|].
  intros a b c (A1 & A2 & A3 & A4 & A5 & A6) (B1 & B2 & B3 & B4 & B5 & B6). split_and!; [congruence..|].
  intros E. rewrite (A6 E) in *. by apply B6.
Qed.

(** There are more postings, and they are of new entries. *)
Definition more_postings (db db' : DB) : Prop :=
  exists new, rows (ledger_postings db') = rows (ledger_postings db) ++ new /\
    Forall (fun p => pr_transaction_id p ∉ map tr_id (rows (ledger_transactions db))) new.

Lemma no_postings (db db' : DB) : rows (ledger_postings db') = rows (ledger_postings db) -> more_postings db db'.
Proof. intros E. exists []. by rewrite E, app_nil_r. Qed.

Lemma posted_postings (db db' : DB) id ps new : (id ∉ map tr_id (rows (ledger_transactions db))) ->
  rows (ledger_postings db') = rows (ledger_postings db) ++ new -> Forall2 (posting_of id) ps new -> more_postings db db'.
Proof.
  intros Hid E F. exists new. split; [done|]. apply Forall_forall. intros p [i Hi]%list_elem_of_lookup_1.
  by destruct (Forall2_lookup_r _ _ _ _ _ F Hi) as (p' & _ & -> & _).
Qed.

(** Nothing of the ledger or of an invoice is changed, added to or taken away. *)
Record history (db db' : DB) : Prop := {
  hi_accounts : rows (ledger_accounts db) `prefix_of` rows (ledger_accounts db');
  hi_entries : rows (ledger_transactions db) `prefix_of` rows (ledger_transactions db');
  hi_postings : more_postings db db';
  hi_invoices : rows (invoices db) `prefix_of` rows (invoices db');
  hi_lines : exists new, rows (invoice_line_items db') = rows (invoice_line_items db) ++ new /\
    Forall (fun l => li_invoice_id l ∉ map iv_id (rows (invoices db))) new;
  hi_events : grown event_kept (rows (events db)) (rows (events db'));
  hi_periods : grown period_kept (rows (billing_periods db)) (rows (billing_periods db'))
}.

Lemma no_lines (db db' : DB) : rows (invoice_line_items db') = rows (invoice_line_items db) ->
  exists new, rows (invoice_line_items db') = rows (invoice_line_items db) ++ new /\
    Forall (fun l => li_invoice_id l ∉ map iv_id (rows (invoices db))) new.
Proof. intros ->. exists []. by rewrite app_nil_r. Qed.

#[global] Instance history_preorder : PreOrder history.
Proof.
  split.
  - intros db. split; try reflexivity; [by apply no_postings|by apply no_lines].
  - intros a b c [A1 A2 (k & A3 & A3') A4 (n & A5 & A5') A6 A7] [B1 B2 (j & B3 & B3') B4 (m & B5 & B5') B6 B7]. split; try by etrans.
    { exists (k ++ j). rewrite B3, A3, app_assoc. split; [done|]. apply Forall_app. split; [done|]. eapply Forall_impl; [exact B3'|]. cbn.
      intros p Hp Hin. apply Hp. destruct A2 as [x ->]. rewrite map_app, elem_of_app. by left. }
    exists (n ++ m). rewrite B5, A5, app_assoc. split; [done|]. apply Forall_app. split; [done|].
    eapply Forall_impl; [exact B5'|]. cbn. intros l Hl Hin. apply Hl. destruct A4 as [x ->]. rewrite map_app, elem_of_app. by left.
Qed.

Lemma ingested_history db db' : ingested db db' -> history db db'.
Proof.
  intros [([A _] & [T _] & [P _]) [B _] [I _] [L _] (new & E & _)]. split; rewrite ?A, ?T, ?P, ?I, ?B; try reflexivity.
  - by apply no_postings.
  - by apply no_lines.
  - by apply (grown_app _ _ _ new).
Qed.

Lemma same_rows_history db db' : same_rows db db' -> history db db'.
Proof. intros V. by apply ingested_history, same_rows_ingested. Qed.

Lemma same_table_prefix {R} (t t' : table R) : same_table t t' -> rows t `prefix_of` rows t'.
Proof. by intros [-> _]. Qed.

Lemma same_billing_history db db' : same_billing db db' -> rows (ledger_accounts db) `prefix_of` rows (ledger_accounts db') ->
  rows (ledger_transactions db) `prefix_of` rows (ledger_transactions db') ->
  more_postings db db' -> history db db'.
Proof.
  intros ([E _] & _ & _ & [B _] & [I _] & [L _]) HA HT HP. split; rewrite ?I, ?E, ?B; try done; try reflexivity. by apply no_lines.
Qed.

Lemma more_accounts_history db db' : more_accounts db db' -> history db db'.
Proof.
  intros (B & T & [P _] & (new & A) & _). apply same_billing_history; [done| |by apply same_table_prefix|by apply no_postings]. rewrite A. by apply prefix_app_r.
Qed.

Lemma posted_history t id db db' : posted t id db db' -> history db db'.
Proof.
  intros (B & A & (row & T & _) & (new & P & F) & _ & Hid). apply same_billing_history; [done|by apply same_table_prefix|..].
  - rewrite T. by apply prefix_app_r.
  - by eapply posted_postings.
Qed.

(** ** Periods and their invoices *)

(** A period is closed by the one invoice it has, and an invoice names its entry. *)
Record periods_ok (db : DB) : Prop := {
  po_ids : NoDup (map bp_id (rows (billing_periods db)));
  po_seq : Forall (fun r => bp_id r < seq_next (billing_periods db)) (rows (billing_periods db));
  po_one : NoDup (map iv_period_id (rows (invoices db)));
  po_refs : Forall (fun i => iv_period_id i ∈ map bp_id (rows (billing_periods db))) (rows (invoices db));
  po_closed : Forall (fun r => bp_state r = Closed <-> bp_id r ∈ map iv_period_id (rows (invoices db))) (rows (billing_periods db));
  po_entries : Forall (fun i => iv_ledger_transaction_id i ∈ map tr_id (rows (ledger_transactions db))) (rows (invoices db))
}.

Lemma periods_ok_keep db db' : same_table (billing_periods db) (billing_periods db') -> same_table (invoices db) (invoices db') ->
  rows (ledger_transactions db) `prefix_of` rows (ledger_transactions db') -> periods_ok db -> periods_ok db'.
Proof.
  intros [B Q] [I _] [x T] [P1 P2 P3 P4 P5 P6]. split; rewrite ?B, ?I; try done.
  - eapply Forall_impl; [exact P2|]. cbn. lia.
  - rewrite T. eapply Forall_impl; [exact P6|]. cbn. intros i Hi. rewrite map_app, elem_of_app. by left.
Qed.

Lemma periods_ok_ingested db db' : ingested db db' -> periods_ok db -> periods_ok db'.
Proof. intros [(_ & T & _) B I _ _]. by apply periods_ok_keep; [..|apply same_table_prefix]. Qed.

Lemma periods_ok_same db db' : same_rows db db' -> periods_ok db -> periods_ok db'.
Proof. intros V. by apply periods_ok_ingested, same_rows_ingested. Qed.

Section Closing.
Context `{Postgres}.

(** A period that is not closed has no invoice. *)
Lemma open_not_invoiced db r : periods_ok db -> r ∈ rows (billing_periods db) -> bp_state r <> Closed ->
  bp_id r ∉ map iv_period_id (rows (invoices db)).
Proof. intros [_ _ _ _ P5 _] Hr Ho Hin. rewrite Forall_forall in P5. by apply Ho, (P5 r Hr). Qed.

Lemma close_rows_ids at_ id l : map bp_id (map (fun r => if bp_id r =? id then close_row at_ r else r) l) = map bp_id l.
Proof. rewrite map_map. apply map_ext. intros r. by destruct (_ =? _). Qed.

Lemma entry_recorded_id t id db db' : entry_recorded t id db db' ->
  id ∈ map tr_id (rows (ledger_transactions db')) /\ rows (ledger_transactions db) `prefix_of` rows (ledger_transactions db') /\
  more_postings db db'.
Proof.
  intros [(row & new & T & Hid & _ & P & F & Hf)|(T & P & (row & Hin & _ & Hid))].
  - rewrite T, map_app, elem_of_app. split; [right; cbn; rewrite Hid; left|]. split; [by apply prefix_app_r|by eapply posted_postings].
  - rewrite T. split; [|split; [done|by apply no_postings]]. rewrite <- Hid. by apply list_elem_of_fmap_2.
Qed.

Lemma periods_ok_billed plan periodID period inv db db' : has_period periodID period db -> pe_State period <> Closed ->
  billed plan period inv db db' -> periods_ok db -> periods_ok db'.
Proof.
  intros (r0 & Hr0 & Hid & ->) Ho (items & trs & t & rec & _ & _ & _ & _ & _ & _ & _ & [_ _ I3 I4 _ I6 [_ I7] _] & _) Hok.
  pose proof (open_not_invoiced db r0 Hok Hr0 Ho) as Hnew. destruct Hok as [P1 P2 P3 P4 P5 P6].
  apply entry_recorded_id in I6 as (Hentry & [x Hx] & _). change (pe_ID (period_of r0)) with (bp_id r0) in *. split.
  - by rewrite I3, close_rows_ids.
  - rewrite I3. apply Forall_map. eapply Forall_impl; [exact P2|]. cbn. intros r Hr. destruct (_ =? _); cbn; lia.
  - rewrite I4, map_app. apply NoDup_app. split; [done|]. split; [|apply NoDup_singleton]. by intros p Hp ->%list_elem_of_singleton.
  - rewrite I3, I4, close_rows_ids. apply Forall_app. split; [done|]. repeat constructor. cbn. by apply list_elem_of_fmap_2.
  - rewrite I3, I4, map_app. apply Forall_map, Forall_forall. intros r Hr. rewrite Forall_forall in P5. specialize (P5 r Hr).
    cbn [map]. rewrite elem_of_app, list_elem_of_singleton. cbn [iv_period_id]. destruct (Z.eqb_spec (bp_id r) (bp_id r0)) as [E|E].
    + cbn. split; [by right|done].
    + rewrite P5. split; [by left|]. by intros [?|?].
  - rewrite I4. apply Forall_app. split; [|by repeat constructor]. rewrite Hx. eapply Forall_impl; [exact P6|]. cbn.
    intros i Hi. rewrite map_app, elem_of_app. by left.
Qed.

(** Issuing an invoice adds its rows, marks what was not marked and closes what was
    open. *)
Lemma billed_history plan periodID period inv db db' : has_period periodID period db -> pe_State period <> Closed ->
  books db -> periods_ok db -> billed plan period inv db db' -> history db db'.
Proof.
  intros (r0 & Hr0 & Hid & ->) Ho Hbk Hok (items & trs & t & rec & _ & _ & _ & _ & _ & _ & _ & [_ I2 I3 I4 (new & N & I5) I6 [I7 _] _] & (accs & I9)).
  apply entry_recorded_id in I6 as (_ & Ht & Hp). change (pe_ID (period_of r0)) with (bp_id r0) in *.
  apply line_rows_amounts in N as (_ & Ni & _). split; [rewrite I9; by apply prefix_app_r|done|done|rewrite I4; by apply prefix_app_r|..].
  - exists new. split; [done|]. eapply Forall_impl; [exact Ni|]. cbn. intros l -> (i & E & Hi)%list_elem_of_fmap.
    pose proof (bk_seq _ Hbk) as S. rewrite Forall_forall in S. specialize (S i Hi). lia.
  - rewrite I2. apply grown_map. intros r _. split_and!; [by destruct (unbilled _ _ r)..|apply markBilled_once].
  - rewrite I3. apply grown_map. intros r Hr. destruct (Z.eqb_spec (bp_id r) (bp_id r0)) as [E|E]; [|by split_and!].
    assert (r = r0) as -> by (by apply (NoDup_map_inj bp_id _ (po_ids _ Hok))). by split_and!.
Qed.

(** Registering a period. *)
Lemma ensurePeriod_ok tenantID label start end_ created db r db' :
  ensurePeriod tenantID label start end_ created db = Ok (r, db') -> books db -> billing_ok db -> periods_ok db ->
  books db' /\ billing_ok db' /\ periods_ok db' /\ history db db' /\ (forall name, same_view name db db').
Proof.
  unfold ensurePeriod. destruct (negb _); [done|]. destruct (_ <=? _); [done|]. intros E [B1 B2 B3 B4 B5 B6 B7 B8] (Lg & Q1 & Q2) [P1 P2 P3 P4 P5 P6].
  assert (T : forall t, db' = set_periods t db -> periods_ok db' -> grown period_kept (rows (billing_periods db)) (rows t) ->
    books db' /\ billing_ok db' /\ periods_ok db' /\ history db db' /\ (forall name, same_view name db db')).
  { intros t -> Hp Hg. split; [by split|]. split; [split; [|by split]; eapply ledger_inv_ledger; [|exact Lg]; change (same_ledger db db); reflexivity|].
    split; [done|]. split; [|done]. split; try reflexivity; [by apply no_postings|by apply no_lines|exact Hg]. }
  destruct (List.find _ _) as [row|]; cbn [table_insert] in E; injection E as <- <-; eapply T; try reflexivity.
  - split; try done. cbn. eapply Forall_impl; [exact P2|]. cbn. lia.
  - split; cbn [set_periods billing_periods invoices ledger_transactions rows seq_next]; try done.
    + rewrite map_app. apply NoDup_app. split; [done|]. split; [|apply NoDup_singleton]. cbn.
      intros id (i & -> & Hi)%list_elem_of_fmap E%list_elem_of_singleton. rewrite Forall_forall in P2. specialize (P2 i Hi). lia.
    + apply Forall_app. split; [eapply Forall_impl; [exact P2|]; cbn; lia|]. repeat constructor. cbn. lia.
    + eapply Forall_impl; [exact P4|]. cbn. intros i Hi. rewrite map_app, elem_of_app. by left.
    + apply Forall_app. split; [done|]. repeat constructor; [done|]. cbn. intros (i & E & Hi)%list_elem_of_fmap. exfalso.
      rewrite Forall_forall in P4. apply (P4 i), list_elem_of_fmap in Hi as (r & Er & Hr). rewrite Forall_forall in P2. specialize (P2 r Hr). lia.
  - by eapply grown_app.
Qed.

End Closing.
