(* ===== verification/Runs.v ===== *)
(** * Billing as a state machine

    The service of [System.v] together with what is done with its tables: ledger
    accounts and entries, billing periods and their closing, in any order, by any
    number of sessions, each a transaction that may fail at any statement. What the
    books hold in every state, that their history is never rewritten, and that a
    period has one invoice however many runs bill it. *)

From S2P Require Import Prelude Decimal Amount Quantity Ledger Pricing Bytes Json Record LogSpec GoTime Event EventJson Validate Instances Handler DB Consumer Store Invoicing System Chaos Books.

Section Runs.
Context {L : Type} `{LogStore L} `{Postgres}.
Variable err_text : list byte -> json_err -> string.

#[local] Instance codec_runs : EventCodec := json_EventCodec err_text.

(** ** The machine *)

Inductive bstep : L * DB -> option (Z * close_result) -> L * DB -> Prop :=
| b_request log db body now1 now2 resp log' n :
    ls_NextOffset log = Ok n -> n < max_int64 ->
    ServeHTTP err_text body now1 now2 log = (resp, log') -> bstep (log, db) None (log', db)
| b_drain log db clock fuel sched log' db' :
    Forall (quiet_for same_rows) sched -> consumer_turn clock fuel sched log db = (log', db') ->
    bstep (log, db) None (log', db')
| b_create log db now name kind sched r srv :
    Forall (quiet_for same_rows) sched -> CreateAccount now name kind (mkServer db sched) = (r, srv) ->
    bstep (log, db) None (log, srv_db srv)
| b_ensure log db now name kind sched r srv :
    Forall (quiet_for same_rows) sched -> EnsureAccount now name kind (mkServer db sched) = (r, srv) ->
    bstep (log, db) None (log, srv_db srv)
| b_post log db now key at_ description transfers t sched r srv :
    Forall (fun tr => in_int64 (tr_Amount tr)) transfers -> NewTransaction key at_ description transfers = Ok t ->
    Forall (quiet_for same_rows) sched -> Post now t (mkServer db sched) = (r, srv) ->
    bstep (log, db) None (log, srv_db srv)
| b_period log db now tenantID label start end_ sched r srv :
    Forall (quiet_for same_rows) sched -> EnsurePeriod now tenantID label start end_ (mkServer db sched) = (r, srv) ->
    bstep (log, db) None (log, srv_db srv)
| b_close log db registry now periodID plan sched r srv :
    Forall (quiet_for same_rows) sched -> Close registry now periodID plan (mkServer db sched) = (r, srv) ->
    bstep (log, db) (Some (periodID, r)) (log, srv_db srv).

(** A run of the machine, with the closings in it and what they returned. *)
Inductive bsteps : L * DB -> list (Z * close_result) -> L * DB -> Prop :=
| bs_nil s : bsteps s [] s
| bs_quiet s s1 s' trace : bstep s None s1 -> bsteps s1 trace s' -> bsteps s trace s'
| bs_close s s1 s' c trace : bstep s (Some c) s1 -> bsteps s1 trace s' -> bsteps s (c :: trace) s'.

(** ** Lemmas: the tables *)

Definition books_ok (db : DB) : Prop := billing_ok db /\ books db /\ periods_ok db.

(** What a session other than the consumer does. *)
Definition advance (db db' : DB) : Prop := books_ok db -> books_ok db' /\ history db db' /\ same_view "billing" db db'.

Lemma advance_trans db1 db2 db3 : advance db1 db2 -> advance db2 db3 -> advance db1 db3.
Proof.
  intros A B Hok. destruct (A Hok) as (Hok2 & H1 & [V1 P1]). destruct (B Hok2) as (Hok3 & H2 & [V2 P2]).
  split; [done|]. split; [by etrans|]. split; congruence.
Qed.

Lemma advance_same db db' : same_rows db db' -> advance db db'.
Proof.
  intros V (Ho & Hb & Hp). split; [|by split; [apply same_rows_history|apply same_rows_view]].
  split; [by eapply billing_ok_same|]. split; [by eapply books_ingested; [apply same_rows_ingested|]|by eapply periods_ok_same].
Qed.

(** The ledger alone was written to. *)
Lemma advance_ledger db db' : same_billing db db' -> (ledger_inv db -> ledger_inv db') -> history db db' ->
  rows (ledger_transactions db) `prefix_of` rows (ledger_transactions db') -> advance db db'.
Proof.
  intros ([E _] & O & [D _] & B & [I Q] & [T _]) HL HH HT ((Lg & Q1 & Q2) & [B1 B2 B3 B4 B5 B6 B7 B8] & Hp). split; [|split; [done|]].
  - split; [split; [auto|by rewrite E, T]|]. split; [|by eapply periods_ok_keep].
    split; rewrite ?E, ?I, ?T; try done.
    + eapply Forall_impl; [exact B3|]. cbn. lia.
    + eapply Forall_impl; [exact B4|]. cbn. lia.
    + eapply Forall_impl; [exact B5|]. unfold line_sum. by rewrite T.
    + eapply Forall_impl; [exact B6|]. unfold usage_on. by rewrite E.
  - unfold same_view, view, position. by rewrite E, O, D.
Qed.

(** A statement by itself happened, or did not. *)
Lemma db_exec_either {A} (q : stmt A) srv r srv' : Forall (quiet_for same_rows) (srv_sched srv) -> db_exec q srv = (r, srv') ->
  exists db1, same_rows (srv_db srv) db1 /\ (srv_db srv' = db1 \/ exists a, q db1 = Ok (a, srv_db srv')).
Proof.
  intros Hq E. destruct (db_exec_inv same_rows ltac:(reflexivity) _ _ _ _ Hq E) as (_ & (db1 & V & D) & _).
  exists db1. split; [done|]. destruct r; [right; by eexists|done].
Qed.

Lemma advance_exec {A} (q : stmt A) srv r srv' : (forall db a db', q db = Ok (a, db') -> advance db db') ->
  Forall (quiet_for same_rows) (srv_sched srv) -> db_exec q srv = (r, srv') -> advance (srv_db srv) (srv_db srv').
Proof.
  intros HA Hq E. destruct (db_exec_either q srv r srv' Hq E) as (db1 & V & D).
  eapply advance_trans; [by apply advance_same|]. destruct D as [->|[a D]]; [by apply advance_same|by eapply HA].
Qed.

Lemma advance_more db db' : more_accounts db db' -> ledger_inv db' -> advance db db'.
Proof. intros M Hl. pose proof M as (B & T & _). apply advance_ledger; [done|done|by apply more_accounts_history|by apply same_table_prefix]. Qed.

Lemma ensureAccount_advance name kind now db a db' : ensureAccountSQL name kind now db = Ok (a, db') -> advance db db'.
Proof.
  intros E Hok. destruct Hok as ((Lg & Hq) & Hr). pose proof (ensureAccountSQL_spec now name kind db Lg) as S. rewrite E in S.
  destruct a as [id k]. destruct S as (M & L' & _). by apply (advance_more db db' M L').
Qed.

Lemma insertAccount_ensures name kind now db id db' : insertAccount name kind now db = Ok (id, db') ->
  ensureAccountSQL name kind now db = Ok ((id, kind), db').
Proof.
  unfold insertAccount, ensureAccountSQL. destruct (negb _); [done|]. destruct (negb _); [done|]. destruct (existsb _ _) eqn:Ee; [done|].
  destruct (List.find _ _) as [row|] eqn:Ef; [|cbn [table_insert]; by intros [= <- <-]].
  apply find_In in Ef as [Hin Hn]. by rewrite (existsb_false _ _ _ Ee Hin) in Hn.
Qed.

Lemma CreateAccount_advance now name kind srv r srv' : Forall (quiet_for same_rows) (srv_sched srv) ->
  CreateAccount now name kind srv = (r, srv') -> advance (srv_db srv) (srv_db srv').
Proof.
  intros Hq. unfold CreateAccount. destruct (decide _); [intros [= _ <-]; by apply advance_same|].
  destruct (negb _); [intros [= _ <-]; by apply advance_same|]. unfold in_store. destruct (db_exec _ srv) as [r1 srv1] eqn:E.
  apply advance_exec in E; [|intros db id db' Ei%insertAccount_ensures; by eapply ensureAccount_advance|done].
  by destruct r1; intros [= _ <-].
Qed.

Lemma EnsureAccount_advance now name kind srv r srv' : Forall (quiet_for same_rows) (srv_sched srv) ->
  EnsureAccount now name kind srv = (r, srv') -> advance (srv_db srv) (srv_db srv').
Proof.
  intros Hq. unfold EnsureAccount, ensureAccount. destruct (decide _); [intros [= _ <-]; by apply advance_same|].
  destruct (negb _); [intros [= _ <-]; by apply advance_same|]. unfold mbind, ST_bind, in_store. destruct (db_exec _ srv) as [r1 srv1] eqn:E.
  apply advance_exec in E; [|intros; by eapply ensureAccount_advance|done].
  destruct r1 as [[id k]|e]; [|by intros [= _ <-]]. by destruct (decide _); intros [= _ <-].
Qed.

Lemma Post_advance now t srv r srv' : Forall (fun p => in_int64 (po_Amount p)) (tx_postings t) ->
  Forall (quiet_for same_rows) (srv_sched srv) -> Post now t srv = (r, srv') -> advance (srv_db srv) (srv_db srv').
Proof.
  intros Hr Hq E Hok. pose proof Hok as ((Lg & _) & _). destruct (Post_spec now t srv r srv' Hq Lg Hr E) as (Hl & P & _).
  assert (A : forall id, posted t id (srv_db srv) (srv_db srv') -> advance (srv_db srv) (srv_db srv')).
  { intros id Hp. pose proof Hp as (B & _ & (row & T & _) & _). apply advance_ledger; [done|done|by eapply posted_history|].
    rewrite T. by apply prefix_app_r. }
  revert Hok. change (advance (srv_db srv) (srv_db srv')). destruct r as [[id []]|e]; [apply advance_same, P|by eapply A|].
  destruct P as [V|[id P]]; [by apply advance_same|by eapply A].
Qed.

Lemma EnsurePeriod_advance now tenantID label start end_ srv r srv' : Forall (quiet_for same_rows) (srv_sched srv) ->
  EnsurePeriod now tenantID label start end_ srv = (r, srv') -> advance (srv_db srv) (srv_db srv').
Proof.
  intros Hq. unfold EnsurePeriod. destruct (negb _); [intros [= _ <-]; by apply advance_same|].
  destruct (decide _); [intros [= _ <-]; by apply advance_same|]. unfold mbind, ST_bind, in_inv.
  destruct (db_exec _ srv) as [r1 srv1] eqn:E. apply advance_exec in E; [|clear; intros db a db' E (Ho & Hb & Hp)|done].
  - by destruct r1; intros [= _ <-].
  - destruct (ensurePeriod_ok _ _ _ _ _ _ _ _ E Hb Ho Hp) as (? & ? & ? & ? & V). by split_and!; try apply V.
Qed.

Lemma billed_advance plan periodID period inv db db' : ledger_inv db' -> has_period periodID period db -> pe_State period <> Closed ->
  billed plan period inv db db' -> advance db db'.
Proof.
  intros Lg Hp Ho Hb (Hok & Hbk & Hpo). split; [|split; [by eapply billed_history|by eapply view_billed]].
  split; [by eapply billing_ok_billed|]. split; [by eapply books_billed|by eapply periods_ok_billed].
Qed.

(** ** The invariant *)

(** What the handler puts into the log has a quantity that can be stored. *)
Definition good_record (record : list byte) : Prop := forall e, Decode record = Ok e -> good_quantity (ev_Quantity e).

Lemma accepts_good body now1 now2 record : accepts body now1 now2 record -> good_record record.
Proof.
  intros (req & Hj & Hv & He) e Hd. pose proof (accepted_decodes err_text _ _ _ _ Hj He) as Hd'.
  assert (e = request_event req now2) as -> by (cbn in Hd; congruence).
  destruct (request_event_billable req now1 now2 Hv) as (_ & _ & _ & Hq & _). exact Hq.
Qed.

Lemma consumed_nonneg rs n db : consumed "billing" rs n db -> Forall good_record rs -> Forall (fun r => 0 <= er_quantity r) (rows (events db)).
Proof.
  intros (_ & _ & Hc) F. apply consume_prefix in Hc as [_ _ _ R]. apply Forall_forall. intros r Hr.
  destruct (R (event_content r)) as (i & record & e & _ & Hi & Hd & Q & _); [by apply list_elem_of_fmap_2|].
  rewrite Forall_forall in F. pose proof (F record ltac:(by eapply list_elem_of_lookup_2) e Hd) as Hg. cbn in Q.
  rewrite (numeric_good _ Hg) in Q. injection Q as <-. by apply quantity_value_nonneg, Hg.
Qed.

Definition runs_inv (s : L * DB) : Prop :=
  exists rs n, ls_holds s.1 rs /\ Z.of_nat (length rs) <= max_int64 /\ Forall good_record rs /\ consumed "billing" rs n s.2 /\ books_ok s.2.

Lemma advance_inv log db db' : advance db db' -> runs_inv (log, db) -> runs_inv (log, db') /\ history db db'.
Proof.
  intros A (rs & n & Hh & Hl & F & Hc & Hok). destruct (A Hok) as (Hok' & Hhi & [V P]). split; [|done].
  exists rs, n. split; [done|]. split; [done|]. split; [done|]. split; [|done]. cbn in *. unfold consumed in *. by rewrite V, P.
Qed.

Lemma request_inv log db body now1 now2 resp log' n : ls_NextOffset log = Ok n -> n < max_int64 ->
  ServeHTTP err_text body now1 now2 log = (resp, log') -> runs_inv (log, db) -> runs_inv (log', db).
Proof.
  intros Hn Hmax Hs (rs & m & Hh & Hl & F & Hc & Hok). cbn in *. rewrite (ls_NextOffset_law log rs Hh) in Hn. injection Hn as <-.
  assert (Grow : forall record, accepts body now1 now2 record -> ls_holds log' (rs ++ [record]) -> runs_inv (log', db)).
  { intros record Ha Hh'. exists (rs ++ [record]), m. cbn. split; [done|]. split; [rewrite length_app; cbn; lia|].
    split; [|by split; [apply consumed_app|]]. apply Forall_app. split; [done|]. apply Forall_singleton. by eapply accepts_good. }
  destruct (ServeHTTP_cases err_text _ _ _ _ _ _ _ Hh ltac:(int_lia) Hs)
    as [(record & _ & Hacc & Hl')|[(record & code & detail & _ & Hacc & [Hl'|Hl'])|(code & detail & _ & _ & -> & _)]];
    [by eapply Grow|by exists rs, m|by eapply Grow|by exists rs, m].
Qed.

Lemma drain_inv log db clock fuel sched log' db' : Forall (quiet_for same_rows) sched ->
  consumer_turn clock fuel sched log db = (log', db') -> runs_inv (log, db) -> runs_inv (log', db') /\ history db db'.
Proof.
  intros Hq E (rs & m & Hh & Hl & F & Hc & (Lg & _ & Q2) & Hb & Hp). cbn in Hh, Hc, Lg, Q2, Hb, Hp.
  destruct (consumer_turn_spec rs m clock fuel sched log db log' db' Hl Hh (quiet_rows_view _ _ Hq) Hc E) as (Hh' & (n' & Hc' & _) & _).
  unfold consumer_turn, drain in E. destruct (Drain _ _ _ _ _) as [r [log1 srv1]] eqn:Ed. injection E as <- <-.
  destruct (drain_loop_grows billing_consumer clock fuel zero_stats log (mkServer db sched) r log1 srv1 Hq Ed) as [(_ & I & _) _]. cbn [srv_db] in I.
  split; [|by apply ingested_history]. exists rs, n'. split; [done|]. split; [done|]. split; [done|]. split; [done|]. cbn.
  split; [|by split; [eapply books_ingested|eapply periods_ok_ingested]]. split; [|split].
  - eapply ledger_inv_ledger; [apply I|done].
  - by eapply consumed_nonneg.
  - destruct I as [_ _ _ [-> _] _]. done.
Qed.

(** ** The invoice of a period *)

(** The invoice a closing returned, if it did. *)
Definition invoice_of (r : close_result) : option Invoice :=
  match r with Issued inv | ErrPeriodClosed inv => Some inv | CloseFailed _ => None end.

Definition line_shown (l : InvoiceLine) : string * Z * Z := (il_Meter l, il_Quantity l, il_Amount l).

Definition line_stored (r : line_item_row) : string * Z * Z := (li_meter r, li_quantity r, li_amount r).

(** The tables hold [inv] for the period. *)
Definition on_record (periodID : Z) (inv : Invoice) (db : DB) : Prop :=
  exists row, row ∈ rows (invoices db) /\ iv_period_id row = periodID /\ in_ID inv = iv_id row /\ in_TenantID inv = iv_tenant_id row /\
    in_Total inv = iv_total row /\ in_LedgerTransactionID inv = iv_ledger_transaction_id row /\
    map line_shown (in_LineItems inv) ≡ₚ
      map line_stored (List.filter (fun r => li_invoice_id r =? iv_id row) (rows (invoice_line_items db))).

(** Two answers about one invoice: the flag [Late] is not stored, and the lines come
    in another order. *)
Definition same_invoice (inv inv' : Invoice) : Prop :=
  in_ID inv' = in_ID inv /\ in_TenantID inv' = in_TenantID inv /\ in_Total inv' = in_Total inv /\
  in_LedgerTransactionID inv' = in_LedgerTransactionID inv /\
  map line_shown (in_LineItems inv') ≡ₚ map line_shown (in_LineItems inv).

Lemma line_rows_shown id lines new : Forall2 (line_row id) lines new -> map line_shown lines = map line_stored new.
Proof.
  induction 1 as [|l r lines new (_ & E1 & E2 & E3) _ IH]; [done|]. cbn [map]. rewrite IH. f_equal. unfold line_shown, line_stored. congruence.
Qed.

Lemma stored_on_record periodID inv db : stored_invoice periodID inv db -> on_record periodID inv db.
Proof.
  intros (row & Hin & Hp & Hid & _ & Ht & Hto & Hl & _ & found & Hperm & F). exists row. split_and!; try done.
  rewrite <- Hperm. clear Hperm. induction F as [|r l found lines ((_ & E1 & E2 & E3) & _) _ IH]; [done|]. cbn [map].
  rewrite IH. replace (line_shown l) with (line_stored r); [done|]. unfold line_shown, line_stored. congruence.
Qed.

Lemma billed_on_record plan periodID period inv db db' : books db -> has_period periodID period db ->
  billed plan period inv db db' -> on_record periodID inv db'.
Proof.
  intros Hb (r0 & _ & <- & ->) (items & trs & t & rec & _ & _ & _ & _ & _ & _ & _ & [[_ Ht] _ _ I4 (new & N & I5) _ [I7 _] _] & _).
  eexists. split; [rewrite I4; apply elem_of_app; right; left|]. cbn. split_and!; [done|done|done|done|done|].
  rewrite I5, List.filter_app, filter_none, filter_all, (line_rows_shown _ _ _ N); [done| |].
  - apply line_rows_amounts in N as (_ & Ni & _). eapply Forall_impl; [exact Ni|]. cbn. intros l ->. lia.
  - eapply Forall_impl; [exact (bk_lines _ Hb)|]. cbn. lia.
Qed.

Lemma history_on_record periodID inv db db' : history db db' -> on_record periodID inv db -> on_record periodID inv db'.
Proof.
  intros [_ _ _ [x HI] (new & HL & F) _ _] (row & Hin & Hp & Hid & Ht & Hto & Hl & Hperm). exists row.
  split; [rewrite HI; apply elem_of_app; by left|]. split_and!; try done. rewrite HL, List.filter_app, (filter_none _ new), app_nil_r; [done|].
  eapply Forall_impl; [exact F|]. cbn. intros l Hn. apply Z.eqb_neq. intros E. apply Hn. rewrite E. by apply list_elem_of_fmap_2.
Qed.

Lemma on_record_unique periodID inv inv' db : periods_ok db -> on_record periodID inv db -> on_record periodID inv' db -> same_invoice inv inv'.
Proof.
  intros Hp (row & Hin & E & E1 & E2 & E3 & E4 & E5) (row' & Hin' & E' & E1' & E2' & E3' & E4' & E5').
  assert (row' = row) as -> by (apply (NoDup_map_inj iv_period_id _ (po_one _ Hp)); congruence).
  split_and!; try congruence. by rewrite E5, E5'.
Qed.

(** ** Lemmas: runs *)

Lemma Close_advance registry now periodID plan srv r srv' : Forall (quiet_for same_rows) (srv_sched srv) ->
  books_ok (srv_db srv) -> Close registry now periodID plan srv = (r, srv') ->
  advance (srv_db srv) (srv_db srv') /\ (forall inv, invoice_of r = Some inv -> on_record periodID inv (srv_db srv')) /\
  (forall inv inv', r = Issued inv -> ~ on_record periodID inv' (srv_db srv)).
Proof.
  intros Hq Hok E. pose proof Hok as (Hbo & Hbk & Hpo). destruct (Close_spec registry now periodID plan srv r srv' Hq Hbo E) as (_ & Lg & R).
  destruct r as [inv|inv|e].
  - destruct R as (period & Hp & Ho & Hb & _). split; [by eapply billed_advance|]. split; [intros inv' [= <-]; by eapply billed_on_record|].
    intros _ inv' _ (row & Hin & Hid & _). destruct Hp as (r0 & Hr0 & Er & ->). apply (open_not_invoiced _ r0 Hpo Hr0 Ho).
    rewrite Er, <- Hid. by apply list_elem_of_fmap_2.
  - destruct R as [V Hs]. split; [by apply advance_same|]. split; [|done]. intros inv' [= <-].
    eapply history_on_record; [by apply same_rows_history|by apply stored_on_record].
  - split; [|done]. destruct R as [V|(period & inv & Hp & Ho & Hb)]; [by apply advance_same|by eapply billed_advance].
Qed.

Lemma bstep_inv s o s' : bstep s o s' -> runs_inv s -> runs_inv s' /\ history s.2 s'.2.
Proof.
  intros Hs Hi.
  destruct Hs as [log db body now1 now2 resp log' n Hn Hm Hs|log db clock fuel sched log' db' Hq E|log db now name kind sched r srv Hq E
    |log db now name kind sched r srv Hq E|log db now key at_ description trs t sched r srv Hr Ht Hq E
    |log db now tenantID label start end_ sched r srv Hq E|log db registry now periodID plan sched r srv Hq E]; cbn [snd].
  - split; [by eapply request_inv|reflexivity].
  - by eapply drain_inv.
  - apply advance_inv; [|done]. by apply (CreateAccount_advance now name kind (mkServer db sched) r).
  - apply advance_inv; [|done]. by apply (EnsureAccount_advance now name kind (mkServer db sched) r).
  - apply advance_inv; [|done]. apply (Post_advance now t (mkServer db sched) r); [|done..].
    destruct (NewTransaction_ok _ _ _ _ _ Hr Ht) as (_ & _ & F). eapply Forall_impl; [exact F|]. by intros p [].
  - apply advance_inv; [|done]. by apply (EnsurePeriod_advance now tenantID label start end_ (mkServer db sched) r).
  - apply advance_inv; [|done]. destruct Hi as (_ & _ & _ & _ & _ & _ & Hok).
    by destruct (Close_advance registry now periodID plan (mkServer db sched) r srv Hq Hok E).
Qed.

Lemma bstep_closed s periodID r s' : bstep s (Some (periodID, r)) s' -> runs_inv s ->
  (forall inv, invoice_of r = Some inv -> on_record periodID inv s'.2) /\
  (forall inv inv', r = Issued inv -> ~ on_record periodID inv' s.2).
Proof.
  intros Hs (_ & _ & _ & _ & _ & _ & Hok). inversion Hs as [| | | | | |log db registry now id plan sched r' srv Hq E]; subst.
  by destruct (Close_advance registry now periodID plan (mkServer db sched) r srv Hq Hok E) as (_ & ? & ?).
Qed.

Lemma bsteps_inv s trace s' : bsteps s trace s' -> runs_inv s -> runs_inv s' /\ history s.2 s'.2.
Proof.
  induction 1 as [s|s s1 s' trace Hs _ IH|s s1 s' c trace Hs _ IH]; intros Hi; [by split|..];
    destruct (bstep_inv _ _ _ Hs Hi) as [Hi1 H1]; destruct (IH Hi1) as [Hi2 H2]; (split; [done|by etrans]).
Qed.

Lemma bsteps_split s t1 c t2 s' : bsteps s (t1 ++ c :: t2) s' -> exists s1 s2, bsteps s t1 s1 /\ bstep s1 (Some c) s2 /\ bsteps s2 t2 s'.
Proof.
  intros Hs. remember (t1 ++ c :: t2) as trace eqn:Et. revert t1 Et.
  induction Hs as [s|s s0 s' trace Hs Hr IH|s s0 s' c0 trace Hs Hr IH]; intros t1 Et; [by destruct t1| |].
  - destruct (IH t1 Et) as (s1 & s2 & ? & ? & ?). exists s1, s2. split_and!; [by eapply bs_quiet|done|done].
  - destruct t1 as [|c1 t1]; injection Et as -> ->; [exists s, s0; split_and!; [constructor|done|done]|].
    destruct (IH t1 eq_refl) as (s1 & s2 & ? & ? & ?). exists s1, s2. split_and!; [by eapply bs_close|done|done].
Qed.

Lemma bsteps_app s t1 s1 t2 s2 : bsteps s t1 s1 -> bsteps s1 t2 s2 -> bsteps s (t1 ++ t2) s2.
Proof. induction 1 as [| |]; intros Hs2; [done|by eapply bs_quiet; eauto|by eapply bs_close; eauto]. Qed.

Lemma initial_inv log0 : ls_holds log0 [] -> runs_inv (log0, empty_db).
Proof.
  intros Hh. exists [], 0%nat. split; [done|]. split; [cbn; int_lia|]. split; [constructor|]. split; [apply consumed_empty|].
  split; [split; [by apply ledger_inv_fresh|by split]|]. split; [split; constructor|split; constructor].
Qed.

(** ** Theorems *)

(** C9: the books always reconcile. Whatever requests, drains, entries, periods and
    closings happened, in whatever order and wherever they failed, every entry of
    the ledger sums to zero and so does the ledger; an invoice comes to the sum of
    its lines, belongs to a closed period and to an entry of the ledger; no period
    has two invoices, and every closed one has one; and an event that is marked as
    billed is marked with an invoice that exists. *)
Theorem books_reconcile (log0 : L) trace s : ls_holds log0 [] -> bsteps (log0, empty_db) trace s ->
  let db := s.2 in
  trial_sum db = 0 /\ (forall id, transaction_sum db id = 0) /\
  (forall i, i ∈ rows (invoices db) -> iv_total i = line_sum db (iv_id i) /\
     iv_ledger_transaction_id i ∈ map tr_id (rows (ledger_transactions db)) /\
     exists r, r ∈ rows (billing_periods db) /\ bp_id r = iv_period_id i /\ bp_state r = Closed) /\
  NoDup (map iv_period_id (rows (invoices db))) /\
  (forall r, r ∈ rows (billing_periods db) -> bp_state r = Closed -> bp_id r ∈ map iv_period_id (rows (invoices db))) /\
  (forall r id, r ∈ rows (events db) -> er_invoice_id r = Some id -> id ∈ map iv_id (rows (invoices db))).
Proof.
  intros Hh Hs. destruct (bsteps_inv _ _ _ Hs (initial_inv log0 Hh)) as [(_ & _ & _ & _ & _ & _ & ((_ & Hb) & _) & [B1 _ _ _ B5 _ _ _] & [_ _ P3 P4 P5 P6]) _].
  cbv zeta. rewrite Forall_forall in B1. rewrite Forall_forall in B5. rewrite Forall_forall in P4. rewrite Forall_forall in P5. rewrite Forall_forall in P6.
  split; [by apply trial_zero|]. split; [exact Hb|]. split; [|split; [done|split]].
  - intros i Hi. split; [by apply B5|]. split; [by apply P6|].
    pose proof (P4 i Hi) as (r & Er & Hr)%list_elem_of_fmap. exists r. split; [done|]. split; [done|]. apply (P5 r Hr).
    rewrite <- Er. by apply list_elem_of_fmap_2.
  - intros r Hr Hc. by apply (P5 r Hr).
  - intros r id Hr. by apply B1.
Qed.

(** C16: history is not rewritten. From any state on, whatever happens next, no
    account, entry, posting, invoice or line of an invoice is changed or removed, and
    no entry is given another posting; a
    closed period stays as it is; an event keeps its content and, once billed, its
    invoice. The triggers that refuse such changes have nothing to refuse. *)
Theorem history_is_kept (log0 : L) trace s trace' s' : ls_holds log0 [] -> bsteps (log0, empty_db) trace s -> bsteps s trace' s' ->
  history s.2 s'.2.
Proof.
  intros Hh Hs Hs'. destruct (bsteps_inv _ _ _ Hs (initial_inv log0 Hh)) as [Hi _]. by destruct (bsteps_inv _ _ _ Hs' Hi).
Qed.

(** C15: a period has one invoice, however many runs bill it. Once a closing has
    returned an invoice for a period, no later one issues another: whatever
    happened in between, each that returns an invoice reports that the period is
    closed, with the same invoice. *)
Theorem one_invoice_per_period (log0 : L) t1 periodID r t2 s inv r' inv' : ls_holds log0 [] ->
  bsteps (log0, empty_db) (t1 ++ (periodID, r) :: t2) s -> invoice_of r = Some inv ->
  (periodID, r') ∈ t2 -> invoice_of r' = Some inv' -> r' = ErrPeriodClosed inv' /\ same_invoice inv inv'.
Proof.
  intros Hh Hs Hr (t3 & t4 & ->)%list_elem_of_split Hr'.
  apply bsteps_split in Hs as (s1 & s2 & H1 & H2 & H3). apply bsteps_split in H3 as (s3 & s4 & H3 & H4 & _).
  destruct (bsteps_inv _ _ _ H1 (initial_inv log0 Hh)) as [I1 _]. destruct (bstep_inv _ _ _ H2 I1) as [I2 _].
  destruct (bsteps_inv _ _ _ H3 I2) as [I3 G3]. destruct (bstep_inv _ _ _ H4 I3) as [I4 G4].
  destruct (bstep_closed _ _ _ _ H2 I1) as [R2 _]. destruct (bstep_closed _ _ _ _ H4 I3) as [R4 N4].
  pose proof (history_on_record _ _ _ _ G3 (R2 inv Hr)) as O3. split.
  - destruct r' as [i|i|e]; cbn in Hr'; [|congruence|done]. by destruct (N4 i inv eq_refl).
  - destruct I4 as (_ & _ & _ & _ & _ & _ & _ & _ & Hp). apply (on_record_unique periodID _ _ s4.2 Hp); [|by apply R4].
    by eapply history_on_record.
Qed.

End Runs.

(** ** Waiting for the lock *)

Definition calm : tick := mkTick (fun db => db) Run.

(** [SELECT ... FOR UPDATE] is the first statement of a run and returns when the
    session that has the row is done with it. Whatever the others did until then,
    the run is one that began when the row was granted. *)
Lemma Close_waits `{Postgres} registry now periodID plan db t0 t1 sched : treatment t0 = Run -> treatment t1 = Run ->
  Close registry now periodID plan (mkServer db (t0 :: t1 :: sched)) =
  Close registry now periodID plan (mkServer (others t1 (others t0 db)) (calm :: calm :: sched)).
Proof.
  intros E0 E1. unfold Close, BeginTx, close_tx. cbn [srv_sched srv_db next_tick]. rewrite E0. cbn [treatment calm others].
  unfold mbind, ST_bind, in_inv, tx_exec. cbn [tx_server tx_db srv_sched srv_db next_tick]. by rewrite E1.
Qed.


(** ** Witnesses, and what no lock prevents *)

Section Examples.
#[local] Existing Instance list_LogStore.
#[local] Existing Instance small_Postgres.
#[local] Instance codec_example : EventCodec := json_EventCodec no_text.

Definition one_request : list (list byte) := (ServeHTTP no_text body_example clock_example clock_example []).2.

Definition one_event : DB := (consumer_turn no_clock 3 [] one_request empty_db).2.

Definition one_period : DB :=
  srv_db (EnsurePeriod clock_example "acme" "2026-08" 63890000000000000000 63930000000000000000 (mkServer one_event [])).2.

Definition first_run : close_result * server := Close registry_example clock_example 1 plan_example (mkServer one_period []).

Definition second_run : close_result * server := Close registry_example clock_example 1 plan_example (mkServer (srv_db first_run.2) []).

Lemma period_run : bsteps no_text ([], empty_db) [] (one_request, one_period).
Proof.
  eapply bs_quiet; [refine (b_request no_text [] empty_db body_example clock_example clock_example _ one_request 0 eq_refl eq_refl (surjective_pairing _))|].
  eapply bs_quiet.
  { refine (b_drain no_text one_request empty_db no_clock 3 [] one_request one_event (Forall_nil_2 _) _).
    transitivity ((consumer_turn no_clock 3 [] one_request empty_db).1, one_event); [apply surjective_pairing|f_equal; vm_compute; reflexivity]. }
  eapply bs_quiet; [|constructor].
  exact (b_period no_text one_request one_event clock_example "acme" "2026-08" 63890000000000000000 63930000000000000000 [] _ _ (Forall_nil_2 _) (surjective_pairing _)).
Qed.

Lemma close_runs : bsteps no_text (one_request, one_period) [(1, first_run.1); (1, second_run.1)] (one_request, srv_db second_run.2).
Proof.
  eapply bs_close; [exact (b_close no_text one_request one_period registry_example clock_example 1 plan_example [] _ _ (Forall_nil_2 _) (surjective_pairing _))|].
  eapply bs_close; [exact (b_close no_text one_request (srv_db first_run.2) registry_example clock_example 1 plan_example [] _ _ (Forall_nil_2 _) (surjective_pairing _))|].
  constructor.
Qed.

Lemma example_run : bsteps no_text ([], empty_db) [(1, first_run.1); (1, second_run.1)] (one_request, srv_db second_run.2).
Proof. exact (bsteps_app no_text _ [] _ _ _ period_run close_runs). Qed.

Lemma books_reconcile_witness :
  length (rows (invoices (srv_db second_run.2))) = 1%nat /\ trial_sum (srv_db second_run.2) = 0 /\
  forall i, i ∈ rows (invoices (srv_db second_run.2)) -> iv_total i = line_sum (srv_db second_run.2) (iv_id i).
Proof.
  destruct (@books_reconcile _ list_LogStore _ no_text [] _ _ eq_refl example_run) as (T & _ & I & _).
  split; [vm_compute; reflexivity|]. split; [exact T|]. intros i Hi. exact (proj1 (I i Hi)).
Defined.

Lemma history_is_kept_witness :
  history one_period (srv_db second_run.2) /\ map er_invoice_id (rows (events one_period)) = [None] /\
  map er_invoice_id (rows (events (srv_db second_run.2))) = [Some 1].
Proof.
  split; [exact (@history_is_kept _ list_LogStore _ no_text [] _ _ _ _ eq_refl period_run close_runs)|]. split; vm_compute; reflexivity.
Defined.

Definition no_invoice : Invoice := mkInvoice 0 0 "" 0 0 0 [].

Definition invoice_returned (r : close_result) : Invoice := default no_invoice (invoice_of r).

Lemma runs_return :
  first_run.1 = Issued (invoice_returned first_run.1) /\ invoice_of second_run.1 = Some (invoice_returned second_run.1) /\
  in_Total (invoice_returned first_run.1) = 150.
Proof. split; [|split]; vm_compute; reflexivity. Qed.

Lemma one_invoice_per_period_witness :
  exists inv inv', first_run.1 = Issued inv /\ in_Total inv = 150 /\ second_run.1 = ErrPeriodClosed inv' /\ same_invoice inv inv'.
Proof.
  destruct runs_return as (E1 & E2 & E3). exists (invoice_returned first_run.1), (invoice_returned second_run.1).
  split; [exact E1|]. split; [exact E3|].
  exact (@one_invoice_per_period _ list_LogStore _ no_text [] [] 1 first_run.1 [(1, second_run.1)] _ _ second_run.1 _ eq_refl example_run
    (f_equal invoice_of E1) (list_elem_of_here _ _) E2).
Defined.

(** One tenant, two periods. *)
Definition two_periods : DB :=
  set_periods (mkTable [period_row_example 1 "acme" "2026-07"; period_row_example 2 "acme" "2026-08"] 3)
    (set_events (mkTable [event_row_example 1 5 "acme" "k1"; event_row_example 2 7 "acme" "k2"] 3) empty_db).

Definition bill_period (periodID : Z) (sched : list tick) : close_result * server :=
  Close registry_example clock_example periodID plan_example (mkServer two_periods sched).

(** Another session closes period 1 from its first statement to its commit. *)
Definition other_run : tick := mkTick (fun db => srv_db (Close registry_example clock_example 1 plan_example (mkServer db [])).2) Run.



End Examples.
