(* ===== verification/Usage.v ===== *)
(** * Usage is conserved

    What a customer used is what the invoices say and what is still due: nothing is
    dropped between an event and a line, and nothing is charged to two lines. Drawn
    from the invariant of [Books.v] for every state the machine of [Runs.v] reaches. *)

From S2P Require Import Prelude Decimal Amount Quantity Ledger Pricing Bytes Json Record LogSpec GoTime Event EventJson Validate Instances Handler DB Consumer Store Invoicing System Chaos Books Runs.

(** ** Three sums *)

Definition used_by (tenantID meter : string) (r : event_row) : bool :=
  bool_decide (er_tenant_id r = tenantID) && bool_decide (er_meter r = meter).

Definition still_due (tenantID meter : string) (r : event_row) : bool :=
  used_by tenantID meter r && bool_decide (er_invoice_id r = None).

(** A line of a meter on an invoice of a tenant. *)
Definition line_of (tenantID meter : string) (db : DB) (l : line_item_row) : bool :=
  bool_decide (li_meter l = meter) &&
  existsb (fun i => (iv_id i =? li_invoice_id l) && bool_decide (iv_tenant_id i = tenantID)) (rows (invoices db)).

(** All usage of a meter by a tenant. *)
Definition usage_stored (tenantID meter : string) (db : DB) : Z :=
  sumZ (map er_quantity (List.filter (used_by tenantID meter) (rows (events db)))).

(** What the tenant's invoices have charged of it. *)
Definition usage_invoiced (tenantID meter : string) (db : DB) : Z :=
  sumZ (map li_quantity (List.filter (line_of tenantID meter db) (rows (invoice_line_items db)))).

(** What no invoice has. *)
Definition usage_due (tenantID meter : string) (db : DB) : Z :=
  sumZ (map er_quantity (List.filter (still_due tenantID meter) (rows (events db)))).

(** ** Lemmas *)

Lemma sum_bump (f : Z -> Z) ids k q : NoDup ids -> k ∈ ids ->
  sumZ (map (fun id => if bool_decide (k = id) then q + f id else f id) ids) = q + sumZ (map f ids).
Proof.
  induction 1 as [|id ids Hn Nd IH]; intros Hk; [by apply elem_of_nil in Hk|]. cbn [map]. rewrite !sumZ_cons. apply elem_of_cons in Hk as [->|Hk].
  - rewrite bool_decide_true by done. assert (E : forall l, (id ∉ l) -> map (fun id' => if bool_decide (id = id') then q + f id' else f id') l = map f l).
    { induction l as [|j l IHl]; [done|]. intros [Hj Hl]%not_elem_of_cons. cbn [map]. rewrite bool_decide_false, IHl by done. done. }
    rewrite E by done. lia.
  - rewrite bool_decide_false by (intros ->; done). rewrite IH by done. lia.
Qed.

(** Usage of which every part that is billed is billed to one of [ids]. *)
Lemma usage_grouped (p : event_row -> bool) m ids evs : NoDup ids ->
  (forall r, r ∈ evs -> p r = true -> er_meter r = m /\ forall id, er_invoice_id r = Some id -> id ∈ ids) ->
  (forall r id, r ∈ evs -> id ∈ ids -> charged_to id m r = true -> p r = true) ->
  sumZ (map er_quantity (List.filter p evs)) =
  sumZ (map (fun id => sumZ (map er_quantity (List.filter (charged_to id m) evs))) ids) +
  sumZ (map er_quantity (List.filter (fun r => p r && bool_decide (er_invoice_id r = None)) evs)).
Proof.
  intros Nd. induction evs as [|r evs IH]; intros H1 H2.
  { cbn. assert (E : forall l : list Z, sumZ (map (fun _ => 0) l) = 0) by (induction l as [|? l IHl]; [done|cbn [map]; by rewrite sumZ_cons, IHl]). by rewrite E. }
  pose proof (IH (fun r Hr => H1 r (list_elem_of_further _ _ _ Hr)) (fun r id Hr => H2 r id (list_elem_of_further _ _ _ Hr))) as E. clear IH.
  specialize (H1 r (list_elem_of_here _ _)). specialize (H2 r). cbn [List.filter].
  set (f := fun id => sumZ (map er_quantity (List.filter (charged_to id m) evs))) in *.
  assert (G : forall g : Z -> bool, (forall id, id ∈ ids -> charged_to id m r = g id) ->
    map (fun id => sumZ (map er_quantity (if charged_to id m r then r :: List.filter (charged_to id m) evs else List.filter (charged_to id m) evs))) ids =
    map (fun id => if g id then er_quantity r + f id else f id) ids).
  { intros g Hg. apply map_ext_in. intros id Hid%list_elem_of_In. rewrite (Hg id Hid). destruct (g id); [|done]. cbn [map]. by rewrite sumZ_cons. }
  assert (G0 : (forall id, id ∈ ids -> charged_to id m r = false) ->
    map (fun id => sumZ (map er_quantity (if charged_to id m r then r :: List.filter (charged_to id m) evs else List.filter (charged_to id m) evs))) ids =
    map f ids) by exact (G (fun _ => false)).
  destruct (p r) eqn:Ep; cbn [andb].
  - destruct (H1 eq_refl) as [Hm Hids]. destruct (er_invoice_id r) as [k|] eqn:Ek.
    + rewrite (G (fun id => bool_decide (k = id))); cycle 1.
      { intros id _. unfold charged_to. rewrite Ek, (bool_decide_true (er_meter r = m)), andb_true_r by done. apply bool_decide_ext. split; congruence. }
      rewrite (bool_decide_false (Some k = None)) by done. rewrite sum_bump by (try done; by apply Hids). cbn [map]. rewrite sumZ_cons. lia.
    + rewrite G0 by (intros id _; unfold charged_to; by rewrite Ek). rewrite bool_decide_true by done. cbn [map]. rewrite !sumZ_cons. lia.
  - rewrite G0; [exact E|]. intros id Hid. destruct (charged_to id m r) eqn:Ec; [|done]. pose proof (H2 id (list_elem_of_here _ _) Hid Ec). congruence.
Qed.

Lemma books_conserve db tenantID meter : books db -> usage_stored tenantID meter db = usage_invoiced tenantID meter db + usage_due tenantID meter db.
Proof.
  intros [_ B2 _ _ _ B6 B7 B8]. unfold usage_stored, usage_invoiced, usage_due.
  set (ls := List.filter (line_of tenantID meter db) (rows (invoice_line_items db))).
  assert (Hls : forall l, l ∈ ls <-> l ∈ rows (invoice_line_items db) /\ li_meter l = meter /\
    exists i, i ∈ rows (invoices db) /\ iv_id i = li_invoice_id l /\ iv_tenant_id i = tenantID).
  { intros l. unfold ls. rewrite list_elem_of_In, List.filter_In, <- list_elem_of_In. unfold line_of. rewrite andb_true_iff, bool_decide_eq_true, existsb_exists.
    split; intros (Hl & Hm & i & Hi); (split; [done|]); (split; [done|]); exists i.
    - rewrite <- list_elem_of_In in Hi. destruct Hi as (Hi & [E%Z.eqb_eq T%bool_decide_eq_true]%andb_true_iff). done.
    - destruct Hi as (Hi & E & T). rewrite <- list_elem_of_In. split; [done|]. apply andb_true_iff. by rewrite Z.eqb_eq, bool_decide_eq_true. }
  assert (Nd : NoDup (map li_invoice_id ls)).
  { assert (Nk : NoDup (map line_key ls)).
    { unfold ls. clear -B7. induction (rows (invoice_line_items db)) as [|l k IH]; [constructor|]. apply NoDup_cons in B7 as [Hn Nd]. cbn [List.filter].
      destruct (line_of tenantID meter db l); [|by apply IH]. apply NoDup_cons. split; [|by apply IH].
      intros (l' & E & [Hin _]%list_elem_of_In%List.filter_In)%list_elem_of_fmap. apply Hn. rewrite E. by apply list_elem_of_fmap_2, list_elem_of_In. }
    assert (E : map line_key ls = (fun id => (id, meter)) <$> map li_invoice_id ls).
    { change (?f <$> ?l) with (map f l). rewrite map_map. apply map_ext_in. intros l (_ & Hm & _)%list_elem_of_In%Hls. unfold line_key. by rewrite Hm. }
    rewrite E in Nk. by eapply NoDup_fmap_1. }
  assert (Hq : map li_quantity ls = map (fun id => usage_on id meter db) (map li_invoice_id ls)).
  { rewrite map_map. apply map_ext_in. intros l (Hl & <- & _)%list_elem_of_In%Hls. rewrite Forall_forall in B6. by apply B6. }
  rewrite Hq. apply (usage_grouped (used_by tenantID meter) meter _ _ Nd).
  - intros r Hr [Ht%bool_decide_eq_true Hm%bool_decide_eq_true]%andb_true_iff. split; [done|]. intros id E. rewrite Forall_forall in B8.
    destruct (B8 r Hr id E) as [Hk (i & Hi & Ei & Ti)]. apply list_elem_of_fmap in Hk as (l & [= -> El] & Hl).
    apply list_elem_of_fmap_2, Hls. split; [done|]. split; [congruence|]. exists i. split; [done|]. by rewrite Ti.
  - intros r id Hr (l & -> & (_ & _ & i & Hi & Ei & Ti)%Hls)%list_elem_of_fmap [E%bool_decide_eq_true Hm]%andb_true_iff.
    rewrite Forall_forall in B8. destruct (B8 r Hr _ E) as [_ (i' & Hi' & Ei' & Ti')].
    assert (i' = i) as -> by (apply (NoDup_map_inj iv_id _ B2); congruence). apply andb_true_iff. split; [|done]. apply bool_decide_eq_true. congruence.
Qed.

(** ** The usage a log holds *)

Section Log.
Context `{EventCodec} `{Postgres}.

Definition event_key (e : UsageEvent) : string * string := (ev_TenantID e, ev_IdempotencyKey e).

(** The events of a log, each key once: the first record that has it counts. *)
Definition first_events (records : list (list byte)) : list UsageEvent :=
  foldl (fun es record =>
    match Decode record with
    | Ok e => if decide (event_key e ∈ map event_key es) then es else es ++ [e]
    | Err _ => es
    end) [] records.

Definition usage_logged (tenantID meter : string) (records : list (list byte)) : Z :=
  sumZ (map (fun e => quantity_value (ev_Quantity e))
    (List.filter (fun e => bool_decide (ev_TenantID e = tenantID) && bool_decide (ev_Meter e = meter)) (first_events records))).

(** The rows are the events of the log, each key once and in order. *)
Lemma consume_first name rs n v : consume name n rs = Some v -> Forall2 row_of (first_events (take n rs)) v.1.
Proof.
  revert v. induction n as [|n IH]; intros v; cbn [consume]; [intros [= <-]; constructor|].
  destruct (consume name n rs) as [w|] eqn:Ew; [|done]. specialize (IH w eq_refl). cbn [mbind option_bind].
  destruct (rs !! n) as [record|] eqn:Er; [|done]. intros Hc. pose proof (consume_prefix name rs n w Ew) as I.
  rewrite (take_S_r _ _ _ Er). unfold first_events. rewrite foldl_snoc. fold (first_events (take n rs)).
  assert (Old : forall e r, r ∈ w.1 -> er_tenant_id r = ev_TenantID e -> er_idempotency_key r = ev_IdempotencyKey e ->
    event_key e ∈ map event_key (first_events (take n rs))).
  { intros e r [i Hi]%list_elem_of_lookup_1 Et Ek. destruct (Forall2_lookup_r _ _ _ _ _ IH Hi) as (e' & He' & (_ & Et' & _ & Ek' & _)).
    apply list_elem_of_fmap. exists e'. split; [unfold event_key; congruence|by eapply list_elem_of_lookup_2]. }
  destruct (consume1_cases name rs _ _ _ _ I Hc) as [[-> Ha]|[(e & r & Hd & Hrow & Hf & ->)|(d & Ho & Hrec & Hcause & ->)]]; cbn [fst].
  - destruct Ha as [(e & r & Hd & Hr & Et & Ek & _)|(d & Hd & Ho & _)]; [rewrite Hd, decide_True; [done|by eapply Old]|].
    pose proof (pi_dead _ _ _ I) as F. rewrite Forall_forall in F. specialize (F d Hd). lia.
  - rewrite Hd, decide_False; [by apply Forall2_app; [|constructor]|]. intros (e' & E & He')%list_elem_of_fmap.
    apply list_elem_of_lookup_1 in He' as [i Hi]. destruct (Forall2_lookup_l _ _ _ _ _ IH Hi) as (r' & Hr' & (_ & Et' & _ & Ek' & _)).
    injection E as Et Ek. eapply List.find_none in Hf; [|by eapply list_elem_of_In, list_elem_of_lookup_2].
    unfold same_key in Hf. by rewrite !bool_decide_true in Hf by congruence.
  - unfold dead_cause in Hcause. destruct (Decode record) as [e|text]; [|done]. destruct Hcause as (_ & r & fp & Hr & Et & Ek & _).
    rewrite decide_True; [done|by eapply Old].
Qed.

Lemma first_events_In e records : e ∈ first_events records -> exists record, record ∈ records /\ Decode record = Ok e.
Proof.
  induction records as [|record records IH] using rev_ind; [intros He; by apply elem_of_nil in He|].
  unfold first_events. rewrite foldl_snoc. fold (first_events records). intros He.
  assert (He' : e ∈ first_events records \/ Decode record = Ok e).
  { destruct (Decode record) as [e'|]; [|by left]. destruct (decide _); [by left|]. apply elem_of_app in He as [?| ->%list_elem_of_singleton]; auto. }
  destruct He' as [(rec & Hr & Hd)%IH|Hd]; [exists rec|exists record]; (split; [apply elem_of_app|done]); [by left|right; left].
Qed.

(** What is stored is what was logged. *)
Lemma stored_is_logged name rs n db tenantID meter : consume name n rs = Some (view name db) ->
  Forall (fun record => forall e, Decode record = Ok e -> good_quantity (ev_Quantity e)) rs ->
  usage_stored tenantID meter db = usage_logged tenantID meter (take n rs).
Proof.
  intros Hc Hg. pose proof (consume_first _ _ _ _ Hc) as F. unfold usage_stored, usage_logged.
  assert (G : Forall (fun e => good_quantity (ev_Quantity e)) (first_events (take n rs))).
  { apply Forall_forall. intros e (record & Hr & Hd)%first_events_In. rewrite Forall_forall in Hg. apply (Hg record); [|done].
    by eapply elem_of_take in Hr as (i & Hi%list_elem_of_lookup_2 & _). }
  cbn [view fst] in F. clear Hc Hg. revert F G. generalize (first_events (take n rs)). induction (rows (events db)) as [|r l IH]; intros es F G.
  { apply Forall2_nil_inv_r in F. by subst es. }
  cbn [map] in F. apply Forall2_cons_inv_r in F as (e & es' & (Q & Et & Em & _) & F & ->). apply Forall_cons in G as [Ge G]. specialize (IH es' F G).
  cbn [List.filter]. cbn in Q, Et, Em. rewrite (numeric_good _ Ge) in Q. injection Q as Q. unfold used_by at 1. rewrite Et, Em.
  destruct (_ && _); [|exact IH]. cbn [map]. rewrite !sumZ_cons, Q. f_equal. exact IH.
Qed.

End Log.

(** ** Theorems *)

Section Theorems.
Context {L : Type} `{LogStore L} `{Postgres}.
Variable err_text : list byte -> json_err -> string.

#[local] Instance codec_usage : EventCodec := json_EventCodec err_text.

(** C5: usage is conserved from the log to the invoices. In every state the machine
    reaches, whatever requests, drains, entries, periods and closings happened and
    wherever they failed, for every tenant and meter: the quantities on the tenant's
    invoice lines and the usage still due come, together, to the quantities of the
    events in the part of the log that was consumed, each idempotency key counted
    once. No invoice has two lines for a meter, and a line's quantity is that of
    exactly the events marked with its invoice. *)
Theorem usage_is_conserved (log0 : L) trace s : ls_holds log0 [] -> bsteps err_text (log0, empty_db) trace s ->
  (exists rs n, ls_holds s.1 rs /\ (Z.to_nat (position "billing" s.2) <= n <= length rs)%nat /\
    forall tenantID meter, usage_invoiced tenantID meter s.2 + usage_due tenantID meter s.2 = usage_logged tenantID meter (take n rs)) /\
  NoDup (map line_key (rows (invoice_line_items s.2))) /\
  (forall l, l ∈ rows (invoice_line_items s.2) -> li_quantity l = usage_on (li_invoice_id l) (li_meter l) s.2).
Proof.
  intros Hh Hs. destruct (bsteps_inv err_text _ _ _ Hs (initial_inv err_text log0 Hh)) as [(rs & n & Hl & _ & Hg & (Hp & Hn & Hc) & _ & Hb & _) _].
  split; [|split; [apply Hb|]].
  - exists rs, n. split; [done|]. split; [lia|]. intros tenantID meter. rewrite <- (books_conserve _ _ _ Hb).
    by apply (stored_is_logged "billing" rs).
  - intros l Hin. pose proof (bk_quantities _ Hb) as F. rewrite Forall_forall in F. by apply F.
Qed.

End Theorems.

(** ** Witness *)

Section Examples.
#[local] Existing Instance list_LogStore.
#[local] Existing Instance small_Postgres.

(** One request was drained and its period closed, twice. *)
Lemma usage_is_conserved_witness :
  exists rs n, rs = one_request /\ usage_invoiced "acme" "api_calls" (srv_db second_run.2) = 1500000000 /\
    usage_due "acme" "api_calls" (srv_db second_run.2) = 0 /\
    @usage_logged (json_EventCodec no_text) "acme" "api_calls" (take n rs) = 1500000000.
Proof.
  destruct (@usage_is_conserved _ list_LogStore small_Postgres no_text [] _ _ eq_refl example_run) as [(rs & n & Hl & _ & E) _].
  exists rs, n. split; [symmetry; exact Hl|]. split; [vm_compute; reflexivity|]. split; [vm_compute; reflexivity|].
  rewrite <- E. vm_compute. reflexivity.
Defined.

End Examples.
