(* ===== verification/Revenue.v ===== *)
(** * Invoices are in the ledger

    An invoice names an entry of the ledger. Unless two billing runs share a key, or
    someone posts under a key of theirs, that entry is the invoice's own: it debits
    the tenant's receivable by the invoice's total and credits the revenue of each
    meter by its line. [key_collision_drops_revenue] in [Invoicing.v] shows what the
    condition is for. *)

From S2P Require Import Prelude Decimal Amount Quantity Ledger Pricing Bytes Json Record LogSpec GoTime Event EventJson Validate Instances Handler DB Consumer Store Invoicing System Chaos Books Runs.

(** ** What an invoice has in the ledger *)

(** What an entry does to an account. *)
Definition entry_sum (id account : Z) (db : DB) : Z :=
  sumZ (map pr_amount (List.filter (fun p => (pr_transaction_id p =? id) && (pr_account_id p =? account)) (rows (ledger_postings db)))).

(** The entry of the invoice debits the receivable by the total, and credits the
    revenue of the meter of each line that is not free by the line. *)
Definition invoice_posted (i : invoice_row) (db : DB) : Prop :=
  exists receivable, has_account (ReceivableAccount (iv_tenant_id i)) Asset receivable db /\
    entry_sum (iv_ledger_transaction_id i) receivable db = iv_total i /\
    forall l, l ∈ rows (invoice_line_items db) -> li_invoice_id l = iv_id i -> li_amount l <> 0 ->
      exists revenue, has_account (RevenueAccount (li_meter l)) Revenue revenue db /\
        entry_sum (iv_ledger_transaction_id i) revenue db = - li_amount l.

Definition period_name (r : period_row) : string * string := (bp_tenant_id r, bp_label r).

(** Every entry under the key of a billing run is the entry of that period's invoice. *)
Record ledgered (db : DB) : Prop := {
  le_posted : forall i, i ∈ rows (invoices db) -> invoice_posted i db;
  le_keys : forall row tenantID label, row ∈ rows (ledger_transactions db) -> tr_idempotency_key row = TransactionKey tenantID label ->
    exists i r, i ∈ rows (invoices db) /\ iv_ledger_transaction_id i = tr_id row /\ r ∈ rows (billing_periods db) /\
      bp_id r = iv_period_id i /\ tr_idempotency_key row = TransactionKey (bp_tenant_id r) (bp_label r);
  le_entries : NoDup (map iv_ledger_transaction_id (rows (invoices db)));
  le_periods : NoDup (map period_name (rows (billing_periods db)))
}.

(** ** Runs whose keys do not collide *)

Definition plain_tenant (tenantID : string) : bool := str_all (fun c => bool_decide (c <> ":"%char)) tenantID.

(** No new entry has a key that a billing run could use. *)
Definition keys_apart (db db' : DB) : Prop :=
  forall row, row ∈ rows (ledger_transactions db') ->
    row ∈ rows (ledger_transactions db) \/ forall tenantID label, tr_idempotency_key row <> TransactionKey tenantID label.

Definition plain_tenants (db : DB) : Prop := Forall (fun r => plain_tenant (bp_tenant_id r) = true) (rows (billing_periods db)).

(** ** Lemmas: keys *)

Lemma str_split_inj (a b c d : string) : plain_tenant a = true -> plain_tenant b = true -> a +:+ String ":" c = b +:+ String ":" d -> a = b /\ c = d.
Proof.
  unfold plain_tenant. revert b. induction a as [|x a IH]; intros [|y b]; cbn [str_all].
  - intros _ _ E. by injection E.
  - intros _ [Hy _]%andb_true_iff E. injection E as <- _. by apply bool_decide_eq_true in Hy.
  - intros [Hx _]%andb_true_iff _ E. injection E as -> _. by apply bool_decide_eq_true in Hx.
  - intros [_ Ha]%andb_true_iff [_ Hb]%andb_true_iff E. injection E as -> E. destruct (IH b Ha Hb E) as [-> ->]. done.
Qed.

Lemma TransactionKey_inj t l t' l' : plain_tenant t = true -> plain_tenant t' = true -> TransactionKey t l = TransactionKey t' l' -> t = t' /\ l = l'.
Proof. intros Ht Ht' E. unfold TransactionKey in E. injection E as E. by apply str_split_inj. Qed.

(** ** Steps other than closings *)

(** What they do, as billing sees it. *)
Record aside (db db' : DB) : Prop := {
  as_history : history db db';
  as_invoices : rows (invoices db') = rows (invoices db);
  as_lines : rows (invoice_line_items db') = rows (invoice_line_items db);
  as_periods : rows (billing_periods db) `prefix_of` rows (billing_periods db');
  as_names : NoDup (map period_name (rows (billing_periods db))) -> NoDup (map period_name (rows (billing_periods db')))
}.

#[global] Instance aside_preorder : PreOrder aside.
Proof. split; [intros db; by split|]. intros a b c [H1 I1 L1 P1 N1] [H2 I2 L2 P2 N2]. split; [by etrans|congruence|congruence|by etrans|auto]. Qed.

Lemma ingested_aside db db' : ingested db db' -> aside db db'.
Proof. intros I. pose proof I as [_ [P _] [V _] [T _] _]. split; [by apply ingested_history|done|done|by rewrite P|by rewrite P]. Qed.

Lemma same_rows_aside db db' : same_rows db db' -> aside db db'.
Proof. intros V. by apply ingested_aside, same_rows_ingested. Qed.

Lemma same_billing_aside db db' : same_billing db db' -> history db db' -> aside db db'.
Proof. intros (_ & _ & _ & [P _] & [V _] & [T _]) Hh. split; [done|done|done|by rewrite P|by rewrite P]. Qed.

Lemma exec_aside {A} (q : stmt A) srv r srv' : (forall a db db', same_rows (srv_db srv) db -> q db = Ok (a, db') -> aside db db') ->
  Forall (quiet_for same_rows) (srv_sched srv) -> db_exec q srv = (r, srv') -> aside (srv_db srv) (srv_db srv').
Proof.
  intros HA Hq E. destruct (db_exec_either q srv r srv' Hq E) as (db1 & V & D). etrans; [by apply same_rows_aside|].
  destruct D as [->|[a D]]; [reflexivity|by eapply HA].
Qed.

Section Steps.
Context {L : Type} `{LogStore L} `{Postgres}.
Variable err_text : list byte -> json_err -> string.

#[local] Instance codec_revenue : EventCodec := json_EventCodec err_text.

Lemma ensureAccount_aside name kind now db a db' : ledger_inv db -> ensureAccountSQL name kind now db = Ok (a, db') -> aside db db'.
Proof.
  intros Hi E. pose proof (ensureAccountSQL_spec now name kind db Hi) as S. rewrite E in S. destruct a as [id k]. destruct S as (M & _).
  apply same_billing_aside; [apply M|by apply more_accounts_history].
Qed.

Lemma CreateAccount_aside now name kind srv r srv' : Forall (quiet_for same_rows) (srv_sched srv) -> ledger_inv (srv_db srv) ->
  CreateAccount now name kind srv = (r, srv') -> aside (srv_db srv) (srv_db srv').
Proof.
  intros Hq Hi. unfold CreateAccount. destruct (decide _); [by intros [= _ <-]|]. destruct (negb _); [by intros [= _ <-]|].
  unfold in_store. destruct (db_exec _ srv) as [r1 srv1] eqn:E. apply exec_aside in E; [by destruct r1; intros [= _ <-]| |done].
  intros id db db' V Ei%insertAccount_ensures. eapply ensureAccount_aside; [by eapply ledger_inv_same|exact Ei].
Qed.

Lemma EnsureAccount_aside now name kind srv r srv' : Forall (quiet_for same_rows) (srv_sched srv) -> ledger_inv (srv_db srv) ->
  EnsureAccount now name kind srv = (r, srv') -> aside (srv_db srv) (srv_db srv').
Proof.
  intros Hq Hi. unfold EnsureAccount, ensureAccount. destruct (decide _); [by intros [= _ <-]|]. destruct (negb _); [by intros [= _ <-]|].
  unfold mbind, ST_bind, in_store. destruct (db_exec _ srv) as [r1 srv1] eqn:E. apply exec_aside in E; [| |done].
  - destruct r1 as [[id k]|e]; [|by intros [= _ <-]]. by destruct (decide _); intros [= _ <-].
  - intros a db db' V Ei. eapply ensureAccount_aside; [by eapply ledger_inv_same|exact Ei].
Qed.

Lemma Post_aside now t srv r srv' : Forall (fun p => in_int64 (po_Amount p)) (tx_postings t) ->
  Forall (quiet_for same_rows) (srv_sched srv) -> ledger_inv (srv_db srv) -> Post now t srv = (r, srv') -> aside (srv_db srv) (srv_db srv').
Proof.
  intros Hr Hq Hi E. destruct (Post_spec now t srv r srv' Hq Hi Hr E) as (_ & P & _).
  assert (A : forall id, posted t id (srv_db srv) (srv_db srv') -> aside (srv_db srv) (srv_db srv')).
  { intros id Hp. apply same_billing_aside; [apply Hp|by eapply posted_history]. }
  destruct r as [[id []]|e]; [apply same_rows_aside, P|by eapply A|]. destruct P as [V|[id P]]; [by apply same_rows_aside|by eapply A].
Qed.

Lemma ensurePeriod_aside tenantID label start end_ created db r db' : ensurePeriod tenantID label start end_ created db = Ok (r, db') -> aside db db'.
Proof.
  unfold ensurePeriod. destruct (negb _); [done|]. destruct (_ <=? _); [done|]. intros E.
  assert (T : forall t, db' = set_periods t db -> rows (billing_periods db) `prefix_of` rows t ->
    (NoDup (map period_name (rows (billing_periods db))) -> NoDup (map period_name (rows t))) -> aside db db').
  { intros t -> Hp Hn. split; try done. split; try reflexivity; [by apply no_postings|by apply no_lines|]. destruct Hp as [x Hx]. by eapply grown_app. }
  destruct (List.find _ _) as [row|] eqn:Ef; cbn [table_insert] in E; injection E as _ <-; eapply T; try reflexivity; cbn; [done|by apply prefix_app_r|].
  intros Nd. rewrite map_app. apply NoDup_app. split; [done|]. split; [|apply NoDup_singleton].
  intros n (i & -> & Hi)%list_elem_of_fmap [= E1 E2]%list_elem_of_singleton. eapply List.find_none in Ef; [|by apply list_elem_of_In].
  unfold period_keyed in Ef. by rewrite !bool_decide_true in Ef by done.
Qed.

Lemma EnsurePeriod_aside now tenantID label start end_ srv r srv' : Forall (quiet_for same_rows) (srv_sched srv) ->
  EnsurePeriod now tenantID label start end_ srv = (r, srv') -> aside (srv_db srv) (srv_db srv').
Proof.
  intros Hq. unfold EnsurePeriod. destruct (negb _); [by intros [= _ <-]|]. destruct (decide _); [by intros [= _ <-]|].
  unfold mbind, ST_bind, in_inv. destruct (db_exec _ srv) as [r1 srv1] eqn:E. apply exec_aside in E; [| |done].
  - by destruct r1; intros [= _ <-].
  - intros a db db' _ Ei. by eapply ensurePeriod_aside.
Qed.

(** No step but a closing touches an invoice. *)
Lemma bstep_aside s s' : bstep err_text s None s' -> runs_inv err_text s -> aside s.2 s'.2.
Proof.
  intros Hs (_ & _ & _ & _ & _ & _ & ((Hi & _) & _)). remember None as o eqn:Eo.
  destruct Hs as [log db body now1 now2 resp log' n Hn Hm Hs|log db clock fuel sched log' db' Hq E|log db now name kind sched r srv Hq E
    |log db now name kind sched r srv Hq E|log db now key at_ description trs t sched r srv Hr Ht Hq E
    |log db now tenantID label start end_ sched r srv Hq E|log db registry now periodID plan sched r srv Hq E]; cbn [snd] in *.
  - reflexivity.
  - unfold consumer_turn, drain in E. destruct (Drain _ _ _ _ _) as [r [log1 srv1]] eqn:Ed. injection E as <- <-.
    destruct (drain_loop_grows billing_consumer clock fuel zero_stats log (mkServer db sched) r log1 srv1 Hq Ed) as [(_ & I & _) _].
    by apply ingested_aside.
  - by apply (CreateAccount_aside now name kind (mkServer db sched) r).
  - by apply (EnsureAccount_aside now name kind (mkServer db sched) r).
  - apply (Post_aside now t (mkServer db sched) r); try done.
    destruct (NewTransaction_ok _ _ _ _ _ Hr Ht) as (_ & _ & F). eapply Forall_impl; [exact F|]. by intros p [].
  - by apply (EnsurePeriod_aside now tenantID label start end_ (mkServer db sched) r).
  - done.
Qed.

End Steps.

(** ** Lemmas: sums of an entry *)

Lemma entry_sum_kept id account db db' : more_postings db db' -> id ∈ map tr_id (rows (ledger_transactions db)) ->
  entry_sum id account db' = entry_sum id account db.
Proof.
  intros (new & E & F) Hid. unfold entry_sum. rewrite E, List.filter_app, (filter_none _ new), app_nil_r; [done|].
  eapply Forall_impl; [exact F|]. cbn. intros p Hp. apply andb_false_iff. left. apply Z.eqb_neq. intros <-. done.
Qed.

(** The entry a transaction was recorded as does to an account what the transaction
    says. *)
Lemma entry_sum_recorded id ps new account db db' : ledger_shape db -> (id ∉ map tr_id (rows (ledger_transactions db))) ->
  rows (ledger_postings db') = rows (ledger_postings db) ++ new -> Forall2 (posting_of id) ps new ->
  entry_sum id account db' = account_total account ps.
Proof.
  intros Hs Hid E F. unfold entry_sum. rewrite E, List.filter_app, filter_none; cycle 1.
  { eapply Forall_impl; [exact (sh_refs _ Hs)|]. cbn. intros p [Hp _]. apply andb_false_iff. left. apply Z.eqb_neq. intros Hpid. by rewrite Hpid in Hp. }
  cbn [app]. unfold account_total. clear E Hid Hs. induction F as [|p r ps new (E1 & E2 & E3) _ IH]; [done|]. cbn [List.filter].
  rewrite E1, E2, Z.eqb_refl. cbn [andb]. rewrite filter_cons. destruct (Z.eqb_spec (po_Account p) account) as [Ea|Ea].
  - rewrite decide_True by done. cbn [map]. rewrite fmap_cons, !sumZ_cons, IH, E3. done.
  - by rewrite decide_False.
Qed.

Lemma account_total_transfer account t ts : tr_Debit t <> tr_Credit t ->
  account_total account (mbind transfer_postings (t :: ts)) =
  (if decide (tr_Debit t = account) then tr_Amount t else if decide (tr_Credit t = account) then - tr_Amount t else 0) +
  account_total account (mbind transfer_postings ts).
Proof.
  intros Hne. change (mbind transfer_postings (t :: ts)) with (transfer_postings t ++ mbind transfer_postings ts). rewrite account_total_app.
  f_equal. unfold account_total, transfer_postings. rewrite !filter_cons, filter_nil. cbn [po_Account].
  repeat case_decide; try congruence; cbn; unfold sumZ; cbn; lia.
Qed.

Section Totals.
Variable tenantID : string.
Variable receivable : AccountID.
Variable db : DB.
Hypothesis in_order : ledger_inv db.
Hypothesis receivable_known : has_account (ReceivableAccount tenantID) Asset receivable db.

Lemma item_transfer_apart i t : item_transfer receivable db i t -> tr_Debit t <> tr_Credit t.
Proof.
  intros (-> & _ & Hc) E. rewrite <- E in Hc. by pose proof (has_account_inj _ _ _ _ _ _ in_order receivable_known Hc) as [= ?].
Qed.

Lemma receivable_total items ts : Forall2 (item_transfer receivable db) items ts ->
  account_total receivable (mbind transfer_postings ts) = sumZ (map li_Amount items).
Proof.
  induction 1 as [|i t items ts Ht _ IH]; [done|]. rewrite account_total_transfer by (by eapply item_transfer_apart).
  destruct Ht as (Ed & Ea & _). rewrite decide_True by done. cbn [map]. rewrite sumZ_cons, IH, Ea. done.
Qed.

Lemma revenue_total meter revenue items ts : has_account (RevenueAccount meter) Revenue revenue db ->
  Forall2 (item_transfer receivable db) items ts ->
  account_total revenue (mbind transfer_postings ts) = - sumZ (map li_Amount (List.filter (fun i => bool_decide (li_Meter i = meter)) items)).
Proof.
  intros Hr. induction 1 as [|i t items ts Ht _ IH]; [done|]. rewrite account_total_transfer by (by eapply item_transfer_apart).
  destruct Ht as (Ed & Ea & Hc). rewrite decide_False, IH, Ea; cycle 1.
  { rewrite Ed. intros ->. by pose proof (has_account_inj _ _ _ _ _ _ in_order receivable_known Hr) as [= ?]. }
  cbn [List.filter]. destruct (decide (tr_Credit t = revenue)) as [Ec|Ec].
  - rewrite Ec in Hc. pose proof (has_account_inj _ _ _ _ _ _ in_order Hr Hc) as [= Em]. rewrite bool_decide_true by done. cbn [map]. rewrite sumZ_cons. lia.
  - rewrite bool_decide_false; [lia|]. intros Em. apply Ec. rewrite Em in Hc. by eapply account_id_inj.
Qed.

End Totals.

(** ** Lemmas: the invariant *)

Lemma has_account_prefix name kind id db db' : rows (ledger_accounts db) `prefix_of` rows (ledger_accounts db') ->
  has_account name kind id db -> has_account name kind id db'.
Proof. intros [x E] (row & Hin & Hrow). exists row. rewrite E, elem_of_app. auto. Qed.

(** An invoice's place in the ledger is kept while its lines are. *)
Lemma invoice_posted_kept i db db' : rows (ledger_accounts db) `prefix_of` rows (ledger_accounts db') -> more_postings db db' ->
  iv_ledger_transaction_id i ∈ map tr_id (rows (ledger_transactions db)) ->
  (forall l, l ∈ rows (invoice_line_items db') -> li_invoice_id l = iv_id i -> l ∈ rows (invoice_line_items db)) ->
  invoice_posted i db -> invoice_posted i db'.
Proof.
  intros HA HP Hid HL (rec & Hrec & Hsum & Hlines). exists rec. split; [by eapply has_account_prefix|]. split; [by rewrite (entry_sum_kept _ _ _ _ HP Hid)|].
  intros l Hl Hi Hz. destruct (Hlines l (HL l Hl Hi) Hi Hz) as (rev & Hrev & Hs). exists rev. split; [by eapply has_account_prefix|].
  by rewrite (entry_sum_kept _ _ _ _ HP Hid).
Qed.

Lemma ledgered_aside db db' : aside db db' -> keys_apart db db' -> periods_ok db -> ledgered db -> ledgered db'.
Proof.
  intros [Hh HI HL [x HP] HN] Hk Hp [L1 L2 L3 L4]. split.
  - intros i Hi. rewrite HI in Hi. apply (invoice_posted_kept i db); [apply Hh|apply Hh| |by rewrite HL|by apply L1].
    pose proof (po_entries _ Hp) as F. rewrite Forall_forall in F. by apply F.
  - intros row t l Hrow E. destruct (Hk row Hrow) as [Hold|Hno]; [|by destruct (Hno t l)]. destruct (L2 row t l Hold E) as (i & r & Hi & Ei & Hr & Er & Ek).
    exists i, r. rewrite HI, HP, elem_of_app. auto.
  - by rewrite HI.
  - by apply HN.
Qed.

Lemma charged_total items : sumZ (map li_Amount (charged items)) = items_total items.
Proof.
  unfold items_total, charged. induction items as [|i items IH]; [done|]. cbn [List.filter map]. rewrite sumZ_cons.
  destruct (Z.eqb_spec (li_Amount i) 0) as [->|]; cbn [negb map]; [exact IH|]. by rewrite sumZ_cons, IH.
Qed.

(** One item of a meter is all of the meter's items. *)
Lemma meter_item items i : NoDup (map li_Meter items) -> i ∈ items -> li_Amount i <> 0 ->
  sumZ (map li_Amount (List.filter (fun j => bool_decide (li_Meter j = li_Meter i)) (charged items))) = li_Amount i.
Proof.
  intros Nd Hi Hz. unfold charged. induction items as [|j items IH]; [by apply elem_of_nil in Hi|]. cbn [map] in Nd. apply NoDup_cons in Nd as [Hn Nd].
  cbn [List.filter]. apply elem_of_cons in Hi as [<-|Hi].
  - rewrite (proj2 (Z.eqb_neq _ _) Hz). cbn [negb List.filter]. rewrite bool_decide_true by done. cbn [map]. rewrite sumZ_cons.
    rewrite filter_none; [cbn; lia|]. apply Forall_forall. intros k [Hk _]%list_elem_of_In%List.filter_In. apply bool_decide_eq_false.
    intros E. apply Hn. rewrite <- E. by apply list_elem_of_fmap_2, list_elem_of_In.
  - specialize (IH Nd Hi). destruct (negb _); [|exact IH]. cbn [List.filter]. rewrite bool_decide_false; [exact IH|].
    intros E. apply Hn. rewrite E. by apply list_elem_of_fmap_2.
Qed.

Lemma line_items_of id lines new : Forall2 (line_row id) lines new -> forall r, r ∈ new -> exists l, l ∈ lines /\ line_row id l r.
Proof.
  intros F r [k Hk]%list_elem_of_lookup_1. destruct (Forall2_lookup_r _ _ _ _ _ F Hk) as (l & Hl & Hr). exists l. split; [by eapply list_elem_of_lookup_2|done].
Qed.

Section Closings.
Context `{Postgres}.

Lemma billing_entry_ok period transfers t : Forall (fun tr => in_int64 (tr_Amount tr)) transfers -> billing_entry period transfers = Ok t ->
  tx_IdempotencyKey t = TransactionKey (pe_TenantID period) (pe_Label period) /\ tx_postings t = mbind transfer_postings transfers.
Proof.
  intros Hr. unfold billing_entry. rewrite NewTransaction_spec by done. repeat case_decide; try done. by intros [= <-].
Qed.

(** What billing has recorded is what the invoice says. *)
Lemma billed_posted plan period inv db db' : billed plan period inv db db' -> ledger_inv db -> ledger_inv db' -> books db ->
  in_LedgerTransactionID inv ∉ map tr_id (rows (ledger_transactions db)) ->
  forall i, i ∈ rows (invoices db') -> iv_id i = in_ID inv -> invoice_posted i db'.
Proof.
  intros (items & trs & t & rec & (Nd & Hm & Hq) & Htot & Hl & Hrec & Htr & _ & Ht & [_ _ _ I4 (lines & N & I5) I6 [I7 _] _] & _) [Hs _] Hi' [_ _ B3 B4 _ _ _ _] Hfresh i Hin Hid.
  assert (H64 : Forall (fun tr => in_int64 (tr_Amount tr)) trs).
  { eapply Forall2_Forall_r; [exact Htr|]. apply Forall_forall. intros j Hj tr (_ & -> & _). apply list_elem_of_In, List.filter_In in Hj as [Hj%list_elem_of_In _].
    rewrite Forall_forall in Hq. destruct (Hq j Hj) as (_ & price & _ & Hp). by eapply applyPrice_range. }
  destruct (billing_entry_ok _ _ _ H64 Ht) as [Hkey Hps].
  assert (Hi : iv_tenant_id i = pe_TenantID period /\ iv_total i = in_Total inv /\ iv_ledger_transaction_id i = in_LedgerTransactionID inv).
  { rewrite I4 in Hin. apply elem_of_app in Hin as [Hin| ->%list_elem_of_singleton]; [|done]. rewrite Forall_forall in B3. specialize (B3 i Hin). lia. }
  destruct Hi as (Etn & Ei & Eid). destruct I6 as [(row & new & T & _ & _ & P & F & _)|(_ & _ & (row & Hrow & _ & E))]; cycle 1.
  { exfalso. apply Hfresh. rewrite <- E. by apply list_elem_of_fmap_2. }
  rewrite Hps in F. unfold invoice_posted. rewrite Etn, Eid, Ei, Htot. exists rec. split; [done|]. split.
  - rewrite (entry_sum_recorded _ _ _ rec db db' Hs Hfresh P F), (receivable_total _ _ _ Hi' Hrec _ _ Htr). apply charged_total.
  - intros l Hin' Hlid Hz. rewrite I5 in Hin'. apply elem_of_app in Hin' as [Hin'|Hin'].
    { rewrite Forall_forall in B4. specialize (B4 l Hin'). lia. }
    destruct (line_items_of _ _ _ N l Hin') as (line & Hline & (_ & Em & _ & Ea)). rewrite Hl in Hline.
    apply list_elem_of_fmap in Hline as (j & -> & Hj). cbn [due_line il_Meter il_Amount] in Em, Ea. rewrite Em, Ea in *.
    assert (Hc : j ∈ charged items).
    { apply list_elem_of_In, List.filter_In. split; [by apply list_elem_of_In|]. by apply negb_true_iff, Z.eqb_neq. }
    apply list_elem_of_lookup_1 in Hc as [k Hk]. destruct (Forall2_lookup_l _ _ _ _ _ Htr Hk) as (tr & _ & (_ & _ & Hrev)).
    exists (tr_Credit tr). split; [done|].
    rewrite (entry_sum_recorded _ _ _ (tr_Credit tr) db db' Hs Hfresh P F), (revenue_total _ _ _ Hi' Hrec _ _ _ _ Hrev Htr). f_equal. by apply meter_item.
Qed.

(** The key of an open period is free. *)
Lemma open_key_free db r row : periods_ok db -> plain_tenants db -> ledgered db -> r ∈ rows (billing_periods db) -> bp_state r <> Closed ->
  row ∈ rows (ledger_transactions db) -> tr_idempotency_key row <> TransactionKey (bp_tenant_id r) (bp_label r).
Proof.
  intros Hp Ht [_ L2 _ L4] Hr Ho Hrow E. destruct (L2 row _ _ Hrow E) as (i & r' & Hi & _ & Hr' & Er & Ek). rewrite E in Ek.
  unfold plain_tenants in Ht. rewrite Forall_forall in Ht. destruct (TransactionKey_inj _ _ _ _ (Ht r Hr) (Ht r' Hr') Ek) as [E1 E2].
  assert (r' = r) as -> by (apply (NoDup_map_inj period_name _ L4); [done|done|unfold period_name; congruence]).
  apply (open_not_invoiced _ r Hp Hr Ho). rewrite Er. by apply list_elem_of_fmap_2.
Qed.

Lemma ledgered_billed plan periodID period inv db db' : has_period periodID period db -> pe_State period <> Closed ->
  ledger_inv db -> ledger_inv db' -> books db -> periods_ok db -> plain_tenants db ->
  billed plan period inv db db' -> ledgered db -> ledgered db'.
Proof.
  intros (r0 & Hr0 & Hid & ->) Ho Hi Hi' Hbk Hp Ht Hb Hled. pose proof (open_key_free db r0) as Hfree.
  pose proof Hb as (items & trs & t & rec & (_ & _ & Hq) & _ & _ & _ & Htr & _ & Hent & [_ _ I3 I4 (lines & N & I5) I6 [I7 _] _] & (accs & I9)).
  assert (H64 : Forall (fun tr => in_int64 (tr_Amount tr)) trs).
  { eapply Forall2_Forall_r; [exact Htr|]. apply Forall_forall. intros j Hj tr (_ & -> & _). apply list_elem_of_In, List.filter_In in Hj as [Hj%list_elem_of_In _].
    rewrite Forall_forall in Hq. destruct (Hq j Hj) as (_ & price & _ & Hpr). by eapply applyPrice_range. }
  destruct (billing_entry_ok _ _ _ H64 Hent) as [Hkey _]. cbn [period_of pe_TenantID pe_Label] in Hkey.
  pose proof (entry_recorded_id _ _ _ _ I6) as (_ & [x Hx] & HP).
  destruct I6 as [(row & new & T & Erow & Ekey & P & F & Hfresh)|(_ & _ & (row & Hrow & Ekey & _))]; cycle 1.
  { exfalso. rewrite Hkey in Ekey. by apply (Hfree row). }
  pose proof (billed_posted _ _ _ _ _ Hb Hi Hi' Hbk Hfresh) as Hnew. destruct Hbk as [_ _ B3 B4 _ _ _ _]. rewrite Forall_forall in B3.
  pose proof (po_entries _ Hp) as He. rewrite Forall_forall in He. destruct Hled as [L1 L2 L3 L4].
  assert (Hnames : map period_name (rows (billing_periods db')) = map period_name (rows (billing_periods db))).
  { rewrite I3, map_map. apply map_ext. intros r. by destruct (_ =? _). }
  assert (Hperiod : forall r, r ∈ rows (billing_periods db) -> exists r', r' ∈ rows (billing_periods db') /\ bp_id r' = bp_id r /\ period_name r' = period_name r).
  { intros r Hr. rewrite I3. eexists. split; [by apply (list_elem_of_fmap_2 (fun r => if bp_id r =? pe_ID (period_of r0) then close_row (in_IssuedAt inv) r else r))|].
    cbn beta. by destruct (_ =? _). }
  split.
  - intros i Hin. pose proof Hin as Hin'. rewrite I4 in Hin'. apply elem_of_app in Hin' as [Hold| ->%list_elem_of_singleton]; [|by apply Hnew].
    apply (invoice_posted_kept i db); [rewrite I9; by apply prefix_app_r|done|by apply He| |by apply L1].
    intros l Hl Hli. rewrite I5 in Hl. apply elem_of_app in Hl as [Hl|Hl]; [done|]. destruct (line_items_of _ _ _ N l Hl) as (line & _ & (El & _)).
    specialize (B3 i Hold). lia.
  - intros row' t' l' Hrow' E. rewrite T in Hrow'. apply elem_of_app in Hrow' as [Hold| ->%list_elem_of_singleton].
    + destruct (L2 row' t' l' Hold E) as (i & r & Hi0 & Ei & Hr & Er & Ek). destruct (Hperiod r Hr) as (r' & Hr' & Er' & [= N1 N2]).
      exists i, r'. rewrite I4, elem_of_app, N1, N2. split; [by left|]. split; [done|]. split; [done|]. split; [congruence|done].
    + destruct (Hperiod r0 Hr0) as (r' & Hr' & Er' & [= N1 N2]). eexists _, r'. split; [rewrite I4; apply elem_of_app; right; left|].
      cbn [iv_ledger_transaction_id iv_period_id period_of pe_ID]. rewrite N1, N2. split_and!; [done|done|done|congruence].
  - rewrite I4, map_app. apply NoDup_app. split; [done|]. split; [|apply NoDup_singleton]. intros id Hin ->%list_elem_of_singleton.
    apply list_elem_of_fmap in Hin as (i & E & Hin). apply Hfresh. cbn in E. rewrite E. by apply He.
  - by rewrite Hnames.
Qed.

End Closings.

(** ** The machine with keys that do not collide *)

Section Machine.
Context {L : Type} `{LogStore L} `{Postgres}.
Variable err_text : list byte -> json_err -> string.

(** Runs in which tenants have no colon in their names and only closings post under
    the keys of closings. *)
Inductive clean_steps : L * DB -> list (Z * close_result) -> L * DB -> Prop :=
| cl_nil s : clean_steps s [] s
| cl_quiet s s1 s' trace : bstep err_text s None s1 -> keys_apart s.2 s1.2 -> plain_tenants s1.2 -> clean_steps s1 trace s' ->
    clean_steps s trace s'
| cl_close s s1 s' c trace : bstep err_text s (Some c) s1 -> clean_steps s1 trace s' -> clean_steps s (c :: trace) s'.

Lemma clean_bsteps s trace s' : clean_steps s trace s' -> bsteps err_text s trace s'.
Proof. induction 1; [constructor|by eapply bs_quiet|by eapply bs_close]. Qed.

Lemma ledgered_same db db' : same_rows db db' -> periods_ok db -> ledgered db /\ plain_tenants db -> ledgered db' /\ plain_tenants db'.
Proof.
  intros V Hp [Hl Ht]. pose proof V as [(_ & [T _] & _) (_ & _ & _ & [B _] & _)]. split.
  - apply (ledgered_aside db); [by apply same_rows_aside| |done|done]. intros row Hrow. left. by rewrite <- T.
  - unfold plain_tenants. by rewrite B.
Qed.

Lemma close_ledgered s c s' : bstep err_text s (Some c) s' -> runs_inv err_text s -> ledgered s.2 /\ plain_tenants s.2 ->
  ledgered s'.2 /\ plain_tenants s'.2.
Proof.
  intros Hs (_ & _ & _ & _ & _ & _ & (Hbo & Hbk & Hp)) I. inversion Hs as [| | | | | |log db registry now periodID plan sched r srv Hq E]; subst. cbn [snd] in *.
  destruct (Close_spec registry now periodID plan (mkServer db sched) r srv Hq Hbo E) as (_ & Lg & R). cbn [srv_db] in R.
  assert (B : forall period inv, has_period periodID period db -> pe_State period <> Closed -> billed plan period inv db (srv_db srv) ->
    ledgered (srv_db srv) /\ plain_tenants (srv_db srv)).
  { intros period inv Hper Ho Hb. destruct I as [Hl Ht]. split; [eapply ledgered_billed; try done; apply Hbo|].
    destruct Hb as (items & trs & t & rec & _ & _ & _ & _ & _ & _ & _ & [_ _ I3 _ _ _ _ _] & _). unfold plain_tenants. rewrite I3. apply Forall_map.
    eapply Forall_impl; [exact Ht|]. cbn. intros p. by destruct (_ =? _). }
  destruct r as [inv|inv|e].
  - destruct R as (period & Hper & Ho & Hb & _). by eapply B.
  - by eapply ledgered_same; [apply R|..].
  - destruct R as [V|(period & inv & Hper & Ho & Hb)]; [by eapply ledgered_same|by eapply B].
Qed.

Lemma clean_ledgered s trace s' : clean_steps s trace s' -> runs_inv err_text s -> ledgered s.2 /\ plain_tenants s.2 -> ledgered s'.2.
Proof.
  induction 1 as [s|s s1 s' trace Hs Hk Ht _ IH|s s1 s' c trace Hs _ IH]; intros Hi I; [apply I|..];
    destruct (bstep_inv err_text _ _ _ Hs Hi) as [Hi1 _]; apply IH; try done.
  - split; [|done]. eapply ledgered_aside; [by eapply bstep_aside|done| |apply I]. by destruct Hi as (_ & _ & _ & _ & _ & _ & (_ & _ & ?)).
  - by eapply close_ledgered.
Qed.

Lemma empty_ledgered : ledgered empty_db /\ plain_tenants empty_db.
Proof.
  split; [|constructor]. split; [intros i Hi; by apply elem_of_nil in Hi|intros row t l Hr; by apply elem_of_nil in Hr|constructor|constructor].
Qed.

(** C6: the ledger has every invoice, to the line. Whatever requests, drains, entries,
    periods and closings happened and wherever they failed, as long as nobody posts
    under the key of a billing run and no tenant has a colon in its name, each invoice
    has a ledger entry of its own, which debits the tenant's receivable by exactly the
    invoice's total and credits the revenue account of each meter by exactly its
    line. *)
Theorem invoices_are_in_the_ledger (log0 : L) trace s : ls_holds log0 [] -> clean_steps (log0, empty_db) trace s ->
  (forall i, i ∈ rows (invoices s.2) -> invoice_posted i s.2) /\
  NoDup (map iv_ledger_transaction_id (rows (invoices s.2))).
Proof.
  intros Hh Hs. pose proof (clean_ledgered _ _ _ Hs (initial_inv err_text log0 Hh) empty_ledgered) as [L1 _ L3 _]. done.
Qed.

End Machine.

(** ** Witness *)

Section Examples.
#[local] Existing Instance list_LogStore.
#[local] Existing Instance small_Postgres.
#[local] Instance codec_revenue_example : EventCodec := json_EventCodec no_text.

Lemma clean_example : clean_steps no_text ([], empty_db) [(1, first_run.1); (1, second_run.1)] (one_request, srv_db second_run.2).
Proof.
  assert (Q : forall (db db' : DB), rows (ledger_transactions db') = [] -> keys_apart db db').
  { intros db db' E row Hrow. rewrite E in Hrow. by apply elem_of_nil in Hrow. }
  eapply cl_quiet; [refine (b_request no_text [] empty_db body_example clock_example clock_example _ one_request 0 eq_refl eq_refl (surjective_pairing _))| | |].
  { apply Q. vm_compute. reflexivity. } { constructor. }
  eapply cl_quiet.
  { refine (b_drain no_text one_request empty_db no_clock 3 [] one_request one_event (Forall_nil_2 _) _).
    transitivity ((consumer_turn no_clock 3 [] one_request empty_db).1, one_event); [apply surjective_pairing|f_equal; vm_compute; reflexivity]. }
  { apply Q. vm_compute. reflexivity. } { unfold plain_tenants. cbn [snd]. decide_now. }
  eapply cl_quiet.
  { exact (b_period no_text one_request one_event clock_example "acme" "2026-08" 63890000000000000000 63930000000000000000 [] _ _ (Forall_nil_2 _) (surjective_pairing _)). }
  { apply Q. vm_compute. reflexivity. }
  { unfold plain_tenants. cbn [snd]. decide_now. }
  eapply cl_close; [exact (b_close no_text one_request one_period registry_example clock_example 1 plan_example [] _ _ (Forall_nil_2 _) (surjective_pairing _))|].
  eapply cl_close; [exact (b_close no_text one_request (srv_db first_run.2) registry_example clock_example 1 plan_example [] _ _ (Forall_nil_2 _) (surjective_pairing _))|].
  constructor.
Qed.

Lemma invoices_are_in_the_ledger_witness :
  map iv_total (rows (invoices (srv_db second_run.2))) = [150] /\ forall i, i ∈ rows (invoices (srv_db second_run.2)) -> invoice_posted i (srv_db second_run.2).
Proof.
  split; [vm_compute; reflexivity|].
  exact (proj1 (@invoices_are_in_the_ledger _ list_LogStore small_Postgres no_text [] _ _ eq_refl clean_example)).
Defined.

End Examples.
