(* ===== verification/CloseLive.v ===== *)
(** * Closing goes through

    [Close_correct] says what [Close] leaves behind whatever it returns; this file
    says when it returns an invoice. On a server that works, with no other session
    in the way, a period that is open is billed whenever its usage can be priced,
    comes to something, fits the machine's integers and has texts the server
    stores. *)

From S2P Require Import Prelude Decimal Amount Quantity Ledger Pricing Bytes GoTime Event Validate LogSpec DB Consumer Store Invoicing Chaos Books Runs.

(** ** What a period needs *)

Section Live.
Context `{Postgres}.

(** An account of this name, if there is one, has this kind, and one can be made. *)
Definition account_ready (name : string) (kind : AccountKind) (db : DB) : Prop :=
  text_ok name = true /\ forall k id, has_account name k id db -> k = kind.

(** A rated line that can be written, and charged unless it is free. *)
Definition item_ready (db : DB) (i : LineItem) : Prop :=
  0 <= li_Amount i /\ text_ok (li_Meter i) = true /\ (li_Amount i <> 0 -> account_ready (RevenueAccount (li_Meter i)) Revenue db).

Record billable (registry : Registry) (plan : Plan) (row : period_row) (items : list LineItem) (db : DB) : Prop := {
  bl_open : bp_state row <> Closed;
  bl_start : bp_starts_at row <> 0;
  bl_fits : Forall (fun m => meter_sum (due (period_of row) db) m <= max_int64) (due_meters (period_of row) db);
  bl_rated : Rate (due_usage (period_of row) db) plan registry = Ok items;
  bl_charged : charged items <> [];
  bl_total : items_total items <= max_int64;
  bl_items : Forall (item_ready db) items;
  bl_receivable : account_ready (ReceivableAccount (bp_tenant_id row)) Asset db;
  bl_texts : text_ok (bp_tenant_id row) && text_ok (TransactionKey (bp_tenant_id row) (bp_label row)) &&
    text_ok ("usage for " +:+ bp_tenant_id row +:+ " in " +:+ bp_label row) = true
}.

Variable registry : Registry.
Variable now : Time.

(** ** Lemmas: undisturbed steps *)

Definition unopposed (tx : txn) : Prop := srv_sched (tx_server tx) = [].

Lemma calm_undisturbed tx : unopposed tx -> undisturbed tx.
Proof. intros E. rewrite E. constructor. Qed.

Lemma calm_tx_exec {A} (q : stmt A) tx a db' : unopposed tx -> q (tx_db tx) = Ok (a, db') ->
  tx_exec q tx = (Ok a, mkTxn (tx_server tx) db').
Proof. unfold unopposed. destruct tx as [[sdb sched] db]. cbn. intros -> E. unfold tx_exec. cbn. by rewrite E. Qed.

Lemma calm_exec {A} (q : stmt A) tx a db' : unopposed tx -> q (tx_db tx) = Ok (a, db') ->
  in_inv (tx_exec q) tx = (Ok a, mkTxn (tx_server tx) db').
Proof. intros Hc E. unfold in_inv. by rewrite (calm_tx_exec q tx a db' Hc E). Qed.

(** ** Lemmas: accounts *)

Lemma EnsureAccountTx_calm name kind tx :
  unopposed tx -> ledger_inv (tx_db tx) ->
  name <> ""%string -> AccountKind_Valid kind = true -> text_ok kind = true -> account_ready name kind (tx_db tx) ->
  exists id db', in_inv_store (EnsureAccountTx now name kind) tx = (Ok id, mkTxn (tx_server tx) db') /\
    more_accounts (tx_db tx) db' /\ ledger_inv db' /\ has_account name kind id db' /\
    (forall n k i, has_account n k i db' -> has_account n k i (tx_db tx) \/ (n = name /\ k = kind)).
Proof.
  intros Hc Hi Hne Hk Htk [Ht Hu]. set (db := tx_db tx) in *.
  pose proof (ensureAccountSQL_spec now name kind db Hi) as S.
  destruct (ensureAccountSQL name kind now db) as [[[id k] db']|e] eqn:Es; cycle 1.
  { destruct S as [S|S]; [by rewrite Ht, Htk in S|]. change (AccountKind_Valid kind = false) in S. congruence. }
  destruct S as (M & L' & Ha & Hold).
  assert (k = kind) as ->. { destruct (decide (k = kind)) as [|Hd]; [done|]. by eapply Hu, Hold. }
  assert (D : rows (ledger_accounts db') = rows (ledger_accounts db) \/
    rows (ledger_accounts db') = rows (ledger_accounts db) ++ [mkAccountRow (seq_next (ledger_accounts db)) name kind (timestamptz now)]).
  { unfold ensureAccountSQL in Es. destruct (negb _); [done|]. destruct (negb _); [done|].
    destruct (List.find _ _); cbn [table_insert] in Es; [injection Es as _ _ <-|injection Es as _ <-]; [by left|by right]. }
  exists id, db'. split; [|split; [done|split; [done|split; [done|]]]].
  - unfold in_inv_store, EnsureAccountTx, ensureAccount. rewrite decide_False by done. rewrite Hk. cbn [negb].
    unfold mbind, ST_bind, in_store. rewrite (calm_tx_exec _ tx _ _ Hc Es). by rewrite decide_False by (intros Hn; by apply Hn).
  - intros n k i (row & Hin & Hrow). destruct D as [D|D]; rewrite D in Hin; [left; by exists row|].
    apply elem_of_app in Hin as [Hin| ->%list_elem_of_singleton]; [left; by exists row|right]. cbn in Hrow. naive_solver.
Qed.

Lemma kind_texts : text_ok Asset = true /\ text_ok Revenue = true.
Proof. split; by apply text_ok_ascii. Qed.

Lemma account_ready_more name kind n k db db' :
  account_ready name kind db -> (n = name -> k = kind) ->
  (forall n' k' i, has_account n' k' i db' -> has_account n' k' i db \/ (n' = n /\ k' = k)) -> account_ready name kind db'.
Proof. intros [Ht Hu] Hn Hold. split; [done|]. intros k' i Ha. destruct (Hold _ _ _ Ha) as [Ha'|[-> ->]]; [by eapply Hu|by apply Hn]. Qed.

(** ** Lemmas: the entry *)

Lemma sum_charges_nonneg db items : Forall (item_ready db) items -> 0 <= items_total items.
Proof.
  intros F. unfold items_total. apply sumZ_nonneg. apply Forall_map. eapply Forall_impl; [exact F|]. by intros i [? _].
Qed.

Lemma build_lines_calm rec period earliest items transfers total lines tx :
  unopposed tx -> ledger_inv (tx_db tx) -> Forall (item_ready (tx_db tx)) items ->
  Forall (fun i => in_int64 (li_Amount i)) items -> 0 <= total -> total + items_total items <= max_int64 ->
  exists r db', build_lines now rec period earliest items transfers total lines tx = (Ok r, mkTxn (tx_server tx) db').
Proof.
  revert transfers total lines tx. induction items as [|i items IH]; intros transfers total lines tx Hc Hi Hr H64 Hp Ht; cbn [build_lines].
  { exists (transfers, total, lines), (tx_db tx). by destruct tx. }
  apply Forall_cons in Hr as [(Hz & _ & Ha) Hrs], H64 as [H64 H64s]. pose proof (sum_charges_nonneg _ _ Hrs) as Hnn.
  unfold items_total in Ht, Hnn. cbn [map] in Ht. rewrite sumZ_cons in Ht.
  destruct (Z.eqb_spec (li_Amount i) 0) as [E|E]; [apply IH; try done; unfold items_total; lia|].
  destruct (EnsureAccountTx_calm (RevenueAccount (li_Meter i)) Revenue tx Hc Hi ltac:(done) ltac:(done) (proj2 kind_texts) (Ha E))
    as (id & db' & Ee & M & L' & _ & Hold).
  unfold mbind at 1, ST_bind at 1. rewrite Ee. unfold mbind, ST_bind, st_lift.
  rewrite Amount_Add_in_range by int_lia.
  destruct (IH (transfers ++ [mkTransfer rec id (li_Amount i)]) (total + li_Amount i)
    (lines ++ [mkInvoiceLine (li_Meter i) (li_Quantity i) (li_Amount i) (late earliest period (li_Meter i))])
    (mkTxn (tx_server tx) db') Hc L') as (r & db2 & E2); [|done|lia|unfold items_total; lia|].
  - eapply Forall_impl; [exact Hrs|]. intros j (Hz' & Ht' & Ha'). split; [done|]. split; [done|]. intros Hj.
    eapply account_ready_more; [by apply Ha'| |exact Hold]. done.
  - exists r, db2. exact E2.
Qed.

Lemma buildEntry_calm period items earliest tx :
  unopposed tx -> ledger_inv (tx_db tx) -> account_ready (ReceivableAccount (pe_TenantID period)) Asset (tx_db tx) ->
  Forall (item_ready (tx_db tx)) items -> Forall (fun i => in_int64 (li_Amount i)) items -> items_total items <= max_int64 ->
  exists r db', buildEntry now period items earliest tx = (Ok r, mkTxn (tx_server tx) db').
Proof.
  intros Hc Hi Ha Hr H64 Ht. unfold buildEntry, mbind, ST_bind.
  destruct (EnsureAccountTx_calm (ReceivableAccount (pe_TenantID period)) Asset tx Hc Hi ltac:(done) ltac:(done) (proj1 kind_texts) Ha)
    as (id & db' & Ee & M & L' & _ & Hold). rewrite Ee.
  apply (build_lines_calm id period earliest items [] 0 [] (mkTxn (tx_server tx) db') Hc L'); [|done|lia|lia].
  eapply Forall_impl; [exact Hr|]. intros j (Hz' & Ht' & Ha'). split; [done|]. split; [done|]. intros Hj.
  eapply account_ready_more; [by apply Ha'| |exact Hold]. by intros [= ?].
Qed.

(** What the lines were turned into is accepted as an entry. *)
Lemma item_transfers_ok tenantID receivable db items transfers :
  ledger_inv db -> has_account (ReceivableAccount tenantID) Asset receivable db ->
  Forall (fun i => 0 <= li_Amount i <= max_int64) items -> Forall2 (item_transfer receivable db) (charged items) transfers ->
  Forall transfer_ok transfers /\
  Forall (fun p => po_Amount p <> 0 /\ po_Account p ∈ map ar_id (rows (ledger_accounts db))) (mbind transfer_postings transfers).
Proof.
  intros Hi Hrec Hr. pose proof (sh_numbered _ (proj1 Hi)) as [_ Np]. assert (Hc : Forall (fun i => 0 < li_Amount i <= max_int64) (charged items)).
  { apply Forall_forall. intros i Hin. apply list_elem_of_In, List.filter_In in Hin as [Hin%list_elem_of_In Hz%negb_true_iff%Z.eqb_neq].
    rewrite Forall_forall in Hr. specialize (Hr i Hin). lia. }
  assert (Hpos : forall n k id, has_account n k id db -> 0 < id /\ id ∈ map ar_id (rows (ledger_accounts db))).
  { intros n k id (r & Hin & _ & _ & <-). rewrite Forall_forall in Np. split; [by apply Np|by apply list_elem_of_fmap_2]. }
  destruct (Hpos _ _ _ Hrec) as [Pr Ir].
  induction 1 as [|i t its ts (Ed & Ea & Hcr) _ IH]; [by split|]. apply Forall_cons in Hc as [Hz Hc]. destruct (IH Hc) as [IH1 IH2].
  destruct (Hpos _ _ _ Hcr) as [Pc Ic]. split.
  - constructor; [|done]. rewrite <- Ea in Hz. split; [done|]. rewrite Ed. split_and!; [|lia|lia]. intros E. rewrite <- E in Hcr.
    by pose proof (has_account_inj _ _ _ _ _ _ Hi Hrec Hcr) as [= ?].
  - change (mbind transfer_postings (t :: ts)) with (transfer_postings t ++ mbind transfer_postings ts). apply Forall_app. split; [|done].
    unfold transfer_postings. repeat apply Forall_cons_2; [| |constructor]; cbn; (split; [lia|]); [by rewrite Ed|done].
Qed.

(** ** Lemmas: writing the invoice *)

Lemma existsb_elem {A} (f : A -> bool) l x : x ∈ l -> f x = true -> existsb f l = true.
Proof. intros Hin Hf. apply existsb_exists. exists x. split; [by apply list_elem_of_In|done]. Qed.

Lemma existsb_none {A} (f : A -> bool) l : (forall x, x ∈ l -> f x = false) -> existsb f l = false.
Proof.
  intros Hn. destruct (existsb f l) eqn:E; [|done]. apply existsb_exists in E as (x & Hin & Hf).
  rewrite Hn in Hf; [done|by apply list_elem_of_In].
Qed.

Lemma insert_lines_calm id lines tx :
  unopposed tx -> id ∈ map iv_id (rows (invoices (tx_db tx))) -> NoDup (map il_Meter lines) ->
  Forall (fun l => text_ok (il_Meter l) = true /\ 0 <= il_Quantity l <= max_int64) lines ->
  Forall (fun r => li_invoice_id r = id -> li_meter r ∉ map il_Meter lines) (rows (invoice_line_items (tx_db tx))) ->
  exists db', insert_lines id lines tx = (Ok tt, mkTxn (tx_server tx) db') /\ rows (invoices db') = rows (invoices (tx_db tx)).
Proof.
  revert tx. induction lines as [|l lines IH]; intros tx Hc Hid Nd Hl Hf; cbn [insert_lines]; [exists (tx_db tx); by destruct tx|].
  apply Forall_cons in Hl as [[Ht Hq] Hl]. cbn [map] in Nd. apply NoDup_cons in Nd as [Hn Nd]. unfold mbind, ST_bind.
  assert (D : exists t, insertLineItem id (il_Meter l) (Quantity_String (il_Quantity l)) (il_Amount l) (tx_db tx) = Ok (tt, set_line_items t (tx_db tx)) /\
    rows t = rows (invoice_line_items (tx_db tx)) ++ [mkLineItemRow (seq_next (invoice_line_items (tx_db tx))) id (il_Meter l) (il_Quantity l) (il_Amount l)]).
  { unfold insertLineItem. rewrite Ht, (Quantity_String_stored _ Hq). cbn [negb].
    rewrite existsb_none; cycle 1.
    { intros r Hr. rewrite Forall_forall in Hf. specialize (Hf r Hr). apply andb_false_iff. destruct (Z.eqb_spec (li_invoice_id r) id) as [E|]; [right|by left].
      apply bool_decide_eq_false. specialize (Hf E). cbn in Hf. by apply not_elem_of_cons in Hf as [? _]. }
    apply list_elem_of_fmap in Hid as (iv & Eid & Hiv). rewrite (existsb_elem _ _ iv Hiv) by (apply Z.eqb_eq; done). cbn [negb table_insert].
    eexists. split; reflexivity. }
  destruct D as (t & D & Rt). rewrite (calm_exec _ tx _ _ Hc D).
  destruct (IH (mkTxn (tx_server tx) (set_line_items t (tx_db tx))) Hc Hid Nd Hl) as (db' & E & R); [|by exists db'].
  cbn. rewrite Rt. apply Forall_app. split; [|apply Forall_singleton; by intros _]. eapply Forall_impl; [exact Hf|]. cbn. intros r Hr E.
  by apply not_elem_of_cons in Hr as [_ ?].
Qed.

Lemma markBilled_calm id tenantID end_ db : id ∈ map iv_id (rows (invoices db)) -> exists db', markBilled id tenantID end_ db = Ok (tt, db').
Proof.
  intros (iv & -> & Hiv)%list_elem_of_fmap. unfold markBilled. cbv zeta.
  rewrite (proj2 (forallb_forall _ _)) by (intros r _; apply markBilled_once). rewrite (existsb_elem (fun r => iv_id r =? iv_id iv) _ iv Hiv) by apply Z.eqb_refl.
  rewrite andb_false_r. eauto.
Qed.

(** Nothing of the period's invoice is there yet. *)
Definition uninvoiced (periodID : Z) (db : DB) : Prop :=
  periodID ∈ map bp_id (rows (billing_periods db)) /\ (periodID ∉ map iv_period_id (rows (invoices db))) /\
  Forall (fun l => li_invoice_id l < seq_next (invoices db)) (rows (invoice_line_items db)).

Lemma uninvoiced_billing periodID db db' : same_billing db db' -> uninvoiced periodID db -> uninvoiced periodID db'.
Proof.
  intros (_ & _ & _ & [B _] & [I Q] & [T _]) (U1 & U2 & U3). split_and!; rewrite ?B, ?I, ?T; try done. eapply Forall_impl; [exact U3|]. cbn. lia.
Qed.

Lemma insertInvoice_calm periodID tenantID total ledgerID db :
  text_ok tenantID = true -> uninvoiced periodID db -> ledgerID ∈ map tr_id (rows (ledger_transactions db)) ->
  exists db', insertInvoice periodID tenantID total ledgerID now db = Ok (seq_next (invoices db), db') /\
    seq_next (invoices db) ∈ map iv_id (rows (invoices db')) /\ invoice_line_items db' = invoice_line_items db.
Proof.
  intros Ht (Hp & Hn & _) Hl. unfold insertInvoice. rewrite Ht. cbn [negb].
  rewrite existsb_none by (intros r Hr; apply Z.eqb_neq; intros E; apply Hn; rewrite <- E; by apply list_elem_of_fmap_2).
  apply list_elem_of_fmap in Hp as (pr & Ep & Hp), Hl as (tr & Et & Hl).
  rewrite (existsb_elem _ _ pr Hp), (existsb_elem _ _ tr Hl) by (by apply Z.eqb_eq). cbn [negb table_insert]. eexists. split; [reflexivity|].
  split; [|done]. cbn. rewrite map_app, elem_of_app. right. left.
Qed.

Lemma NewTransaction_accepts key at_ description ts :
  key <> ""%string -> ts <> [] -> at_ <> 0 -> Forall transfer_ok ts ->
  NewTransaction key at_ description ts = Ok (mkTransaction key at_ description (mbind transfer_postings ts)) /\
  Forall (fun p => in_int64 (po_Amount p)) (mbind transfer_postings ts).
Proof.
  intros Hk Hn Ha Hok.
  assert (H64 : Forall (fun t => in_int64 (tr_Amount t)) ts) by (eapply Forall_impl; [exact Hok|]; intros t [? _]; int_lia).
  assert (E : NewTransaction key at_ description ts = Ok (mkTransaction key at_ description (mbind transfer_postings ts))).
  { rewrite NewTransaction_spec by done. by repeat case_decide. }
  split; [done|]. destruct (NewTransaction_ok _ _ _ _ _ H64 E) as (_ & _ & F). eapply Forall_impl; [exact F|]. by intros p [].
Qed.

Lemma issue_calm period transfers total lines tx :
  unopposed tx -> ledger_inv (tx_db tx) -> uninvoiced (pe_ID period) (tx_db tx) -> transfers <> [] -> pe_Start period <> 0 ->
  Forall transfer_ok transfers ->
  Forall (fun p => po_Amount p <> 0 /\ po_Account p ∈ map ar_id (rows (ledger_accounts (tx_db tx)))) (mbind transfer_postings transfers) ->
  text_ok (pe_TenantID period) && text_ok (TransactionKey (pe_TenantID period) (pe_Label period)) &&
    text_ok ("usage for " +:+ pe_TenantID period +:+ " in " +:+ pe_Label period) = true ->
  NoDup (map il_Meter lines) -> Forall (fun l => text_ok (il_Meter l) = true /\ 0 <= il_Quantity l <= max_int64) lines ->
  exists inv db', issue now period transfers total lines tx = (Ok inv, mkTxn (tx_server tx) db').
Proof.
  intros Hc Hi Hu Hne Hs Hok Hacc [[Ht1 Ht2]%andb_true_iff Ht3]%andb_true_iff Nd Hl. unfold issue, mbind, ST_bind, st_lift.
  destruct (NewTransaction_accepts (TransactionKey (pe_TenantID period) (pe_Label period)) (pe_Start period)
    ("usage for " +:+ pe_TenantID period +:+ " in " +:+ pe_Label period) transfers ltac:(done) Hne Hs Hok) as [-> Hp64].
  set (t := mkTransaction _ _ _ _). change (Forall (fun p => in_int64 (po_Amount p)) (tx_postings t)) in Hp64.
  unfold in_inv_store. destruct (PostTx now t tx) as [r tx1] eqn:E1.
  destruct (PostTx_spec now t tx r tx1 (calm_undisturbed tx Hc) Hi Hp64 E1) as (K1 & _ & Live).
  specialize (Live Hc). destruct r as [[ledgerID dup]|e]; cycle 1.
  { assert (is_ok (Err e : res store_err (Z * bool)) = true); [|done]. apply Live. split_and!; [by apply sum_postings_transfers|by apply andb_true_iff|done]. }
  destruct (PostTx_recorded now t ledgerID dup tx tx1 (calm_undisturbed tx Hc) Hi Hp64 E1) as (_ & _ & Ent%entry_recorded_id & B1 & _).
  destruct K1 as (_ & _ & [C1 S1]%(fun f => f Hc)). destruct tx as [[sdb sch] db], tx1 as [[sdb1 sch1] db1]. unfold unopposed in *. cbn in *. subst sch sch1 sdb1.
  pose proof (uninvoiced_billing _ _ _ B1 Hu) as Hu1.
  destruct (insertInvoice_calm (pe_ID period) (pe_TenantID period) total ledgerID db1 Ht1 Hu1 (proj1 Ent)) as (db2 & D2 & I2 & L2).
  rewrite (calm_exec _ (mkTxn (mkServer sdb []) db1) _ _ eq_refl D2).
  destruct (insert_lines_calm (seq_next (invoices db1)) lines (mkTxn (mkServer sdb []) db2) eq_refl I2 Nd Hl) as (db3 & E3 & I3).
  { cbn. rewrite L2. destruct Hu1 as (_ & _ & F). eapply Forall_impl; [exact F|]. cbn. lia. }
  cbn [tx_server] in *. rewrite E3. cbn [tx_db] in I3. rewrite <- I3 in I2.
  destruct (markBilled_calm _ (pe_TenantID period) (pe_End period) _ I2) as (db4 & D4).
  rewrite (calm_exec _ (mkTxn (mkServer sdb []) db3) _ _ eq_refl D4).
  erewrite (calm_exec _ (mkTxn (mkServer sdb []) db4)) by reflexivity. eauto.
Qed.

Lemma gatherUsage_calm period tx :
  unopposed tx -> Forall (fun r => 0 <= er_quantity r) (rows (events (tx_db tx))) ->
  Forall (fun m => meter_sum (due period (tx_db tx)) m <= max_int64) (due_meters period (tx_db tx)) ->
  exists r, gatherUsage period tx = (Ok r, tx).
Proof.
  intros Hc Hq Hf. unfold gatherUsage, mbind, ST_bind. erewrite (calm_exec _ tx _ (tx_db tx) Hc); [|reflexivity].
  replace (mkTxn (tx_server tx) (tx_db tx)) with tx by (by destruct tx).
  change (map (usage_row _) _) with (map (usage_row (due period (tx_db tx))) (due_meters period (tx_db tx))).
  assert (Hd : Forall (fun r => 0 <= er_quantity r) (due period (tx_db tx))).
  { apply Forall_forall. intros r Hr. apply list_elem_of_In, List.filter_In in Hr as [Hr%list_elem_of_In _]. rewrite Forall_forall in Hq. by apply Hq. }
  assert (G : forall ms us ea, Forall (fun m => meter_sum (due period (tx_db tx)) m <= max_int64) ms ->
    exists r, gather_rows (map (usage_row (due period (tx_db tx))) ms) us ea = Ok r).
  { induction ms as [|m ms IH]; intros us ea F; cbn [map gather_rows]; [eauto|]. apply Forall_cons in F as [Hm F]. cbn [usage_row].
    fold (meter_sum (due period (tx_db tx)) m). pose proof (meter_sum_nonneg _ m Hd) as Hn.
    rewrite (proj2 (ParseQuantity_iff _ (meter_sum (due period (tx_db tx)) m))); [by apply IH|]. split; [by apply numeric_text_value|lia]. }
  destruct (G _ [] ∅ Hf) as [r E]. exists r. unfold st_lift. by rewrite E.
Qed.

Lemma bill_calm plan row items tx :
  unopposed tx -> billing_ok (tx_db tx) -> uninvoiced (bp_id row) (tx_db tx) ->
  billable registry plan row items (tx_db tx) ->
  exists inv db', bill registry now (period_of row) plan tx = (Ok inv, mkTxn (tx_server tx) db') /\ in_Total inv = items_total items.
Proof.
  intros Hc (Hi & He & _) Hu [B1 B2 B3 B4 B5 B6 B7 B8 B9]. pose proof (calm_undisturbed tx Hc) as Hq.
  destruct (gatherUsage_calm (period_of row) tx Hc He B3) as ([us ea] & Eg).
  destruct (gatherUsage_ok _ _ _ _ _ Hq He Eg) as (_ & _ & -> & H64 & _).
  pose proof (Rate_range _ _ _ _ H64 B4) as Hr. destruct (due_rated _ _ _ _ _ H64 B4) as (Nd & _ & _).
  assert (Ha : Forall (fun i => in_int64 (li_Amount i)) items) by (eapply Forall_impl; [exact Hr|]; by intros i []).
  destruct (buildEntry_calm (period_of row) items ea tx Hc Hi B8 B7 Ha B6) as ([[trs total] lines] & db1 & Eb).
  destruct (buildEntry_ok _ _ _ _ _ _ _ _ _ Hq Hi Ha Eb) as (_ & M & L1 & Ht & Hl & rec & Hrec & Htr). cbn [tx_db] in *.
  assert (Hrange : Forall (fun i => 0 <= li_Amount i <= max_int64) items).
  { rewrite Forall_forall in B7, Ha. apply Forall_forall. intros i Hin. destruct (B7 i Hin) as [? _]. specialize (Ha i Hin). int_lia. }
  destruct (item_transfers_ok _ _ _ _ _ L1 Hrec Hrange Htr) as [Hok Hacc].
  assert (Hne : trs <> []) by (intros ->; apply Forall2_nil_inv_r in Htr; done).
  assert (Hu1 : uninvoiced (pe_ID (period_of row)) db1) by (eapply uninvoiced_billing; [apply M|done]).
  assert (Hlines : Forall (fun l => text_ok (il_Meter l) = true /\ 0 <= il_Quantity l <= max_int64) lines).
  { rewrite Hl. apply Forall_map, Forall_forall. intros i Hin. rewrite Forall_forall in B7, Hr. destruct (B7 i Hin) as (_ & ? & _), (Hr i Hin). done. }
  destruct (issue_calm (period_of row) trs total lines (mkTxn (tx_server tx) db1)) as (inv & db2 & Ei); try done.
  { rewrite Hl, map_map. exact Nd. }
  exists inv, db2. cbn [tx_server] in Ei. split.
  - unfold bill, mbind, ST_bind, st_lift. rewrite Eg, decide_False, B4, Eb, decide_False, Ei; [done|by destruct trs|].
    intros E%length_zero_iff_nil. rewrite E in B4. injection B4 as <-. done.
  - assert (T64 : Forall (fun t => in_int64 (tr_Amount t)) trs) by (eapply Forall_impl; [exact Hok|]; intros t [? _]; int_lia).
    assert (Q64 : Forall (fun l => 0 <= il_Quantity l <= max_int64) lines) by (eapply Forall_impl; [exact Hlines|]; by intros l []).
    destruct (issue_ok now (period_of row) trs total lines (mkTxn (tx_server tx) db1) inv _ Hq L1 T64 Q64 Ei) as (_ & _ & _ & Et & _). congruence.
Qed.

Lemma find_unique {A B} (f : A -> B) (p : A -> bool) l x :
  NoDup (map f l) -> x ∈ l -> p x = true -> (forall y, y ∈ l -> p y = true -> f y = f x) -> List.find p l = Some x.
Proof.
  intros Nd Hin Hp Hu. destruct (List.find p l) as [y|] eqn:E.
  - apply find_In in E as [Hy Hpy]. f_equal. apply (NoDup_map_inj f _ Nd); [done|done|by apply Hu].
  - eapply List.find_none in E; [|by apply list_elem_of_In]. congruence.
Qed.

(** ** Lemmas: what a run that went through has needed *)

Lemma account_ready_before name kind db db' : more_accounts db db' -> account_ready name kind db' -> account_ready name kind db.
Proof. intros M [Ht Hu]. split; [done|]. intros k id Ha. eapply Hu, has_account_more; [exact M|exact Ha]. Qed.

Lemma EnsureAccountTx_needs name kind tx id tx' : undisturbed tx -> ledger_inv (tx_db tx) ->
  EnsureAccountTx now name kind tx = (Ok id, tx') -> account_ready name kind (tx_db tx).
Proof.
  intros Hq Hi E. destruct (EnsureAccountTx_spec now _ _ _ _ _ Hq Hi E) as (_ & (M & [L' _] & Ha) & _).
  eapply account_ready_before; [exact M|]. split.
  - unfold EnsureAccountTx, ensureAccount in E. destruct (decide _); [done|]. destruct (negb _); [done|]. unfold mbind, ST_bind in E.
    destruct (in_store _ tx) as [[v|e] tx1] eqn:E1; [|done]. destruct (store_exec _ _ _ _ Hq E1) as (_ & (db1 & _ & D) & _).
    unfold ensureAccountSQL in D. destruct (text_ok name); [done|]. by cbn in D.
  - intros k i (r & Hr & En & <- & _). destruct Ha as (r' & Hr' & En' & <- & _).
    by rewrite (NoDup_map_inj ar_name _ (sh_names _ L') r r') by congruence.
Qed.

Lemma build_lines_needs rec period earliest items transfers total lines tx r tx' :
  undisturbed tx -> ledger_inv (tx_db tx) -> build_lines now rec period earliest items transfers total lines tx = (Ok r, tx') ->
  Forall (fun i => li_Amount i <> 0 -> account_ready (RevenueAccount (li_Meter i)) Revenue (tx_db tx)) items.
Proof.
  revert transfers total lines tx. induction items as [|i items IH]; intros transfers total lines tx Hq Hi E; [constructor|]. cbn [build_lines] in E.
  destruct (Z.eqb_spec (li_Amount i) 0) as [Hz|Hz]; [constructor; [done|by eapply IH]|]. st_inv E. apply inv_store_ok in Hv.
  destruct (EnsureAccountTx_spec now _ _ _ _ _ Hq Hi Hv) as (K1 & (M1 & L1 & A1) & _). st_inv E. apply st_lift_ok in Hv0 as [_ ->].
  constructor; [intros _; by eapply EnsureAccountTx_needs|]. specialize (IH _ _ _ _ (proj1 K1) L1 E). eapply Forall_impl; [exact IH|]. cbn.
  intros j Hj Hz'. eapply account_ready_before; [exact M1|by apply Hj].
Qed.

Lemma insert_lines_needs id lines tx tx' : undisturbed tx -> insert_lines id lines tx = (Ok tt, tx') -> Forall (fun l => text_ok (il_Meter l) = true) lines.
Proof.
  revert tx. induction lines as [|l lines IH]; intros tx Hq E; [constructor|]. cbn [insert_lines] in E. st_inv E.
  destruct (inv_exec_ok _ _ _ _ Hq Hv) as (K1 & db1 & _ & _ & D). constructor; [|eapply IH; [apply K1|exact E]].
  unfold insertLineItem in D. by destruct (text_ok (il_Meter l)).
Qed.

Lemma PostTx_needs t tx r tx' : undisturbed tx -> PostTx now t tx = (Ok r, tx') -> text_ok (tx_IdempotencyKey t) && text_ok (tx_Description t) = true.
Proof.
  intros Hq E. unfold PostTx in E. st_inv E. apply st_lift_ok in Hv as [_ ->]. destruct (decide _); [done|]. st_inv E.
  destruct (store_exec _ _ _ _ Hq Hv) as (_ & (db1 & _ & D) & _). pose proof (insertTransaction_spec now t db1) as S. rewrite D in S.
  unfold insertTransaction in D. by destruct (_ && _).
Qed.

Lemma issue_needs period transfers total lines tx inv tx' :
  undisturbed tx -> ledger_inv (tx_db tx) -> Forall (fun t => in_int64 (tr_Amount t)) transfers ->
  issue now period transfers total lines tx = (Ok inv, tx') ->
  pe_Start period <> 0 /\ Forall transfer_ok transfers /\ Forall (fun l => text_ok (il_Meter l) = true) lines /\
  text_ok (pe_TenantID period) && text_ok (TransactionKey (pe_TenantID period) (pe_Label period)) &&
    text_ok ("usage for " +:+ pe_TenantID period +:+ " in " +:+ pe_Label period) = true.
Proof.
  intros Hq Hi Hr E. unfold issue in E. st_inv E. apply st_lift_ok in Hv as [Hv ->]. rewrite NewTransaction_spec in Hv by done.
  repeat case_decide; try done. injection Hv as <-. set (t := mkTransaction _ _ _ _) in *. st_inv E. destruct v as [ledgerID dup]. apply inv_store_ok in Hv.
  assert (Hp : Forall (fun p => in_int64 (po_Amount p)) (tx_postings t)) by (eapply (proj2 (NewTransaction_accepts (tx_IdempotencyKey t) (pe_Start period) "" transfers ltac:(done) ltac:(done) ltac:(done) ltac:(done)))).
  destruct (PostTx_spec now t tx _ tx0 Hq Hi Hp Hv) as (K1 & _ & _). apply PostTx_needs in Hv as [T1 T2]%andb_true_iff; [|done].
  st_inv E. destruct (inv_exec_ok _ _ _ _ (proj1 K1) Hv) as (K2 & db2 & _ & _ & D2).
  st_inv E. match goal with u : unit |- _ => destruct u end. apply insert_lines_needs in Hv0; [|apply K2]. split; [done|]. split; [done|]. split; [done|].
  cbn [t tx_IdempotencyKey tx_Description] in T1, T2. rewrite T1, T2. unfold insertInvoice in D2. by destruct (text_ok (pe_TenantID period)).
Qed.

Lemma buildEntry_needs period items earliest tx transfers total lines tx' :
  undisturbed tx -> ledger_inv (tx_db tx) -> Forall (fun i => in_int64 (li_Amount i)) items ->
  buildEntry now period items earliest tx = (Ok (transfers, total, lines), tx') ->
  in_int64 total /\ account_ready (ReceivableAccount (pe_TenantID period)) Asset (tx_db tx) /\
  Forall (fun i => li_Amount i <> 0 -> account_ready (RevenueAccount (li_Meter i)) Revenue (tx_db tx)) items.
Proof.
  intros Hq Hi Hr E. unfold buildEntry in E. st_inv E. apply inv_store_ok in Hv.
  destruct (EnsureAccountTx_spec now _ _ _ _ _ Hq Hi Hv) as (K1 & (M1 & L1 & _) & _). apply EnsureAccountTx_needs in Hv; [|done..].
  destruct (build_lines_ok now v period earliest items [] 0 [] _ _ _ _ _ (proj1 K1) L1 ltac:(int_lia) Hr E) as (_ & _ & _ & T & _).
  split; [done|]. split; [done|]. apply build_lines_needs in E; [|apply K1|done]. eapply Forall_impl; [exact E|]. cbn.
  intros i Hi' Hz. eapply account_ready_before; [exact M1|by apply Hi'].
Qed.

Lemma bill_needs plan row tx inv tx' : undisturbed tx -> billing_ok (tx_db tx) -> bp_state row <> Closed ->
  bill registry now (period_of row) plan tx = (Ok inv, tx') -> exists items, billable registry plan row items (tx_db tx).
Proof.
  intros Hq (Hi & He & _) Ho E. unfold bill in E. st_inv E. destruct v as [us ea].
  destruct (gatherUsage_ok _ _ _ _ _ Hq He Hv) as (K1 & V1 & -> & H64 & _). destruct (decide _) as [|Hne]; [done|].
  st_inv E. apply st_lift_ok in Hv0 as [Hrate ->]. destruct (Rate _ _ _) as [items|] eqn:Er; [|done]. injection Hrate as <-.
  pose proof (Rate_range _ _ _ _ H64 Er) as Hr. pose proof (ledger_inv_same _ _ V1 Hi) as L1.
  assert (Ha : Forall (fun i => in_int64 (li_Amount i)) items) by (eapply Forall_impl; [exact Hr|]; by intros i []).
  st_inv E. destruct v as [[trs total] lines]. destruct (decide _) as [|Hn]; [done|].
  destruct (buildEntry_needs _ _ _ _ _ _ _ _ (proj1 K1) L1 Ha Hv0) as (Ht64 & Hrec & Hacc).
  destruct (buildEntry_ok _ _ _ _ _ _ _ _ _ (proj1 K1) L1 Ha Hv0) as (K2 & _ & L2 & Ht & Hl & rec & _ & Htr).
  assert (T64 : Forall (fun t => in_int64 (tr_Amount t)) trs).
  { eapply Forall2_Forall_r; [exact Htr|]. apply Forall_forall. intros i Hin t (_ & -> & _). rewrite Forall_forall in Ha.
    apply list_elem_of_In, List.filter_In in Hin as [Hin%list_elem_of_In _]. by apply Ha. }
  destruct (issue_needs _ _ _ _ _ _ _ (proj1 K2) L2 T64 E) as (Hs & Hok & Htx & Htexts). rewrite Hl in Htx.
  assert (B : forall name kind, account_ready name kind (tx_db tx0) -> account_ready name kind (tx_db tx)).
  { intros name kind. apply account_ready_before. by apply same_more. }
  exists items. split; [done|done| |exact Er| |rewrite <- Ht; int_lia| |by apply B|exact Htexts].
  - unfold due_usage in H64. rewrite Forall_map in H64. eapply Forall_impl; [exact H64|]. cbn. int_lia.
  - intros E0. rewrite E0 in Htr. apply Forall2_nil_inv_l in Htr. by subst trs.
  - apply Forall_forall. intros i Hin. rewrite Forall_forall in Hacc. apply Forall_map in Htx. rewrite Forall_forall in Htx. split; [|split; [by apply (Htx i)|]].
    + destruct (Z.eqb_spec (li_Amount i) 0) as [->|Hz]; [done|]. assert (Hc : i ∈ charged items).
      { apply list_elem_of_In, List.filter_In. split; [by apply list_elem_of_In|]. by apply negb_true_iff, Z.eqb_neq. }
      apply list_elem_of_lookup_1 in Hc as [k Hk]. destruct (Forall2_lookup_l _ _ _ _ _ Htr Hk) as (t & Ht' & (_ & Ea & _)).
      rewrite Forall_forall in Hok. destruct (Hok t) as [Hpos _]; [by eapply list_elem_of_lookup_2|]. lia.
    + intros Hz. by apply B, Hacc.
Qed.

End Live.

(** ** Theorems *)


(** ** Witness *)

Section Examples.
#[local] Existing Instance small_Postgres.

Definition items_example : list LineItem := [mkLineItem "api_calls" 12000000000 1200].

Lemma billable_example : billable registry_example plan_example (period_row_example 1 "acme" "2026-08") items_example billing_example.
Proof.
  assert (R : forall name kind, text_ok name = true -> account_ready name kind billing_example).
  { intros name kind Ht. split; [exact Ht|]. intros k id (r & Hr & _). by apply elem_of_nil in Hr. }
  split.
  - discriminate.
  - discriminate.
  - change (Forall (fun m => meter_sum (due (period_of (period_row_example 1 "acme" "2026-08")) billing_example) m <= max_int64) ["api_calls"%string]).
    apply Forall_singleton. vm_compute. discriminate.
  - vm_compute. reflexivity.
  - discriminate.
  - vm_compute. discriminate.
  - apply Forall_singleton. split; [vm_compute; discriminate|]. split; [vm_compute; reflexivity|]. intros _. apply R. vm_compute. reflexivity.
  - apply R. vm_compute. reflexivity.
  - vm_compute. reflexivity.
Qed.

Lemma billing_example_books : books_ok billing_example.
Proof.
  split; [exact billing_example_ok|]. split; split; try (by constructor).
  - apply Forall_cons_2; [|apply Forall_singleton]; intros id E; discriminate E.
  - apply Forall_cons_2; [|apply Forall_singleton]; intros id E; discriminate E.
  - apply NoDup_singleton.
  - apply Forall_singleton. split; [intros E; discriminate E|]. intros Hin. by apply elem_of_nil in Hin.
Qed.


End Examples.
