(* ===== verification/Beside.v ===== *)
(** * Billing beside ingest

    The consumer goes on storing events while a period is closed, and nothing locks
    the table they share. As long as what it stores belongs to other tenants or to
    the time from the period's end on, the two do not meet: a closing comes to what
    it would have come to after the consumer was done, and to what it would have come
    to on tables that never held those events. *)

From S2P Require Import Prelude Decimal Amount Quantity Ledger Pricing Bytes GoTime Event Validate LogSpec DB Consumer Store Invoicing Chaos Books.

(** ** The consumer's part of the tables *)

Definition ingest_part : Type := table event_row * gmap string (Z * Time) * table dead_letter_row.

Definition part_of (db : DB) : ingest_part := (events db, consumer_offsets db, dead_letters db).

Definition with_part (x : ingest_part) (db : DB) : DB := set_events x.1.1 (set_offsets x.1.2 (set_dead_letters x.2 db)).

(** A change of that part which does not look at the rest. *)
Definition local (h : DB -> DB) : Prop := exists phi, forall db, h db = with_part (phi (part_of db)) db.

(** A statement that comes to the same before and after a change. *)
Definition stays {A} (h : DB -> DB) (q : stmt A) : Prop :=
  forall db, q (h db) = match q db with Ok (a, db') => Ok (a, h db') | Err e => Err e end.

(** A statement that leaves that part alone. *)
Definition disjoint {A} (q : stmt A) : Prop := forall x, stays (with_part x) q.

Lemma with_part_of db : with_part (part_of db) db = db.
Proof. by destruct db. Qed.

Lemma part_with x db : part_of (with_part x db) = x.
Proof. by destruct x as [[e o] d]. Qed.

Lemma disjoint_part {A} (q : stmt A) db a db' : disjoint q -> q db = Ok (a, db') -> part_of db' = part_of db.
Proof.
  intros Hq E. pose proof (Hq (part_of db) db) as E'. rewrite with_part_of, E in E'. injection E' as E'. by rewrite E'.
Qed.

Lemma disjoint_stays {A} (q : stmt A) h : local h -> disjoint q -> stays h q.
Proof.
  intros [phi Hh] Hq db. rewrite Hh, Hq. destruct (q db) as [[a db']|e] eqn:E; [|done]. by rewrite Hh, (disjoint_part q _ _ _ Hq E).
Qed.

Section Statements.
Context `{Postgres}.

Lemma lockPeriod_disjoint id : disjoint (lockPeriod id).
Proof. intros x db. reflexivity. Qed.

Lemma ensureAccountSQL_disjoint name kind at_ : disjoint (ensureAccountSQL name kind at_).
Proof.
  intros x db. unfold ensureAccountSQL. destruct (negb _); [done|]. destruct (negb _); [done|].
  cbn [with_part set_events set_offsets set_dead_letters ledger_accounts]. by destruct (List.find _ _).
Qed.

Lemma insertTransaction_disjoint key at_ description created : disjoint (insertTransaction key at_ description created).
Proof.
  intros x db. unfold insertTransaction. destruct (negb _); [done|].
  cbn [with_part set_events set_offsets set_dead_letters ledger_transactions]. by destruct (existsb _ _).
Qed.

Lemma selectTransactionByKey_disjoint key : disjoint (selectTransactionByKey key).
Proof. intros x db. unfold selectTransactionByKey. by destruct (negb _). Qed.

Lemma insertPosting_disjoint id account amount : disjoint (insertPosting id account amount).
Proof.
  intros x db. unfold insertPosting. destruct (amount =? 0); [done|].
  cbn [with_part set_events set_offsets set_dead_letters ledger_transactions ledger_accounts]. destruct (negb _); [done|]. by destruct (negb _).
Qed.

Lemma insertInvoice_disjoint periodID tenantID total ledgerID at_ : disjoint (insertInvoice periodID tenantID total ledgerID at_).
Proof.
  intros x db. unfold insertInvoice. destruct (negb _); [done|].
  cbn [with_part set_events set_offsets set_dead_letters ledger_transactions invoices billing_periods].
  destruct (existsb _ _); [done|]. destruct (negb _); [done|]. by destruct (negb _).
Qed.

Lemma insertLineItem_disjoint id meter quantity amount : disjoint (insertLineItem id meter quantity amount).
Proof.
  intros x db. unfold insertLineItem. destruct (negb _); [done|]. destruct (numeric_of_text _); [|done].
  cbn [with_part set_events set_offsets set_dead_letters invoice_line_items invoices]. destruct (existsb _ _); [done|]. by destruct (negb _).
Qed.

Lemma closePeriod_disjoint id at_ : disjoint (closePeriod id at_).
Proof. intros x db. reflexivity. Qed.

Lemma selectInvoiceByPeriod_disjoint id : disjoint (selectInvoiceByPeriod id).
Proof. intros x db. reflexivity. Qed.

Lemma selectLineItems_disjoint id : disjoint (selectLineItems id).
Proof. intros x db. reflexivity. Qed.

(** ** The statements of a closing *)

(** The tenant and the end of the period. *)
Variable tenantID : string.
Variable end_ : Time.

(** What [markBilled] does to the events. *)
Definition mark (id : Z) (db : DB) : DB :=
  set_events (mkTable (map (fun r => if unbilled tenantID end_ r then bill_event id r else r) (rows (events db))) (seq_next (events db))) db.

(** A change that a closing does not see and does not disturb. *)
Record harmless (h : DB -> DB) : Prop := {
  ha_local : local h;
  ha_usage : forall db, List.filter (unbilled tenantID end_) (rows (events (h db))) = List.filter (unbilled tenantID end_) (rows (events db));
  ha_mark : forall id db, h (mark id db) = mark id (h db)
}.

Inductive close_stmt : forall A, stmt A -> Prop :=
| cs_disjoint A (q : stmt A) : disjoint q -> close_stmt A q
| cs_usage : close_stmt _ (unbilledUsage tenantID end_)
| cs_mark id : close_stmt _ (markBilled id tenantID end_).

Lemma existsb_filter {A} (f : A -> bool) l : existsb f l = negb (bool_decide (length (List.filter f l) = 0%nat)).
Proof. induction l as [|x l IH]; [done|]. cbn [existsb List.filter]. by destruct (f x). Qed.

Lemma markBilled_is id db : markBilled id tenantID end_ db =
  if existsb (unbilled tenantID end_) (rows (events db)) && negb (existsb (fun r => iv_id r =? id) (rows (invoices db)))
  then Err ErrConstraint else Ok (tt, mark id db).
Proof. unfold markBilled. rewrite (proj2 (forallb_forall _ _)) by (intros r _; apply markBilled_once). done. Qed.

Lemma close_stmt_stays A (q : stmt A) h : harmless h -> close_stmt A q -> stays h q.
Proof.
  intros [Hl Hu Hm]. destruct 1 as [A q Hq| |id]; intros db.
  - by apply disjoint_stays.
  - unfold unbilledUsage. by rewrite Hu.
  - rewrite !markBilled_is, !existsb_filter, Hu. assert (invoices (h db) = invoices db) as -> by (destruct Hl as [phi ->]; done).
    destruct (_ && _); [done|]. by rewrite Hm.
Qed.

(** ** Computations made of them *)

(** A property of computations that every way of putting them together keeps. *)
Class congruence (P : forall E A, ST txn E A -> Prop) : Prop := {
  co_exec A (q : stmt A) : close_stmt A q -> P _ _ (tx_exec q);
  co_ret E A (a : A) : P E A (mret a);
  co_fail E A (e : E) : P E A (st_fail e);
  co_lift E A (r : res E A) : P E A (st_lift r);
  co_bind E A B (m : ST txn E A) (f : A -> ST txn E B) : P E A m -> (forall a, P E B (f a)) -> P E B (m ≫= f);
  co_store A (m : ST txn db_err A) : P _ _ m -> P _ _ (in_store m);
  co_inv A (m : ST txn db_err A) : P _ _ m -> P _ _ (in_inv m);
  co_inv_store A (m : ST txn store_err A) : P _ _ m -> P _ _ (in_inv_store m)
}.
Section Structure.
Variable P : forall E A, ST txn E A -> Prop.
Context `{HP : !congruence P}.
Variable registry : Registry.
Variable now : Time.

#[local] Hint Resolve lockPeriod_disjoint ensureAccountSQL_disjoint insertTransaction_disjoint selectTransactionByKey_disjoint insertPosting_disjoint
  insertInvoice_disjoint insertLineItem_disjoint closePeriod_disjoint selectInvoiceByPeriod_disjoint selectLineItems_disjoint : core.

(** [minds_with lem] follows the structure of a computation; [lem] is for its parts. *)
Ltac minds_with lem :=
  repeat first
    [ progress intros
    | lem
    | apply co_ret | apply co_fail | apply co_lift | apply co_store | apply co_inv | apply co_inv_store
    | apply co_exec; first [apply cs_usage | apply cs_mark | apply cs_disjoint; auto]
    | apply co_bind
    | match goal with |- P _ _ (match ?x with _ => _ end) => destruct x end ].

Lemma EnsureAccountTx_minds name kind : P _ _ (EnsureAccountTx now name kind).
Proof. unfold EnsureAccountTx, ensureAccount. minds_with fail. Qed.

Lemma insert_postings_minds id ps : P _ _ (insert_postings id ps).
Proof. induction ps as [|p ps IH]; cbn [insert_postings]; minds_with ltac:(exact IH). Qed.

Lemma PostTx_minds t : P _ _ (PostTx now t).
Proof. unfold PostTx. minds_with ltac:(apply insert_postings_minds). Qed.

Lemma build_lines_minds rec period earliest items transfers total lines : P _ _ (build_lines now rec period earliest items transfers total lines).
Proof. revert transfers total lines. induction items as [|i items IH]; intros; cbn [build_lines]; minds_with ltac:(first [apply IH|apply EnsureAccountTx_minds]). Qed.

Lemma insert_lines_minds id lines : P _ _ (insert_lines id lines).
Proof. induction lines as [|l lines IH]; cbn [insert_lines]; minds_with ltac:(exact IH). Qed.

Lemma bill_minds period plan : pe_TenantID period = tenantID -> pe_End period = end_ -> P _ _ (bill registry now period plan).
Proof. intros Et Ee. unfold bill, gatherUsage, buildEntry, issue. rewrite !Et, !Ee.
  minds_with ltac:(first [apply EnsureAccountTx_minds|apply PostTx_minds|apply build_lines_minds|apply insert_lines_minds]). Qed.

Lemma invoiceForPeriod_minds periodID : P _ _ (invoiceForPeriod (@tx_exec) periodID).
Proof. unfold invoiceForPeriod. minds_with fail. Qed.

(** The rest of a closing, once it has the row of its period. *)
Definition close_rest (plan : Plan) (row : option period_row) : ST txn invoicing_err (Invoice + Invoice) :=
  period ← st_lift (scanPeriod row);
  if decide (pe_State period = Closed) then invoice ← invoiceForPeriod (@tx_exec) (pe_ID period); mret (inl invoice)
  else invoice ← bill registry now period plan; mret (inr invoice).

Lemma close_rest_minds plan row : (forall r, row = Some r -> bp_tenant_id r = tenantID /\ bp_ends_at r = end_) -> P _ _ (close_rest plan row).
Proof.
  intros Hrow. destruct row as [r|]; [|exact (co_fail _ _ ErrPeriodNotFound)]. destruct (Hrow r eq_refl) as [Et Ee].
  change (P _ _ (if decide (pe_State (period_of r) = Closed)
    then invoice ← invoiceForPeriod (@tx_exec) (pe_ID (period_of r)); mret (inl invoice)
    else invoice ← bill registry now (period_of r) plan; mret (inr invoice) : ST txn invoicing_err (Invoice + Invoice))).
  destruct (decide _); apply co_bind; intros; try apply co_ret; [apply invoiceForPeriod_minds|by apply bill_minds].
Qed.

End Structure.

(** ** A closing after everything that was stored meanwhile *)

Lemma local_compose f g : local f -> local g -> local (fun db => g (f db)).
Proof. intros [phi Hf] [psi Hg]. exists (fun x => psi (phi x)). intros db. by rewrite Hg, Hf, part_with. Qed.

Lemma harmless_compose f g : harmless f -> harmless g -> harmless (fun db => g (f db)).
Proof. intros [L1 U1 M1] [L2 U2 M2]. split; [by apply local_compose|intros db; by rewrite U2|intros id db; by rewrite M1, M2]. Qed.

Lemma harmless_id : harmless (fun db => db).
Proof. split; [|done|done]. exists (fun x => x). intros db. by rewrite with_part_of. Qed.

(** What the consumer sees of two versions of the tables is the same. *)
Definition same_ingest (c w : DB) : Prop :=
  map event_content (rows (events c)) = map event_content (rows (events w)) /\ seq_next (events c) = seq_next (events w) /\
  consumer_offsets c = consumer_offsets w /\ dead_letters c = dead_letters w.

#[local] Instance same_ingest_equiv : Equivalence same_ingest.
Proof. split; [done|intros c w (? & ? & ? & ?); by split_and!|intros a b c (? & ? & ? & ?) (? & ? & ? & ?); split_and!; congruence]. Qed.

Lemma close_stmt_ingest A (q : stmt A) db a db' : close_stmt A q -> q db = Ok (a, db') -> same_ingest db db'.
Proof.
  intros Hq E. destruct Hq as [A q Hq| |id].
  - apply disjoint_part in E as [= E1 E2 E3]; [|done]. unfold same_ingest. by rewrite E1, E2, E3.
  - injection E as _ <-. reflexivity.
  - rewrite markBilled_is in E. destruct (_ && _); [done|]. injection E as _ <-. split; [|done]. cbn. rewrite map_map.
    apply map_ext. intros r. by destruct (unbilled _ _ r).
Qed.

(** A change the consumer makes, wherever it is made. *)
Record ingests (h : DB -> DB) : Prop := {
  ig_harmless : harmless h;
  ig_same : forall c w, same_ingest c w -> same_ingest (h c) (h w)
}.

Lemma ingests_compose f g : ingests f -> ingests g -> ingests (fun db => g (f db)).
Proof. intros [H1 S1] [H2 S2]. split; [by apply harmless_compose|auto]. Qed.

Lemma table_rollback_same {R} (t u : table R) : seq_next t = seq_next u -> table_rollback t u = t.
Proof. destruct t as [r n], u as [r' n']. cbn. intros <-. unfold table_rollback. cbn. by rewrite Z.max_id. Qed.

Lemma rollback_ingests h c w : ingests h -> same_ingest c w -> db_rollback (h c) (h w) = h (db_rollback c w).
Proof.
  intros [[[phi Hh] _ _] Hs] Hcw. pose proof (Hs _ _ Hcw) as (_ & S1 & S2 & S3). destruct Hcw as (_ & Q1 & Q2 & Q3). rewrite !Hh in *.
  assert (E : part_of (db_rollback c w) = part_of c).
  { unfold part_of, db_rollback. cbn. by rewrite (table_rollback_same (events c)), Q3, (table_rollback_same (dead_letters w)) by done. }
  rewrite E. unfold db_rollback, with_part. cbn in *. rewrite table_rollback_same by done. by rewrite S3, table_rollback_same by done.
Qed.

(** All that the others do during a schedule. *)
Definition settle (sched : list tick) (db : DB) : DB := foldl (fun db t => others t db) db sched.

Lemma settle_ingests sched : Forall (fun t => ingests (others t)) sched -> ingests (settle sched).
Proof.
  induction 1 as [|t sched Ht _ IH]; [split; [exact harmless_id|done]|]. exact (ingests_compose _ _ Ht IH).
Qed.

(** The same treatment, and nobody else. *)
Definition alone (t : tick) : tick := mkTick (fun db => db) (treatment t).

(** The others have done what they do in the next [n] turns, and leave. *)
Definition ahead_srv (n : nat) (srv : server) : server :=
  mkServer (settle (take n (srv_sched srv)) (srv_db srv)) (map alone (srv_sched srv)).

Definition ahead (n : nat) (tx : txn) : txn :=
  mkTxn (ahead_srv n (tx_server tx)) (settle (take n (srv_sched (tx_server tx))) (tx_db tx)).

Definition in_turn (tx : txn) : Prop :=
  Forall (fun t => ingests (others t)) (srv_sched (tx_server tx)) /\ same_ingest (srv_db (tx_server tx)) (tx_db tx).

(** A computation that may as well come after everything stored during it. *)
Definition defers (E A : Type) (m : ST txn E A) : Prop :=
  forall tx r tx', in_turn tx -> m tx = (r, tx') ->
    in_turn tx' /\ exists k, srv_sched (tx_server tx') = drop k (srv_sched (tx_server tx)) /\
      forall n, (k <= n)%nat -> m (ahead n tx) = (r, ahead (n - k) tx').

(** A turn, seen from ahead. *)
Lemma next_ahead sched t rest : Forall (fun t => ingests (others t)) sched -> next_tick sched = (t, rest) ->
  ingests (others t) /\ Forall (fun t => ingests (others t)) rest /\ exists k, rest = drop k sched /\
    next_tick (map alone sched) = (alone t, map alone rest) /\
    forall n, (k <= n)%nat -> ingests (settle (take (n - k) rest)) /\
      forall d, settle (take n sched) d = settle (take (n - k) rest) (others t d).
Proof.
  destruct sched as [|t0 sched]; intros F [= <- <-].
  - split; [by apply (settle_ingests []); constructor|]. split; [done|]. exists 0%nat. split; [done|]. split; [done|]. intros n _. rewrite !take_nil.
    split; [by apply settle_ingests|done].
  - apply Forall_cons in F as [Ht F]. split; [done|]. split; [done|]. exists 1%nat. split; [done|]. split; [done|]. intros [|n] Hn; [lia|].
    cbn [Nat.sub take]. rewrite Nat.sub_0_r. split; [by apply settle_ingests, Forall_take|done].
Qed.

Lemma defers_still {E A} (r : res E A) : defers E A (fun tx => (r, tx)).
Proof. intros tx r' tx' Ht [= <- <-]. split; [done|]. exists 0%nat. split; [done|]. intros n _. by rewrite Nat.sub_0_r. Qed.

Lemma defers_exec {A} (q : stmt A) : close_stmt A q -> defers db_err A (tx_exec q).
Proof.
  intros Hq [[db sched] tdb] r tx' [Hf Hs]. cbn [tx_server srv_sched srv_db tx_db] in *. unfold tx_exec. cbn [tx_server srv_sched srv_db tx_db].
  destruct (next_tick sched) as [t rest] eqn:Et. destruct (next_ahead _ _ _ Hf Et) as (Ht & Hr & k & -> & En & Hn).
  pose proof (ig_same _ Ht _ _ Hs) as Hs1.
  assert (D : in_turn (mkTxn (mkServer (others t db) (drop k sched)) (others t tdb))) by (by split).
  destruct (treatment t) eqn:Tt; [destruct (q (others t tdb)) as [[a d']|e] eqn:E| |]; intros [= <- <-];
    (split; [first [exact D|split; [done|etrans; [exact Hs1|by eapply close_stmt_ingest]]]|]);
    exists k; (split; [done|]); intros n Hk; destruct (Hn n Hk) as [Hi Hd];
    unfold ahead, ahead_srv; cbn [tx_server srv_sched srv_db tx_db]; rewrite En, !Hd; cbn [alone others treatment]; rewrite Tt; try done.
  all: by rewrite (close_stmt_stays A q _ (ig_harmless _ Hi) Hq), E.
Qed.

(** The rest may rely on what the first part found. *)
Lemma defers_bind_at {E A B} (m : ST txn E A) (f : A -> ST txn E B) : defers E A m ->
  forall tx r tx', (forall a tx1, m tx = (Ok a, tx1) -> defers E B (f a)) -> in_turn tx -> (m ≫= f) tx = (r, tx') ->
    in_turn tx' /\ exists k, srv_sched (tx_server tx') = drop k (srv_sched (tx_server tx)) /\
      forall n, (k <= n)%nat -> (m ≫= f) (ahead n tx) = (r, ahead (n - k) tx').
Proof.
  intros Hm tx r tx' Hf Ht. unfold mbind, ST_bind. destruct (m tx) as [[a|e] tx1] eqn:E1; destruct (Hm _ _ _ Ht E1) as (Ht1 & k1 & D1 & A1).
  - intros E2. destruct (Hf a tx1 eq_refl _ _ _ Ht1 E2) as (Ht2 & k2 & D2 & A2). split; [done|]. exists (k1 + k2)%nat.
    split; [by rewrite D2, D1, drop_drop|]. intros n Hn. rewrite A1 by lia. rewrite Nat.sub_add_distr. apply A2. lia.
  - intros [= <- <-]. split; [done|]. exists k1. split; [done|]. intros n Hn. by rewrite A1.
Qed.

Lemma defers_wrap {E E' A} (g : E -> E') (m : ST txn E A) : defers E A m ->
  defers E' A (fun tx => match m tx with (Ok a, tx) => (Ok a, tx) | (Err e, tx) => (Err (g e), tx) end).
Proof.
  intros Hm tx r tx' Ht. destruct (m tx) as [r1 tx1] eqn:E1. destruct (Hm _ _ _ Ht E1) as (Ht1 & k & D & A1).
  destruct r1; intros [= <- <-]; (split; [done|]); exists k; (split; [done|]); intros n Hn; by rewrite A1.
Qed.

#[local] Instance defers_congruence : congruence defers.
Proof.
  split.
  - intros A q. apply defers_exec.
  - intros E A a. apply (defers_still (Ok a)).
  - intros E A e. apply (defers_still (Err e)).
  - intros E A r. apply (defers_still r).
  - intros E A B m f Hm Hf tx r tx'. by apply defers_bind_at.
  - intros A m. apply (defers_wrap ErrStore).
  - intros A m. apply (defers_wrap EInvDB).
  - intros A m. apply (defers_wrap EInvStore).
Qed.

Variable registry : Registry.
Variable now : Time.

(** The tenant and the end are those of the period. *)
Definition scope_of (periodID : Z) (db : DB) : Prop :=
  forall r, r ∈ rows (billing_periods db) -> bp_id r = periodID -> bp_tenant_id r = tenantID /\ bp_ends_at r = end_.

Lemma local_periods h db : local h -> billing_periods (h db) = billing_periods db.
Proof. by intros [phi ->]. Qed.

(** The row a closing finds is one of the period. *)
Lemma lockPeriod_scope periodID tx row tx1 : Forall (fun t => local (others t)) (srv_sched (tx_server tx)) -> scope_of periodID (tx_db tx) ->
  in_inv (tx_exec (lockPeriod periodID)) tx = (Ok row, tx1) -> forall r, row = Some r -> bp_tenant_id r = tenantID /\ bp_ends_at r = end_.
Proof.
  intros Hl Hs E r ->. unfold in_inv, tx_exec in E. destruct (next_tick (srv_sched (tx_server tx))) as [t rest] eqn:Et.
  assert (Ht : billing_periods (others t (tx_db tx)) = billing_periods (tx_db tx)).
  { destruct (srv_sched (tx_server tx)) as [|t0 l]; injection Et as <- _; [done|]. apply Forall_cons in Hl as [Hl _]. by apply local_periods. }
  destruct (treatment t); cbn in E; [|done|done]. injection E as E _. rewrite Ht in E. apply find_In in E as [Hin Hid%Z.eqb_eq]. by apply Hs.
Qed.

Lemma Commit_ahead tx r srv' : in_turn tx -> tx_Commit tx = (r, srv') ->
  exists k, srv_sched srv' = drop k (srv_sched (tx_server tx)) /\ forall n, (k <= n)%nat -> tx_Commit (ahead n tx) = (r, ahead_srv (n - k) srv').
Proof.
  destruct tx as [[db sched] tdb]. intros [Hf Hs]. cbn [tx_server srv_sched srv_db tx_db] in *. unfold tx_Commit. cbn [tx_server srv_sched srv_db tx_db].
  destruct (next_tick sched) as [t rest] eqn:Et. destruct (next_ahead _ _ _ Hf Et) as (Ht & Hr & k & -> & En & Hn).
  pose proof (ig_same _ Ht _ _ Hs) as Hs1. intros E. exists k.
  assert (P : forall h c w, ingests h -> ledger_assert_balanced (h c) (h w) = ledger_assert_balanced c w) by (intros h c w [[[phi Hh] _ _] _]; by rewrite !Hh).
  destruct (ledger_assert_balanced (others t db) (others t tdb)) eqn:Eb; [destruct (treatment t) eqn:Tt|]; injection E as <- <-;
    (split; [done|]); intros n Hk; destruct (Hn n Hk) as [Hi Hd]; unfold ahead, ahead_srv; cbn [tx_server srv_sched srv_db tx_db];
    rewrite En, !Hd; cbn [alone others treatment]; rewrite (P _ _ _ Hi), Eb, ?Tt; try done.
  all: unfold tx_Rollback; cbn [tx_server srv_sched srv_db tx_db]; by rewrite (rollback_ingests _ _ _ Hi Hs1).
Qed.

Lemma Close_ahead periodID plan srv r srv' : scope_of periodID (srv_db srv) -> Forall (fun t => ingests (others t)) (srv_sched srv) ->
  Close registry now periodID plan srv = (r, srv') ->
  exists k, srv_sched srv' = drop k (srv_sched srv) /\ forall n, (k <= n)%nat -> Close registry now periodID plan (ahead_srv n srv) = (r, ahead_srv (n - k) srv').
Proof.
  destruct srv as [db sched]. cbn [srv_db srv_sched]. intros Hs Hf. unfold Close at 1, BeginTx. cbn [srv_sched srv_db].
  destruct (next_tick sched) as [t rest] eqn:Et. destruct (next_ahead _ _ _ Hf Et) as (Ht & Hr & k & -> & En & Hn).
  assert (B : forall n, (k <= n)%nat -> Close registry now periodID plan (ahead_srv n (mkServer db sched)) =
    match (match treatment t with Run => Ok (ahead (n - k) (mkTxn (mkServer (others t db) (drop k sched)) (others t db))) | _ => Err ErrServer end : res db_err txn) with
    | Err e => (CloseFailed (EInvDB e), ahead_srv (n - k) (mkServer (others t db) (drop k sched)))
    | Ok tx =>
      match close_tx registry now periodID plan tx with
      | (Err e, tx) => (CloseFailed e, tx_Rollback tx)
      | (Ok invoice, tx) =>
          match tx_Commit tx with
          | (Err e, srv) => (CloseFailed (EInvDB e), srv)
          | (Ok _, srv) => (match invoice with inl invoice => ErrPeriodClosed invoice | inr invoice => Issued invoice end, srv)
          end
      end
    end).
  { intros n Hk. destruct (Hn n Hk) as [_ Hd]. unfold Close, BeginTx, ahead, ahead_srv. cbn [tx_server srv_sched srv_db tx_db]. rewrite En, Hd.
    cbn [alone others treatment]. by destruct (treatment t). }
  destruct (treatment t) eqn:Tt; [|intros [= <- <-]; exists k; split; [done|]; intros n Hk; by rewrite (B n Hk)..].
  set (tx := mkTxn _ _) in *. assert (T1 : in_turn tx) by (by split).
  assert (lock_defers : defers _ _ (in_inv (tx_exec (lockPeriod periodID)))) by (apply co_inv, co_exec, cs_disjoint, lockPeriod_disjoint).
  destruct (close_tx registry now periodID plan tx) as [r2 tx2] eqn:Ec.
  destruct (defers_bind_at (in_inv (tx_exec (lockPeriod periodID))) (close_rest registry now plan)) with (tx := tx) (r := r2) (tx' := tx2)
    as (T2 & k2 & D2 & A2); [exact lock_defers| |done|exact Ec|].
  { intros row tx1 E1. apply (close_rest_minds defers). eapply lockPeriod_scope; [|  |exact E1].
    - eapply Forall_impl; [exact Hr|]. intros t' Ht'. apply (ig_harmless _ Ht').
    - unfold scope_of, tx. cbn [tx_db]. rewrite local_periods by apply (ig_harmless _ Ht). exact Hs. }
  destruct r2 as [res|e].
  - destruct (tx_Commit tx2) as [r3 srv3] eqn:E3. destruct (Commit_ahead _ _ _ T2 E3) as (k3 & D3 & A3). intros E. exists (k + k2 + k3)%nat.
    assert (Esched : srv_sched srv3 = drop (k + k2 + k3) sched) by (rewrite D3, D2; cbn; rewrite !drop_drop; f_equal; lia).
    destruct r3; injection E as <- <-; (split; [done|]); intros n Hk; rewrite B by lia;
      change (close_tx registry now periodID plan) with (in_inv (tx_exec (lockPeriod periodID)) ≫= close_rest registry now plan); rewrite A2 by lia;
      rewrite A3 by lia; do 2 f_equal; lia.
  - intros [= <- <-]. exists (k + k2)%nat. split; [cbn; rewrite D2; cbn; by rewrite drop_drop|]. intros n Hk. rewrite B by lia.
    change (close_tx registry now periodID plan) with (in_inv (tx_exec (lockPeriod periodID)) ≫= close_rest registry now plan). rewrite A2 by lia.
    f_equal. replace (n - (k + k2))%nat with (n - k - k2)%nat by lia. destruct tx2 as [[d2 s2] td2], T2 as [F2 S2]. unfold tx_Rollback, ahead, ahead_srv.
    cbn [tx_server srv_sched srv_db tx_db] in *. f_equal. apply rollback_ingests; [by apply settle_ingests, Forall_take|done].
Qed.

End Statements.

(** ** What the consumer does meanwhile *)

Section Ingest.
Context `{Postgres}.
Variable tenantID : string.
Variable end_ : Time.

(** The tables after a statement that was committed, or refused. *)
Definition committed {A} (q : stmt A) (db : DB) : DB :=
  match q db with Ok (_, db') => db' | Err _ => db end.

(** The consumer's statements, in any number and order: events of other tenants or
    from the period's end on, dead letters and offsets. *)
Inductive ingest_work : (DB -> DB) -> Prop :=
| iw_none : ingest_work (fun db => db)
| iw_event e : ev_TenantID e <> tenantID \/ timestamptz end_ <= timestamptz (ev_OccurredAt e) -> good_quantity (ev_Quantity e) ->
    ingest_work (committed (insertEvent e))
| iw_dead name offset reason detail t k record at_ : ingest_work (committed (insertDeadLetter name offset reason detail t k record at_))
| iw_offset name next at_ : ingest_work (committed (commitOffset name next at_))
| iw_then f g : ingest_work f -> ingest_work g -> ingest_work (fun db => g (f db)).

Lemma find_map {A B} (f : A -> bool) (f' : B -> bool) (g : A -> B) l : (forall x, f' (g x) = f x) -> List.find f' (map g l) = g <$> List.find f l.
Proof. intros E. induction l as [|x l IH]; [done|]. cbn [map List.find]. rewrite E. by destruct (f x). Qed.

(** The row of an event. *)
Definition new_row (e : UsageEvent) (quantity : Z) (id : Z) : event_row :=
  mkEventRow id (ev_TenantID e) (ev_Meter e) quantity (timestamptz (ev_OccurredAt e)) (timestamptz (ev_ReceivedAt e)) (ev_IdempotencyKey e)
    (ev_Fingerprint e) None.

(** What storing an event does to the table, whatever else is in the database. *)
Definition store_event (e : UsageEvent) (t : table event_row) : table event_row :=
  if negb (text_ok (ev_TenantID e) && text_ok (ev_Meter e) && text_ok (ev_IdempotencyKey e)) then t
  else
    match numeric_of_text (ev_Quantity e), List.find (same_key (ev_TenantID e) (ev_IdempotencyKey e)) (rows t) with
    | None, _ => t
    | Some _, Some _ => table_skip t
    | Some quantity, None => (table_insert (new_row e quantity) t).2
    end.

Lemma insertEvent_is e db : committed (insertEvent e) db = set_events (store_event e (events db)) db.
Proof.
  unfold committed, insertEvent, store_event. destruct (negb _); [by destruct db|]. destruct (numeric_of_text _); [|by destruct db]. by destruct (List.find _ _).
Qed.

Lemma store_event_map e g t : (forall r, same_key (ev_TenantID e) (ev_IdempotencyKey e) (g r) = same_key (ev_TenantID e) (ev_IdempotencyKey e) r) ->
  (forall q id, g (new_row e q id) = new_row e q id) ->
  store_event e (mkTable (map g (rows t)) (seq_next t)) = mkTable (map g (rows (store_event e t))) (seq_next (store_event e t)).
Proof.
  intros Hk Hn. unfold store_event. cbn [rows seq_next]. destruct (negb _); [done|]. destruct (numeric_of_text _); [|done].
  rewrite (find_map _ _ g _ Hk). destruct (List.find _ (rows t)); cbn; [done|]. by rewrite map_app; cbn; rewrite Hn.
Qed.

Lemma insertEvent_ingests_ok e : ev_TenantID e <> tenantID \/ timestamptz end_ <= timestamptz (ev_OccurredAt e) ->
  ingests tenantID end_ (committed (insertEvent e)).
Proof.
  intros He. assert (Hn : forall q id, unbilled tenantID end_ (new_row e q id) = false).
  { intros q id. unfold unbilled. cbn. destruct He as [He|He]; [by rewrite bool_decide_false|]. apply andb_false_iff. right. lia. }
  split; [split|].
  - exists (fun x => (store_event e x.1.1, x.1.2, x.2)). intros db. rewrite insertEvent_is. by destruct db.
  - intros db. rewrite insertEvent_is. cbn. unfold store_event. destruct (negb _); [done|]. destruct (numeric_of_text _) as [q|]; [|done].
    destruct (List.find _ _); [done|]. cbn. rewrite List.filter_app. cbn. by rewrite Hn, app_nil_r.
  - intros id db. rewrite !insertEvent_is. unfold mark. cbn [events set_events]. rewrite store_event_map; [done|..].
    + intros r. by destruct (unbilled _ _ r).
    + intros q i. by rewrite Hn.
  - intros c w (E1 & E2 & E3 & E4). rewrite !insertEvent_is. unfold same_ingest. cbn [events set_events consumer_offsets dead_letters].
    assert (K : forall t, mkTable (map event_content (rows (store_event e t))) (seq_next (store_event e t)) =
      (let s := store_event e (mkTable (map event_content (rows t)) (seq_next t)) in mkTable (map event_content (rows s)) (seq_next s))).
    { intros t. unfold store_event. cbn [rows seq_next]. destruct (negb _); [cbn; by rewrite map_map|]. destruct (numeric_of_text _); [|cbn; by rewrite map_map].
      rewrite find_content. destruct (List.find _ (rows t)); cbn; [by rewrite map_map|]. by rewrite !map_app, map_map. }
    pose proof (K (events c)) as Kc. pose proof (K (events w)) as Kw. rewrite E1, E2 in Kc. rewrite <- Kw in Kc. injection Kc as -> ->. done.
Qed.

Lemma ingest_ingests f : ingest_work f -> ingests tenantID end_ f.
Proof.
  induction 1 as [|e He _|name offset reason detail t k record at_|name next at_|f g _ IHf _ IHg].
  - split; [apply harmless_id|done].
  - by apply insertEvent_ingests_ok.
  - set (ok := negb (text_ok name && text_ok reason && text_ok detail && null_text_ok t && null_text_ok k) || negb (bool_decide (reason ∈ [ReasonUndecodable; ReasonKeyReuse]))).
    set (put := fun d : table dead_letter_row => if ok then d else if existsb (same_offset name offset) (rows d) then table_skip d
      else (table_insert (fun id => mkDeadLetterRow id name offset reason detail t k record (timestamptz at_) None) d).2).
    assert (E : forall db, committed (insertDeadLetter name offset reason detail t k record at_) db = set_dead_letters (put (dead_letters db)) db).
    { intros db. unfold committed, insertDeadLetter, put, ok. destruct (negb _); [by destruct db|]. destruct (negb _); [by destruct db|]. by destruct (existsb _ _). }
    split; [split|].
    + exists (fun x => (x.1.1, x.1.2, put x.2)). intros db. rewrite E. by destruct db.
    + intros db. by rewrite E.
    + intros id db. by rewrite !E.
    + intros c w (E1 & E2 & E3 & E4). rewrite !E. unfold same_ingest. cbn. by rewrite E4.
  - set (put := fun m : gmap string (Z * Time) => if negb (text_ok name) || (next <? 0) then m else <[name := (next, timestamptz at_)]> m).
    assert (E : forall db, committed (commitOffset name next at_) db = set_offsets (put (consumer_offsets db)) db).
    { intros db. unfold committed, commitOffset, put. destruct (negb _); [by destruct db|]. cbn [orb]. by destruct (_ <? _); [destruct db|]. }
    split; [split|].
    + exists (fun x => (x.1.1, put x.1.2, x.2)). intros db. rewrite E. by destruct db.
    + intros db. by rewrite E.
    + intros id db. by rewrite !E.
    + intros c w (E1 & E2 & E3 & E4). rewrite !E. unfold same_ingest. cbn. by rewrite E3.
  - by apply ingests_compose.
Qed.

Lemma billing_ok_kept db db' : ledger_accounts db' = ledger_accounts db -> ledger_transactions db' = ledger_transactions db ->
  ledger_postings db' = ledger_postings db -> events db' = events db -> invoice_line_items db' = invoice_line_items db -> billing_ok db -> billing_ok db'.
Proof.
  intros A T P E I (Lg & Hq). split; [|by rewrite E, I]. eapply ledger_inv_ledger; [|exact Lg]. unfold same_ledger. rewrite A, T, P. split_and!; reflexivity.
Qed.

(** It is what a drain may do, and keeps the tables fit for billing. *)
Lemma ingest_ingested f db : ingest_work f -> ingested db (f db) /\ (billing_ok db -> billing_ok (f db)).
Proof.
  intros Hf. revert db. induction Hf as [|e He Hq|name offset reason detail t k record at_|name next at_|f g _ IHf _ IHg]; intros db.
  - split; [reflexivity|done].
  - unfold committed. destruct (insertEvent e db) as [[a db']|] eqn:E; [|split; [reflexivity|done]]. pose proof (insertEvent_ingests e db a db' E) as I.
    split; [done|]. intros (Lg & Q1 & Q2). split; [eapply ledger_inv_ledger; [apply I|done]|]. split; [|by destruct I as [_ _ _ [-> _] _]].
    revert E. unfold insertEvent. destruct (negb _); [done|]. rewrite (numeric_good _ Hq). destruct (List.find _ _); cbn [table_insert]; intros [= _ <-]; cbn; [done|].
    apply Forall_app. split; [done|]. apply Forall_singleton. cbn. by apply quantity_value_nonneg, Hq.
  - unfold committed. destruct (insertDeadLetter _ _ _ _ _ _ _ _ db) as [[a db']|] eqn:E; [|split; [reflexivity|done]].
    split; [by eapply insertDeadLetter_ingests|]. revert E. unfold insertDeadLetter. destruct (negb _); [done|]. destruct (negb _); [done|].
    destruct (existsb _ _); cbn [table_insert]; intros [= _ <-]; by apply billing_ok_kept.
  - unfold committed. destruct (commitOffset _ _ _ db) as [[a db']|] eqn:E; [|split; [reflexivity|done]].
    split; [by eapply commitOffset_ingests|]. revert E. unfold commitOffset. destruct (negb _); [done|]. destruct (_ <? _); [done|]. intros [= _ <-]. by apply billing_ok_kept.
  - destruct (IHf db) as [I1 B1], (IHg (f db)) as [I2 B2]. split; [by etrans|auto].
Qed.

End Ingest.

(** ** Theorem *)

Section Outcome.
Context `{Postgres}.

Lemma settle_ingested tenantID end_ sched db : Forall (fun t => ingest_work tenantID end_ (others t)) sched ->
  ingested db (settle sched db) /\ (billing_ok db -> billing_ok (settle sched db)).
Proof.
  intros F. revert db. induction F as [|t sched Ht _ IH]; intros db; [split; [reflexivity|done]|].
  destruct (ingest_ingested tenantID end_ (others t) db Ht) as [I1 B1], (IH (others t db)) as [I2 B2]. split; [etrans; [exact I1|exact I2]|auto].
Qed.

Lemma due_settled period sched db : Forall (fun t => ingest_work (pe_TenantID period) (pe_End period) (others t)) sched ->
  due period (settle sched db) = due period db.
Proof.
  intros F. apply (ha_usage (pe_TenantID period) (pe_End period) (settle sched)), ig_harmless, settle_ingests.
  eapply Forall_impl; [exact F|]. intros t. apply ingest_ingests.
Qed.

Lemma periods_settled tenantID end_ sched db : Forall (fun t => ingest_work tenantID end_ (others t)) sched ->
  billing_periods (settle sched db) = billing_periods db.
Proof.
  intros F. apply local_periods, (ha_local tenantID end_), ig_harmless, settle_ingests. eapply Forall_impl; [exact F|]. intros t. apply ingest_ingests.
Qed.

(** C8: a closing and the ingest beside it come one after the other. Between any two
    statements of the run the consumer may commit any number of events of other
    tenants or from the period's end on, dead letters and offsets, and the server may
    fail any statement or lose the answer of the commit: the run returns what it
    returns, and leaves the tables it leaves, when all of that was stored before it
    began. None of it is due, so the invoice is the one of the usage that was there;
    whole, or not at all. *)
Theorem Close_beside_ingest registry now periodID plan tenantID end_ srv r srv' :
  scope_of tenantID end_ periodID (srv_db srv) -> Forall (fun t => ingest_work tenantID end_ (others t)) (srv_sched srv) ->
  billing_ok (srv_db srv) -> Close registry now periodID plan srv = (r, srv') ->
  exists k, srv_sched srv' = drop k (srv_sched srv) /\
  let db := settle (take k (srv_sched srv)) (srv_db srv) in
  Close registry now periodID plan (mkServer db (map alone (srv_sched srv))) = (r, mkServer (srv_db srv') (map alone (srv_sched srv'))) /\
  ingested (srv_db srv) db /\ ledger_inv (srv_db srv') /\
  match r with
  | Issued inv => exists period, has_period periodID period (srv_db srv) /\ pe_State period <> Closed /\
      due period db = due period (srv_db srv) /\ billed plan period inv db (srv_db srv') /\ due period (srv_db srv') = []
  | ErrPeriodClosed inv => same_rows db (srv_db srv') /\ stored_invoice periodID inv db
  | CloseFailed _ => same_rows db (srv_db srv') \/
      exists period inv, has_period periodID period (srv_db srv) /\ pe_State period <> Closed /\ billed plan period inv db (srv_db srv')
  end.
Proof.
  intros Hs Hw Hok Ec. assert (Hi : Forall (fun t => ingests tenantID end_ (others t)) (srv_sched srv)).
  { eapply Forall_impl; [exact Hw|]. intros t. apply ingest_ingests. }
  destruct (Close_ahead tenantID end_ registry now periodID plan srv r srv' Hs Hi Ec) as (k & Hk & E). specialize (E k (le_n k)).
  rewrite Nat.sub_diag in E. exists k. split; [exact Hk|]. cbv zeta. pose proof (Forall_take _ k _ Hw) as Hwk.
  set (db := settle (take k (srv_sched srv)) (srv_db srv)). change (ahead_srv k srv) with (mkServer db (map alone (srv_sched srv))) in E.
  change (ahead_srv 0 srv') with (mkServer (srv_db srv') (map alone (srv_sched srv'))) in E.
  destruct (settle_ingested _ _ _ (srv_db srv) Hwk) as [I B]. split; [exact E|]. split; [exact I|].
  assert (Q : Forall (quiet_for same_rows) (map alone (srv_sched srv))) by (apply Forall_map, Forall_true; intros t d; reflexivity).
  destruct (Close_spec registry now periodID plan (mkServer db (map alone (srv_sched srv))) r _ Q (B Hok) E) as (_ & L & R). cbn [srv_db] in L, R.
  split; [exact L|]. assert (P : forall period, has_period periodID period db -> has_period periodID period (srv_db srv)).
  { intros period (row & Hin & Hrow). exists row. split; [|exact Hrow]. unfold db in Hin. by rewrite (periods_settled _ _ _ _ Hwk) in Hin. }
  destruct r as [inv|inv|e].
  - destruct R as (period & Hp & Ho & Hb & Hd). exists period. split; [by apply P|]. split; [done|]. split; [|by split].
    apply P in Hp as (row & Hin & Hid & ->). destruct (Hs row Hin Hid) as [Et Ee]. apply due_settled. cbn. by rewrite Et, Ee.
  - exact R.
  - destruct R as [V|(period & inv & Hp & Ho & Hb)]; [by left|right]. exists period, inv. split; [by apply P|done].
Qed.

End Outcome.

(** ** Witness *)

Section Examples.
#[local] Existing Instance small_Postgres.

(** The consumer stores the usage of another tenant and moves its offset. *)
Definition other_event : UsageEvent :=
  mkEvent "globex" "api_calls" "1000" (UTC 63900000000000000000) (UTC 63900000000000000000) "k9" None.

Definition ingest_tick : tick := mkTick (fun db => committed (commitOffset "billing" 1 0) (committed (insertEvent other_event) db)) Run.

Definition busy_schedule : list tick := replicate 4 ingest_tick.

Lemma ingest_tick_work : ingest_work "acme" 63910000000000000000 (others ingest_tick).
Proof.
  apply (iw_then _ _ (committed (insertEvent other_event))); [|apply iw_offset]. apply iw_event; [by left|].
  split; [by exists 1000000000000|reflexivity].
Qed.

Definition busy_run : close_result * server :=
  Close registry_example 63910000000000000000 1 plan_example (mkServer billing_example busy_schedule).

Definition busy_invoice : Invoice := match busy_run.1 with Issued inv => inv | _ => mkInvoice 0 0 "" 0 0 0 [] end.

Definition busy_server : server := busy_run.2.

Lemma busy_run_issues :
  Close registry_example 63910000000000000000 1 plan_example (mkServer billing_example busy_schedule) = (Issued busy_invoice, busy_server).
Proof. vm_compute. reflexivity. Qed.

Lemma Close_beside_ingest_witness :
  exists k srv2, in_Total busy_invoice = 1200 /\ map er_invoice_id (rows (events (srv_db busy_server))) = [Some 1; Some 1; None] /\
    ledger_inv (srv_db busy_server) /\
    Close registry_example 63910000000000000000 1 plan_example
      (mkServer (settle (take k busy_schedule) billing_example) (map alone busy_schedule)) = (Issued busy_invoice, srv2).
Proof.
  destruct (Close_beside_ingest registry_example 63910000000000000000 1 plan_example "acme" 63910000000000000000
    (mkServer billing_example busy_schedule) (Issued busy_invoice) busy_server
    ltac:(intros r' Hr _; apply list_elem_of_singleton in Hr; subst r'; split; reflexivity)
    ltac:(apply Forall_replicate; exact ingest_tick_work) billing_example_ok busy_run_issues) as (k & _ & Er & _ & L & _).
  exists k. eexists. split; [vm_compute; reflexivity|]. split; [vm_compute; reflexivity|]. split; [exact L|exact Er].
Defined.

End Examples.
