(* ===== verification/ChaosProof.v ===== *)
(** * The chaos harness as a state machine

    The operations of [Chaos.v] as the steps of a machine, and the invariant its
    states keep: the log holds acknowledged usage, the tables the effect of a
    prefix of it, and the books are in order. [ChaosChecks.v] draws the
    conclusions. *)

From S2P Require Import Prelude Decimal Amount Quantity Ledger Pricing Bytes Unicode Json Record LogSpec GoTime TimeText Event EventJson Validate Instances Handler DB Consumer Store Invoicing System Chaos Books.

(** ** Posting *)

(** The keys scenarios use: printable, and not to be escaped. *)
Definition key_char (c : ascii) : bool := printable c && plain_char c.

Definition chaos_key (key : string) : Prop := str_all key_char key = true /\ (String.length key <= maxFieldLen)%nat.

Definition chaos_request (key : string) : eventRequest := mkRequest Tenant MeterName EventQuantity (UTC occurredAt) key.

Definition chaos_event (key : string) (receivedAt : Time) : UsageEvent := request_event (chaos_request key) receivedAt.

Section Posting.
Variable IsPrint : Z -> bool.

(** A byte [%q] leaves alone. *)
Definition shown (b : byte) : bool := plain b && negb (byte_val b =? 127).

Lemma quote_loop_shown l : forallb shown l = true -> quote_loop IsPrint (length l) l = l.
Proof.
  induction l as [|b l IH]; [done|]. cbn [forallb length quote_loop]. unfold shown at 1, plain. intros [Hb Hl]%andb_true_iff.
  rewrite !andb_true_iff, !negb_true_iff in Hb. destruct Hb as [[[[H1 H2] H3] H4] H5]. unfold DecodeRune. rewrite H2.
  replace (byte_val b =? RuneError) with false by (unfold RuneError; lia). cbn [andb skipn].
  assert ((byte_val b =? 34) = false) as E1.
  { apply Z.eqb_neq. intros E. replace b with quote in H3; [done|]. apply (inj byte_val). by rewrite E. }
  assert ((byte_val b =? 92) = false) as E2.
  { apply Z.eqb_neq. intros E. replace b with backslash in H4; [done|]. apply (inj byte_val). by rewrite E. }
  unfold quote_rune, is_print. rewrite E1, E2, H2, H1. replace (byte_val b <? 127) with true by lia. cbn [andb].
  rewrite EncodeRune_ascii, drop_0, (IH Hl) by lia. done.
Qed.

Lemma key_char_shown c : key_char c = true -> shown (byte_of_ascii c) = true.
Proof. destruct c as [[] [] [] [] [] [] [] []]; vm_compute; congruence. Qed.

Lemma key_shown s : str_all key_char s = true -> forallb shown (bytes_of s) = true.
Proof.
  induction s as [|c s IH]; [done|]. cbn. intros [Hc Hs]%andb_true_iff. change (bytes_of (String c s)) with (byte_of_ascii c :: bytes_of s).
  cbn. rewrite (key_char_shown c Hc). by apply IH.
Qed.

Lemma key_plain s : str_all key_char s = true -> forallb plain (bytes_of s) = true.
Proof. intros H. apply plain_bytes. revert H. apply str_all_impl. intros c. unfold key_char. by intros [_ ?]%andb_true_iff. Qed.

Lemma Quote_key s : str_all key_char s = true -> Quote IsPrint s = quote :: bytes_of s ++ [quote].
Proof. intros H. unfold Quote. rewrite <- bytes_of_length, quote_loop_shown; [done|]. by apply key_shown. Qed.

Lemma store_string_plain {S} (set : string -> S -> S) s x : str_all key_char x = true ->
  store_string set (JString (bytes_of x)) s = Ok (set x s, None).
Proof.
  intros H. cbn. rewrite unquote_plain by by apply key_plain. unfold bytes_of. by rewrite String.string_of_list_byte_of_string.
Qed.

Lemma occurredAt_text : str_all key_char (RFC3339 occurredAt) = true /\ String.length (RFC3339 occurredAt) = 20%nat /\
  forall t0, time_UnmarshalJSON (JString (bytes_of (RFC3339 occurredAt))) t0 = Ok (UTC occurredAt).
Proof. split; [vm_compute; reflexivity|]. split; [vm_compute; reflexivity|]. intros t0. vm_compute. reflexivity. Qed.

(** The server reads the request the harness meant. *)
Lemma decode_post key : chaos_key key -> decode_request (post_body IsPrint key) = Ok (chaos_request key).
Proof.
  intros [Hk Hl]. destruct occurredAt_text as (Ht & Hn & Hp). unfold post_body, decode_request. set (text := RFC3339 occurredAt) in *. clearbody text. rewrite <- (app_nil_r (print_object _)).
  set (vs := [JString (bytes_of Tenant); JString (bytes_of MeterName); JString (bytes_of EventQuantity);
              JString (bytes_of text); JString (bytes_of key)]).
  rewrite !Quote_key by done. rewrite (Decoder_print _ _ _ _ vs); [|done| |].
  - cbn [zip zip_with fmap list_fmap fst unmarshal vs].
    repeat (erewrite decode_members_cons; [|done|done|first [by apply store_string_plain|by apply store_time_ok]]). done.
  - unfold vs. repeat (constructor; [split; [done|]; by apply value_text_quoted, plain_run, key_plain|]). constructor.
  - unfold print_object, print_members, print_member. cbn [fst snd].
    repeat (first [rewrite length_app | progress cbn [length app]]). rewrite !bytes_of_length, Hn. unfold maxBodyBytes, maxFieldLen in *. cbn. lia.
Qed.

End Posting.

(** ** The periods of the harness *)

Section Periods.
Context `{Postgres}.

(** Every period is the harness's. *)
Definition chaos_periods (db : DB) : Prop :=
  Forall (fun r => bp_tenant_id r = Tenant /\ bp_ends_at r = periodEnd) (rows (billing_periods db)).

Lemma periods_ingested db db' : ingested db db' -> chaos_periods db -> chaos_periods db'.
Proof. intros [_ [P _] _ _ _]. unfold chaos_periods. by rewrite P. Qed.

Lemma periods_billed plan period inv db db' : billed plan period inv db db' -> chaos_periods db -> chaos_periods db'.
Proof.
  intros (items & trs & t & rec & _ & _ & _ & _ & _ & _ & _ & [_ _ I3 _ _ _ _ _] & _). unfold chaos_periods. rewrite I3.
  intros F. apply Forall_map. eapply Forall_impl; [exact F|]. cbn. intros r Hr. by destruct (_ =? _).
Qed.

End Periods.

(** ** What the log and the events table hold *)

Section Usage.
Context `{Postgres}.
Variable err_text : list byte -> json_err -> string.

#[local] Instance usage_codec : EventCodec := json_EventCodec err_text.

(** Every event posted has the same content. *)
Definition chaos_fingerprint : list byte := Fingerprint (chaos_event "" 0).

#[local] Arguments chaos_fingerprint : simpl never.
#[local] Arguments Fingerprint : simpl never.

Lemma chaos_event_fingerprint key at_ : ev_Fingerprint (chaos_event key at_) = Some chaos_fingerprint.
Proof. unfold chaos_event, request_event, chaos_fingerprint, Fingerprint. cbn [ev_Fingerprint]. do 2 f_equal. Qed.

Definition chaos_record (accepted : gset string) (record : list byte) : Prop :=
  exists key at_, key ∈ accepted /\ chaos_key key /\ Decode record = Ok (chaos_event key at_).

Definition chaos_row (accepted : gset string) (r : event_row) : Prop :=
  er_tenant_id r = Tenant /\ er_meter r = MeterName /\ er_quantity r = 1000000000 /\ er_occurred_at r = occurredAt /\
  er_payload_fingerprint r = Some chaos_fingerprint /\ er_idempotency_key r ∈ accepted.

Lemma chaos_quantity : numeric_of_text EventQuantity = Some 1000000000.
Proof. rewrite numeric_good; [done|]. split; [by exists 1000000000|vm_compute; reflexivity]. Qed.

Lemma chaos_texts : text_ok Tenant = true /\ text_ok MeterName = true /\ text_ok "billing" = true.
Proof. split_and!; by apply text_ok_ascii. Qed.

Lemma chaos_key_text key : chaos_key key -> text_ok key = true.
Proof. intros [Hk _]. apply text_ok_ascii. revert Hk. apply str_all_impl. intros c. unfold key_char. by intros [? _]%andb_true_iff. Qed.

Lemma occurredAt_stored : timestamptz occurredAt = occurredAt.
Proof. apply timestamptz_exact. vm_compute. reflexivity. Qed.

Lemma consumed_rows accepted rs n db : consumed "billing" rs n db -> Forall (chaos_record accepted) rs ->
  Forall (chaos_row accepted) (rows (events db)).
Proof.
  intros (_ & _ & Hc) F. apply consume_prefix in Hc as [_ _ _ R]. apply Forall_forall. intros r Hr.
  destruct (R (event_content r)) as (i & record & e & _ & Hi & Hd & Q & T & M & K & O & _ & P); [by apply list_elem_of_fmap_2|].
  rewrite Forall_forall in F. destruct (F record) as (key & at_ & Hin & _ & Hd'); [by eapply list_elem_of_lookup_2|].
  rewrite Hd in Hd'. injection Hd' as ->. rewrite chaos_event_fingerprint in P. cbn in *. rewrite chaos_quantity in Q. injection Q as Q.
  rewrite occurredAt_stored in O. unfold chaos_row. rewrite K.
  split; [exact T|split; [exact M|split; [by symmetry|split; [exact O|split; [exact P|exact Hin]]]]].
Qed.

(** Every record consumed is stored: no key was ever used for other content. *)
Lemma consumed_stored accepted rs n db i record key at_ : consumed "billing" rs n db -> Forall (chaos_record accepted) rs ->
  (i < n)%nat -> rs !! i = Some record -> Decode record = Ok (chaos_event key at_) ->
  exists r, r ∈ rows (events db) /\ er_idempotency_key r = key.
Proof.
  intros Hc F Hi Hr Hd. pose proof (consumed_rows _ _ _ _ Hc F) as Hrows. destruct Hc as (_ & _ & Hc). apply consume_prefix in Hc as [_ _ A _].
  destruct (A i record Hi Hr) as [(e & r & Hd' & Hin & _ & Hk & _)|(d & _ & _ & _ & Hcause)].
  - rewrite Hd in Hd'. injection Hd' as <-. apply list_elem_of_fmap in Hin as (r' & -> & Hin). by exists r'.
  - unfold dead_cause in Hcause. rewrite Hd in Hcause. destruct Hcause as (_ & r & fp & Hin & _ & _ & Hfp & Hne).
    apply list_elem_of_fmap in Hin as (r' & -> & Hin). rewrite Forall_forall in Hrows. destruct (Hrows r' Hin) as (_ & _ & _ & _ & P & _).
    rewrite chaos_event_fingerprint in Hne. cbn in *. congruence.
Qed.

(** One row per key. *)
Lemma consumed_keys accepted rs n db : consumed "billing" rs n db -> Forall (chaos_record accepted) rs ->
  NoDup (map er_idempotency_key (rows (events db))).
Proof.
  intros Hc F. pose proof (consumed_rows _ _ _ _ Hc F) as Hrows. destruct Hc as (_ & _ & Hc). apply consume_prefix in Hc as [K _ _ _].
  unfold view in K. cbn in K. rewrite map_map in K. cbn in K. apply (NoDup_fmap_1 (fun k => (Tenant, k))).
  change (fmap ?f (map ?g ?l)) with (map f (map g l)). rewrite map_map. erewrite map_ext_in; [exact K|].
  intros r Hr%list_elem_of_In. rewrite Forall_forall in Hrows. by destruct (Hrows r Hr) as [-> _].
Qed.

(** All of the log can be stored. *)
Lemma chaos_consumable accepted rs : Forall (chaos_record accepted) rs -> forall n, (n <= length rs)%nat -> is_Some (consume "billing" n rs).
Proof.
  intros F n. induction n as [|n IH]; intros Hn; [by eexists|]. destruct IH as [v Hv]; [lia|]. cbn [consume]. rewrite Hv. cbn [mbind option_bind].
  destruct (lookup_lt_is_Some_2 rs n ltac:(lia)) as [record Hr]. rewrite Hr. cbn [mbind option_bind].
  rewrite Forall_forall in F. destruct (F record) as (key & at_ & _ & Hk & Hd); [by eapply list_elem_of_lookup_2|].
  unfold consume1. rewrite Hd. destruct chaos_texts as (T1 & T2 & T3). pose proof (chaos_key_text key Hk) as T4. cbn. rewrite T1, T2, T4. cbn [negb andb].
  rewrite chaos_quantity. cbn [mbind option_bind]. destruct (List.find _ v.1) as [r|]; [|by eexists].
  destruct (er_payload_fingerprint r); [|by eexists]. destruct (decide _); [by eexists|].
  unfold spec_dead. rewrite T3. cbn [fmap option_fmap option_map null_text_ok andb]. cbn. rewrite T1, T4.
  rewrite (text_ok_ascii ReasonKeyReuse), (text_ok_ascii key_reuse_detail) by done. cbn. destruct (existsb _ _); by eexists.
Qed.

End Usage.

(** ** The harness as a state machine *)

Section Machine.
Context {L : Type} `{LogStore L} `{Postgres}.
Variable err_text : list byte -> json_err -> string.
Variable IsPrint : Z -> bool.

#[local] Instance codec : EventCodec := json_EventCodec err_text.

(** Posts, faults, drains and closings in any order, with any answers of the
    server. A post is acknowledged or leaves no trace; the others' sessions, which
    a schedule may let in, commit no rows. *)
Inductive hstep : Harness L -> Harness L -> Prop :=
| h_post key now1 now2 d status n h h' :
    chaos_key key -> ls_NextOffset (h_Log h) = Ok n -> n < max_int64 ->
    Harness_Post err_text IsPrint key now1 now2 d h = (status, h') ->
    key ∈ h_accepted h' \/ (forall rs, ls_holds (h_Log h) rs -> ls_holds (h_Log h') rs) ->
    hstep h h'
| h_drain fuel clock sched r log srv h :
    Forall (quiet_for same_rows) sched ->
    Drain chaos_consumer clock fuel (h_Log h) (mkServer (h_DB h) sched) = (r, (log, srv)) ->
    hstep h (with_DB (with_Log h log) (srv_db srv))
| h_drain_fully fuel clock sched ok h h' :
    Forall (quiet_for same_rows) sched -> DrainFully err_text fuel clock sched h = (ok, h') -> hstep h h'
| h_kill sched h : Forall (quiet_for same_rows) sched -> hstep h (KillDatabaseConnections sched h)
| h_rewind to sched h : 0 <= to -> Forall (quiet_for same_rows) sched -> hstep h (RewindConsumer to sched h)
| h_duplicate offset n h : 0 <= offset -> ls_NextOffset (h_Log h) = Ok n -> n < max_int64 -> hstep h (AppendDuplicate offset h)
| h_period now sched period h h' :
    Forall (quiet_for same_rows) sched -> Harness_EnsurePeriod now sched h = (period, h') -> hstep h h'
| h_close now periodID sched inv h h' :
    Forall (quiet_for same_rows) sched -> CloseWithRetries now periodID sched h = (inv, h') -> hstep h h'.

(** ** The invariant *)

Record billing_inv (rs : list (list byte)) (n : nat) (db : DB) : Prop := {
  bi_consumed : consumed "billing" rs n db;
  bi_ok : billing_ok db;
  bi_books : books db;
  bi_periods : chaos_periods db
}.

Definition usage_inv (rs : list (list byte)) (accepted : gset string) : Prop :=
  Z.of_nat (length rs) <= max_int64 /\ Forall (chaos_record err_text accepted) rs /\
  forall key, key ∈ accepted -> exists i record at_, rs !! i = Some record /\ Decode record = Ok (chaos_event key at_).

Definition chaos_plan : Plan := mkPlan "chaos" [mkPrice MeterName Flat 10000 []].

Definition harness_inv (h : Harness L) : Prop :=
  exists rs n, ls_holds (h_Log h) rs /\ usage_inv rs (h_accepted h) /\ billing_inv rs n (h_DB h) /\
    h_Plan h = chaos_plan.

Lemma billing_inv_same rs n db db' : same_rows db db' -> billing_inv rs n db -> billing_inv rs n db'.
Proof.
  intros V [C O B P]. pose proof (same_rows_ingested _ _ V) as I. split.
  - apply (consumed_keep chaos_consumer rs n db db'); [by apply same_rows_view|done].
  - by eapply billing_ok_same.
  - by eapply books_ingested.
  - by eapply periods_ingested.
Qed.

(** Rows only ever hold accepted usage, so what a drain adds is in order. *)
Lemma billing_inv_ingested rs n n' accepted db db' : Forall (chaos_record err_text accepted) rs ->
  consumed "billing" rs n' db' -> ingested db db' -> billing_inv rs n db -> billing_inv rs n' db'.
Proof.
  intros F C I [_ (Lg & _ & Q) B P]. split; [done| |by eapply books_ingested|by eapply periods_ingested].
  split; [|split].
  - eapply ledger_inv_ledger; [apply I|done].
  - eapply Forall_impl; [by eapply consumed_rows|]. intros r (_ & _ & -> & _). lia.
  - destruct I as [_ _ _ [-> _] _]. done.
Qed.

Lemma billing_inv_billed rs n plan period inv db db' : ledger_inv db' ->
  billed plan period inv db db' -> billing_inv rs n db -> billing_inv rs n db'.
Proof.
  intros Lg Hb [C O B P]. split.
  - apply (consumed_keep chaos_consumer rs n db db'); [by eapply view_billed|done].
  - by eapply billing_ok_billed.
  - by eapply books_billed.
  - by eapply periods_billed.
Qed.

(** A longer log. *)
Lemma usage_inv_app rs record accepted accepted' : usage_inv rs accepted -> accepted ⊆ accepted' -> Z.of_nat (length rs) < max_int64 ->
  chaos_record err_text accepted' record ->
  (forall key, key ∈ accepted' -> key ∈ accepted \/ exists at_, Decode record = Ok (chaos_event key at_)) ->
  usage_inv (rs ++ [record]) accepted'.
Proof.
  intros (Hl & F & K) Hsub Hmax Hrec Hkey. split; [rewrite length_app; cbn; lia|]. split.
  - apply Forall_app. split; [|by repeat constructor]. eapply Forall_impl; [exact F|]. intros r (key & at_ & Hin & Hr). exists key, at_. split; [set_solver|done].
  - intros key [Hin|[at_ Hd]]%Hkey.
    + destruct (K key Hin) as (i & r & at_ & Hr & Hd). exists i, r, at_. split; [by apply lookup_app_l_Some|done].
    + exists (length rs), record, at_. split; [|done]. by rewrite lookup_app_r, Nat.sub_diag by lia.
Qed.

Lemma billing_inv_app rs n x db : billing_inv rs n db -> billing_inv (rs ++ x) n db.
Proof. intros [C O B P]. split; [|done..]. by apply consumed_app. Qed.

(** ** Steps keep the invariant *)

(** A post leaves nothing or the event of its key; an acknowledged one the event. *)
Lemma Post_cases key now1 now2 d status rs h h' :
  chaos_key key -> ls_holds (h_Log h) rs -> Z.of_nat (length rs) < max_int64 ->
  Harness_Post err_text IsPrint key now1 now2 d h = (status, h') ->
  h_DB h' = h_DB h /\ h_Plan h' = h_Plan h /\
  ((ls_holds (h_Log h') rs /\ h_accepted h' = h_accepted h) \/
   exists record at_, ls_holds (h_Log h') (rs ++ [record]) /\ Decode record = Ok (chaos_event key at_) /\
     (h_accepted h' = h_accepted h \/ h_accepted h' = {[key]} ∪ h_accepted h)).
Proof.
  intros Hk Hh Hmax. unfold Harness_Post. set (body := post_body IsPrint key). pose proof (decode_post IsPrint key Hk) as Hd. fold body in Hd.
  destruct (ServeHTTP err_text body now1 now2 (h_Log h)) as [resp log1] eqn:Es.
  pose proof (ServeHTTP_cases err_text _ _ _ _ _ _ _ Hh ltac:(int_lia) Es) as Hcases. clear Es.
  assert (Hrec : forall record, accepts body now1 now2 record -> Decode record = Ok (chaos_event key now2)).
  { intros record (req & Hr & _ & He). rewrite Hd in Hr. injection Hr as <-. exact (accepted_decodes err_text body (chaos_request key) now2 record Hd He). }
  assert (R : (ls_holds log1 rs /\ resp_status resp <> 202) \/ exists record, ls_holds log1 (rs ++ [record]) /\ accepts body now1 now2 record).
  { destruct Hcases as [(record & -> & Ha & Hl)|[(record & code & detail & -> & Ha & [Hl|Hl])|(code & detail & Hin & _ & -> & _)]];
      [right; exists record; split; [exact Hl|exact Ha]|left; split; [exact Hl|discriminate]|right; exists record; split; [exact Hl|exact Ha]|left].
    split; [exact Hh|]. intros E. rewrite E in Hin. repeat (apply elem_of_cons in Hin as [E'|Hin]; [discriminate|]). by apply elem_of_nil in Hin. }
  clear Hcases Hd. clearbody body.
  destruct d; [destruct (Z.eqb_spec (resp_status resp) 202) as [E|E]|..]; intros [= <- <-]; cbn; (split; [reflexivity|split; [reflexivity|]]).
  - destruct R as [[_ R]|(record & R & Ha)]; [contradiction|]. right. exists record, now2. split; [exact R|split; [exact (Hrec _ Ha)|right; reflexivity]].
  - destruct R as [[R _]|(record & R & Ha)]; [left; split; [exact R|reflexivity]|].
    right. exists record, now2. split; [exact R|split; [exact (Hrec _ Ha)|left; reflexivity]].
  - destruct R as [[R _]|(record & R & Ha)]; [left; split; [exact R|reflexivity]|].
    right. exists record, now2. split; [exact R|split; [exact (Hrec _ Ha)|left; reflexivity]].
  - left. split; [exact Hh|reflexivity].
Qed.

Lemma hstep_post key now1 now2 d status n h h' :
  chaos_key key -> ls_NextOffset (h_Log h) = Ok n -> n < max_int64 ->
  Harness_Post err_text IsPrint key now1 now2 d h = (status, h') ->
  key ∈ h_accepted h' \/ (forall rs, ls_holds (h_Log h) rs -> ls_holds (h_Log h') rs) ->
  harness_inv h -> harness_inv h' /\ h_DB h' = h_DB h.
Proof.
  intros Hk Hn Hmax Hp Htrace (rs & m & Hh & Hl & Hb & Hpl). rewrite (ls_NextOffset_law _ rs Hh) in Hn. injection Hn as <-.
  destruct (Post_cases _ _ _ _ _ _ _ _ Hk Hh Hmax Hp) as (Ed & Ep & R). clear Hp. split; [|exact Ed]. unfold harness_inv. rewrite Ed, Ep.
  destruct R as [[R ->]|(record & at_ & R & Hd & Ha)]; [exists rs, m; auto|].
  assert (Hin : key ∈ h_accepted h' -> usage_inv (rs ++ [record]) (h_accepted h')).
  { intros Hin. apply (usage_inv_app rs record (h_accepted h)); [exact Hl|destruct Ha as [->| ->]; set_solver|exact Hmax|by exists key, at_|].
    intros key' Hkey'. destruct (decide (key' = key)) as [->|]; [right; by exists at_|left]. destruct Ha as [Ha|Ha]; rewrite Ha in Hkey'; set_solver. }
  destruct Htrace as [Htrace|Htrace].
  - exists (rs ++ [record]), m. split; [exact R|]. split; [by apply Hin|]. split; [by apply billing_inv_app|exact Hpl].
  - specialize (Htrace rs Hh). destruct (decide (key ∈ h_accepted h')) as [Hy|Hno].
    + exists (rs ++ [record]), m. split; [exact R|]. split; [by apply Hin|]. split; [by apply billing_inv_app|exact Hpl].
    + exists rs, m. assert (h_accepted h' = h_accepted h) as -> by (destruct Ha as [?|Ha]; [done|set_solver]). auto.
Qed.

Lemma hstep_duplicate offset n h : 0 <= offset -> ls_NextOffset (h_Log h) = Ok n -> n < max_int64 ->
  harness_inv h -> harness_inv (AppendDuplicate offset h).
Proof.
  intros Ho Hn Hmax (rs & m & Hh & Hl & Hb & Hpl). rewrite (ls_NextOffset_law _ rs Hh) in Hn. injection Hn as <-. unfold AppendDuplicate.
  destruct (ls_Read offset (h_Log h)) as [r log1] eqn:Er. destruct (ls_Read_law _ _ _ _ _ Hh Er) as (Hh1 & _ & Hrec).
  destruct r as [record|e]; [|exists rs, m; by split_and!]. specialize (Hrec record Ho eq_refl).
  destruct (ls_Append record log1) as [r2 log2] eqn:Ea. pose proof (ls_Append_law _ _ _ _ _ Hh1 ltac:(int_lia) Ea) as La. cbn [snd].
  assert (R : ls_holds log2 rs \/ ls_holds log2 (rs ++ [record])) by (destruct r2; [right; apply La|exact La]).
  destruct R as [R|R]; [exists rs, m; by split_and!|]. exists (rs ++ [record]), m. cbn. split; [done|]. split; [|split; [by apply billing_inv_app|done]].
  apply (usage_inv_app rs record (h_accepted h)); [done|done|done| |auto]. destruct Hl as (_ & F & _). rewrite Forall_forall in F.
  apply F. by eapply list_elem_of_lookup_2.
Qed.

(** Invoices are only added. *)
Definition invoices_kept (db db' : DB) : Prop := exists more, rows (invoices db') = rows (invoices db) ++ more.

#[global] Instance invoices_kept_preorder : PreOrder invoices_kept.
Proof.
  split; [intros db; exists []; by rewrite app_nil_r|]. intros a b c [x E] [y E']. exists (x ++ y). by rewrite E', E, app_assoc.
Qed.

Lemma ingested_kept db db' : ingested db db' -> invoices_kept db db'.
Proof. intros [_ _ [E _] _ _]. exists []. by rewrite app_nil_r. Qed.

Lemma billed_kept plan period inv db db' : billed plan period inv db db' -> invoices_kept db db'.
Proof. intros (items & trs & t & rec & _ & _ & _ & _ & _ & _ & _ & [_ _ _ I4 _ _ _ _] & _). by eexists. Qed.

(** The state of a drain: the log, the tables and the rest of the schedule. *)
Definition draining (rs : list (list byte)) (db0 : DB) (log : L) (srv : server) : Prop :=
  ls_holds log rs /\ Forall (quiet_for same_rows) (srv_sched srv) /\ (exists n, billing_inv rs n (srv_db srv)) /\ ingested db0 (srv_db srv).

Lemma chaos_batch : 0 < c_BatchSize chaos_consumer <= max_int64.
Proof. vm_compute. split; [reflexivity|discriminate]. Qed.

Lemma Drain_keeps accepted rs db0 clock fuel log srv r log' srv' : usage_inv rs accepted -> draining rs db0 log srv ->
  Drain chaos_consumer clock fuel log srv = (r, (log', srv')) ->
  draining rs db0 log' srv' /\ ((0 < fuel)%nat -> (length (srv_sched srv') <= pred (length (srv_sched srv)))%nat).
Proof.
  intros (Hl & F & _) (Hh & Hq & [n Hb] & I0) Hd.
  destruct (drain_loop_spec chaos_consumer clock rs Hl chaos_batch n fuel zero_stats log srv r log' srv' Hh (quiet_rows_view _ _ Hq)
    (bi_consumed _ _ _ Hb) Hd) as (Hh' & _ & Hc' & _).
  destruct (drain_loop_grows chaos_consumer clock fuel zero_stats log srv r log' srv' Hq Hd) as [(Q & I & _) N].
  split; [|exact N]. split; [exact Hh'|]. split; [exact Q|]. split; [eexists; by eapply billing_inv_ingested|by etrans].
Qed.

Lemma caught_up_keeps rs db0 log srv r srv' : draining rs db0 log srv -> caught_up log srv = (r, srv') ->
  draining rs db0 log srv' /\ (length (srv_sched srv') <= length (srv_sched srv))%nat.
Proof.
  clear IsPrint.
  intros (Hh & Hq & [n Hb] & I0). unfold caught_up. destruct (Consumer_NextOffset chaos_consumer srv) as [rn srv1] eqn:En.
  destruct (NextOffset_grows chaos_consumer srv rn srv1 Hq En) as (G & V & N). intros E.
  assert (srv' = srv1) as -> by (destruct rn; [destruct (ls_NextOffset log)|]; congruence). split; [|lia].
  split; [done|]. split; [apply G|]. split; [exists n; by eapply billing_inv_same|]. etrans; [exact I0|apply G].
Qed.

Lemma drain_attempts_keeps accepted rs db0 attempts fuel clock log srv ok log' srv' : usage_inv rs accepted -> draining rs db0 log srv ->
  drain_attempts err_text attempts fuel clock log srv = (ok, (log', srv')) -> draining rs db0 log' srv'.
Proof.
  intros Hl. revert log srv. induction attempts as [|attempts IH]; intros log srv Hi; cbn [drain_attempts]; [by intros [= <- <- <-]|].
  destruct (Drain _ _ _ _ _) as [r [log1 srv1]] eqn:Ed. pose proof (Drain_keeps _ _ _ _ _ _ _ _ _ _ Hl Hi Ed) as [Hi1 _].
  destruct r as [[stats [e|]]|]; try by apply IH. destruct (caught_up log1 srv1) as [rc srv2] eqn:Ec.
  pose proof (caught_up_keeps _ _ _ _ _ _ Hi1 Ec) as [Hi2 _]. destruct rc as [[]|]; try by apply IH. by intros [= <- <- <-].
Qed.

Lemma draining_inv rs log srv h : draining rs (h_DB h) log srv -> usage_inv rs (h_accepted h) -> h_Plan h = chaos_plan ->
  harness_inv (with_DB (with_Log h log) (srv_db srv)) /\ invoices_kept (h_DB h) (srv_db srv).
Proof. intros (Hh & _ & [n Hb] & I) Hl Hp. split; [|by apply ingested_kept]. exists rs, n. by split_and!. Qed.

(** One statement that moves the offset back, or none. *)
Lemma rewind_inv rs n to sched db r srv : 0 <= to -> Forall (quiet_for same_rows) sched -> billing_inv rs n db ->
  db_exec (rewindOffset to) (mkServer db sched) = (r, srv) -> billing_inv rs n (srv_db srv) /\ ingested db (srv_db srv).
Proof.
  intros Hto Hq Hb E. destruct (db_exec_inv same_rows ltac:(reflexivity) _ (mkServer db sched) _ _ Hq E) as (_ & (db1 & V & D) & _). cbn [srv_db] in V.
  pose proof (billing_inv_same _ _ _ _ V Hb) as Hb1. pose proof (same_rows_ingested _ _ V) as I1.
  assert (R : forall a db', rewindOffset to db1 = Ok (a, db') -> billing_inv rs n db' /\ ingested db db').
  { intros a db'. unfold rewindOffset. destruct (max_int64 <? to); [done|]. intros [= _ <-]. destruct Hb1 as [(Hp & Hn & Hc) O B P].
    assert (I2 : ingested db1 (set_offsets (alter (fun '(next, at_) => (Z.min next to, at_)) "billing"%string (consumer_offsets db1)) db1)).
    { split; try (change (same_ledger db1 db1)); try reflexivity. by apply no_events. }
    split; [|by etrans]. split; [|split; [eapply ledger_inv_ledger; [apply I2|apply O]|apply O]|by eapply books_ingested|by eapply periods_ingested].
    split; [|split; [done|exact Hc]].
    unfold position in *. cbn. rewrite lookup_alter_eq. destruct (consumer_offsets db1 !! _) as [[next at_]|]; cbn in *; lia. }
  destruct r as [a|e]; [by eapply R|]. destruct D as [->|[a D]]; [done|by eapply R].
Qed.

Lemma periodEnd_stored : timestamptz periodEnd = periodEnd.
Proof. apply timestamptz_exact. vm_compute. reflexivity. Qed.

Lemma period_inv rs n now sched db r srv : Forall (quiet_for same_rows) sched -> billing_inv rs n db ->
  EnsurePeriod now Tenant PeriodLabel periodStart periodEnd (mkServer db sched) = (r, srv) ->
  billing_inv rs n (srv_db srv) /\ invoices_kept db (srv_db srv).
Proof.
  intros Hq Hb. unfold EnsurePeriod. destruct (negb _); [intros [= _ <-]; by split|]. destruct (decide _); [intros [= _ <-]; by split|].
  unfold mbind, ST_bind, in_inv. set (q := ensurePeriod _ _ _ _ _). destruct (db_exec q (mkServer db sched)) as [r1 srv1] eqn:E.
  destruct (db_exec_inv same_rows ltac:(reflexivity) _ (mkServer db sched) _ _ Hq E) as (_ & (db1 & V & D) & _). cbn [srv_db] in V. clear E.
  pose proof (billing_inv_same _ _ _ _ V Hb) as Hb1. pose proof (ingested_kept _ _ (same_rows_ingested _ _ V)) as K1.
  assert (R : forall a db', q db1 = Ok (a, db') -> billing_inv rs n db' /\ invoices_kept db db').
  { intros a db'. unfold q, ensurePeriod. destruct (negb _); [done|]. destruct (_ <=? _); [done|]. destruct Hb1 as [C O [B1 B2 B3 B4 B5 B6 B7 B8] P].
    assert (Z' : forall t, Forall (fun r => bp_tenant_id r = Tenant /\ bp_ends_at r = periodEnd) (rows t) ->
      billing_inv rs n (set_periods t db1) /\ invoices_kept db (set_periods t db1)).
    { intros t Ht. split; [|exact K1]. split; [exact C| |by split|exact Ht]. split; [|apply O].
      eapply ledger_inv_ledger; [|apply O]. change (same_ledger db1 db1). reflexivity. }
    destruct (List.find _ _) as [row|]; cbn [table_insert]; intros [= <- <-]; apply Z'; cbn [table_skip rows]; [exact P|].
    apply Forall_app. split; [exact P|]. repeat constructor. cbn. apply periodEnd_stored. }
  assert (R' : billing_inv rs n (srv_db srv1) /\ invoices_kept db (srv_db srv1)).
  { destruct r1 as [a|e]; [by eapply R|]. destruct D as [->|[a D]]; [done|by eapply R]. }
  destruct r1 as [row|e]; intros [= _ <-]; exact R'.
Qed.

(** Closing: no rows change, or one invoice is issued. *)
Lemma Close_keeps rs n registry now periodID plan srv r srv' :
  Forall (quiet_for same_rows) (srv_sched srv) -> billing_inv rs n (srv_db srv) -> Close registry now periodID plan srv = (r, srv') ->
  Forall (quiet_for same_rows) (srv_sched srv') /\ billing_inv rs n (srv_db srv') /\ invoices_kept (srv_db srv) (srv_db srv').
Proof.
  intros Hq Hb E. destruct (Close_spec registry now periodID plan srv r srv' Hq (bi_ok _ _ _ Hb) E) as (Q & Lg & R). split; [exact Q|].
  assert (Hs : same_rows (srv_db srv) (srv_db srv') -> billing_inv rs n (srv_db srv') /\ invoices_kept (srv_db srv) (srv_db srv')).
  { intros V. split; [by eapply billing_inv_same|by apply ingested_kept, same_rows_ingested]. }
  assert (Hbill : forall period inv, billed plan period inv (srv_db srv) (srv_db srv') ->
    billing_inv rs n (srv_db srv') /\ invoices_kept (srv_db srv) (srv_db srv')).
  { intros period inv Hi. split; [by eapply billing_inv_billed|by eapply billed_kept]. }
  destruct r as [inv|inv|e].
  - destruct R as (period & _ & _ & Hi & _). by eapply Hbill.
  - apply Hs, R.
  - destruct R as [V|(period & inv & _ & _ & Hi)]; [by apply Hs|by eapply Hbill].
Qed.

Lemma close_attempts_keeps rs n attempts registry now periodID plan srv inv srv' :
  Forall (quiet_for same_rows) (srv_sched srv) -> billing_inv rs n (srv_db srv) ->
  close_attempts attempts now periodID registry plan srv = (inv, srv') ->
  billing_inv rs n (srv_db srv') /\ invoices_kept (srv_db srv) (srv_db srv').
Proof.
  revert srv. induction attempts as [|attempts IH]; intros srv Hq Hb; cbn [close_attempts]; [intros [= _ <-]; by split|].
  destruct (Close registry now periodID plan srv) as [r srv1] eqn:Ec. destruct (Close_keeps _ _ _ _ _ _ _ _ _ Hq Hb Ec) as (Q1 & B1 & K1).
  destruct r as [i|i|e]; [intros [= _ <-]; by split..|]. intros E. destruct (IH srv1 Q1 B1 E) as [B2 K2]. split; [done|by etrans].
Qed.

Lemma hstep_drain fuel clock sched r log srv h : Forall (quiet_for same_rows) sched ->
  Drain chaos_consumer clock fuel (h_Log h) (mkServer (h_DB h) sched) = (r, (log, srv)) ->
  harness_inv h -> harness_inv (with_DB (with_Log h log) (srv_db srv)) /\ invoices_kept (h_DB h) (srv_db srv).
Proof.
  intros Hq Hd (rs & n & Hh & Hl & Hb & Hpl). apply (draining_inv rs); [|done|done].
  eapply Drain_keeps; [exact Hl| |exact Hd]. split; [done|]. split; [done|]. split; [by exists n|reflexivity].
Qed.

(** [DrainFully] and [CloseWithRetries], in terms of their attempts. *)
Lemma DrainFully_attempts fuel clock sched ok h h' : DrainFully err_text fuel clock sched h = (ok, h') ->
  exists log srv,
    drain_attempts err_text 60 fuel clock (h_Log h) (mkServer (h_DB h) sched) = (ok, (log, srv)) /\ h' = with_DB (with_Log h log) (srv_db srv).
Proof.
  unfold DrainFully. generalize 60%nat. intros attempts. destruct (drain_attempts _ attempts _ _ _ _) as [ok' [log srv]] eqn:E.
  intros [= <- <-]. exists log, srv. split; reflexivity.
Qed.

Lemma hstep_drain_fully fuel clock sched ok h h' : Forall (quiet_for same_rows) sched ->
  DrainFully err_text fuel clock sched h = (ok, h') -> harness_inv h -> harness_inv h' /\ invoices_kept (h_DB h) (h_DB h').
Proof.
  intros Hq (log & srv & Ed & ->)%DrainFully_attempts (rs & n & Hh & Hl & Hb & Hpl). apply (draining_inv rs); [|done|done].
  eapply drain_attempts_keeps; [exact Hl| |exact Ed]. split; [done|]. split; [done|]. split; [by exists n|reflexivity].
Qed.

Lemma with_DB_inv h db rs n : ls_holds (h_Log h) rs -> usage_inv rs (h_accepted h) -> h_Plan h = chaos_plan -> billing_inv rs n db ->
  harness_inv (with_DB h db).
Proof. intros. exists rs, n. by split_and!. Qed.

Lemma hstep_kill sched h : Forall (quiet_for same_rows) sched -> harness_inv h ->
  harness_inv (KillDatabaseConnections sched h) /\ invoices_kept (h_DB h) (h_DB (KillDatabaseConnections sched h)).
Proof.
  intros Hq (rs & n & Hh & Hl & Hb & Hpl). unfold KillDatabaseConnections.
  destruct (db_exec terminateBackends (mkServer (h_DB h) sched)) as [r srv] eqn:E. cbn [snd].
  destruct (db_exec_inv same_rows ltac:(reflexivity) _ (mkServer (h_DB h) sched) _ _ Hq E) as (_ & (db1 & V & D) & _). cbn [srv_db] in V.
  assert (srv_db srv = db1) as -> by (unfold terminateBackends in D; destruct r; [congruence|destruct D as [D|[a D]]; congruence]).
  split; [|by apply ingested_kept, same_rows_ingested]. eapply with_DB_inv; [done..|]. by eapply billing_inv_same.
Qed.

Lemma hstep_rewind to sched h : 0 <= to -> Forall (quiet_for same_rows) sched -> harness_inv h ->
  harness_inv (RewindConsumer to sched h) /\ invoices_kept (h_DB h) (h_DB (RewindConsumer to sched h)).
Proof.
  intros Hto Hq (rs & n & Hh & Hl & Hb & Hpl). unfold RewindConsumer. destruct (db_exec _ _) as [r srv] eqn:E. cbn [snd].
  destruct (rewind_inv _ _ _ _ _ _ _ Hto Hq Hb E) as [Hb' I]. split; [by eapply with_DB_inv|by apply ingested_kept].
Qed.

Lemma hstep_period now sched period h h' : Forall (quiet_for same_rows) sched -> Harness_EnsurePeriod now sched h = (period, h') ->
  harness_inv h -> harness_inv h' /\ invoices_kept (h_DB h) (h_DB h').
Proof.
  intros Hq Hp (rs & n & Hh & Hl & Hb & Hpl). unfold Harness_EnsurePeriod in Hp.
  destruct (EnsurePeriod _ _ _ _ _ _) as [r srv] eqn:E. destruct (period_inv _ _ _ _ _ _ _ Hq Hb E) as [Hb' K].
  assert (h' = with_DB h (srv_db srv)) as -> by (destruct r; congruence). split; [by eapply with_DB_inv|exact K].
Qed.

Lemma hstep_close now periodID sched inv h h' : Forall (quiet_for same_rows) sched -> CloseWithRetries now periodID sched h = (inv, h') ->
  harness_inv h -> harness_inv h' /\ invoices_kept (h_DB h) (h_DB h').
Proof.
  intros Hq Hc (rs & n & Hh & Hl & Hb & Hpl). unfold CloseWithRetries in Hc. destruct (close_attempts _ _ _ _ _ _) as [i srv] eqn:E.
  injection Hc as _ <-. destruct (close_attempts_keeps _ _ _ _ _ _ _ (mkServer (h_DB h) sched) _ _ Hq Hb E) as [Hb' K].
  split; [by eapply with_DB_inv|exact K].
Qed.

Lemma hstep_inv h h' : hstep h h' -> harness_inv h -> harness_inv h' /\ invoices_kept (h_DB h) (h_DB h').
Proof.
  destruct 1 as [key now1 now2 d status n h h' Hk Hn Hmax Hp Ht|fuel clock sched r log srv h Hq Hd|fuel clock sched ok h h' Hq Hd
    |sched h Hq|to sched h Hto Hq|offset n h Ho Hn Hmax|now sched period h h' Hq Hp|now periodID sched inv h h' Hq Hc]; intros Hi.
  - destruct (hstep_post _ _ _ _ _ _ _ _ Hk Hn Hmax Hp Ht Hi) as [Hi' ->]. split; [exact Hi'|reflexivity].
  - by eapply hstep_drain.
  - by eapply hstep_drain_fully.
  - by apply hstep_kill.
  - by apply hstep_rewind.
  - split; [by eapply hstep_duplicate|]. unfold AppendDuplicate. destruct (ls_Read offset (h_Log h)) as [[]]; reflexivity.
  - by eapply hstep_period.
  - by eapply hstep_close.
Qed.

Lemma hsteps_inv h h' : rtc hstep h h' -> harness_inv h -> harness_inv h' /\ invoices_kept (h_DB h) (h_DB h').
Proof.
  induction 1 as [h|h1 h2 h3 Hs _ IH]; intros Hi; [split; [done|reflexivity]|]. destruct (hstep_inv _ _ Hs Hi) as [Hi2 K].
  destruct (IH Hi2) as [Hi3 K']. split; [done|by etrans].
Qed.

(** A new harness over empty tables and an empty log. *)
Lemma empty_books : billing_inv [] 0 empty_db.
Proof.
  split; [apply consumed_empty| |split; first [exact NoDup_nil_2|exact (Forall_nil_2 _)]|exact (Forall_nil_2 _)].
  split; [by apply ledger_inv_fresh|split; exact (Forall_nil_2 _)].
Qed.

Lemma NewHarness_inv log h : ls_holds log [] -> NewHarness empty_db log = Some h -> harness_inv h.
Proof.
  intros Hh E. exists [], 0%nat.
  assert (Hp : (h_DB h, h_Log h, h_accepted h, h_Plan h) = (empty_db, log, ∅, chaos_plan)).
  { unfold NewHarness in E. destruct (NewRegistry _) as [registry|]; [|discriminate E].
    assert (P : ParseAmount UnitPrice = Ok 10000) by (vm_compute; reflexivity). rewrite P in E. injection E as <-. reflexivity. }
  clear E. injection Hp as -> -> -> ->. split; [exact Hh|]. split; [|split; [exact empty_books|reflexivity]].
  split; [cbn; unfold max_int64; lia|]. split; [constructor|]. intros key Hk. by apply not_elem_of_empty in Hk.
Qed.

End Machine.
