(* ===== verification/ChaosChecks.v ===== *)
(** * What the chaos suite's checks find

    In every state the harness can reach the checks of [chaos/invariants.go] pass,
    invoices stay as they were issued, draining outlasts its faults, and the
    invoice agrees with the acknowledged keys to the cent. *)

From S2P Require Import Prelude Decimal Amount Quantity Ledger Pricing Bytes Unicode Json Record LogSpec GoTime TimeText Event EventJson Validate Instances Handler DB Consumer Store Invoicing System Chaos Books ChaosProof.

(** ** Lemmas: checks *)

(** The check could not be made. *)
Definition could_not (v : Violation) : Prop := exists why, vi_Detail v = "could not " +:+ why.

Section Reading.
Variable db : DB.

(** On the tables of [db] the statement reads [a]. *)
Definition reads {A} (q : stmt A) (a : A) : Prop := forall db', same_rows db db' -> q db' = Ok (a, db').

(** A computation that reads: it leaves every row, and uses only its schedule. *)
Definition looks (srv srv' : server) : Prop :=
  Forall (quiet_for same_rows) (srv_sched srv') /\ same_rows db (srv_db srv') /\ (srv_sched srv = [] -> srv_sched srv' = []).

Definition ready (srv : server) : Prop := Forall (quiet_for same_rows) (srv_sched srv) /\ same_rows db (srv_db srv).

Lemma looks_trans srv1 srv2 srv3 : looks srv1 srv2 -> looks srv2 srv3 -> looks srv1 srv3.
Proof. intros (_ & _ & C) (Q & V & C'). split; [done|]. split; [done|auto]. Qed.

Lemma looks_ready srv srv' : looks srv srv' -> ready srv'.
Proof. intros (Q & V & _). by split. Qed.

Lemma db_read {A} (q : stmt A) a srv r srv' : reads q a -> ready srv -> db_exec q srv = (r, srv') ->
  looks srv srv' /\ match r with Ok x => x = a | Err _ => srv_sched srv <> [] end.
Proof.
  intros Hr [Hq V0] E. destruct (db_exec_inv same_rows ltac:(reflexivity) q srv r srv' Hq E) as (Q & (db1 & V & D) & C).
  assert (R1 : q db1 = Ok (a, db1)) by (apply Hr; by etrans). rewrite R1 in D.
  assert (srv_db srv' = db1 /\ match r with Ok x => x = a | Err _ => True end) as [E1 E2].
  { destruct r as [x|e]; [by injection D as <- <-|]. destruct D as [D|[x D]]; [done|by injection D as <- <-]. }
  split; [split; [done|split; [rewrite E1; by etrans|intros Es; by destruct (C Es)]]|]. destruct r as [x|e]; [done|].
  intros Es. destruct (C Es) as [_ C']. by rewrite Hr in C'.
Qed.

Definition passes (check : server -> option Violation * server) : Prop :=
  forall srv r srv', ready srv -> check srv = (r, srv') ->
  looks srv srv' /\ match r with Some v => could_not v /\ srv_sched srv <> [] | None => True end.

Lemma run_checks_pass checks srv vs srv' : Forall passes checks -> ready srv -> run_checks checks srv = (vs, srv') ->
  Forall could_not vs /\ (srv_sched srv = [] -> vs = []).
Proof.
  intros F. revert srv vs srv'. induction F as [|check checks Hc _ IH]; intros srv vs srv' Hr; cbn [run_checks]; [by intros [= <- _]|].
  destruct (check srv) as [v srv1] eqn:E1. destruct (Hc _ _ _ Hr E1) as [K1 P1]. destruct (run_checks checks srv1) as [vs1 srv2] eqn:E2.
  destruct (IH _ _ _ (looks_ready _ _ K1) E2) as [P2 N2]. intros [= <- _]. pose proof K1 as (_ & _ & C1). destruct v as [v|].
  - destruct P1 as [P1 N1]. split; [by constructor|done].
  - split; [done|auto].
Qed.

End Reading.

Section Checks.
Context {L : Type} `{LogStore L} `{Postgres}.
Variable err_text : list byte -> json_err -> string.
Variable db_text : db_err -> string.
Variable store_text : store_err -> string.
Variable consumer_text : consumer_err -> string.
Variable IsPrint : Z -> bool.

#[local] Instance codec : EventCodec := json_EventCodec err_text.

Section State.
Variable h : Harness L.
Variable rs : list (list byte).
Variable n : nat.
Hypothesis Hlog : ls_holds (h_Log h) rs.
Hypothesis Hinv : usage_inv err_text rs (h_accepted h).
Hypothesis Hbill : billing_inv err_text rs n (h_DB h).

Lemma MoneyConserved_passes : passes (h_DB h) (CheckMoneyConserved store_text).
Proof.
  intros srv r srv' Hr. unfold CheckMoneyConserved, TrialBalance, in_store. destruct (db_exec selectTrialBalance srv) as [r1 srv1] eqn:E.
  apply (db_read (h_DB h) selectTrialBalance 0) in E as [K P]; [|clear E; intros db' V|done]; cycle 1.
  { unfold selectTrialBalance. rewrite (trial_zero db'); [done|]. eapply ledger_inv_same; [exact V|]. apply (bi_ok _ _ _ _ Hbill). }
  destruct r1 as [total|e]; intros [= <- <-]; (split; [done|]); [by subst total|]. split; [by eexists|done].
Qed.

Lemma events_of_accepted : (length (rows (events (h_DB h))) <= size (h_accepted h))%nat.
Proof.
  destruct Hinv as (_ & F & _). pose proof (consumed_rows _ _ _ _ _ (bi_consumed _ _ _ _ Hbill) F) as Hrows.
  rewrite <- (length_map er_idempotency_key), <- (size_list_to_set (C := gset string)) by by eapply consumed_keys; [apply Hbill|].
  apply subseteq_size. intros key [r [-> Hr]]%elem_of_list_to_set%list_elem_of_fmap. rewrite Forall_forall in Hrows. by apply Hrows.
Qed.

Lemma NoDoubleBilling_passes : passes (h_DB h) (CheckNoDoubleBilling db_text h).
Proof.
  intros srv r srv' Hr. unfold CheckNoDoubleBilling. destruct (db_exec countEvents srv) as [r1 srv1] eqn:E.
  apply (db_read (h_DB h) countEvents (Z.of_nat (length (rows (events (h_DB h)))))) in E as [K P]; [| |done]; cycle 1.
  { intros db' [_ ([V _] & _)]. unfold countEvents. by rewrite V. }
  destruct r1 as [count|e]; intros [= <- <-]; (split; [done|]); [|by split; [eexists|]]. subst count. pose proof events_of_accepted.
  unfold AcceptedCount. rewrite (proj2 (Z.ltb_ge _ _)) by lia. done.
Qed.

(** The consumer's position is the log's length only when all of it is consumed. *)
Lemma CaughtUp_looks srv r srv' : ready (h_DB h) srv -> CaughtUp h srv = (r, srv') ->
  looks (h_DB h) srv srv' /\
  match r with Ok b => b = (Z.of_nat (length rs) <=? position "billing" (h_DB h)) | Err _ => srv_sched srv <> [] end.
Proof.
  intros [Hq V0]. unfold CaughtUp, caught_up. rewrite (ls_NextOffset_law _ rs Hlog).
  destruct (Consumer_NextOffset chaos_consumer srv) as [rn srv1] eqn:En. pose proof (proj2 (same_rows_view "billing" _ _ V0)) as Hp.
  pose proof (bi_consumed _ _ _ _ Hbill) as (Hb1 & Hb2 & _). destruct Hinv as (Hl & _).
  destruct (Consumer_NextOffset_spec chaos_consumer (fun _ => 0) rs srv rn srv1 (quiet_rows_view _ _ Hq) ltac:(change (c_name chaos_consumer) with "billing"%string; lia) En)
    as (_ & _ & Hn & C). destruct (NextOffset_grows chaos_consumer srv rn srv1 Hq En) as ((Q & _) & V & _).
  assert (K : looks (h_DB h) srv srv1) by (split; [done|split; [by etrans|intros E; by apply C]]).
  destruct rn as [next|e]; intros [= <- <-]; (split; [done|]).
  - change (c_name chaos_consumer) with "billing"%string in Hn. by rewrite Hn, Hp.
  - intros E. destruct (C E) as [_ C']. destruct chaos_texts as (_ & _ & Ht). by specialize (C' Ht).
Qed.

Lemma look_up_passes keys srv r srv' : n = length rs -> Forall (fun key => key ∈ h_accepted h) keys -> ready (h_DB h) srv ->
  look_up_keys db_text IsPrint keys srv = (r, srv') ->
  looks (h_DB h) srv srv' /\ match r with Some v => could_not v /\ srv_sched srv <> [] | None => True end.
Proof.
  intros Hn F. revert srv. induction F as [|key keys Hk _ IH]; intros srv Hr; cbn [look_up_keys].
  { intros [= <- <-]. split; [|done]. destruct Hr. by split. }
  destruct Hinv as (_ & Frec & Hkeys). destruct (Hkeys key Hk) as (i & record & at_ & Hrec & Hdec).
  destruct (consumed_stored _ _ _ _ _ _ _ _ _ (bi_consumed _ _ _ _ Hbill) Frec ltac:(rewrite Hn; by eapply lookup_lt_Some) Hrec Hdec) as (row & Hin & Hrow).
  set (found := List.filter (fun r => bool_decide (er_idempotency_key r = key)) (rows (events (h_DB h)))).
  set (dead := List.filter (fun r => bool_decide (dl_idempotency_key r = Some key)) (rows (dead_letters (h_DB h)))).
  destruct (db_exec (countKey key) srv) as [r1 srv1] eqn:E.
  apply (db_read (h_DB h) (countKey key) (Z.of_nat (length found) + Z.of_nat (length dead))) in E as [K P]; [| |done]; cycle 1.
  { intros db' [_ ([Ve _] & _ & [Vd _] & _)]. unfold countKey. rewrite Ve, Vd. rewrite Forall_forall in Frec.
    destruct (Frec record) as (key' & at' & _ & Hk' & Hd'); [by eapply list_elem_of_lookup_2|]. 
    pose proof (f_equal (fun r => match r with Ok e => ev_IdempotencyKey e | Err _ => Tenant end) (eq_trans (eq_sym Hdec) Hd')) as E'.
    change (key = key') in E'. subst key'. by rewrite (chaos_key_text key Hk'). }
  assert (Hpos : (0 < length found)%nat).
  { assert (row ∈ found) as Hf; [|destruct found; [by apply elem_of_nil in Hf|cbn; lia]].
    apply list_elem_of_In, List.filter_In. split; [by apply list_elem_of_In|by apply bool_decide_eq_true_2]. }
  destruct r1 as [count|e]; [|intros [= <- <-]; split; [done|]; split; [by eexists|done]]. subst count.
  rewrite (proj2 (Z.eqb_neq _ _)) by lia. intros E. destruct (IH srv1 (looks_ready _ _ _ K) E) as [K' P']. split; [by eapply looks_trans|].
  destruct r as [v|]; [|done]. destruct P' as [P' N]. split; [done|]. pose proof K as (_ & _ & C). auto.
Qed.

Lemma NothingSilentlyLost_passes : passes (h_DB h) (CheckNothingSilentlyLost db_text consumer_text IsPrint h).
Proof.
  intros srv r srv' Hr. unfold CheckNothingSilentlyLost. destruct (CaughtUp h srv) as [rc srv1] eqn:E. destruct (CaughtUp_looks _ _ _ Hr E) as [K P].
  destruct rc as [b|e]; [|intros [= <- <-]; split; [done|]; split; [by eexists|done]].
  destruct (Z.leb_spec (Z.of_nat (length rs)) (position "billing" (h_DB h))); subst b; [|by intros [= <- <-]].
  pose proof (bi_consumed _ _ _ _ Hbill) as (Hp & Hn & _). intros El.
  destruct (look_up_passes _ _ _ _ ltac:(lia) ltac:(apply Forall_forall; intros key; apply elem_of_elements) (looks_ready _ _ _ K) El) as [K' P'].
  split; [by eapply looks_trans|]. destruct r as [v|]; [|done]. destruct P' as [P' N]. split; [done|]. pose proof K as (_ & _ & C). auto.
Qed.

Lemma BilledAtMostOnce_passes : passes (h_DB h) (CheckEventsBilledAtMostOnce db_text).
Proof.
  intros srv r srv' Hr. pose proof (bi_books _ _ _ _ Hbill) as [B1 _ _ _ B5 _ _ _]. unfold CheckEventsBilledAtMostOnce.
  destruct (db_exec countOrphaned srv) as [r1 srv1] eqn:E1. apply (db_read (h_DB h) countOrphaned 0) in E1 as [K1 P1]; [| |done]; cycle 1.
  { intros db' [_ ([Ve _] & _ & _ & _ & [Vi _] & _)]. unfold countOrphaned. rewrite Ve, Vi, filter_none; [done|].
    eapply Forall_impl; [exact B1|]. cbn. intros r0 Hb. destruct (er_invoice_id r0) as [id|]; [|done]. apply negb_false_iff, existsb_exists.
    destruct (proj1 (list_elem_of_fmap _ _ _) (Hb id eq_refl)) as (i & -> & Hi). exists i. split; [by apply list_elem_of_In|lia]. }
  destruct r1 as [count|e]; [|intros [= <- <-]; split; [done|]; split; [by eexists|done]]. subst count. cbn [Z.eqb negb].
  destruct (db_exec countMismatched srv1) as [r2 srv2] eqn:E2. apply (db_read (h_DB h) countMismatched 0) in E2 as [K2 P2]; [| |by eapply looks_ready]; cycle 1.
  { intros db' [_ (_ & _ & _ & _ & [Vi _] & [Vl _])]. unfold countMismatched. rewrite Vi, filter_none; [done|].
    eapply Forall_impl; [exact B5|]. cbn. intros i Hi. unfold line_sum in *. rewrite Vl. lia. }
  destruct r2 as [count|e]; intros [= <- <-]; (split; [by eapply looks_trans|]); [by subst count|]. split; [by eexists|].
  pose proof K1 as (_ & _ & C). auto.
Qed.

End State.

(** ** Lemmas: snapshots *)

Definition snapshot_of (invs : list invoice_row) : gmap Z Z :=
  fold_left (fun m '(id, total) => <[id := total]> m) (map (fun i => (iv_id i, iv_total i)) invs) ∅.

Lemma fold_insert_notin (l : list (Z * Z)) (m : gmap Z Z) id : id ∉ map fst l ->
  fold_left (fun m '(id, total) => <[id := total]> m) l m !! id = m !! id.
Proof.
  revert m. induction l as [|[id' total] l IH]; intros m; [done|]. cbn [map fold_left fst]. intros [Hne Hn]%not_elem_of_cons.
  rewrite IH by done. by rewrite lookup_insert_ne.
Qed.

Lemma snapshot_lookup (l : list (Z * Z)) (m : gmap Z Z) id total : NoDup (map fst l) ->
  (id, total) ∈ l -> fold_left (fun m '(id, total) => <[id := total]> m) l m !! id = Some total.
Proof.
  revert m. induction l as [|[id' total'] l IH]; intros m Nd Hin; [by apply elem_of_nil in Hin|]. cbn [map fold_left fst] in *.
  apply NoDup_cons in Nd as [Hn Nd]. apply elem_of_cons in Hin as [[= -> ->]|Hin]; [|by apply IH].
  rewrite fold_insert_notin by done. apply lookup_insert_eq.
Qed.

Lemma snapshot_in (l : list (Z * Z)) (m : gmap Z Z) id total :
  fold_left (fun m '(id, total) => <[id := total]> m) l m !! id = Some total -> (id, total) ∈ l \/ m !! id = Some total.
Proof.
  revert m. induction l as [|[id' total'] l IH]; intros m; cbn [fold_left]; [auto|]. intros [Hin|Hm]%IH; [left; by right|].
  destruct (decide (id = id')) as [->|]; [rewrite lookup_insert_eq in Hm; injection Hm as ->; left; left|].
  rewrite lookup_insert_ne in Hm by done. auto.
Qed.

Lemma compare_invoices_same before (after : gmap Z Z) :
  Forall (fun '(id, total) => after !! id = Some total) before -> compare_invoices before after = None.
Proof. induction 1 as [|[id total] before Hi _ IH]; [done|]. cbn. unfold InvoiceSnapshot in *. by rewrite Hi, Z.eqb_refl. Qed.

(** A snapshot of the invoices is part of every later one. *)
Lemma snapshot_kept invs more : NoDup (map iv_id (invs ++ more)) ->
  Forall (fun '(id, total) => snapshot_of (invs ++ more) !! id = Some total) (map_to_list (snapshot_of invs)).
Proof.
  intros Nd. apply Forall_forall. intros [id total] Hin%elem_of_map_to_list. apply snapshot_in in Hin as [Hin|Hin]; [|done].
  apply snapshot_lookup; [by rewrite map_map|]. rewrite map_app. apply elem_of_app. by left.
Qed.

(** ** Lemmas: draining *)

Lemma drain_attempts_ok accepted rs db0 attempts fuel clock log srv : usage_inv err_text rs accepted -> readable rs ->
  (length rs < fuel)%nat -> (length (srv_sched srv) < attempts)%nat -> draining err_text rs db0 log srv ->
  exists log' srv', drain_attempts err_text attempts fuel clock log srv = (true, (log', srv')) /\
    position "billing" (srv_db srv') = Z.of_nat (length rs) /\ draining err_text rs db0 log' srv'.
Proof.
  clear db_text store_text consumer_text IsPrint.
  intros Hl Hr Hf. revert log srv. induction attempts as [|attempts IH]; intros log srv Ha Hi; [lia|]. cbn [drain_attempts].
  destruct (Drain _ _ _ _ _) as [r [log1 srv1]] eqn:Ed. destruct (Drain_keeps _ _ _ _ _ _ _ _ _ _ _ Hl Hi Ed) as [Hi1 N1].
  specialize (N1 ltac:(lia)). pose proof Hi as (Hh & Hq & [n Hb] & _). pose proof (bi_consumed _ _ _ _ Hb) as Hc.
  destruct (drain_loop_spec chaos_consumer clock rs (proj1 Hl) chaos_batch n fuel zero_stats log srv r log1 srv1 Hh (quiet_rows_view _ _ Hq) Hc Ed)
    as (_ & _ & _ & _ & Hsome & R & Calm). pose proof Hc as (Hp & _).
  assert (Retry : (0 < length (srv_sched srv))%nat -> forall srv2, draining err_text rs db0 log1 srv2 ->
    (length (srv_sched srv2) <= length (srv_sched srv1))%nat ->
    exists log' srv', drain_attempts err_text attempts fuel clock log1 srv2 = (true, (log', srv')) /\
      position "billing" (srv_db srv') = Z.of_nat (length rs) /\ draining err_text rs db0 log' srv').
  { intros Hpos srv2 Hi2 Hle. apply IH; [lia|done]. }
  assert (Now : srv_sched srv = [] -> match r with Some (_, Some _) => False | _ => True end).
  { intros E. apply Calm; [done|done|apply chaos_texts|]. by eapply chaos_consumable; [apply Hl|]. }
  destruct Hsome as [[stats err] ->]; [change (c_name chaos_consumer) with "billing"%string; lia|].
  assert (Pos : err <> None -> (0 < length (srv_sched srv))%nat) by (destruct err; [|done]; destruct (srv_sched srv); [by destruct Now|cbn; lia]).
  destruct err as [e|]; [by apply Retry; [apply Pos| |]|]. destruct R as (R & _). change (c_name chaos_consumer) with "billing"%string in R.
  destruct (caught_up log1 srv1) as [rc srv2] eqn:Ec. destruct (caught_up_keeps err_text rs db0 log1 srv1 rc srv2 Hi1 Ec) as [Hi2 N2].
  pose proof Hi1 as (Hh1 & Hq1 & [n1 Hb1] & _).
  destruct (CaughtUp_looks (mkHarness (srv_db srv1) log1 (mkRegistry ∅) chaos_plan accepted) rs n1 Hh1 Hl Hb1 srv1 rc srv2 ltac:(by split) Ec) as [K P].
  cbn [h_DB] in *. rewrite R, Z.leb_refl in P. destruct rc as [b|e].
  - subst b. exists log1, srv2. split; [done|]. split; [|done]. destruct K as (_ & V & _). by rewrite (proj2 (same_rows_view "billing" _ _ V)).
  - apply Retry; [|done|done]. destruct (srv_sched srv1); [done|]. cbn [length] in N1. lia.
Qed.

(** ** Lemmas: the invoice *)

Lemma one_value {A} (c : A) l : NoDup l -> (forall x, x ∈ l -> x = c) -> l = [] \/ l = [c].
Proof.
  intros Nd Hall. destruct l as [|x [|y l]]; [by left|right; by rewrite (Hall x ltac:(left))|]. exfalso.
  apply NoDup_cons in Nd as [Hx _]. apply Hx. rewrite (Hall x ltac:(left)), (Hall y ltac:(right; left)). left.
Qed.

Lemma sum_const {A} (f : A -> Z) v l : Forall (fun x => f x = v) l -> sumZ (map f l) = v * Z.of_nat (length l).
Proof. induction 1 as [|x l E _ IH]; [cbn; lia|]. cbn [map length]. rewrite sumZ_cons, E, IH. lia. Qed.

Lemma price_of_units k a : multiply (1000000000 * k) 10000 = Ok a -> a = 10000 * k /\ in_int64 a.
Proof.
  intros E. split; [|by eapply multiply_range]. rewrite multiply_checked in E. unfold Pricing.checked in E.
  destruct (in_int64b _); [|done]. injection E as <-. unfold round_half_up, quantityFactor. cases_if; lia.
Qed.

(** Before anything was billed, all of the tenant's usage is due. *)
Lemma all_due accepted rs n db period periodID : Forall (chaos_record err_text accepted) rs -> billing_inv err_text rs n db ->
  rows (invoices db) = [] -> has_period periodID period db -> due period db = rows (events db).
Proof.
  intros F Hb Hi (row & Hin & _ & ->). pose proof (consumed_rows _ _ _ _ _ (bi_consumed _ _ _ _ Hb) F) as Hrows.
  pose proof (bi_periods _ _ _ _ Hb) as Hp. unfold chaos_periods in Hp. rewrite Forall_forall in Hp. destruct (Hp row Hin) as [Ht He].
  pose proof (bk_billed _ (bi_books _ _ _ _ Hb)) as Hbilled. rewrite Hi in Hbilled. unfold due. apply filter_all. cbn [period_of pe_TenantID pe_End].
  rewrite Ht, He. rewrite Forall_forall in *. intros r Hr. destruct (Hrows r Hr) as (R1 & _ & _ & R4 & _). unfold unbilled.
  rewrite R1, R4, periodEnd_stored, (bool_decide_true (Tenant = Tenant)) by done. rewrite bool_decide_true; [done|].
  destruct (er_invoice_id r) as [id|] eqn:E; [|done]. specialize (Hbilled r Hr id E). by apply elem_of_nil in Hbilled.
Qed.

(** The first invoice charges every event row once. *)
Lemma first_total accepted rs n db db' period periodID inv : Forall (chaos_record err_text accepted) rs -> billing_inv err_text rs n db ->
  rows (invoices db) = [] -> has_period periodID period db -> billed chaos_plan period inv db db' ->
  in_Total inv = 10000 * Z.of_nat (length (rows (events db))) /\ in_int64 (in_Total inv).
Proof.
  intros F Hb Hi Hp (items & trs & t & rec & (Nd & Hm & Hr) & Ht & _ & _ & Htr & Hne & _). pose proof (all_due _ _ _ _ _ _ F Hb Hi Hp) as Hdue.
  pose proof (consumed_rows _ _ _ _ _ (bi_consumed _ _ _ _ Hb) F) as Hrows. rewrite Hdue in Hm, Hr.
  destruct (one_value MeterName (map li_Meter items) Nd) as [E|E].
  - intros m [r [-> Hin]]%Hm%list_elem_of_fmap. rewrite Forall_forall in Hrows. by destruct (Hrows r Hin) as (_ & ? & _).
  - apply map_eq_nil in E as ->. by inversion Htr; subst.
  - destruct items as [|i [|]]; try done. injection E as E. apply Forall_cons in Hr as [(Q & price & Hprice & Ha) _]. rewrite E in *.
    injection Hprice as <-. unfold meter_sum in Q. rewrite filter_all in Q.
    + rewrite (sum_const er_quantity 1000000000) in Q; [|eapply Forall_impl; [exact Hrows|]; by intros r (_ & _ & ? & _)].
      rewrite Q in Ha. change (multiply (1000000000 * Z.of_nat (length (rows (events db)))) 10000 = Ok (li_Amount i)) in Ha.
      apply price_of_units in Ha. rewrite Ht. unfold items_total. cbn [map]. rewrite sumZ_cons. cbn. by rewrite Z.add_0_r.
    + eapply Forall_impl; [exact Hrows|]. intros r (_ & -> & _). by apply bool_decide_eq_true_2.
Qed.

(** Through the attempts: nothing billed yet, or the one invoice is there. *)
Definition closing (db0 : DB) (total : Amount) (periodID : Z) (db : DB) : Prop :=
  same_rows db0 db \/
  ((exists row, rows (invoices db) = [row] /\ iv_total row = total) /\
   Forall (fun r => bp_id r = periodID -> bp_state r = Closed) (rows (billing_periods db))).

Lemma billed_closing plan period inv total periodID db0 db db' : rows (invoices db) = [] -> has_period periodID period db ->
  billed plan period inv db db' -> in_Total inv = total -> closing db0 total periodID db'.
Proof.
  intros Hi (prow & _ & Hid & ->) (items & trs & t & rec & _ & _ & _ & _ & _ & _ & _ & [_ _ I3 I4 _ _ _ _] & _) Ht. right. split.
  - rewrite I4, Hi. eexists. split; [reflexivity|done].
  - rewrite I3. apply Forall_map, Forall_forall. intros r _. cbn. rewrite Hid. destruct (Z.eqb_spec (bp_id r) periodID); [done|]. cbn. congruence.
Qed.

Lemma close_attempts_total accepted rs n db0 total attempts registry now periodID srv inv srv' :
  Forall (chaos_record err_text accepted) rs -> billing_inv err_text rs n (srv_db srv) -> rows (invoices db0) = [] ->
  (forall db db' period inv, same_rows db0 db -> has_period periodID period db -> billed chaos_plan period inv db db' -> in_Total inv = total) ->
  Forall (quiet_for same_rows) (srv_sched srv) -> closing db0 total periodID (srv_db srv) ->
  close_attempts attempts now periodID registry chaos_plan srv = (Some inv, srv') -> in_Total inv = total.
Proof.
  intros F Hb H0' Htot. revert srv Hb. induction attempts as [|attempts IH]; intros srv Hb Hq Hc; cbn [close_attempts]; [done|].
  destruct (Close registry now periodID chaos_plan srv) as [r srv1] eqn:E. destruct (Close_spec _ _ _ _ _ _ _ Hq (bi_ok _ _ _ _ Hb) E) as (_ & _ & R).
  destruct (Close_keeps err_text rs n _ _ _ _ _ _ _ Hq Hb E) as (Q1 & Hb1 & _).
  assert (Open' : forall period, has_period periodID period (srv_db srv) -> pe_State period <> Closed -> same_rows db0 (srv_db srv)).
  { intros period (row & Hin & Hid & ->) Hs. destruct Hc as [Hc|[_ Hc]]; [done|]. rewrite Forall_forall in Hc. by destruct (Hs (Hc row Hin Hid)). }
  destruct r as [i|i|e].
  - intros [= <- _]. destruct R as (period & Hp & Hs & Hi & _). exact (Htot _ _ _ _ (Open' _ Hp Hs) Hp Hi).
  - intros [= <- _]. destruct R as (_ & row & Hin & _ & _ & _ & _ & -> & _). destruct Hc as [V|[(row' & Ei & Et) _]].
    + destruct V as [_ (_ & _ & _ & _ & [Vi _] & _)]. rewrite Vi, H0' in Hin. by apply elem_of_nil in Hin.
    + rewrite Ei in Hin. apply list_elem_of_singleton in Hin. by subst row'.
  - apply IH; [done|done|]. destruct R as [V|(period & i & Hp & Hs & Hi)].
    + destruct Hc as [Hc|[Hinv Hper]]; [left; by etrans|right]. destruct V as [_ (_ & _ & _ & [Vp _] & [Vi _] & _)]. by rewrite Vp, Vi.
    + pose proof (Open' _ Hp Hs) as V. eapply billed_closing; [|exact Hp|exact Hi|exact (Htot _ _ _ _ V Hp Hi)].
      destruct V as [_ (_ & _ & _ & _ & [Vi _] & _)]. by rewrite Vi.
Qed.

(** ** Theorems *)

(** The states of a run that starts from empty tables and an empty log. *)
Definition chaos_reachable (h : Harness L) : Prop :=
  exists log0 h0, ls_holds log0 [] /\ NewHarness empty_db log0 = Some h0 /\ rtc (hstep err_text IsPrint) h0 h.

Lemma chaos_reachable_inv h : chaos_reachable h -> harness_inv err_text h.
Proof.
  intros (log0 & h0 & Hl & Hn & Hr). apply (hsteps_inv err_text IsPrint h0 h Hr). by eapply NewHarness_inv.
Qed.

(** C26: the invariants hold together while things fail. After any run of posts,
    drains cut off anywhere, killed connections, rewound offsets, re-delivered
    records and closings, in any order and with any answers of the server, in which
    each post is acknowledged or leaves no trace, [CheckAll] finds no violation when
    the server answers it, and reports nothing but what it could not read when the
    server does not. *)
Theorem CheckAll_passes h :
  chaos_reachable h ->
  (CheckAll db_text store_text consumer_text IsPrint h (mkServer (h_DB h) [])).1 = [] /\
  (forall sched, Forall (quiet_for same_rows) sched ->
     Forall could_not (CheckAll db_text store_text consumer_text IsPrint h (mkServer (h_DB h) sched)).1).
Proof.
  intros (rs & n & Hh & Hl & Hb & _)%chaos_reachable_inv.
  assert (P : forall sched, Forall (quiet_for same_rows) sched ->
    Forall could_not (CheckAll db_text store_text consumer_text IsPrint h (mkServer (h_DB h) sched)).1 /\
    (sched = [] -> (CheckAll db_text store_text consumer_text IsPrint h (mkServer (h_DB h) sched)).1 = [])).
  { intros sched Hq. unfold CheckAll. destruct (run_checks _ _) as [vs srv'] eqn:E. cbn [fst].
    apply (run_checks_pass (h_DB h)) in E; [done| |by split].
    constructor; [by eapply MoneyConserved_passes|]. constructor; [by eapply NoDoubleBilling_passes|].
    constructor; [by eapply NothingSilentlyLost_passes|]. constructor; [by eapply BilledAtMostOnce_passes|constructor]. }
  split; [by apply (P [])|]. intros sched Hq. by apply P.
Qed.

(** An issued invoice never changes: whatever happens after a snapshot of the
    invoices was taken, [CheckInvoicesUnchanged] finds every one of them as it
    was. *)
Theorem invoices_never_change h h' before srv :
  chaos_reachable h -> SnapshotInvoices (mkServer (h_DB h) []) = (Ok before, srv) -> rtc (hstep err_text IsPrint) h h' ->
  (CheckInvoicesUnchanged db_text before (mkServer (h_DB h') [])).1 = None.
Proof.
  intros Hr Hs Hsteps. destruct (hsteps_inv err_text IsPrint h h' Hsteps (chaos_reachable_inv h Hr)) as [(rs & n & _ & _ & Hb & _) [more K]].
  unfold SnapshotInvoices, mbind, ST_bind, mret, ST_ret, db_exec, selectInvoices in Hs. cbn in Hs. injection Hs as <- _.
  apply compare_invoices_same. cbn. rewrite K. apply snapshot_kept. rewrite <- K. apply (bk_ids _ (bi_books _ _ _ _ Hb)).
Qed.

(** C28: draining outlasts its faults. A drain of a readable log that is given 60
    attempts catches up whatever the server does to fewer than 60 statements, and
    the tables then hold the effect of the whole log. *)
Theorem DrainFully_catches_up h fuel clock sched n :
  chaos_reachable h -> ls_NextOffset (h_Log h) = Ok n -> n < Z.of_nat fuel -> (forall rs, ls_holds (h_Log h) rs -> readable rs) ->
  Forall (quiet_for same_rows) sched -> (length sched < 60)%nat ->
  exists h' rs, DrainFully err_text fuel clock sched h = (true, h') /\ (CaughtUp h' (mkServer (h_DB h') [])).1 = Ok true /\
    ls_holds (h_Log h') rs /\ consumed "billing" rs (length rs) (h_DB h').
Proof.
  intros (rs & m & Hh & Hl & Hb & _)%chaos_reachable_inv Hn Hf Hr Hq Hs. rewrite (ls_NextOffset_law _ rs Hh) in Hn. injection Hn as <-.
  destruct (drain_attempts_ok (h_accepted h) rs (h_DB h) 60 fuel clock (h_Log h) (mkServer (h_DB h) sched) Hl (Hr rs Hh) ltac:(lia) Hs)
    as (log' & srv' & E & Hp & Hd); [split; [done|split; [done|split; [by exists m|reflexivity]]]|].
  destruct (DrainFully err_text fuel clock sched h) as [ok h'] eqn:Ed. apply DrainFully_attempts in Ed as (log1 & srv1 & E1 & ->).
  pose proof (eq_trans (eq_sym E1) E) as X. injection X as -> -> ->. eexists _, rs. split; [reflexivity|]. destruct Hd as (Hh' & _ & [m' Hb'] & _).
  destruct (CaughtUp (with_DB (with_Log h log') (srv_db srv')) (mkServer (srv_db srv') [])) as [rc srv2] eqn:Ec.
  destruct (CaughtUp_looks (with_DB (with_Log h log') (srv_db srv')) rs m' Hh' Hl Hb' (mkServer (srv_db srv') []) rc srv2 (conj (Forall_nil_2 _) (reflexivity _)) Ec) as [_ P].
  cbn [with_DB with_Log h_DB] in *. rewrite Hp, Z.leb_refl in P. split.
  { change ((CaughtUp (with_DB (with_Log h log') (srv_db srv')) (mkServer (srv_db srv') [])).1 = Ok true). rewrite Ec. destruct rc as [b|]; [by subst b|done]. }
  split; [exact Hh'|].
  pose proof (bi_consumed _ _ _ _ Hb') as Hc. pose proof Hc as (Hc1 & Hc2 & _). by replace (length rs) with m' by lia.
Qed.

(** C27: the invoice is right to the cent. When every acknowledged event was
    consumed and nothing was billed yet, the invoice that closing returns, after
    however many failed attempts and lost answers, comes to one unit price for each
    key that was acknowledged, the figure the suite computes on its own. *)
Theorem invoice_to_the_cent h srv now periodID sched inv h' :
  chaos_reachable h -> CaughtUp h (mkServer (h_DB h) []) = (Ok true, srv) -> rows (invoices (h_DB h)) = [] ->
  Forall (quiet_for same_rows) sched -> CloseWithRetries now periodID sched h = (Some inv, h') ->
  ExpectedTotal h = Some (in_Total inv).
Proof.
  intros (rs & n & Hh & Hl & Hb & Hpl)%chaos_reachable_inv Hcu Hi Hq Hc. pose proof Hl as (_ & F & Hkeys).
  destruct (CaughtUp_looks h rs n Hh Hl Hb (mkServer (h_DB h) []) (Ok true) srv (conj (Forall_nil_2 _) (reflexivity _)) Hcu) as [_ P]. symmetry in P. apply Z.leb_le in P.
  pose proof (bi_consumed _ _ _ _ Hb) as Hcons. pose proof Hcons as (Hc1 & Hc2 & _). assert (n = length rs) as -> by lia.
  assert (Hsize : length (rows (events (h_DB h))) = size (h_accepted h)).
  { pose proof (consumed_rows _ _ _ _ _ Hcons F) as Hrows. apply Nat.le_antisymm; [by eapply events_of_accepted|].
    rewrite <- (length_map er_idempotency_key), <- (size_list_to_set (C := gset string)) by by eapply consumed_keys.
    apply subseteq_size. intros key Hk. destruct (Hkeys key Hk) as (i & record & at_ & Hrec & Hdec).
    destruct (consumed_stored _ _ _ _ _ _ _ _ _ Hcons F ltac:(by eapply lookup_lt_Some) Hrec Hdec) as (r & Hr & <-).
    apply elem_of_list_to_set. by apply list_elem_of_fmap_2. }
  assert (Htot : forall db db' period i, same_rows (h_DB h) db -> has_period periodID period db -> billed chaos_plan period i db db' ->
    in_Total i = wrap64 (10000 * AcceptedCount h)).
  { intros db db' period i V Hp Hbill. unfold AcceptedCount. rewrite <- Hsize. pose proof V as [_ ([Ve _] & _ & _ & _ & [Vi _] & _)]. rewrite <- Ve.
    destruct (first_total _ _ _ _ _ _ _ _ F (billing_inv_same _ _ _ _ _ V Hb) ltac:(by rewrite Vi) Hp Hbill) as [E R]. rewrite E in *. by rewrite wrap64_id. }
  unfold CloseWithRetries in Hc. destruct (close_attempts _ _ _ _ _ _) as [i srv1] eqn:Ec. injection Hc as -> _. rewrite Hpl in Ec.
  apply (close_attempts_total (h_accepted h) rs (length rs) (h_DB h) (wrap64 (10000 * AcceptedCount h))) in Ec; [|done|done|done|done|done|left; reflexivity].
  rewrite Ec. reflexivity.
Qed.

End Checks.

(** ** Witnesses, over the small instances *)

Section Examples.
#[local] Existing Instance list_LogStore.
#[local] Existing Instance small_Postgres.

Definition no_print (_ : Z) : bool := false.

Definition no_db_text (_ : db_err) : string := "".

Definition no_store_text (_ : store_err) : string := "".

Definition no_consumer_text (_ : consumer_err) : string := "".

Definition harness_example : Harness (list (list byte)) :=
  mkHarness empty_db [] (mkRegistry {[ MeterName := mkMeter MeterName "call" ]}) chaos_plan ∅.

Definition post_example (key : string) (d : delivery) (h : Harness (list (list byte))) : Harness (list (list byte)) :=
  (Harness_Post no_text no_print key clock_example clock_example d h).2.

Definition drain_example (sched : list tick) (h : Harness (list (list byte))) : Harness (list (list byte)) :=
  (DrainFully no_text 9 no_clock sched h).2.

(** The commit's answer is lost, then the next attempt's first statement fails. *)
Definition faults_example : list tick := map (mkTick (fun db => db)) [Run; Run; Run; Run; Run; Lost; Fails].

(** Two posts, a drain through faults, a rewind to the start, a record delivered
    twice, and the period. *)
Definition run_example : Harness (list (list byte)) :=
  let h := post_example "key-2" Delivered (post_example "key-1" Delivered harness_example) in
  let h := RewindConsumer 0 [] (drain_example faults_example h) in
  let h := drain_example [] (AppendDuplicate 0 h) in
  (Harness_EnsurePeriod clock_example [] h).2.

Lemma post_step key h n : bool_decide (str_all key_char key = true /\ (String.length key <= maxFieldLen)%nat) = true ->
  Z.of_nat (length (h_Log h)) = n -> n < max_int64 -> bool_decide (key ∈ h_accepted (post_example key Delivered h)) = true ->
  hstep no_text no_print h (post_example key Delivered h).
Proof.
  intros Hk Hn Hmax Ha. eapply (h_post no_text no_print key clock_example clock_example Delivered _ n h (post_example key Delivered h)).
  - by apply bool_decide_eq_true in Hk.
  - cbn. by rewrite Hn.
  - done.
  - apply surjective_pairing.
  - left. by apply bool_decide_eq_true in Ha.
Qed.

Lemma faults_quiet : Forall (quiet_for same_rows) faults_example.
Proof. repeat constructor; cbn; try reflexivity; lia. Qed.

Lemma run_reachable : chaos_reachable no_text no_print run_example.
Proof.
  exists [], harness_example. split; [reflexivity|]. split; [vm_compute; reflexivity|]. unfold run_example. cbv zeta.
  eapply rtc_l; [apply (post_step "key-1" _ 0); vm_compute; reflexivity|].
  eapply rtc_l; [apply (post_step "key-2" _ 1); vm_compute; reflexivity|].
  eapply rtc_l; [refine (h_drain_fully no_text no_print 9 no_clock faults_example _ _ _ faults_quiet (surjective_pairing _))|].
  eapply rtc_l; [refine (h_rewind no_text no_print 0 [] _ ltac:(lia) (Forall_nil_2 _))|].
  eapply rtc_l; [refine (h_duplicate no_text no_print 0 2 _ ltac:(lia) _ _); vm_compute; reflexivity|].
  eapply rtc_l; [refine (h_drain_fully no_text no_print 9 no_clock [] _ _ _ (Forall_nil_2 _) (surjective_pairing _))|].
  apply rtc_once. refine (h_period no_text no_print clock_example [] _ _ _ (Forall_nil_2 _) (surjective_pairing _)).
Qed.

Lemma CheckAll_passes_witness :
  length (rows (events (h_DB run_example))) = 2%nat /\
  (CheckAll no_db_text no_store_text no_consumer_text no_print run_example (mkServer (h_DB run_example) [])).1 = [].
Proof.
  split; [vm_compute; reflexivity|].
  exact (proj1 (CheckAll_passes no_text no_db_text no_store_text no_consumer_text no_print run_example run_reachable)).
Defined.

(** The period is closed, with a commit whose answer is lost. *)
Definition closed_example : option Invoice * Harness (list (list byte)) :=
  CloseWithRetries clock_example 1 lost_commit run_example.

Lemma lost_commit_quiet : Forall (quiet_for same_rows) lost_commit.
Proof. repeat constructor; cbn; try reflexivity; lia. Qed.

Lemma invoices_never_change_witness :
  exists before, SnapshotInvoices (mkServer (h_DB closed_example.2) []) = (Ok before, mkServer (h_DB closed_example.2) []) /\
    before !! 1 = Some 20000 /\
    (CheckInvoicesUnchanged no_db_text before (mkServer (h_DB (drain_example [] (post_example "key-3" Delivered closed_example.2))) [])).1 = None.
Proof.
  eexists. split; [vm_compute; reflexivity|]. split; [vm_compute; reflexivity|].
  eapply (invoices_never_change no_text no_db_text no_print closed_example.2); [|vm_compute; reflexivity|].
  - destruct run_reachable as (log0 & h0 & H1 & H2 & H3). exists log0, h0. split; [exact H1|]. split; [exact H2|]. eapply rtc_r; [exact H3|].
    refine (h_close no_text no_print clock_example 1 lost_commit _ _ _ lost_commit_quiet (surjective_pairing _)).
  - eapply rtc_l; [apply (post_step "key-3" _ 3); vm_compute; reflexivity|]. apply rtc_once.
    refine (h_drain_fully no_text no_print 9 no_clock [] _ _ _ (Forall_nil_2 _) (surjective_pairing _)).
Defined.

Lemma invoice_to_the_cent_witness : exists inv, closed_example.1 = Some inv /\ ExpectedTotal run_example = Some (in_Total inv) /\ in_Total inv = 20000.
Proof.
  eexists. split; [vm_compute; reflexivity|]. split; [|reflexivity].
  eapply (invoice_to_the_cent no_text no_print run_example _ clock_example 1 lost_commit); [exact run_reachable|vm_compute; reflexivity..|exact lost_commit_quiet|].
  vm_compute. reflexivity.
Defined.

Lemma DrainFully_catches_up_witness :
  exists h' rs, DrainFully no_text 9 no_clock faults_example (post_example "key-1" Delivered harness_example) = (true, h') /\
    (CaughtUp h' (mkServer (h_DB h') [])).1 = Ok true /\ h_Log h' = rs /\ length rs = 1%nat.
Proof.
  destruct (DrainFully_catches_up no_text no_print (post_example "key-1" Delivered harness_example) 9 no_clock faults_example 1)
    as (h' & rs & H1 & H2 & H3 & _).
  - exists [], harness_example. split; [reflexivity|]. split; [vm_compute; reflexivity|].
    apply rtc_once. apply (post_step "key-1" _ 0); vm_compute; reflexivity.
  - vm_compute. reflexivity.
  - reflexivity.
  - intros rs _ log k -> Hk. cbn. rewrite (proj2 (Z.ltb_ge _ _)), Nat2Z.id by lia. by destruct (lookup_lt_is_Some_2 rs k Hk) as [r ->].
  - exact faults_quiet.
  - cbn. lia.
  - exists h', rs. split; [exact H1|]. split; [exact H2|]. split; [exact H3|]. rewrite <- H3.
    change h' with (true, h').2. rewrite <- H1. vm_compute. reflexivity.
Defined.

(** A lost answer is taken for double billing. The server stores an event whose
    answer never reaches the client; the key is not counted as acknowledged, and
    once the event is consumed [CheckNoDoubleBilling] reports a violation, although
    the key has exactly one row. *)
Theorem lost_reply_looks_double_billed :
  let h := drain_example [] (post_example "key-1" ReplyLost harness_example) in
  map er_idempotency_key (rows (events (h_DB h))) = ["key-1"%string] /\
  (CheckAll no_db_text no_store_text no_consumer_text no_print h (mkServer (h_DB h) [])).1 =
    [mkViolation "I2" "1 event rows for 0 accepted keys"].
Proof. cbv zeta. split; vm_compute; reflexivity. Qed.

End Examples.
